(* ===== verification/_CoqProject ===== *)
-Q . S2P
Prelude.v
Text.v
StdMap.v
ControlProtocol.v
Posix.v
PendingTable.v
ControlChannel.v
ControlChannelSafety.v
ControlChannelThreads.v
FrameChannel.v
HidKeyboard.v
InputProtocol.v
InputSender.v
InputReceiver.v
DisplayAgent.v
ControlReceiver.v
ControlReceiverSafety.v
MultiDisplay.v
MultiDisplaySafety.v
EmulatorDisplays.v
UnixListener.v
GuestInput.v
GuestControl.v
GuestControlLines.v
GuestControlSafety.v
GuestControlWire.v
ShellOptions.v
QemuLauncher.v
MachineManager.v
SystemImage.v
MultiDisplayConfig.v
ImageManifest.v
ImageObjects.v
ImageImport.v
ImageCancel.v
AppDisplays.v
AppDisplaysSafety.v
DisplaySystem.v
DisplayOutcomes.v
AppDisplaysReuse.v
FramePresentation.v
Supervisor.v
InputView.v
GuestRamdisk.v
GuestBoot.v
GuestDevices.v
DisplayExport.v
Viewport.v
PointMapping.v
