(* ===== verification/Prelude.v ===== *)
(** * MacMu: a verification development

    MacMu runs an Android image in a headless emulator process and shows it in a
    native macOS shell. The repository's own code is the shell (src/shell), the
    receivers that MacMu adds to the emulator (src/external/qemu/android-qemu2-glue,
    the macmu- files), what it adds to the emulator's start-up (main.cpp, dtb.cpp and
    qemu-setup.cpp of the same directory) and to its renderer (opengles.cpp), and the
    emulator's multi-display table
    (src/external/qemu/android/android-emu/android/emulation/MultiDisplay.cpp). The
    rest of src/external is vendored; of it only what these parts call is modelled.

    ** The parts and how they interact

    The shell resolves its options, creates or imports the machine's files and
    starts the emulator with three inherited descriptors: the doorbell of the
    frame channel, the pointer-input socket and the control socket. Over the
    control socket the two processes exchange MMCP frames: the shell's
    ControlChannel keeps a table of pending requests; the emulator's receiver
    answers from its reader thread or from the main looper, and changes the
    display table through the multi-display agent. Frames come back through shared
    memory, one seqlock slot per display. A guest agent inside Android connects to
    two Unix sockets of the shell: one for input lines, one for requests and APK
    transfers. The application delegate of the shell ties them together on its main
    queue: it supervises the emulator process, gives every Android application a
    display and a window, redraws windows when frames arrive, and imports system
    images; the view of a window turns AppKit events into input. Through the environment
    the shell tells the emulator which ramdisk, overlay and agent image to boot with; the
    emulator builds the initrd, the disks and the device tree of the guest from them.

    ** Files

    - Prelude: integers at their width (u8 ... u64, i32), bytes and
      little-endian fields, tactics and hint databases. Text: decimal formatting,
      strtoull and splitting. StdMap: std::map as a sorted association list.
      Posix: read and send loops over the kernel's answers (posix_util.h).
    - ControlProtocol, InputProtocol: the packed structs of
      shell/protocol/macmu_control_protocol.h and macmu_input_protocol.h. The class
      [Wire] (size, encode, decode and their round trip) is the interface between
      the two ends.
    - PendingTable: shell/core/pending_request_table.h, used by ControlChannel and
      GuestControl.
    - ControlChannel, ControlChannelSafety, ControlChannelThreads:
      shell/core/control_channel.cpp as methods on a state record, its callback
      accounting, and its caller threads against its reader thread as a step
      relation.
    - FrameChannel: shell/core/frame_consumer.cpp. HidKeyboard:
      shell/core/hid_keyboard.cpp. InputSender: shell/core/input_sender.cpp.
      InputReceiver: android-qemu2-glue/macmu-input-receiver.cpp.
    - DisplayAgent: the class [MultiDisplayAgent], what the control receiver relies
      on. ControlReceiver, ControlReceiverSafety: macmu-control-receiver.cpp, proved
      against that class. MultiDisplay, MultiDisplaySafety: MultiDisplay.cpp, whose
      instance discharges it. EmulatorDisplays: the two composed, on concrete runs.
    - UnixListener: shell/core/unix_listener.h. GuestInput:
      shell/core/guest_input_sender.cpp. GuestControl, GuestControlLines,
      GuestControlSafety, GuestControlWire: shell/core/guest_control_client.cpp.
    - ShellOptions: shell/core/shell_options.cpp. QemuLauncher:
      shell/core/qemu_launcher.cpp. MachineManager, SystemImage:
      shell/core/machine_manager.cpp.
    - MultiDisplayConfig: loading, saving and restoring the display table of
      MultiDisplay.cpp.
    - ImageManifest, ImageObjects, ImageImport, ImageCancel:
      shell/core/image_importer.mm: the manifest on JSON values, the object cache with
      its workers, the reconstruction of the files and the entry point, and the
      cancellation of running tasks.
    - AppDisplays: the tables of shell/ui/macmu_shell.mm that bind applications,
      displays and windows, and every handler of the main queue that changes them.
      AppDisplaysSafety: their invariant. DisplaySystem: these handlers composed with
      the requests, answers and events between the shell and the emulator.
      AppDisplaysReuse: the reuse of display ids in that system. DisplayOutcomes: what
      that system says of the emulator follows from ControlReceiver and MultiDisplay.
    - FramePresentation: doorbellLoop and enqueueFramePresentationForDisplay of
      macmu_shell.mm. Supervisor: qemuMonitorLoop, the flags of an import and the end
      of MacMu, of the same file. InputView: shell/ui/macmu_input_view.mm.
      Viewport: shell/protocol/viewport.cpp, in double precision. PointMapping:
      mapViewPoint of shell/ui/macmu_surface_renderer.mm, on the doubles of Viewport.
    - GuestRamdisk: the initrd and the boot properties, of android-qemu2-glue/main.cpp
      and android/bootconfig.cpp. GuestBoot: its composition with QemuLauncher.
      GuestDevices: the disks on the command line of the emulator, the addresses the
      virt board of QEMU (hw/arm/virt.c) gives them, and the two device trees that name them (main.cpp, dtb.cpp,
      qemu-setup.cpp, android/avd/info.c). DisplayExport: the export subscriptions of
      android/opengles.cpp.

    A class of the source is a Module with its fields as the record [t], its
    initial values as [init] and one definition per method. What a method does to
    the outside world (descriptors closed, bytes sent, callbacks run) is a list of
    outputs it returns. System calls answer from an environment that is an argument,
    so a theorem for every environment covers every failure, short read and
    interruption. Sections that hold a mutex, and single accesses to atomics, are
    the atomic steps of the interleaving models.

    ** What the theorems show

    - Requests. [requests_answered_once]: the emulator answers every request exactly
      once, whatever the order of reader thread and main looper.
      [callbacks_exactly_once], [reader_thread_exactly_once], [stop_releases],
      [dead_channel_drains], [sweep_timeouts_exact], [guest_callbacks_exactly_once]:
      on the shell's side no callback is lost or run twice, timeouts, failed writes,
      corrupt frames ([bad_frame_closes]) and stop included; once the reader has ended
      the callers finish by their own steps, of which there are boundedly many.
      [request_outcomes] and
      [dispatch_demux] give the branches.
    - Streams. [reader_loop_refines_dispatch], [serve_chunks_lines]: the readers are
      independent of how the stream is cut into reads. [guest_wire_contiguous],
      [guest_stream_whole_lines]: what is written is whole messages.
      [guest_lines_roundtrip], [response_roundtrip], [display_list_complete]: what
      is written can be read back.
    - Frames. [read_never_torn], [scan_fair], [wait_for_any_frame_sound] (the answer is
      that of a scan after the wait was over), [create_all_or_nothing].
    - Input. [input_generations_isolated], [input_end_to_end] (coordinates, and the
      offsets of the mouse from packet to packet), [send_packet_outcomes], [mouse_motion_telescopes], [receiver_start_stop],
      [hid_keyboard_refines] (the keyboard object refines the set of held keys).
    - Displays. [performRotation_layout], [translate_hits_display],
      [setMultiDisplay_outcomes], [display_add_outcomes], [display_remove_order],
      [stream_cadence] (exports are paced from the request that enables a display on),
      [lease_and_stop], [startup_config] (the command line reads
      back and any configuration keeps the table well formed), [snapshot_roundtrip].
    - Start-up. [parse_options_layers], [launch_child_fds] (the emulator inherits
      exactly its channels and stdio, and the shell's own descriptors are as before),
      [make_environment_overrides], [metadata_disk_layout],
      [create_default_machine_ready] (only the files of the machine are changed),
      [replace_system_image_outcomes].
    - Import. [parse_manifest_ok]: an accepted manifest is well formed.
      [acquire_objects]: the download workers end; they report an error that occurred,
      or none did and every object has its size and digest. [import_reconstructs]: a successful import has reconstructed
      every file of the manifest. [cancel_reaches_tasks].
    - Applications. [applications_one_display]: an application has at most one display
      and a display one application, through every sequence of handlers.
      [display_ids_reused_safely]: with the messages between the two processes in any
      order, an id is reused only when nothing of its earlier use is on the way and the
      emulator has no display of it but one that a request failed with EPIPE left.
      [emulator_adds], [emulator_removes]: these are the outcomes of the receiver's
      handlers over the display table.
      [last_frame_presented]: coalesced redraws do not lose the last frame.
    - The emulator process. [one_emulator]: at most one exists, and none is left after
      the shutdown. [quit_ends]: the shutdown ends.
    - The view. [gestures_pinned]: a touch stays on one transport and display.
      [keyboard_follows]: the reports refine the set of held keys; what the agent has is
      that set unless the last report was lost.
      [viewport_inside]: the viewport is finite, centred and in the drawable, with every
      rounding.
      [point_in_source]: a point of the view maps to a pixel of the source.
    - The boot of the guest. [vendor_boot_extracted], [initrd_contents]: the initrd is
      what was asked for, byte for byte, whatever calls fail. [options_reach_guest]: it
      is what the options of the shell ask for. [guest_disk_paths], [fstab_in_guest]:
      where the disks are, and exactly when the device paths the emulator names agree. [renderer_follows_subscriptions]: the renderer is told the subscriptions.

    Examples next to the theorems are concrete runs on which the code does not do what
    it means to, each with a comment that says what happens.

    ** Bounds and fuel

    Loops over system calls recurse on the list of the kernel's answers, loops over
    buffers on the buffer; they need no fuel. The seqlock read makes the source's
    fixed number of attempts. Symbolic links are followed 32 times, the system's
    own limit (ELOOP). The loops that copy files have one unit of fuel more than the file
    has bytes, which the theorems show to be enough. [wait_for_any_frame] recurses on the
    answers of poll and its termination is part of its theorem. Integers that can overflow are kept at their
    width; the layout theorem carries the bounds under which the sums of the source
    do not wrap, as hypotheses on the sizes.

    ** Not modelled

    - The windows, menus, sheets and the application grid of macmu_shell.mm (AppKit) and
      the renderer (Metal): their work is done by system frameworks. What the other
      handlers send them is an output.
    - The JSON parser, URLs and NSTask of Foundation, the digests of CommonCrypto and
      the programs curl, unzip and ditto: parameters of the import.
    - libdtb, which writes a device tree to a file, and the renderer of gfxstream: a
      parameter, and a record of the calls.
    - host-common/MultiDisplay.h and StreamSerializing.h are not in the repository:
      the constants, defaults and constructors of the former ([limits],
      [constructors]) and the framing of collections by the latter ([serializer])
      are parameters, with what the code relies on as classes.
    - Log messages, and the frame producer inside the emulator, whose code is not
      part of MacMu: the shared memory it writes is an arbitrary history.

    ** Plan

    The saved display settings of macmu_shell.mm. *)
From stdpp Require Export prelude gmap strings list sorting.
From coqutil Require Export Byte Word.LittleEndianList.
From Stdlib Require Export ZArith Lia.

#[global] Open Scope Z_scope.

(** ** Notations, tactics and hint databases of the development *)

Declare Scope macmu_scope.
Delimit Scope macmu_scope with macmu.

Create HintDb macmu.
Create Rewrite HintDb macmu.
Create Rewrite HintDb wire.

(** Case analysis on the [if]s and [match]es of a goal or hypothesis, turning
    boolean comparisons into their propositions on the way. *)
Ltac bool_to_prop :=
  repeat match goal with
  | H : (_ && _)%bool = true |- _ => apply andb_true_iff in H as [? ?]
  | H : (_ || _)%bool = false |- _ => apply orb_false_iff in H as [? ?]
  | H : negb _ = true |- _ => apply negb_true_iff in H
  | H : negb _ = false |- _ => apply negb_false_iff in H
  | H : (_ =? _) = true |- _ => apply Z.eqb_eq in H
  | H : (_ =? _) = false |- _ => apply Z.eqb_neq in H
  | H : (_ <? _) = true |- _ => apply Z.ltb_lt in H
  | H : (_ <? _) = false |- _ => apply Z.ltb_ge in H
  | H : (_ <=? _) = true |- _ => apply Z.leb_le in H
  | H : (_ <=? _) = false |- _ => apply Z.leb_gt in H
  end.

Ltac split_ifs := repeat (case_match; bool_to_prop; simplify_eq/=; try done).

(** ** Machine integers *)

Definition u8 (z : Z) : Z := z mod 2 ^ 8.
Definition u16 (z : Z) : Z := z mod 2 ^ 16.
Definition u32 (z : Z) : Z := z mod 2 ^ 32.
Definition u64 (z : Z) : Z := z mod 2 ^ 64.

(** Two's-complement reading of a 32-bit word (the conversion C++ performs from
    [uint32_t] to [int32_t]). *)
Definition s32 (z : Z) : Z := (z + 2 ^ 31) mod 2 ^ 32 - 2 ^ 31.

Definition is_u16 (z : Z) : Prop := 0 <= z < 2 ^ 16.
Definition is_u32 (z : Z) : Prop := 0 <= z < 2 ^ 32.
Definition is_u64 (z : Z) : Prop := 0 <= z < 2 ^ 64.
Definition is_s32 (z : Z) : Prop := - 2 ^ 31 <= z < 2 ^ 31.

Lemma u16_id z : is_u16 z -> u16 z = z.
Proof. apply Z.mod_small. Qed.

Lemma u32_id z : is_u32 z -> u32 z = z.
Proof. apply Z.mod_small. Qed.

Lemma u32_range z : is_u32 (u32 z).
Proof. apply Z.mod_pos_bound. lia. Qed.

Lemma u64_id z : is_u64 z -> u64 z = z.
Proof. apply Z.mod_small. Qed.

Lemma u64_range z : is_u64 (u64 z).
Proof. apply Z.mod_pos_bound. lia. Qed.

Lemma s32_range z : is_s32 (s32 z).
Proof.
  unfold is_s32, s32.
  pose proof (Z.mod_pos_bound (z + 2 ^ 31) (2 ^ 32) ltac:(lia)). lia.
Qed.

Lemma s32_id z : is_s32 z -> s32 z = z.
Proof. unfold is_s32, s32. intros Hz. rewrite Z.mod_small; lia. Qed.

(** Storing a signed word and reading it back. *)
Lemma s32_u32 z : is_s32 z -> s32 (u32 z) = z.
Proof.
  unfold is_s32, s32, u32. intros Hz.
  rewrite Zplus_mod_idemp_l, Z.mod_small; lia.
Qed.

#[export] Hint Resolve u32_range u64_range s32_range : macmu.
#[export] Hint Rewrite s32_u32 u16_id u32_id u64_id using done : wire.

(** ** Bytes, byte strings and little-endian fields *)

#[export] Instance byte_eq_dec : EqDecision Init.Byte.byte := Byte.byte_eq_dec.
#[global] Arguments byte.of_Z : simpl never.

Abbreviation bytes := (list Init.Byte.byte).

(** The bytes of a C++ string literal. *)
Definition bstr (s : string) : bytes := String.list_byte_of_string s.

Definition put16 (z : Z) : bytes := le_split 2 z.
Definition put32 (z : Z) : bytes := le_split 4 z.
Definition put64 (z : Z) : bytes := le_split 8 z.

(** [field off n bs]: the little-endian integer in the [n] bytes at offset
    [off], which is what a [memcpy] into a packed struct reads; bytes past the
    end of [bs] read as the zeros the destination struct was initialised with. *)
Definition field (off n : nat) (bs : bytes) : Z := le_combine (take n (drop off bs)).

#[global] Arguments put16 : simpl never.
#[global] Arguments put32 : simpl never.
#[global] Arguments put64 : simpl never.
#[global] Arguments field : simpl never.

Lemma length_put16 z : length (put16 z) = 2%nat.
Proof. apply length_le_split. Qed.
Lemma length_put32 z : length (put32 z) = 4%nat.
Proof. apply length_le_split. Qed.
Lemma length_put64 z : length (put64 z) = 8%nat.
Proof. apply length_le_split. Qed.

#[export] Hint Rewrite length_put16 length_put32 length_put64 @length_app : wire.

Lemma field_range off n bs : 0 <= field off n bs < 2 ^ (8 * Z.of_nat n).
Proof.
  unfold field. rewrite le_combine_firstn. apply Z.mod_pos_bound.
  apply Z.pow_pos_nonneg; lia.
Qed.

(** Reading a field skips what precedes it ... *)
Lemma field_skip (off n : nat) (pre bs : bytes) :
  (length pre <= off)%nat ->
  field off n (pre ++ bs) = field (off - length pre) n bs.
Proof. intros H. unfold field. by rewrite drop_app_ge. Qed.

(** ... and a field at the front is the value that was stored there. *)
Lemma field_head (n : nat) z bs :
  field 0 n (le_split n z ++ bs) = z mod 2 ^ (Z.of_nat n * 8).
Proof.
  unfold field. rewrite drop_0, take_app_le by (rewrite length_le_split; lia).
  rewrite take_ge by (rewrite length_le_split; lia). apply le_combine_split.
Qed.

Lemma field_head_nil (n : nat) z :
  field 0 n (le_split n z) = z mod 2 ^ (Z.of_nat n * 8).
Proof. rewrite <- (app_nil_r (le_split n z)). apply field_head. Qed.

Lemma field_put16 z bs : field 0 2 (put16 z ++ bs) = u16 z.
Proof. apply field_head. Qed.
Lemma field_put32 z bs : field 0 4 (put32 z ++ bs) = u32 z.
Proof. apply field_head. Qed.
Lemma field_put64 z bs : field 0 8 (put64 z ++ bs) = u64 z.
Proof. apply field_head. Qed.
Lemma field_put32_nil z : field 0 4 (put32 z) = u32 z.
Proof. apply field_head_nil. Qed.
Lemma field_put64_nil z : field 0 8 (put64 z) = u64 z.
Proof. apply field_head_nil. Qed.

(** A field that lies inside a prefix does not see what follows it. *)
Lemma field_take (k off n : nat) bs :
  (off + n <= k)%nat -> field off n (take k bs) = field off n bs.
Proof.
  intros H. unfold field. rewrite skipn_firstn_comm, take_take.
  by rewrite Nat.min_l by lia.
Qed.

(** Normalises [field] reads of a concatenation of [put]s. *)
Ltac read_fields :=
  repeat first
    [ rewrite field_put16 | rewrite field_put32 | rewrite field_put64
    | rewrite field_put32_nil | rewrite field_put64_nil
    | rewrite field_skip by (autorewrite with wire; simpl; lia);
      autorewrite with wire; cbn [Nat.sub] ].
