(* ===== verification/Text.v ===== *)
(** Text on the wire: decimal formatting ([std::to_string], [%u], [%llu],
    [%d]), the C library's [strtoull], and splitting at a separator, over byte
    strings. The line protocols of the guest agent and the option parser are
    built from these. *)
From S2P Require Import Prelude.

(** Byte strings are keys of finite maps. *)
#[export] Instance byte_countable : Countable Init.Byte.byte :=
  inj_countable' byte.unsigned byte.of_Z byte.of_Z_unsigned.

Definition NL : Init.Byte.byte := Byte.x0a.
Definition CR : Init.Byte.byte := Byte.x0d.
Definition SP : Init.Byte.byte := Byte.x20.
Definition MINUS : Init.Byte.byte := Byte.x2d.
Definition PLUS : Init.Byte.byte := Byte.x2b.

(** ** Decimal digits *)

Definition digit_of (d : Z) : Init.Byte.byte := byte.of_Z (48 + d).

(** The value of an ASCII digit, [None] for any other byte. *)
Definition digit_val (b : Init.Byte.byte) : option Z :=
  let v := byte.unsigned b - 48 in
  if (0 <=? v) && (v <=? 9) then Some v else None.

Lemma digit_val_of d : 0 <= d <= 9 -> digit_val (digit_of d) = Some d.
Proof.
  intros Hd. unfold digit_val, digit_of. rewrite byte.unsigned_of_Z.
  unfold byte.wrap. rewrite Z.mod_small by lia.
  replace (48 + d - 48) with d by lia.
  by rewrite (proj2 (Z.leb_le 0 d)), (proj2 (Z.leb_le d 9)) by lia.
Qed.

Fixpoint dec_aux (fuel : nat) (n : Z) (acc : bytes) : bytes :=
  match fuel with
  | O => acc
  | S f =>
      let acc' := digit_of (n mod 10) :: acc in
      if n <? 10 then acc' else dec_aux f (n / 10) acc'
  end.

(** [std::to_string] of an unsigned 64-bit value; 20 digits are enough for
    every value below [2 ^ 64]. *)
Definition dec (n : Z) : bytes := dec_aux 20 n [].

(** [%d]: a signed value. *)
Definition dec_signed (z : Z) : bytes :=
  if z <? 0 then MINUS :: dec (- z) else dec z.

(** ** Reading digits: the loop of [strtoull] in base 10 *)

Fixpoint digits_value (acc : Z) (bs : bytes) : Z * bytes :=
  match bs with
  | [] => (acc, [])
  | b :: bs' =>
      match digit_val b with
      | Some d => digits_value (acc * 10 + d) bs'
      | None => (acc, bs)
      end
  end.

Definition starts_with_digit (bs : bytes) : bool :=
  match bs with
  | b :: _ => match digit_val b with Some _ => true | None => false end
  | [] => false
  end.

Lemma dec_aux_value f n acc rest :
  0 <= n < 10 ^ Z.of_nat f -> (f <> 0)%nat ->
  starts_with_digit rest = false ->
  exists k, dec_aux f n acc = k ++ acc /\
    forall a, digits_value a (dec_aux f n acc ++ rest) =
      digits_value (a * 10 ^ Z.of_nat (length k) + n) (acc ++ rest).
Proof.
  revert n acc. induction f as [|f IH]; intros n acc Hn Hf Hr; [done|].
  simpl dec_aux. destruct (Z.ltb_spec n 10) as [Hlt|Hge].
  - exists [digit_of (n mod 10)]. split; [done|]. intros a. simpl.
    rewrite Z.mod_small by lia. rewrite digit_val_of by lia. f_equal.
  - destruct f as [|f].
    { change (10 ^ Z.of_nat 1) with 10 in Hn. lia. }
    destruct (IH (n / 10) (digit_of (n mod 10) :: acc)) as (k & Hk & Hv); [|done..|].
    { rewrite Nat2Z.inj_succ, Z.pow_succ_r in Hn by lia.
      split; [apply Z.div_pos; lia|]. apply Z.div_lt_upper_bound; lia. }
    exists (k ++ [digit_of (n mod 10)]). split.
    { by rewrite Hk, <- app_assoc. }
    intros a. rewrite Hv. simpl.
    rewrite digit_val_of by (pose proof (Z.mod_pos_bound n 10); lia).
    f_equal. rewrite length_app, Nat2Z.inj_add, Z.pow_add_r by lia.
    change (10 ^ Z.of_nat (length [digit_of (n mod 10)])) with 10.
    pose proof (Z.div_mod n 10). lia.
Qed.

(** Printing then reading a 64-bit value gives it back, with the text after the
    number left over. *)
Lemma dec_value n rest :
  0 <= n < 10 ^ 20 -> starts_with_digit rest = false ->
  digits_value 0 (dec n ++ rest) = (n, rest).
Proof.
  intros Hn Hr.
  destruct (dec_aux_value 20 n [] rest) as (k & _ & Hv); [done..|].
  unfold dec. rewrite Hv. simpl (0 * _ + n). rewrite app_nil_l.
  rewrite Z.mul_0_l, Z.add_0_l. destruct rest as [|b rest]; [done|].
  simpl in Hr |- *. by destruct (digit_val b).
Qed.

Lemma dec_aux_length f n acc k :
  0 <= n < 10 ^ Z.of_nat k -> (k <> 0)%nat ->
  (length (dec_aux f n acc) <= k + length acc)%nat.
Proof.
  revert n acc k. induction f as [|f IH]; intros n acc k Hn Hk; simpl; [lia|].
  destruct (Z.ltb_spec n 10) as [Hlt|Hge]; simpl; [lia|].
  destruct k as [|[|k]]; [done| |].
  { change (10 ^ Z.of_nat 1) with 10 in Hn. lia. }
  etrans; [apply (IH _ _ (S k))|simpl; lia]; [|done].
  rewrite Nat2Z.inj_succ, Z.pow_succ_r in Hn by lia.
  split; [apply Z.div_pos; lia|]. apply Z.div_lt_upper_bound; lia.
Qed.

Lemma dec_length n (k : nat) :
  0 <= n < 10 ^ Z.of_nat k -> (k <> 0)%nat -> (length (dec n) <= k)%nat.
Proof. intros. etrans; [by apply (dec_aux_length 20 n [] k)|simpl; lia]. Qed.

Lemma dec_u32_length n : is_u32 n -> (length (dec n) <= 10)%nat.
Proof. intros [? ?]. apply dec_length; [|done]. split; [done|]. by etrans. Qed.

Lemma dec_signed_length z : is_s32 z -> (length (dec_signed z) <= 11)%nat.
Proof.
  intros [? ?]. unfold dec_signed. destruct (Z.ltb_spec z 0); simpl.
  - apply le_n_S, dec_length; [|done]. split; [lia|]. change (10 ^ Z.of_nat 10) with 10000000000. lia.
  - etrans; [apply (dec_length z 10)|]; [|done|lia].
    split; [lia|]. change (10 ^ Z.of_nat 10) with 10000000000. lia.
Qed.

Lemma dec_cons n : 0 <= n < 10 ^ 20 ->
  exists d ds, 0 <= d <= 9 /\ dec n = digit_of d :: ds.
Proof.
  intros Hn. unfold dec.
  assert (forall f m acc, (acc = [] -> f <> 0%nat) ->
    (exists d ds, 0 <= d <= 9 /\ acc = digit_of d :: ds) \/ acc = [] ->
    exists d ds, 0 <= d <= 9 /\ dec_aux f m acc = digit_of d :: ds) as Haux.
  { induction f as [|f IH]; intros m acc Hf Hacc; simpl.
    - destruct Hacc as [?| ->]; [done|]. by destruct Hf.
    - assert (exists d ds, 0 <= d <= 9 /\ digit_of (m mod 10) :: acc = digit_of d :: ds).
      { eexists _, _. split; [|done]. pose proof (Z.mod_pos_bound m 10). lia. }
      destruct (m <? 10); [done|]. apply IH; [done|by left]. }
  apply Haux; [done|by right].
Qed.

(** ** [strtoull(s, &end, 10)] *)

Definition isspace (b : Init.Byte.byte) : bool :=
  let v := byte.unsigned b in (v =? 32) || ((9 <=? v) && (v <=? 13)).

Fixpoint skip_spaces (bs : bytes) : bytes :=
  match bs with
  | b :: bs' => if isspace b then skip_spaces bs' else bs
  | [] => []
  end.

Definition skip_sign (bs : bytes) : bool * bytes :=
  match bs with
  | b :: bs' =>
      if decide (b = MINUS) then (true, bs')
      else if decide (b = PLUS) then (false, bs')
      else (false, bs)
  | [] => (false, [])
  end.

Record strtoull_result := {
  st_value : Z;        (* the value returned *)
  st_end : bytes;      (* the text at [*end] *)
  st_errno : bool;     (* [errno] was set (ERANGE) *)
}.

(** [None]: no conversion was performed and [end] equals the start. *)
Definition strtoull (bs : bytes) : option strtoull_result :=
  let '(neg, s) := skip_sign (skip_spaces bs) in
  if starts_with_digit s then
    let '(v, rest) := digits_value 0 s in
    if 2 ^ 64 <=? v then Some {| st_value := 2 ^ 64 - 1; st_end := rest; st_errno := true |}
    else Some {| st_value := if (neg : bool) then u64 (- v) else v;
                 st_end := rest; st_errno := false |}
  else None.

Lemma digit_not_sign d bs : 0 <= d <= 9 ->
  skip_sign (skip_spaces (digit_of d :: bs)) = (false, digit_of d :: bs).
Proof.
  intros Hd.
  assert (d = 0 \/ d = 1 \/ d = 2 \/ d = 3 \/ d = 4 \/ d = 5 \/ d = 6 \/ d = 7 \/
    d = 8 \/ d = 9) as Hc by lia.
  by repeat destruct Hc as [->|Hc]; try (vm_compute; reflexivity); subst.
Qed.

(** [strtoull] reads back what [std::to_string] printed. *)
Lemma strtoull_dec n rest :
  is_u64 n -> starts_with_digit rest = false ->
  strtoull (dec n ++ rest) = Some {| st_value := n; st_end := rest; st_errno := false |}.
Proof.
  intros [H0 H1] Hr. assert (0 <= n < 10 ^ 20) as Hn by (split; [done|by etrans]).
  destruct (dec_cons n Hn) as (d & ds & Hd & E).
  unfold strtoull. rewrite E. simpl app. rewrite digit_not_sign by done.
  simpl starts_with_digit. rewrite digit_val_of by done.
  change (digit_of d :: ds ++ rest) with ((digit_of d :: ds) ++ rest).
  rewrite <- E, dec_value by done.
  by rewrite (proj2 (Z.leb_gt _ _) H1).
Qed.

(** [strtol(s, &end, 10)] with a 64-bit [long]: the value and the text at [end];
    [None] when no conversion was performed. *)
Definition strtol (bs : bytes) : option (Z * bytes) :=
  let '(neg, s) := skip_sign (skip_spaces bs) in
  if starts_with_digit s then
    let '(v, rest) := digits_value 0 s in
    Some (if (neg : bool) then Z.max (- 2 ^ 63) (- v) else Z.min (2 ^ 63 - 1) v, rest)
  else None.

Lemma strtol_dec n rest :
  0 <= n < 2 ^ 63 -> starts_with_digit rest = false ->
  strtol (dec n ++ rest) = Some (n, rest).
Proof.
  intros [H0 H1] Hr. assert (0 <= n < 10 ^ 20) as Hn by (split; [done|by etrans]).
  destruct (dec_cons n Hn) as (d & ds & Hd & E).
  unfold strtol. rewrite E. simpl app. rewrite digit_not_sign by done.
  simpl starts_with_digit. rewrite digit_val_of by done.
  change (digit_of d :: ds ++ rest) with ((digit_of d :: ds) ++ rest).
  rewrite <- E, dec_value by done. simpl. by rewrite Z.min_r by lia.
Qed.

(** ** Splitting at a separator ([std::string::find] and [substr]) *)

Fixpoint split_at (sep : Init.Byte.byte) (bs : bytes) : option (bytes * bytes) :=
  match bs with
  | [] => None
  | b :: bs' =>
      if decide (b = sep) then Some ([], bs')
      else match split_at sep bs' with
           | Some (l, r) => Some (b :: l, r)
           | None => None
           end
  end.

Lemma split_at_Some sep bs l r :
  split_at sep bs = Some (l, r) -> bs = l ++ sep :: r /\ sep ∉ l.
Proof.
  revert l r. induction bs as [|b bs IH]; intros l r H; [done|]. simpl in H.
  case_decide as Hb; [by simplify_eq; split; [|apply not_elem_of_nil]|].
  destruct (split_at sep bs) as [[l' r']|]; [|done]. simplify_eq.
  destruct (IH _ _ eq_refl) as [-> Hn]. split; [done|].
  apply not_elem_of_cons. by split.
Qed.

Lemma split_at_None sep bs : split_at sep bs = None <-> sep ∉ bs.
Proof.
  induction bs as [|b bs IH]; simpl; [split; [intros _; apply not_elem_of_nil|done]|].
  rewrite not_elem_of_cons. case_decide as Hb; [naive_solver|].
  rewrite <- IH. destruct (split_at sep bs) as [[]|]; naive_solver.
Qed.

Lemma split_at_app sep l r : sep ∉ l -> split_at sep (l ++ sep :: r) = Some (l, r).
Proof.
  induction l as [|b l IH]; intros Hn; simpl; [by rewrite decide_True|].
  apply not_elem_of_cons in Hn as [Hb Hn]. rewrite decide_False by done.
  by rewrite IH.
Qed.

Lemma split_at_length sep bs l r :
  split_at sep bs = Some (l, r) -> (length r < length bs)%nat.
Proof.
  intros [-> _]%split_at_Some. rewrite length_app. simpl. lia.
Qed.

(** ** C strings: the bytes before the first NUL *)

Definition NUL : Init.Byte.byte := Byte.x00.

Definition c_str (bs : bytes) : bytes :=
  match split_at NUL bs with Some (l, _) => l | None => bs end.

Lemma c_str_id bs : NUL ∉ bs -> c_str bs = bs.
Proof. intros H%split_at_None. unfold c_str. by rewrite H. Qed.

Lemma digit_of_range d : 0 <= d <= 9 -> 48 <= byte.unsigned (digit_of d) <= 57.
Proof.
  intros Hd. unfold digit_of. rewrite byte.unsigned_of_Z. unfold byte.wrap.
  rewrite Z.mod_small by lia. lia.
Qed.

(** A printed number holds only digits. *)
Lemma dec_aux_digits f n acc :
  0 <= n -> Forall (λ b, 48 <= byte.unsigned b <= 57) acc ->
  Forall (λ b, 48 <= byte.unsigned b <= 57) (dec_aux f n acc).
Proof.
  revert n acc. induction f as [|f IH]; intros n acc Hn Hacc; simpl; [done|].
  assert (Forall (λ b, 48 <= byte.unsigned b <= 57) (digit_of (n mod 10) :: acc)).
  { constructor; [|done]. apply digit_of_range. pose proof (Z.mod_pos_bound n 10). lia. }
  case_match; [done|]. apply IH; [|done]. apply Z.div_pos; lia.
Qed.

Lemma dec_digits n : 0 <= n -> Forall (λ b, 48 <= byte.unsigned b <= 57) (dec n).
Proof. intros. by apply dec_aux_digits. Qed.

Lemma dec_not_in n b :
  0 <= n -> (byte.unsigned b < 48 \/ 57 < byte.unsigned b) -> b ∉ dec n.
Proof.
  intros Hn Hb Hin. pose proof (dec_digits n Hn) as HF.
  rewrite Forall_forall in HF. specialize (HF b Hin). lia.
Qed.
