(* ===== verification/StdMap.v ===== *)
(** [std::map] with integer keys: a finite map whose iteration order is the key
    order. The pending-request tables, the display table and the streaming
    table of the program are all instances. A map is the list of its entries in
    iteration order; [sorted] is the representation invariant. *)
From S2P Require Import Prelude.

Section stdmap.
Context {V : Type}.
Implicit Types (m : list (Z * V)) (k : Z) (v : V).

Definition keys m : list Z := map fst m.

(** The representation invariant: keys strictly increase along the iteration. *)
Definition sorted m : Prop := StronglySorted Z.lt (keys m).

(** [find(k)]: the mapped value, [None] for [end()]. *)
Fixpoint find k m : option V :=
  match m with
  | [] => None
  | (k', v) :: m' => if k =? k' then Some v else find k m'
  end.

(** [m[k] = v]. *)
Fixpoint assign k v m : list (Z * V) :=
  match m with
  | [] => [(k, v)]
  | (k', v') :: m' =>
      if k <? k' then (k, v) :: (k', v') :: m'
      else if k =? k' then (k, v) :: m'
      else (k', v') :: assign k v m'
  end.

(** [m.emplace(k, v)]: no effect when the key is present. *)
Definition emplace k v m : list (Z * V) :=
  match find k m with Some _ => m | None => assign k v m end.

(** [m.erase(k)]. *)
Fixpoint erase k m : list (Z * V) :=
  match m with
  | [] => []
  | (k', v') :: m' => if k =? k' then erase k m' else (k', v') :: erase k m'
  end.

(** [m.lower_bound(k)]: the first entry whose key is not below [k]. *)
Fixpoint lower_bound k m : option (Z * V) :=
  match m with
  | [] => None
  | (k', v') :: m' => if k <=? k' then Some (k', v') else lower_bound k m'
  end.

Lemma find_assign k k' v m : find k' (assign k v m) = if k' =? k then Some v else find k' m.
Proof.
  induction m as [|[k0 v0] m IH]; simpl; [done|].
  destruct (Z.ltb_spec k k0); simpl; [done|].
  destruct (Z.eqb_spec k k0); subst; simpl.
  { by destruct (k' =? k0). }
  rewrite IH. destruct (Z.eqb_spec k' k0), (Z.eqb_spec k' k); subst; done.
Qed.

Lemma find_assign_eq k v m : find k (assign k v m) = Some v.
Proof. by rewrite find_assign, Z.eqb_refl. Qed.

Lemma find_assign_ne k k' v m : k' <> k -> find k' (assign k v m) = find k' m.
Proof. intros H%Z.eqb_neq. by rewrite find_assign, H. Qed.

Lemma find_erase k k' m : find k' (erase k m) = if k' =? k then None else find k' m.
Proof.
  induction m as [|[k0 v0] m IH]; simpl; [by destruct (k' =? k)|].
  destruct (Z.eqb_spec k k0); subst; simpl; rewrite IH;
    destruct (Z.eqb_spec k' k0); subst; try done.
  by destruct (Z.eqb_spec k0 k); subst.
Qed.

Lemma find_erase_eq k m : find k (erase k m) = None.
Proof. by rewrite find_erase, Z.eqb_refl. Qed.

Lemma find_erase_ne k k' m : k' <> k -> find k' (erase k m) = find k' m.
Proof. intros H%Z.eqb_neq. by rewrite find_erase, H. Qed.

Lemma find_emplace k k' v m :
  find k' (emplace k v m) = match find k' m with
                            | Some v' => Some v'
                            | None => if k' =? k then Some v else None
                            end.
Proof.
  unfold emplace. destruct (find k m) eqn:E.
  - destruct (find k' m) eqn:E'; [done|].
    destruct (Z.eqb_spec k' k); subst; congruence.
  - rewrite find_assign. destruct (Z.eqb_spec k' k); subst.
    + by rewrite E.
    + by destruct (find k' m).
Qed.

Lemma find_elem_of k v m : find k m = Some v -> (k, v) ∈ m.
Proof.
  induction m as [|[k0 v0] m IH]; simpl; [done|].
  destruct (Z.eqb_spec k k0); intros; simplify_eq; [left|right; auto].
Qed.

Lemma find_None k m : find k m = None <-> k ∉ keys m.
Proof.
  induction m as [|[k0 v0] m IH]; simpl; [split; [intros _; apply not_elem_of_nil|done]|].
  rewrite not_elem_of_cons. destruct (Z.eqb_spec k k0); naive_solver.
Qed.

Lemma elem_of_keys k m : k ∈ keys m <-> is_Some (find k m).
Proof.
  rewrite <- not_eq_None_Some. pose proof (find_None k m).
  destruct (decide (k ∈ keys m)); naive_solver.
Qed.

Lemma elem_of_find k v m : sorted m -> (k, v) ∈ m -> find k m = Some v.
Proof.
  unfold sorted. induction m as [|[k0 v0] m IH]; simpl; intros Hs Hin; [by apply not_elem_of_nil in Hin|].
  apply StronglySorted_inv in Hs as [Hs Hall].
  apply elem_of_cons in Hin as [?|Hin]; simplify_eq; [by rewrite Z.eqb_refl|].
  rewrite Forall_forall in Hall. assert (k0 < k).
  { apply Hall. unfold keys. apply list_elem_of_fmap. by exists (k, v). }
  destruct (Z.eqb_spec k k0); [lia|auto].
Qed.

Lemma assign_keys_Forall (P : Z -> Prop) k v m :
  P k -> Forall P (keys m) -> Forall P (keys (assign k v m)).
Proof.
  intros Hk. induction m as [|[k0 v0] m IH]; simpl; intros H; [by repeat constructor|].
  inversion_clear H. destruct (k <? k0); [by repeat constructor|].
  destruct (k =? k0); constructor; auto.
Qed.

Lemma assign_sorted k v m : sorted m -> sorted (assign k v m).
Proof.
  unfold sorted. induction m as [|[k0 v0] m IH]; simpl; intros Hs; [by repeat constructor|].
  apply StronglySorted_inv in Hs as [Hs Hall].
  destruct (Z.ltb_spec k k0); simpl.
  - constructor; [by constructor|]. constructor; [done|].
    eapply Forall_impl; [exact Hall|]. simpl. lia.
  - destruct (Z.eqb_spec k k0); subst; simpl; [by constructor|].
    constructor; [auto|]. apply assign_keys_Forall; [lia|done].
Qed.

Lemma erase_keys_Forall (P : Z -> Prop) k m :
  Forall P (keys m) -> Forall P (keys (erase k m)).
Proof.
  induction m as [|[k0 v0] m IH]; simpl; intros H; [done|].
  inversion_clear H. destruct (k =? k0); [auto|]. constructor; auto.
Qed.

Lemma erase_sorted k m : sorted m -> sorted (erase k m).
Proof.
  unfold sorted. induction m as [|[k0 v0] m IH]; simpl; intros Hs; [done|].
  apply StronglySorted_inv in Hs as [Hs Hall].
  destruct (k =? k0); [auto|]. simpl. constructor; [auto|]. by apply erase_keys_Forall.
Qed.

Lemma emplace_sorted k v m : sorted m -> sorted (emplace k v m).
Proof. unfold emplace. case_match; auto using assign_sorted. Qed.

Lemma filter_sorted (f : Z * V -> bool) m : sorted m -> sorted (List.filter f m).
Proof.
  unfold sorted, keys. induction m as [|[k0 v0] m IH]; simpl; intros Hs; [done|].
  apply StronglySorted_inv in Hs as [Hs Hall].
  destruct (f (k0, v0)); [|auto]. simpl. constructor; [auto|].
  rewrite Forall_forall in *. intros x (y & -> & Hy)%list_elem_of_fmap.
  apply Hall. apply list_elem_of_fmap. exists y. split; [done|].
  apply list_elem_of_In, filter_In in Hy as [Hy _]. by apply list_elem_of_In.
Qed.

Lemma find_filter (f : Z * V -> bool) k m : sorted m ->
  find k (List.filter f m) =
    match find k m with Some v => if f (k, v) then Some v else None | None => None end.
Proof.
  unfold sorted. induction m as [|[k0 v0] m IH]; simpl; intros Hs; [done|].
  apply StronglySorted_inv in Hs as [Hs Hall]. specialize (IH Hs).
  destruct (Z.eqb_spec k k0); subst.
  - destruct (f (k0, v0)); simpl; [by rewrite Z.eqb_refl|]. rewrite IH.
    destruct (find k0 m) eqn:E; [|done]. exfalso.
    assert (k0 ∈ keys m) by (by apply elem_of_keys; eexists).
    rewrite Forall_forall in Hall. specialize (Hall k0). lia || (specialize (Hall H); lia).
  - destruct (f (k0, v0)); simpl; [|done]. by rewrite (proj2 (Z.eqb_neq _ _) n).
Qed.

Lemma erase_not_in k m : k ∉ keys m -> erase k m = m.
Proof.
  induction m as [|[k0 v0] m IH]; simpl; intros H; [done|].
  apply not_elem_of_cons in H as [Hk H]. destruct (Z.eqb_spec k k0); [done|].
  by rewrite IH.
Qed.

(** Taking an entry out leaves the others. *)
Lemma erase_perm k v m : sorted m -> find k m = Some v -> m ≡ₚ (k, v) :: erase k m.
Proof.
  unfold sorted. induction m as [|[k0 v0] m IH]; simpl; intros Hs Hf; [done|].
  apply StronglySorted_inv in Hs as [Hs Hall]. destruct (Z.eqb_spec k k0); simplify_eq.
  - rewrite erase_not_in; [done|]. intros Hin. rewrite Forall_forall in Hall.
    specialize (Hall _ Hin). lia.
  - rewrite (IH Hs Hf) at 1. apply perm_swap.
Qed.

Lemma erase_assign k v m : find k m = None -> erase k (assign k v m) = m.
Proof.
  induction m as [|[k0 v0] m IH]; simpl; intros Hf; [by rewrite Z.eqb_refl|].
  destruct (Z.eqb_spec k k0); [done|]. destruct (k <? k0); simpl.
  - rewrite Z.eqb_refl. destruct (Z.eqb_spec k k0); [done|]. f_equal.
    apply erase_not_in. by apply find_None.
  - destruct (Z.eqb_spec k k0); [done|]. by rewrite IH.
Qed.

(** Adding an entry under a fresh key keeps the others. *)
Lemma assign_perm k v m : find k m = None -> assign k v m ≡ₚ (k, v) :: m.
Proof.
  induction m as [|[k0 v0] m IH]; simpl; intros Hf; [done|].
  destruct (Z.eqb_spec k k0); [done|]. destruct (k <? k0); [done|].
  rewrite (IH Hf). apply perm_swap.
Qed.

Lemma lower_bound_Some k k' v m : lower_bound k m = Some (k', v) -> sorted m ->
  find k' m = Some v /\ k <= k' /\ (forall j, k <= j -> j < k' -> find j m = None).
Proof.
  unfold sorted. induction m as [|[k0 v0] m IH]; simpl; intros H Hs; [done|].
  apply StronglySorted_inv in Hs as [Hs Hall].
  destruct (Z.leb_spec k k0); simplify_eq.
  - rewrite Z.eqb_refl. repeat split; [done..|]. intros j Hj Hlt.
    destruct (Z.eqb_spec j k'); [lia|]. apply find_None. intros Hin.
    rewrite Forall_forall in Hall. specialize (Hall j Hin). lia.
  - destruct (IH H Hs) as (Hf & Hle & Hno). rewrite Forall_forall in Hall.
    assert (k0 < k') by (apply Hall, elem_of_keys; by eexists).
    repeat split; [|done|].
    + destruct (Z.eqb_spec k' k0); [lia|done].
    + intros j Hj Hlt. destruct (Z.eqb_spec j k0); [lia|auto].
Qed.

Lemma lower_bound_None k m : lower_bound k m = None -> forall j, k <= j -> find j m = None.
Proof.
  induction m as [|[k0 v0] m IH]; simpl; intros H j Hj; [done|].
  destruct (Z.leb_spec k k0); [done|]. destruct (Z.eqb_spec j k0); [lia|auto].
Qed.

Lemma map_snd_sorted (f : V -> V) m :
  sorted m -> sorted (map (fun kv => (fst kv, f (snd kv))) m).
Proof. unfold sorted, keys. by rewrite map_map. Qed.

Lemma find_map (f : Z -> V -> V) k m :
  find k (map (fun kv => (fst kv, f (fst kv) (snd kv))) m) =
    match find k m with Some v => Some (f k v) | None => None end.
Proof.
  induction m as [|[k0 v0] m IH]; simpl; [done|].
  destruct (Z.eqb_spec k k0); subst; [done|]. by rewrite IH.
Qed.

(** Two sorted maps with the same lookups are the same map. *)
Lemma sorted_ext m1 m2 : sorted m1 -> sorted m2 ->
  (forall k, find k m1 = find k m2) -> m1 = m2.
Proof.
  unfold sorted. revert m2. induction m1 as [|[k1 v1] m1 IH]; intros [|[k2 v2] m2] H1 H2 He; [done|..].
  - specialize (He k2). simpl in He. by rewrite Z.eqb_refl in He.
  - specialize (He k1). simpl in He. by rewrite Z.eqb_refl in He.
  - simpl in H1, H2. apply StronglySorted_inv in H1 as [H1 F1], H2 as [H2 F2].
    rewrite Forall_forall in F1, F2.
    assert (k1 = k2) as ->.
    { pose proof (He k1) as Ha. pose proof (He k2) as Hb. simpl in Ha, Hb.
      rewrite Z.eqb_refl in Ha, Hb.
      destruct (Z.eqb_spec k1 k2); [done|]. destruct (Z.eqb_spec k2 k1); [lia|].
      assert (k2 < k1) by (apply F2, elem_of_keys; rewrite <- Ha; by eexists).
      assert (k1 < k2) by (apply F1, elem_of_keys; rewrite Hb; by eexists). lia. }
    pose proof (He k2) as Hv. simpl in Hv. rewrite Z.eqb_refl in Hv. simplify_eq.
    f_equal. apply IH; [done..|]. intros k. specialize (He k). simpl in He.
    destruct (Z.eqb_spec k k2); [|done]. subst.
    transitivity (@None V); [|symmetry]; apply find_None; intros Hin;
      [specialize (F1 _ Hin)|specialize (F2 _ Hin)]; lia.
Qed.

End stdmap.

#[export] Hint Resolve assign_sorted erase_sorted emplace_sorted filter_sorted : macmu.
#[export] Hint Rewrite @find_assign_eq @find_erase_eq : macmu.
