(* ===== verification/ControlProtocol.v ===== *)
(** The MMCP control plane's wire format: [shell/protocol/macmu_control_protocol.h].
    Constants, message types and packed little-endian structs, shared by the shell's
    [ControlChannel] and the emulator's [MacMuControlReceiver]. The class [Wire]
    is what the two ends promise each other about a struct: its size, its
    encoding, and that decoding any buffer that starts with an encoding gives
    the struct back. *)
From S2P Require Import Prelude.

(** ** The struct interface *)

Class Wire (A : Type) := {
  wire_size : nat;
  wire_wf : A -> Prop;
  encode : A -> bytes;
  decode : bytes -> A;
  length_encode : forall a, length (encode a) = wire_size;
  decode_encode : forall a rest, wire_wf a -> decode (encode a ++ rest) = a;
}.
#[global] Hint Mode Wire ! : typeclass_instances.
Arguments wire_size A {_}.

Lemma decode_encode_nil `{Wire A} (a : A) : wire_wf a -> decode (encode a) = a.
Proof. intros. rewrite <- (app_nil_r (encode a)). by apply decode_encode. Qed.

(** Closes the two laws of an instance whose encoding is a concatenation of
    little-endian fields. *)
Ltac wire_laws :=
  intros; unfold wire_wf in *; destruct_and?;
  try (autorewrite with wire; reflexivity);
  match goal with
  | a : ?T |- _ => destruct a; cbn -[app field put16 put32 put64] in *; rewrite <- ?app_assoc; read_fields;
      rewrite ?u16_id, ?u32_id, ?u64_id, ?s32_u32 by done; done
  end.

(** ** Constants *)

Definition kControlProtocolMagic : Z := 0x4d4d4350.
Definition kControlProtocolVersion : Z := 1.
Definition kControlMaxPayload : Z := 64 * 1024.
Definition kControlFdEnv : string := "MACMU_CONTROL_FD".
Definition kControlChildFd : Z := 197.

Definition kControlErrUnsupported : Z := 1.
Definition kControlErrInvalidArgument : Z := 2.
Definition kControlErrRejected : Z := 3.
Definition kControlErrNotReady : Z := 4.
Definition kControlErrInternal : Z := 5.

Definition kControlDisplayAdded : Z := 1.
Definition kControlDisplayChanged : Z := 2.
Definition kControlDisplayRemoved : Z := 3.

Definition kControlDisplayIdAuto : Z := 0xFFFFFFFF.

(** ** Message types *)

Inductive ControlMessageType :=
  | kHello | kPing | kDisplayAdd | kDisplayRemove | kDisplayList | kDisplayStream
  | kHelloAck | kPong | kDisplayAddOk | kDisplayRemoveOk | kDisplayListOk
  | kDisplayStreamOk | kError | kEventDisplay | kEventBoot.

#[export] Instance ControlMessageType_eq_dec : EqDecision ControlMessageType.
Proof. solve_decision. Defined.

(** [static_cast<uint16_t>(type)]. *)
Definition type_code (t : ControlMessageType) : Z :=
  match t with
  | kHello => 0x0001 | kPing => 0x0002 | kDisplayAdd => 0x0010
  | kDisplayRemove => 0x0011 | kDisplayList => 0x0012 | kDisplayStream => 0x0013
  | kHelloAck => 0x0101 | kPong => 0x0102 | kDisplayAddOk => 0x0110
  | kDisplayRemoveOk => 0x0111 | kDisplayListOk => 0x0112
  | kDisplayStreamOk => 0x0113 | kError => 0x01FF
  | kEventDisplay => 0x0201 | kEventBoot => 0x0202
  end.

Definition all_message_types : list ControlMessageType :=
  [kHello; kPing; kDisplayAdd; kDisplayRemove; kDisplayList; kDisplayStream;
   kHelloAck; kPong; kDisplayAddOk; kDisplayRemoveOk; kDisplayListOk;
   kDisplayStreamOk; kError; kEventDisplay; kEventBoot].

(** [static_cast<ControlMessageType>(code)]: [None] is a value with no
    enumerator, which every [switch] of the program sends to [default]. *)
Definition type_of_code (c : Z) : option ControlMessageType :=
  list_find (fun t => type_code t = c) all_message_types ≫= fun p => Some p.2.

Definition control_response_type (requestType : Z) : Z := Z.lor requestType 0x0100.

Lemma type_of_type_code t : type_of_code (type_code t) = Some t.
Proof. destruct t; reflexivity. Qed.

Lemma type_code_range t : is_u16 (type_code t).
Proof. by destruct t. Qed.

Lemma type_code_inj t1 t2 : type_code t1 = type_code t2 -> t1 = t2.
Proof.
  intros E. apply (f_equal type_of_code) in E. rewrite !type_of_type_code in E. congruence.
Qed.

Lemma type_of_code_Some c t : type_of_code c = Some t -> type_code t = c.
Proof.
  unfold type_of_code. destruct (list_find _ _) as [[i t']|] eqn:E; simpl; [|done].
  intros [= <-]. by apply list_find_Some in E as (_ & ? & _).
Qed.

(** ** Packed structs *)

Record ControlFrameHeader := {
  fh_magic : Z; fh_version : Z; fh_type : Z; fh_requestId : Z; fh_length : Z }.

#[export, refine] Instance ControlFrameHeader_wire : Wire ControlFrameHeader := {|
  wire_size := 16;
  wire_wf h := is_u32 (fh_magic h) /\ is_u16 (fh_version h) /\ is_u16 (fh_type h) /\
    is_u32 (fh_requestId h) /\ is_u32 (fh_length h);
  encode h := put32 (fh_magic h) ++ put16 (fh_version h) ++ put16 (fh_type h) ++
    put32 (fh_requestId h) ++ put32 (fh_length h);
  decode bs := {| fh_magic := field 0 4 bs; fh_version := field 4 2 bs;
    fh_type := field 6 2 bs; fh_requestId := field 8 4 bs; fh_length := field 12 4 bs |};
|}.
Proof. all: wire_laws. Defined.

(** [hello]: the shell's opening message. *)
Record ControlHello := { hello_protoVersion : Z }.

#[export, refine] Instance ControlHello_wire : Wire ControlHello := {|
  wire_size := 4;
  wire_wf h := is_u32 (hello_protoVersion h);
  encode h := put32 (hello_protoVersion h);
  decode bs := {| hello_protoVersion := field 0 4 bs |};
|}.
Proof. all: wire_laws. Defined.

Record ControlHelloAck := {
  ack_protoVersion : Z; ack_capabilities : Z; ack_maxDisplays : Z; ack_frameShmVersion : Z }.

#[export, refine] Instance ControlHelloAck_wire : Wire ControlHelloAck := {|
  wire_size := 16;
  wire_wf a := is_u32 (ack_protoVersion a) /\ is_u32 (ack_capabilities a) /\
    is_u32 (ack_maxDisplays a) /\ is_u32 (ack_frameShmVersion a);
  encode a := put32 (ack_protoVersion a) ++ put32 (ack_capabilities a) ++
    put32 (ack_maxDisplays a) ++ put32 (ack_frameShmVersion a);
  decode bs := {| ack_protoVersion := field 0 4 bs; ack_capabilities := field 4 4 bs;
    ack_maxDisplays := field 8 4 bs; ack_frameShmVersion := field 12 4 bs |};
|}.
Proof. all: wire_laws. Defined.

Record ControlPong := { pong_timestampNs : Z }.

#[export, refine] Instance ControlPong_wire : Wire ControlPong := {|
  wire_size := 8;
  wire_wf p := is_u64 (pong_timestampNs p);
  encode p := put64 (pong_timestampNs p);
  decode bs := {| pong_timestampNs := field 0 8 bs |};
|}.
Proof. all: wire_laws. Defined.

Record ControlDisplayAdd := {
  add_displayId : Z; add_width : Z; add_height : Z; add_dpi : Z; add_flags : Z }.

#[export, refine] Instance ControlDisplayAdd_wire : Wire ControlDisplayAdd := {|
  wire_size := 20;
  wire_wf a := is_u32 (add_displayId a) /\ is_u32 (add_width a) /\ is_u32 (add_height a) /\
    is_u32 (add_dpi a) /\ is_u32 (add_flags a);
  encode a := put32 (add_displayId a) ++ put32 (add_width a) ++ put32 (add_height a) ++
    put32 (add_dpi a) ++ put32 (add_flags a);
  decode bs := {| add_displayId := field 0 4 bs; add_width := field 4 4 bs;
    add_height := field 8 4 bs; add_dpi := field 12 4 bs; add_flags := field 16 4 bs |};
|}.
Proof. all: wire_laws. Defined.

Record ControlDisplayAddOk := { addok_displayId : Z }.

#[export, refine] Instance ControlDisplayAddOk_wire : Wire ControlDisplayAddOk := {|
  wire_size := 4;
  wire_wf a := is_u32 (addok_displayId a);
  encode a := put32 (addok_displayId a);
  decode bs := {| addok_displayId := field 0 4 bs |};
|}.
Proof. all: wire_laws. Defined.

Record ControlDisplayRemove := { rm_displayId : Z }.

#[export, refine] Instance ControlDisplayRemove_wire : Wire ControlDisplayRemove := {|
  wire_size := 4;
  wire_wf r := is_u32 (rm_displayId r);
  encode r := put32 (rm_displayId r);
  decode bs := {| rm_displayId := field 0 4 bs |};
|}.
Proof. all: wire_laws. Defined.

Record ControlDisplayStream := {
  st_displayId : Z; st_enabled : Z; st_maximumFramesPerSecond : Z }.

#[export, refine] Instance ControlDisplayStream_wire : Wire ControlDisplayStream := {|
  wire_size := 12;
  wire_wf s := is_u32 (st_displayId s) /\ is_u32 (st_enabled s) /\
    is_u32 (st_maximumFramesPerSecond s);
  encode s := put32 (st_displayId s) ++ put32 (st_enabled s) ++
    put32 (st_maximumFramesPerSecond s);
  decode bs := {| st_displayId := field 0 4 bs; st_enabled := field 4 4 bs;
    st_maximumFramesPerSecond := field 8 4 bs |};
|}.
Proof. all: wire_laws. Defined.

Record ControlDisplayInfo := {
  info_displayId : Z; info_width : Z; info_height : Z; info_dpi : Z; info_flags : Z;
  info_enabled : Z }.

#[export, refine] Instance ControlDisplayInfo_wire : Wire ControlDisplayInfo := {|
  wire_size := 24;
  wire_wf i := is_u32 (info_displayId i) /\ is_u32 (info_width i) /\ is_u32 (info_height i) /\
    is_u32 (info_dpi i) /\ is_u32 (info_flags i) /\ is_u32 (info_enabled i);
  encode i := put32 (info_displayId i) ++ put32 (info_width i) ++ put32 (info_height i) ++
    put32 (info_dpi i) ++ put32 (info_flags i) ++ put32 (info_enabled i);
  decode bs := {| info_displayId := field 0 4 bs; info_width := field 4 4 bs;
    info_height := field 8 4 bs; info_dpi := field 12 4 bs; info_flags := field 16 4 bs;
    info_enabled := field 20 4 bs |};
|}.
Proof. all: wire_laws. Defined.

(** [ControlDisplayListOk]: the count, followed by that many [ControlDisplayInfo]. *)
Record ControlDisplayListOk := { list_count : Z }.

#[export, refine] Instance ControlDisplayListOk_wire : Wire ControlDisplayListOk := {|
  wire_size := 4;
  wire_wf l := is_u32 (list_count l);
  encode l := put32 (list_count l);
  decode bs := {| list_count := field 0 4 bs |};
|}.
Proof. all: wire_laws. Defined.

(** [ControlError]: a signed code and the length of the message that follows. *)
Record ControlError := { err_code : Z; err_msgLen : Z }.

#[export, refine] Instance ControlError_wire : Wire ControlError := {|
  wire_size := 8;
  wire_wf e := is_s32 (err_code e) /\ is_u32 (err_msgLen e);
  encode e := put32 (u32 (err_code e)) ++ put32 (err_msgLen e);
  decode bs := {| err_code := s32 (field 0 4 bs); err_msgLen := field 4 4 bs |};
|}.
Proof.
  - wire_laws.
  - intros a rest [Hc Hl]. destruct a; cbn -[app field put32 u32 s32] in *. rewrite <- ?app_assoc. read_fields.
    rewrite (u32_id (u32 _)) by apply u32_range. by rewrite s32_u32, u32_id.
Defined.

Record ControlEventDisplay := {
  ev_displayId : Z; ev_state : Z; ev_width : Z; ev_height : Z; ev_dpi : Z; ev_flags : Z }.

#[export, refine] Instance ControlEventDisplay_wire : Wire ControlEventDisplay := {|
  wire_size := 24;
  wire_wf e := is_u32 (ev_displayId e) /\ is_u32 (ev_state e) /\ is_u32 (ev_width e) /\
    is_u32 (ev_height e) /\ is_u32 (ev_dpi e) /\ is_u32 (ev_flags e);
  encode e := put32 (ev_displayId e) ++ put32 (ev_state e) ++ put32 (ev_width e) ++
    put32 (ev_height e) ++ put32 (ev_dpi e) ++ put32 (ev_flags e);
  decode bs := {| ev_displayId := field 0 4 bs; ev_state := field 4 4 bs;
    ev_width := field 8 4 bs; ev_height := field 12 4 bs; ev_dpi := field 16 4 bs;
    ev_flags := field 20 4 bs |};
|}.
Proof. all: wire_laws. Defined.

Record ControlEventBoot := { boot_stage : Z }.

#[export, refine] Instance ControlEventBoot_wire : Wire ControlEventBoot := {|
  wire_size := 4;
  wire_wf e := is_u32 (boot_stage e);
  encode e := put32 (boot_stage e);
  decode bs := {| boot_stage := field 0 4 bs |};
|}.
Proof. all: wire_laws. Defined.
