(* ===== verification/Posix.v ===== *)
(** The POSIX calls the program loops over: [read] and [send] on a stream
    socket, with partial transfers, [EINTR] and errors.

    A reading environment is what the kernel will hand out, call by call: a
    chunk that is available, an interrupted call or a failure; an exhausted
    environment is end of file. A writing environment is the kernel's answer to
    each [send]. Every loop of the program over these calls is structural in
    its environment, so no fuel is needed. *)
From S2P Require Import Prelude.

Inductive rd_event :=
  | RdChunk (bs : bytes)   (* these bytes are available to [read] *)
  | RdIntr                 (* [read] returns -1, errno EINTR *)
  | RdErr.                 (* [read] returns -1, any other errno *)

(** The [read_exact] loop: [None] for the [false] it returns on end of file or
    on an error. A chunk longer than what is still wanted stays available to
    the next call. *)
Fixpoint read_loop (size : nat) (env : list rd_event) : option bytes * list rd_event :=
  match size with
  | O => (Some [], env)
  | _ =>
      match env with
      | [] => (None, [])
      | RdIntr :: env' => read_loop size env'
      | RdErr :: env' => (None, env')
      | RdChunk [] :: env' => (None, env')
      | RdChunk bs :: env' =>
          if (length bs <=? size)%nat then
            match read_loop (size - length bs) env' with
            | (Some out, env'') => (Some (bs ++ out), env'')
            | (None, env'') => (None, env'')
            end
          else (Some (take size bs), RdChunk (drop size bs) :: env')
      end
  end.

(** The bytes an error-free environment still holds. *)
Fixpoint rd_bytes (env : list rd_event) : bytes :=
  match env with
  | [] => []
  | RdChunk bs :: env' => bs ++ rd_bytes env'
  | RdIntr :: env' => rd_bytes env'
  | RdErr :: env' => []
  end.

(** An environment that delivers all of its bytes: no errors and no empty
    chunk (an empty chunk is a premature end of file). *)
Fixpoint rd_live (env : list rd_event) : Prop :=
  match env with
  | [] => True
  | RdChunk bs :: env' => bs <> [] /\ rd_live env'
  | RdIntr :: env' => rd_live env'
  | RdErr :: env' => False
  end.

Lemma read_loop_live (env : list rd_event) (size : nat) :
  rd_live env -> (size <= length (rd_bytes env))%nat ->
  exists env', read_loop size env = (Some (take size (rd_bytes env)), env') /\
    rd_live env' /\ rd_bytes env' = drop size (rd_bytes env).
Proof.
  revert size. induction env as [|e env IH]; intros size Hl Hs.
  { assert (size = 0%nat) as -> by (simpl in Hs; lia). by exists []. }
  destruct size as [|size]; [by exists (e :: env)|].
  destruct e as [bs| |]; [|exact (IH (S size) Hl Hs)|destruct Hl].
  destruct Hl as [Hne Hl]. destruct bs as [|b bs]; [done|].
  cbn [rd_bytes] in *. remember (b :: bs) as c eqn:Ec.
  assert (read_loop (S size) (RdChunk c :: env) =
    if (length c <=? S size)%nat then
      match read_loop (S size - length c) env with
      | (Some out, env'') => (Some (c ++ out), env'')
      | (None, env'') => (None, env'')
      end
    else (Some (take (S size) c), RdChunk (drop (S size) c) :: env)) as -> by (by subst).
  destruct (Nat.leb_spec (length c) (S size)) as [Hle|Hgt].
  - destruct (IH (S size - length c)%nat Hl) as (env' & -> & Hl' & Hb').
    { rewrite length_app in Hs. lia. }
    exists env'. rewrite take_app_ge, drop_app_ge by lia. done.
  - exists (RdChunk (drop (S size) c) :: env).
    rewrite take_app_le, drop_app_le by lia. split; [done|]. split; [|done].
    split; [|done]. intros E%(f_equal length). rewrite length_drop in E. simpl in E. lia.
Qed.

(** A live environment that holds too few bytes makes the loop report failure. *)
Lemma read_loop_short (env : list rd_event) (size : nat) :
  rd_live env -> (length (rd_bytes env) < size)%nat ->
  (read_loop size env).1 = None.
Proof.
  revert size. induction env as [|e env IH]; intros size Hl Hs.
  { destruct size; [simpl in Hs; lia|done]. }
  destruct size as [|size]; [lia|].
  destruct e as [[|b bs]| |]; [done| |exact (IH (S size) Hl Hs)|done].
  destruct Hl as [_ Hl]. cbn [rd_bytes] in Hs. rewrite length_app in Hs.
  simpl. destruct (Nat.leb_spec (length bs) size) as [Hle|Hgt]; [|simpl in Hs; lia].
  specialize (IH (size - length bs)%nat Hl ltac:(simpl in Hs; lia)).
  by destruct (read_loop (size - length bs) env) as [[out|] env'].
Qed.

(** ** Writing *)

Inductive wr_event :=
  | WrOk (n : Z)    (* [send] returns [n] *)
  | WrIntr          (* -1, EINTR *)
  | WrErr.          (* -1, any other errno *)

(** The write-all loop: whether it completed, the bytes the kernel accepted and
    the answers left over. An answer above the request is capped to it; running
    out of answers is a failed call. *)
Fixpoint write_loop (data : bytes) (env : list wr_event) : bool * bytes * list wr_event :=
  match data with
  | [] => (true, [], env)
  | _ =>
      match env with
      | [] => (false, [], [])
      | WrIntr :: env' => write_loop data env'
      | WrErr :: env' => (false, [], env')
      | WrOk n :: env' =>
          if n <=? 0 then (false, [], env')
          else
            let k := Nat.min (Z.to_nat n) (length data) in
            let '(ok, sent, env'') := write_loop (drop k data) env' in
            (ok, take k data ++ sent, env'')
      end
  end.

(** Whatever the kernel answers, the bytes accepted are a prefix of the data,
    and the loop reports success exactly when they are all of it. *)
Lemma write_loop_prefix data env ok sent env' :
  write_loop data env = (ok, sent, env') ->
  (ok = true -> sent = data) /\ sent `prefix_of` data.
Proof.
  revert data ok sent env'. induction env as [|e env IH]; intros data ok sent env' H.
  { destruct data; simpl in H; simplify_eq; split; done || apply prefix_nil. }
  destruct data as [|b data]; [simpl in H; simplify_eq; done|].
  destruct e as [n| |]; simpl in H.
  - destruct (n <=? 0); [simplify_eq; split; [done|apply prefix_nil]|].
    set (k := Nat.min (Z.to_nat n) (S (length data))) in *.
    destruct (write_loop (drop k (b :: data)) env) as [[ok' sent'] env''] eqn:E.
    simplify_eq. destruct (IH _ _ _ _ E) as [Hok [r Hr]]. split.
    + intros ->. rewrite Hok by done. apply take_drop.
    + exists r. by rewrite <- app_assoc, <- Hr, take_drop.
  - exact (IH _ _ _ _ H).
  - simplify_eq. split; [done|apply prefix_nil].
Qed.

(** A kernel that always accepts something lets the loop finish. *)
Lemma write_loop_completes data env :
  Forall (λ e, e = WrIntr \/ exists n, e = WrOk n /\ 0 < n) env ->
  (length data <= length (List.filter (λ e, match e with WrOk _ => true | _ => false end) env))%nat ->
  (write_loop data env).1.1 = true.
Proof.
  revert data. induction env as [|e env IH]; intros data HF Hlen.
  { by destruct data; [|simpl in Hlen; lia]. }
  inversion HF as [|? ? He HF']; subst. destruct data as [|b data]; [done|].
  destruct He as [->|(n & -> & Hn)]; simpl in *; [exact (IH (b :: data) HF' Hlen)|].
  rewrite (proj2 (Z.leb_gt n 0) Hn).
  specialize (IH (drop (Nat.min (Z.to_nat n) (S (length data))) (b :: data)) HF').
  destruct (write_loop _ env) as [[ok sent] env'']; simpl in *. apply IH.
  rewrite length_drop. simpl. lia.
Qed.

(** ** [shell/core/posix_util.h] *)

Definition SLASH : Init.Byte.byte := Byte.x2f.

Definition path_join (lhs rhs : bytes) : bytes :=
  match last lhs with
  | None => rhs
  | Some c => if bool_decide (c = SLASH) then lhs ++ rhs else lhs ++ [SLASH] ++ rhs
  end.

Definition FD_CLOEXEC : Z := 1.

(** [getfd] is what [fcntl(fd, F_GETFD)] returns and [setfd_ok] whether
    [fcntl(fd, F_SETFD, flags)] returns 0; the flags that are set are returned
    with the result. *)
Definition set_close_on_exec (getfd : Z) (setfd_ok : bool) (enabled : bool) : bool * option Z :=
  if getfd <? 0 then (false, None) else
  let nextFlags := if enabled then Z.lor getfd FD_CLOEXEC else Z.land getfd (Z.lnot FD_CLOEXEC) in
  (setfd_ok, Some nextFlags).

(** Only the close-on-exec bit changes, whichever way it is switched. *)
Lemma set_close_on_exec_flags getfd ok enabled fl :
  set_close_on_exec getfd ok enabled = (true, Some fl) ->
  Z.testbit fl 0 = enabled /\ forall i, 0 < i -> Z.testbit fl i = Z.testbit getfd i.
Proof.
  unfold set_close_on_exec. case_match; [done|]. intros [= _ <-].
  assert (forall i, 0 < i -> Z.testbit FD_CLOEXEC i = false) as Hb.
  { intros [|p|p] Hi; [lia| |lia]. by destruct p. }
  destruct enabled; split; intros;
    rewrite ?Z.lor_spec, ?Z.land_spec, ?Z.lnot_spec, ?Hb by lia;
    simpl; rewrite ?orb_true_r, ?andb_false_r, ?orb_false_r, ?andb_true_r; done.
Qed.
