(* ===== verification/PendingTable.v ===== *)
(** [shell/core/pending_request_table.h]: the table of outstanding requests that
    both the MMCP control channel and the guest control client are built on.
    Each method holds the mutex for its whole access to the map, so each is one
    atomic operation on the map; the callbacks it returns are run outside it. *)
From S2P Require Import Prelude StdMap.

Module PendingRequestTable.
Section table.
Context {Callback : Type}.

(** [std::function] values: [None] is the empty function. *)
Record Pending := { p_callback : option Callback; p_deadlineMs : Z }.

Implicit Types (t : list (Z * Pending)).

Definition add (key : Z) (callback : option Callback) (timeout_ms now : Z) t :=
  assign key {| p_callback := callback; p_deadlineMs := u64 (now + timeout_ms) |} t.

Definition take (key : Z) t : option Callback * list (Z * Pending) :=
  match find key t with
  | None => (None, t)
  | Some p => (p_callback p, erase key t)
  end.

(** [if (entry.second.callback) fail(...)]: only non-empty callbacks are run. *)
Definition runnable (ps : list Pending) : list Callback := omap p_callback ps.

Definition fail_all t : list Callback * list (Z * Pending) :=
  (runnable (map snd t), []).

(** The sweep's iterator loop: expired entries are moved out and erased. *)
Fixpoint sweep_loop (now : Z) t : list Pending * list (Z * Pending) :=
  match t with
  | [] => ([], [])
  | (k, p) :: t' =>
      let '(expired, kept) := sweep_loop now t' in
      if p_deadlineMs p <=? now then (p :: expired, kept)
      else (expired, (k, p) :: kept)
  end.

Definition sweep_timeouts (now : Z) t : list Callback * list (Z * Pending) :=
  let '(expired, kept) := sweep_loop now t in (runnable expired, kept).

(** ** Lemmas *)

Definition expired_at (now : Z) (kp : Z * Pending) : bool := p_deadlineMs (snd kp) <=? now.

Lemma sweep_loop_spec now t :
  sweep_loop now t =
    (map snd (List.filter (expired_at now) t),
     List.filter (fun kp => negb (expired_at now kp)) t).
Proof.
  induction t as [|[k p] t IH]; [done|]. simpl. rewrite IH.
  unfold expired_at. simpl. by destruct (p_deadlineMs p <=? now).
Qed.

Lemma find_add key key' cb timeout now t :
  find key' (add key cb timeout now t) =
    if key' =? key then Some {| p_callback := cb; p_deadlineMs := u64 (now + timeout) |}
    else find key' t.
Proof. apply find_assign. Qed.

Lemma add_sorted key cb timeout now t : sorted t -> sorted (add key cb timeout now t).
Proof. apply assign_sorted. Qed.

Lemma take_sorted key t : sorted t -> sorted (take key t).2.
Proof. unfold take. case_match; simpl; auto with macmu. Qed.

Lemma sweep_sorted now t : sorted t -> sorted (sweep_timeouts now t).2.
Proof. unfold sweep_timeouts. rewrite sweep_loop_spec. simpl. auto with macmu. Qed.

Lemma take_find key t : (take key t).1 = find key t ≫= p_callback.
Proof. unfold take. by destruct (find key t). Qed.

Lemma take_gone key t : find key (take key t).2 = None.
Proof.
  unfold take. destruct (find key t) eqn:E; simpl; [|done]. apply find_erase_eq.
Qed.

Lemma take_other key key' t : key' <> key -> find key' (take key t).2 = find key' t.
Proof.
  intros. unfold take. destruct (find key t); simpl; [|done]. by apply find_erase_ne.
Qed.

Lemma find_sweep now key t : sorted t ->
  find key (sweep_timeouts now t).2 =
    match find key t with
    | Some p => if p_deadlineMs p <=? now then None else Some p
    | None => None
    end.
Proof.
  intros Hs. unfold sweep_timeouts. rewrite sweep_loop_spec. simpl.
  rewrite find_filter by done. unfold expired_at. simpl.
  destruct (find key t) as [p|]; [|done]. by destruct (p_deadlineMs p <=? now).
Qed.

Lemma elem_of_runnable cb (ps : list Pending) :
  cb ∈ runnable ps <-> exists p, p ∈ ps /\ p_callback p = Some cb.
Proof. apply list_elem_of_omap. Qed.

(** *** The callbacks a table holds, and where each operation takes them *)

Definition callbacks t : list Callback := runnable (map snd t).

Lemma callbacks_perm t1 t2 : t1 ≡ₚ t2 -> callbacks t1 ≡ₚ callbacks t2.
Proof. intros H. unfold callbacks, runnable. by rewrite H. Qed.

Lemma callbacks_cons k p t : callbacks ((k, p) :: t) = option_list (p_callback p) ++ callbacks t.
Proof. unfold callbacks, runnable. simpl. by destruct (p_callback p). Qed.

Lemma callbacks_add key cb timeout now t :
  find key t = None -> callbacks (add key cb timeout now t) ≡ₚ option_list cb ++ callbacks t.
Proof.
  intros H. unfold add. rewrite (callbacks_perm _ _ (assign_perm _ _ _ H)).
  by rewrite callbacks_cons.
Qed.

Lemma callbacks_take key t :
  sorted t -> callbacks t ≡ₚ option_list (take key t).1 ++ callbacks (take key t).2.
Proof.
  intros Hs. unfold take. destruct (find key t) as [p|] eqn:E; simpl; [|done].
  rewrite (callbacks_perm _ _ (erase_perm _ _ _ Hs E)). by rewrite callbacks_cons.
Qed.

Lemma callbacks_sweep now t :
  callbacks t ≡ₚ (sweep_timeouts now t).1 ++ callbacks (sweep_timeouts now t).2.
Proof.
  unfold sweep_timeouts. induction t as [|[k p] t IH]; [done|]. simpl.
  destruct (sweep_loop now t) as [expired kept]. simpl in IH.
  rewrite callbacks_cons, IH. destruct (p_deadlineMs p <=? now); simpl.
  - unfold runnable. simpl. by destruct (p_callback p).
  - rewrite callbacks_cons. solve_Permutation.
Qed.

Lemma take_keys (P : Z -> Prop) key t :
  Forall P (keys t) -> Forall P (keys (take key t).2).
Proof. unfold take. case_match; [apply erase_keys_Forall|done]. Qed.

Lemma sweep_keys (P : Z -> Prop) now t :
  Forall P (keys t) -> Forall P (keys (sweep_timeouts now t).2).
Proof.
  unfold sweep_timeouts. rewrite sweep_loop_spec. unfold keys. simpl.
  rewrite !Forall_forall. intros H x Hx. apply H. apply list_elem_of_fmap in Hx as (kp & -> & Hin).
  apply list_elem_of_fmap. exists kp. split; [done|].
  by apply list_elem_of_In, filter_In in Hin as [Hin%list_elem_of_In _].
Qed.

(** A timeout sweep expires exactly the requests whose deadline has
    passed: the callbacks it runs are those of the entries with
    [deadlineMs <= now], each entry with a later deadline keeps its place in the
    table, and the table stays well formed. *)
Theorem sweep_timeouts_exact now t :
  sorted t ->
  let '(run, t') := sweep_timeouts now t in
  sorted t' /\
  (forall cb, cb ∈ run <-> exists key p, find key t = Some p /\ p_deadlineMs p <= now /\
     p_callback p = Some cb) /\
  (forall key, find key t' =
     match find key t with
     | Some p => if p_deadlineMs p <=? now then None else Some p
     | None => None
     end).
Proof.
  intros Hs. pose proof (sweep_sorted now t Hs) as Hs'. pose proof (find_sweep now) as Hf.
  destruct (sweep_timeouts now t) as [run t'] eqn:E. split; [done|]. split.
  - intros cb. unfold sweep_timeouts in E. rewrite sweep_loop_spec in E. simplify_eq.
    rewrite elem_of_runnable. split.
    + intros (p & (kp & -> & Hin)%list_elem_of_fmap & Hcb).
      apply list_elem_of_In, filter_In in Hin as [Hin%list_elem_of_In Hex].
      destruct kp as [k p]. exists k, p. unfold expired_at in Hex. simpl in *.
      split; [by apply elem_of_find|]. split; [lia|done].
    + intros (k & p & Hk & Hd & Hcb). exists p. split; [|done].
      apply list_elem_of_fmap. exists (k, p). split; [done|].
      apply list_elem_of_In, filter_In. split.
      * by apply list_elem_of_In, find_elem_of.
      * unfold expired_at. simpl. lia.
  - intros key. specialize (Hf key t Hs). by rewrite E in Hf.
Qed.

End table.
Arguments Pending : clear implicits.
End PendingRequestTable.

Definition sweep_example : list (Z * PendingRequestTable.Pending Z) :=
  PendingRequestTable.add 2 (Some 20) 50 100
    (PendingRequestTable.add 1 (Some 10) 5 100 []).

Lemma sweep_timeouts_exact_witness :
  sorted sweep_example /\
  let '(run, t') := PendingRequestTable.sweep_timeouts 120 sweep_example in
  run = [10] /\ sorted t'.
Proof.
  assert (sorted sweep_example) as Hs by (repeat apply assign_sorted; constructor).
  split; [exact Hs|].
  pose proof (PendingRequestTable.sweep_timeouts_exact 120 sweep_example Hs) as H.
  vm_compute in H |- *. destruct H as [H _]. split; [reflexivity|exact H].
Defined.
