(* ===== verification/ControlChannel.v ===== *)
(** [shell/core/control_channel.{h,cpp}]: the shell's end of the MMCP control
    plane. [ControlChannel.t] is the object's state; its methods are functions
    on that state which also return what the outside world sees ([Out]): the
    callbacks that fire, the descriptors that are closed and the bytes that are
    sent. [reader_loop] is the reader thread, driven by what [poll] reports and
    by what [read] hands out. *)
From S2P Require Import Prelude StdMap Posix PendingTable ControlProtocol.
Import PendingRequestTable.

Module ControlChannel.

(** ** Data *)

Record Response := {
  r_ok : bool; r_type : Z; r_errorCode : Z; r_errorMessage : bytes; r_payload : bytes }.

(** A [ResponseCallback] is either the lambda [start] passes for HELLO, which
    touches the channel itself, or a callback of the shell, named by a tag. *)
Inductive Callback := CbHello | CbUser (tag : Z).

Inductive Out :=
  | OutResponse (tag : Z) (r : Response)
  | OutEvent (type : Z) (payload : bytes)
  | OutReady
  | OutClosed
  | OutCloseFd (fd : Z).

Record t := {
  localFd : Z; remoteFd : Z;
  alive : bool; ready : bool; stopRequested : bool;
  nextRequestId : Z;
  joinable : bool;                    (* readerThread_.joinable() *)
  pending : list (Z * Pending Callback);
  onEvent : bool; onClosed : bool; onReady : bool;  (* callback is non-empty *)
}.

Definition init : t := {|
  localFd := -1; remoteFd := -1; alive := false; ready := false; stopRequested := false;
  nextRequestId := 1; joinable := false; pending := [];
  onEvent := false; onClosed := false; onReady := false |}.

Definition set_flags (st : t) (al rd stop : bool) : t := {|
  localFd := localFd st; remoteFd := remoteFd st; alive := al; ready := rd;
  stopRequested := stop; nextRequestId := nextRequestId st; joinable := joinable st;
  pending := pending st; onEvent := onEvent st; onClosed := onClosed st; onReady := onReady st |}.

Definition set_fds (st : t) (l r : Z) : t := {|
  localFd := l; remoteFd := r; alive := alive st; ready := ready st;
  stopRequested := stopRequested st; nextRequestId := nextRequestId st; joinable := joinable st;
  pending := pending st; onEvent := onEvent st; onClosed := onClosed st; onReady := onReady st |}.

Definition set_joinable (st : t) (j : bool) : t := {|
  localFd := localFd st; remoteFd := remoteFd st; alive := alive st; ready := ready st;
  stopRequested := stopRequested st; nextRequestId := nextRequestId st; joinable := j;
  pending := pending st; onEvent := onEvent st; onClosed := onClosed st; onReady := onReady st |}.

Definition set_requests (st : t) (next : Z) (tbl : list (Z * Pending Callback)) : t := {|
  localFd := localFd st; remoteFd := remoteFd st; alive := alive st; ready := ready st;
  stopRequested := stopRequested st; nextRequestId := next; joinable := joinable st;
  pending := tbl; onEvent := onEvent st; onClosed := onClosed st; onReady := onReady st |}.

Definition set_callbacks (st : t) (e c r : bool) : t := {|
  localFd := localFd st; remoteFd := remoteFd st; alive := alive st; ready := ready st;
  stopRequested := stopRequested st; nextRequestId := nextRequestId st; joinable := joinable st;
  pending := pending st; onEvent := e; onClosed := c; onReady := r |}.

Definition set_pending (st : t) := set_requests st (nextRequestId st).

(** A response the channel makes up itself. *)
Definition failure (code : Z) (message : bytes) : Response := {|
  r_ok := false; r_type := 0; r_errorCode := code; r_errorMessage := message; r_payload := [] |}.

(** ** Running callbacks *)

(** The HELLO lambda of [start] makes the channel ready on a good HELLO_ACK. *)
Definition hello_callback (r : Response) (st : t) : t * list Out :=
  if r_ok r && (wire_size ControlHelloAck <=? length (r_payload r))%nat then
    (set_flags st (alive st) true (stopRequested st), if onReady st then [OutReady] else [])
  else (st, []).

Definition invoke (cb : Callback) (r : Response) (st : t) : t * list Out :=
  match cb with
  | CbHello => hello_callback r st
  | CbUser tag => (st, [OutResponse tag r])
  end.

Fixpoint invoke_all (cbs : list Callback) (r : Response) (st : t) : t * list Out :=
  match cbs with
  | [] => (st, [])
  | cb :: cbs' =>
      let '(st1, o1) := invoke cb r st in
      let '(st2, o2) := invoke_all cbs' r st1 in (st2, o1 ++ o2)
  end.

Definition fail_all_pending (code : Z) (message : bytes) (st : t) : t * list Out :=
  let '(cbs, tbl) := fail_all (pending st) in
  invoke_all cbs (failure code message) (set_pending st tbl).

Definition sweep_timeouts (now : Z) (st : t) : t * list Out :=
  let '(cbs, tbl) := PendingRequestTable.sweep_timeouts now (pending st) in
  invoke_all cbs (failure kControlErrInternal (bstr "request timed out")) (set_pending st tbl).

(** ** Sending *)

Definition frame_header (type request_id length : Z) : ControlFrameHeader := {|
  fh_magic := kControlProtocolMagic; fh_version := kControlProtocolVersion;
  fh_type := type; fh_requestId := request_id; fh_length := length |}.

(** A complete frame: the header and the payload bytes that follow it. *)
Definition frame_bytes (type request_id : Z) (payload : bytes) : bytes :=
  encode (frame_header type request_id (Z.of_nat (length payload))) ++ payload.

(** [write_frame]: whether it succeeded and the bytes that reached the socket. *)
Definition write_frame (type request_id : Z) (payload : bytes) (wenv : list wr_event) (st : t)
    : bool * bytes :=
  if (localFd st <? 0) || negb (alive st) then (false, [])
  else
    let '(ok, sent, wenv') :=
      write_loop (encode (frame_header type request_id (Z.of_nat (length payload)))) wenv in
    if ok : bool then
      let '(ok', sent', _) := write_loop payload wenv' in (ok', sent ++ sent')
    else (false, sent).

(** [request]: the new state, what fires and the bytes sent. *)
Definition request (type : ControlMessageType) (payload : bytes) (timeout_ms now : Z)
    (callback : option Callback) (wenv : list wr_event) (st : t) : t * list Out * bytes :=
  if negb (alive st) then
    match callback with
    | Some cb =>
        (invoke cb (failure kControlErrInternal (bstr "control channel not connected")) st, [])
    | None => (st, [], [])
    end
  else
    let requestId := nextRequestId st in
    let next := u32 (nextRequestId st + 1) in
    let st1 := match callback with
               | Some cb => set_requests st next (add requestId (Some cb) timeout_ms now (pending st))
               | None => set_requests st next (pending st)
               end in
    let '(ok, sent) := write_frame (type_code type) requestId payload wenv st1 in
    if ok : bool then (st1, [], sent)
    else
      let '(failed, tbl) := take requestId (pending st1) in
      match failed with
      | Some cb =>
          (invoke cb (failure kControlErrInternal (bstr "control channel write failed"))
             (set_pending st1 tbl), sent)
      | None => (set_pending st1 tbl, [], sent)
      end.

(** ** The reader thread *)

Definition read_exact (size : nat) (env : list rd_event) := read_loop size env.

(** A header the reader does not close the channel on. *)
Definition frame_acceptable (h : ControlFrameHeader) : bool :=
  (fh_magic h =? kControlProtocolMagic) && (fh_version h =? kControlProtocolVersion) &&
  (fh_length h <=? kControlMaxPayload).

(** One frame off the stream; [None] ends the reader. *)
Definition read_frame (env : list rd_event)
    : option (ControlFrameHeader * bytes) * list rd_event :=
  match read_exact (wire_size ControlFrameHeader) env with
  | (None, env1) => (None, env1)
  | (Some hdr, env1) =>
      let h := decode hdr in
      if frame_acceptable h then
        match read_exact (Z.to_nat (fh_length h)) env1 with
        | (None, env2) => (None, env2)
        | (Some payload, env2) => (Some (h, payload), env2)
        end
      else (None, env1)
  end.

(** The [Response] built from a response frame. *)
Definition response_of (h : ControlFrameHeader) (payload : bytes) : Response :=
  if fh_type h =? type_code kError then
    if (wire_size ControlError <=? length payload)%nat then
      let e : ControlError := decode payload in
      {| r_ok := false; r_type := fh_type h; r_errorCode := err_code e;
         r_errorMessage :=
           firstn (Nat.min (Z.to_nat (err_msgLen e)) (length payload - wire_size ControlError))
             (drop (wire_size ControlError) payload);
         r_payload := [] |}
    else {| r_ok := false; r_type := fh_type h; r_errorCode := kControlErrInternal;
            r_errorMessage := bstr "malformed error frame"; r_payload := [] |}
  else {| r_ok := true; r_type := fh_type h; r_errorCode := 0; r_errorMessage := [];
          r_payload := payload |}.

(** What the loop body does with one frame. *)
Definition dispatch (now : Z) (h : ControlFrameHeader) (payload : bytes) (st : t) : t * list Out :=
  if fh_requestId h =? 0 then
    (st, if onEvent st then [OutEvent (fh_type h) payload] else [])
  else
    let '(callback, tbl) := take (fh_requestId h) (pending st) in
    match callback with
    | None => (set_pending st tbl, [])
    | Some cb =>
        let '(st1, o1) := invoke cb (response_of h payload) (set_pending st tbl) in
        let '(st2, o2) := sweep_timeouts now st1 in (st2, o1 ++ o2)
    end.

(** What one turn of the loop sees: the flag it loads, what [poll] returns and
    the clock. *)
Inductive poll_result :=
  | PollTimeout            (* 0 *)
  | PollIntr               (* -1, EINTR *)
  | PollErr                (* -1, any other errno *)
  | PollOther              (* neither POLLIN nor POLLHUP *)
  | PollIn.                (* POLLIN or POLLHUP *)

Record turn := { t_stop : bool; t_poll : poll_result; t_now : Z }.

(** After the loop: the channel dies and every pending request fails. *)
Definition reader_exit (stop : bool) (st : t) : t * list Out :=
  let '(st1, o1) :=
    fail_all_pending kControlErrInternal (bstr "control channel closed")
      (set_flags st false false (stopRequested st)) in
  (st1, o1 ++ if onClosed st && negb stop then [OutClosed] else []).

(** The loop, over the turns it takes: the state, the outputs, the unread
    environment and whether the loop has been left. *)
Fixpoint reader_loop (turns : list turn) (env : list rd_event) (st : t)
    : t * list Out * list rd_event * bool :=
  match turns with
  | [] => (st, [], env, false)
  | tn :: turns' =>
      if t_stop tn then (st, [], env, true)
      else
        match t_poll tn with
        | PollTimeout =>
            let '(st1, o1) := sweep_timeouts (t_now tn) st in
            let '(st2, o2, env2, b) := reader_loop turns' env st1 in (st2, o1 ++ o2, env2, b)
        | PollIntr | PollOther => reader_loop turns' env st
        | PollErr => (st, [], env, true)
        | PollIn =>
            match read_frame env with
            | (None, env1) => (st, [], env1, true)
            | (Some (h, payload), env1) =>
                let '(st1, o1) := dispatch (t_now tn) h payload st in
                let '(st2, o2, env2, b) := reader_loop turns' env1 st1 in
                (st2, o1 ++ o2, env2, b)
            end
        end
  end.

(** [reader_thread]: the loop and, once it is left, the shutdown after it. *)
Definition reader_thread (turns : list turn) (env : list rd_event) (stop_at_exit : bool) (st : t)
    : t * list Out * list rd_event * bool :=
  let '(st1, o1, env1, finished) := reader_loop turns env st in
  if finished : bool then
    let '(st2, o2) := reader_exit stop_at_exit st1 in (st2, o1 ++ o2, env1, true)
  else (st1, o1, env1, false).

(** ** Lifetime *)

Definition close_remote_fd (st : t) : t * list Out :=
  if 0 <=? remoteFd st then (set_fds st (localFd st) (-1), [OutCloseFd (remoteFd st)])
  else (st, []).

(** [readerThread_.join()] after the [shutdown]: [turns] and [env] are what the
    reader thread still does before it leaves its loop. *)
Definition join_reader (turns : list turn) (env : list rd_event) (st : t) : t * list Out :=
  if joinable st then
    let '(st1, o1, _, _) := reader_loop turns env st in
    let '(st2, o2) := reader_exit true st1 in (set_joinable st2 false, o1 ++ o2)
  else (st, []).

(** The close of [localFd_] under the write mutex. *)
Definition close_local_fd (st : t) : t * list Out :=
  if 0 <=? localFd st then (set_fds st (-1) (remoteFd st), [OutCloseFd (localFd st)])
  else (st, []).

Definition stop (turns : list turn) (env : list rd_event) (st : t) : t * list Out :=
  let '(st1, o1) := join_reader turns env (set_flags st (alive st) (ready st) true) in
  let '(st2, o2) := close_local_fd st1 in
  let '(st3, o3) := close_remote_fd st2 in
  let '(st4, o4) := fail_all_pending kControlErrInternal (bstr "channel stopped") st3 in
  (set_flags st4 false false (stopRequested st4), o1 ++ o2 ++ o3 ++ o4).

(** [create], given what [socketpair] and [set_close_on_exec] return. *)
Definition create (pair : option (Z * Z)) (cloexec_ok : bool) (st : t) : bool * t * list Out :=
  match pair with
  | None => (false, st, [])
  | Some (l, r) =>
      let st1 := set_fds st l r in
      if cloexec_ok then (true, st1, [])
      else let '(st2, o) := stop [] [] st1 in (false, st2, o)
  end.

(** [start]: arm the channel, start the reader and open the conversation. *)
Definition start (e c r : bool) (now : Z) (wenv : list wr_event) (st : t)
    : t * list Out * bytes :=
  if (localFd st <? 0) || joinable st then (st, [], [])
  else
    let st1 := set_joinable (set_flags (set_callbacks st e c r) true false false) true in
    request kHello (encode {| hello_protoVersion := kControlProtocolVersion |}) 30000 now
      (Some CbHello) wenv st1.

(** ** Framing *)

Definition wf_message (m : Z * Z * bytes) : Prop :=
  let '(type, request_id, payload) := m in
  is_u16 type /\ is_u32 request_id /\ Z.of_nat (length payload) <= kControlMaxPayload.

Lemma frame_header_wf type request_id (payload : bytes) :
  wf_message (type, request_id, payload) ->
  wire_wf (frame_header type request_id (Z.of_nat (length payload))).
Proof.
  intros (Ht & Hi & Hl). unfold kControlMaxPayload in Hl.
  repeat split; simpl; first [apply Ht|apply Hi|done|lia].
Qed.

Lemma frame_header_acceptable type request_id (payload : bytes) :
  wf_message (type, request_id, payload) ->
  frame_acceptable (frame_header type request_id (Z.of_nat (length payload))) = true.
Proof.
  intros (_ & _ & H). unfold frame_acceptable. simpl. by apply Z.leb_le in H as ->.
Qed.

(** However the stream is cut into chunks, reading a frame gives the message
    that was framed and leaves exactly what follows it. *)
Lemma read_frame_roundtrip type request_id payload rest env :
  wf_message (type, request_id, payload) -> rd_live env ->
  rd_bytes env = frame_bytes type request_id payload ++ rest ->
  exists env', read_frame env =
      (Some (frame_header type request_id (Z.of_nat (length payload)), payload), env') /\
    rd_live env' /\ rd_bytes env' = rest.
Proof.
  intros Hwf Hl Hb. unfold frame_bytes in Hb. rewrite <- app_assoc in Hb.
  set (h := frame_header type request_id (Z.of_nat (length payload))) in *.
  assert (length (encode h) = wire_size ControlFrameHeader) as Hlen by apply length_encode.
  destruct (read_loop_live env (wire_size ControlFrameHeader) Hl) as (env1 & E1 & Hl1 & Hb1).
  { rewrite Hb, length_app. lia. }
  rewrite Hb, take_app_length' in E1 by done. rewrite Hb, drop_app_length' in Hb1 by done.
  destruct (read_loop_live env1 (length payload) Hl1) as (env2 & E2 & Hl2 & Hb2).
  { rewrite Hb1, length_app. lia. }
  rewrite Hb1, take_app_length in E2. rewrite Hb1, drop_app_length in Hb2.
  exists env2. split; [|done]. unfold read_frame, read_exact. rewrite E1.
  rewrite decode_encode_nil by (by apply frame_header_wf).
  unfold h at 1. rewrite frame_header_acceptable by done.
  change (fh_length h) with (Z.of_nat (length payload)). by rewrite Nat2Z.id, E2.
Qed.

(** The message-level meaning of a run of the reader. *)
Fixpoint dispatch_all (ms : list (Z * (Z * Z * bytes))) (st : t) : t * list Out :=
  match ms with
  | [] => (st, [])
  | (now, (type, request_id, payload)) :: ms' =>
      let '(st1, o1) :=
        dispatch now (frame_header type request_id (Z.of_nat (length payload))) payload st in
      let '(st2, o2) := dispatch_all ms' st1 in (st2, o1 ++ o2)
  end.

Definition stream_of (ms : list (Z * (Z * Z * bytes))) : bytes :=
  concat (map (fun m => frame_bytes m.2.1.1 m.2.1.2 m.2.2) ms).

Definition in_turns (ms : list (Z * (Z * Z * bytes))) : list turn :=
  map (fun m => {| t_stop := false; t_poll := PollIn; t_now := m.1 |}) ms.

(** C33: the reader thread refines a message-level channel: for any list of
    well-formed messages, and however the kernel cuts their byte stream into
    chunks and interrupts the reads, the loop dispatches exactly these messages
    in order and leaves the rest of the stream unread. *)
Theorem reader_loop_refines_dispatch ms env rest st :
  Forall (fun m => wf_message m.2) ms -> rd_live env ->
  rd_bytes env = stream_of ms ++ rest ->
  exists env', reader_loop (in_turns ms) env st =
      (dispatch_all ms st, env', false) /\ rd_live env' /\ rd_bytes env' = rest.
Proof.
  revert env st. induction ms as [|[now [[type id] payload]] ms IH]; intros env st HF Hl Hb.
  { by exists env. }
  inversion HF as [|? ? Hwf HF']; subst. unfold stream_of in Hb. simpl in Hb.
  rewrite <- app_assoc in Hb.
  destruct (read_frame_roundtrip _ _ _ _ env Hwf Hl Hb) as (env1 & E1 & Hl1 & Hb1).
  change (in_turns ((now, (type, id, payload)) :: ms)) with
    ({| t_stop := false; t_poll := PollIn; t_now := now |} :: in_turns ms).
  cbn [reader_loop dispatch_all t_stop t_poll t_now]. rewrite E1.
  destruct (dispatch now _ payload st) as [st1 o1] eqn:Ed.
  destruct (IH env1 st1 HF' Hl1 Hb1) as (env2 & E2 & Hl2 & Hb2).
  rewrite E2. destruct (dispatch_all ms st1) as [st2 o2].
  by exists env2.
Qed.

(** What [write_frame] puts on the socket is a prefix of the frame, and all of
    it exactly when it reports success; nothing is sent on a dead channel. *)
Lemma write_frame_sends type id payload wenv st ok sent :
  write_frame type id payload wenv st = (ok, sent) ->
  (ok = true -> sent = frame_bytes type id payload /\ alive st = true /\ 0 <= localFd st) /\
  sent `prefix_of` frame_bytes type id payload /\
  (alive st = false -> ok = false /\ sent = []).
Proof.
  unfold write_frame, frame_bytes. set (h := encode _). intros H.
  destruct ((localFd st <? 0) || negb (alive st)) eqn:Ed.
  { simplify_eq. split; [done|]. split; [apply prefix_nil|done]. }
  bool_to_prop. destruct (write_loop h wenv) as [[ok1 s1] w1] eqn:E1.
  apply write_loop_prefix in E1 as [Hok1 [r1 Hr1]]. destruct ok1.
  - rewrite Hok1 in H by done. destruct (write_loop payload w1) as [[ok2 s2] w2] eqn:E2.
    apply write_loop_prefix in E2 as [Hok2 Hp2]. simplify_eq. split.
    + intros ->. by rewrite Hok2.
    + split; [by apply prefix_app|congruence].
  - simplify_eq. split; [done|]. split; [|congruence].
    exists (r1 ++ payload). by rewrite Hr1, <- app_assoc.
Qed.

End ControlChannel.
