(* ===== verification/ControlChannelSafety.v ===== *)
(** Callback accounting for the shell's control channel: whatever bytes the
    emulator sends and however the reader thread is driven, no registered
    callback is lost and none runs twice. The tags of the shell's callbacks are
    counted in the pending table and in the outputs. *)
From S2P Require Import Prelude StdMap Posix PendingTable ControlProtocol ControlChannel.
Import PendingRequestTable ControlChannel.

Definition tag_of (cb : Callback) : option Z :=
  match cb with CbUser tag => Some tag | CbHello => None end.

Definition pending_tags (tbl : list (Z * Pending Callback)) : list Z :=
  omap (fun kp => p_callback kp.2 ≫= tag_of) tbl.

Definition answered (outs : list Out) : list Z :=
  omap (fun o => match o with OutResponse tag _ => Some tag | _ => None end) outs.

Lemma answered_app o1 o2 : answered (o1 ++ o2) = answered o1 ++ answered o2.
Proof. apply omap_app. Qed.

Lemma pending_tags_perm t1 t2 : t1 ≡ₚ t2 -> pending_tags t1 ≡ₚ pending_tags t2.
Proof. apply omap_Permutation. Qed.

Lemma invoke_spec cb r st :
  answered (invoke cb r st).2 = omap tag_of [cb] /\ pending (invoke cb r st).1 = pending st /\
  alive (invoke cb r st).1 = alive st /\ localFd (invoke cb r st).1 = localFd st /\
  remoteFd (invoke cb r st).1 = remoteFd st /\ joinable (invoke cb r st).1 = joinable st /\
  omap (fun o => match o with OutCloseFd fd => Some fd | _ => None end) (invoke cb r st).2 = [].
Proof.
  destruct cb; simpl; [|done]. unfold hello_callback.
  destruct (r_ok r && _); simpl; [|done]. by destruct (onReady st).
Qed.

(** The descriptors closed by a list of outputs. *)
Definition closed_fds (outs : list Out) : list Z :=
  omap (fun o => match o with OutCloseFd fd => Some fd | _ => None end) outs.

Lemma closed_fds_app o1 o2 : closed_fds (o1 ++ o2) = closed_fds o1 ++ closed_fds o2.
Proof. apply omap_app. Qed.

(** Running callbacks changes neither the table nor the descriptors. *)
Lemma invoke_all_spec cbs r st st' o :
  invoke_all cbs r st = (st', o) ->
  answered o = omap tag_of cbs /\ pending st' = pending st /\ alive st' = alive st /\
  localFd st' = localFd st /\ remoteFd st' = remoteFd st /\ joinable st' = joinable st /\
  closed_fds o = [].
Proof.
  revert st st' o. induction cbs as [|cb cbs IH]; intros st st' o H; simpl in H; [by simplify_eq|].
  pose proof (invoke_spec cb r st) as Hi.
  destruct (invoke cb r st) as [st1 o1]. destruct (invoke_all cbs r st1) as [st2 o2] eqn:E.
  simplify_eq. apply IH in E. rewrite answered_app, closed_fds_app. simpl in *.
  destruct Hi as (-> & ? & ? & ? & ? & ? & Hc). destruct E as (-> & ? & ? & ? & ? & ? & ->).
  unfold closed_fds. rewrite Hc. split; [by destruct (tag_of cb)|].
  repeat split; congruence || done.
Qed.

Lemma runnable_tags (ps : list (Z * Pending Callback)) :
  omap tag_of (runnable (map snd ps)) = pending_tags ps.
Proof.
  unfold runnable, pending_tags. induction ps as [|[k [[cb|] d]] ps IH]; simpl; [done| |done].
  destruct (tag_of cb); simpl; [f_equal|]; exact IH.
Qed.

Lemma fail_all_pending_spec code msg st st' o :
  fail_all_pending code msg st = (st', o) ->
  answered o = pending_tags (pending st) /\ pending st' = [] /\ alive st' = alive st /\
  localFd st' = localFd st /\ remoteFd st' = remoteFd st /\ joinable st' = joinable st /\
  closed_fds o = [].
Proof.
  unfold fail_all_pending, fail_all. intros H. apply invoke_all_spec in H.
  by rewrite runnable_tags in H.
Qed.

Lemma filter_split_tags (f : Z * Pending Callback -> bool) tbl :
  pending_tags (List.filter f tbl) ++ pending_tags (List.filter (fun x => negb (f x)) tbl)
  ≡ₚ pending_tags tbl.
Proof.
  unfold pending_tags. rewrite <- omap_app. apply omap_Permutation.
  induction tbl as [|x tbl IH]; simpl; [done|]. destruct (f x); simpl.
  - by rewrite IH.
  - rewrite <- Permutation_middle. by rewrite IH.
Qed.

Lemma sweep_conserves now st st' o :
  sorted (pending st) -> ControlChannel.sweep_timeouts now st = (st', o) ->
  sorted (pending st') /\ alive st' = alive st /\ localFd st' = localFd st /\
  remoteFd st' = remoteFd st /\ closed_fds o = [] /\
  answered o ++ pending_tags (pending st') ≡ₚ pending_tags (pending st).
Proof.
  unfold ControlChannel.sweep_timeouts. intros Hs H.
  pose proof (sweep_sorted now (pending st) Hs) as Hs'.
  destruct (PendingRequestTable.sweep_timeouts now (pending st)) as [cbs tbl] eqn:E.
  apply invoke_all_spec in H as (Ho & Hp & Ha & Hl & Hr & _ & Hc).
  unfold PendingRequestTable.sweep_timeouts in E. rewrite sweep_loop_spec in E. simplify_eq.
  simpl in *. rewrite Ho, Hp, runnable_tags. split; [done|]. do 4 (split; [done|]).
  apply filter_split_tags.
Qed.

Lemma take_perm key (tbl tbl' : list (Z * Pending Callback)) cb :
  sorted tbl -> take key tbl = (cb, tbl') ->
  omap tag_of (option_list cb) ++ pending_tags tbl' ≡ₚ pending_tags tbl.
Proof.
  unfold take. intros Hs H. destruct (find key tbl) as [p|] eqn:E; simplify_eq; [|done].
  rewrite (pending_tags_perm _ _ (erase_perm _ _ _ Hs E)). unfold pending_tags at 2. simpl.
  destruct (p_callback p) as [cb|]; simpl; [|done]. by destruct (tag_of cb).
Qed.

Lemma dispatch_conserves now h payload st st' o :
  sorted (pending st) -> dispatch now h payload st = (st', o) ->
  sorted (pending st') /\ alive st' = alive st /\ localFd st' = localFd st /\
  remoteFd st' = remoteFd st /\ closed_fds o = [] /\
  answered o ++ pending_tags (pending st') ≡ₚ pending_tags (pending st).
Proof.
  unfold dispatch. intros Hs H. destruct (fh_requestId h =? 0).
  { simplify_eq. by destruct (onEvent st'). }
  pose proof (take_sorted (fh_requestId h) _ Hs) as Hs1.
  destruct (take (fh_requestId h) (pending st)) as [cb tbl] eqn:Et.
  pose proof (take_perm _ _ _ _ Hs Et) as Hp. simpl in Hs1. destruct cb as [cb|]; [|by simplify_eq].
  pose proof (invoke_spec cb (response_of h payload) (set_pending st tbl)) as Hi.
  destruct (invoke _ _ _) as [st1 o1].
  destruct (ControlChannel.sweep_timeouts now st1) as [st2 o2] eqn:Ew.
  simplify_eq. simpl in Hi. destruct Hi as (Ho1 & Hp1 & Ha1 & Hl1 & Hr1 & _ & Hc1).
  apply sweep_conserves in Ew as (Hs2 & Ha2 & Hl2 & Hr2 & Hc2 & Hperm); [|by rewrite Hp1].
  split; [done|]. split; [congruence|]. split; [congruence|]. split; [congruence|].
  rewrite closed_fds_app, answered_app. unfold closed_fds at 1. rewrite Hc1, Hc2. split; [done|].
  rewrite <- app_assoc, Hperm, Hp1, Ho1. simpl in Hp |- *. by destruct (tag_of cb).
Qed.

(** The invariant of the reader loop: the table stays well formed, and the
    callbacks that ran together with those still pending are exactly those that
    were pending at the start. *)
Lemma reader_loop_conserves turns env st st' o env' b :
  sorted (pending st) -> reader_loop turns env st = (st', o, env', b) ->
  sorted (pending st') /\ localFd st' = localFd st /\ remoteFd st' = remoteFd st /\
  closed_fds o = [] /\
  answered o ++ pending_tags (pending st') ≡ₚ pending_tags (pending st).
Proof.
  revert env st st' o env' b.
  induction turns as [|tn turns IH]; intros env st st' o env' b Hs H; simpl in H; [by simplify_eq|].
  destruct (t_stop tn); [by simplify_eq|].
  assert (forall st1 o1 env1, sorted (pending st1) /\ alive st1 = alive st /\
      localFd st1 = localFd st /\ remoteFd st1 = remoteFd st /\ closed_fds o1 = [] /\
      answered o1 ++ pending_tags (pending st1) ≡ₚ pending_tags (pending st) ->
    (let '(st2, o2, env2, b) := reader_loop turns env1 st1 in (st2, o1 ++ o2, env2, b)) =
      (st', o, env', b) ->
    sorted (pending st') /\ localFd st' = localFd st /\ remoteFd st' = remoteFd st /\
    closed_fds o = [] /\ answered o ++ pending_tags (pending st') ≡ₚ pending_tags (pending st))
    as Hstep.
  { intros st1 o1 env1 (Hs1 & _ & Hl1 & Hr1 & Hc1 & Hp1) H1.
    destruct (reader_loop turns env1 st1) as [[[st2 o2] env2] b2] eqn:E. simplify_eq.
    destruct (IH _ _ _ _ _ _ Hs1 E) as (Hs2 & Hl2 & Hr2 & Hc2 & Hp2).
    split; [done|]. split; [congruence|]. split; [congruence|].
    rewrite closed_fds_app, answered_app, Hc1, Hc2. split; [done|].
    by rewrite <- app_assoc, Hp2, Hp1. }
  destruct (t_poll tn); [|by eapply IH| by simplify_eq|by eapply IH|].
  - destruct (ControlChannel.sweep_timeouts (t_now tn) st) as [st1 o1] eqn:E.
    eapply Hstep; [|exact H]. by eapply sweep_conserves.
  - destruct (read_frame env) as [[[h payload]|] env1]; [|by simplify_eq].
    destruct (dispatch (t_now tn) h payload st) as [st1 o1] eqn:E.
    eapply Hstep; [|exact H]. by eapply dispatch_conserves.
Qed.

Lemma reader_exit_spec stop st st' o :
  reader_exit stop st = (st', o) ->
  answered o = pending_tags (pending st) /\ pending st' = [] /\ alive st' = false /\
  localFd st' = localFd st /\ remoteFd st' = remoteFd st /\ closed_fds o = [] /\
  (OutClosed ∈ o <-> onClosed st = true /\ stop = false).
Proof.
  unfold reader_exit. intros H.
  destruct (fail_all_pending _ _ _) as [st1 o1] eqn:E.
  assert (OutClosed ∉ o1) as Hno.
  { unfold fail_all_pending in E. destruct (fail_all _) as [cbs tbl].
    clear -E. revert E. generalize (set_pending (set_flags st false false (stopRequested st)) tbl).
    revert o1. induction cbs as [|cb cbs IH]; intros o1 s H; simpl in H; simplify_eq.
    { apply not_elem_of_nil. }
    destruct (invoke cb _ s) as [sa oa] eqn:Ei. destruct (invoke_all cbs _ sa) as [sb ob] eqn:Ea.
    simplify_eq. rewrite not_elem_of_app. split; [|by eapply IH].
    destruct cb; simpl in Ei; simplify_eq; [|set_solver].
    unfold hello_callback in Ei. destruct (_ && _); [|simplify_eq; set_solver].
    destruct (onReady s); simplify_eq; set_solver. }
  apply fail_all_pending_spec in E as (Ho & Hp & Ha & Hl & Hr & _ & Hc). simplify_eq.
  rewrite answered_app, closed_fds_app, Ho, Hc, Hp, Ha, Hl, Hr. simpl.
  destruct (onClosed st), stop; simpl; rewrite ?app_nil_r; repeat split;
    try done; try (intros [? ?]; done); try (intros ?; set_solver).
Qed.

(** For any byte stream and any way the loop is driven, the reader thread
    loses no callback and runs none twice: what it answered together with what is
    still pending is what was pending before; and once the thread has ended, every
    request pending at its start has been answered exactly once, the table is
    empty and the channel is dead. *)
Theorem reader_thread_exactly_once turns env stop st st' o env' finished :
  sorted (pending st) ->
  reader_thread turns env stop st = (st', o, env', finished) ->
  sorted (pending st') /\
  answered o ++ pending_tags (pending st') ≡ₚ pending_tags (pending st) /\
  (finished = true ->
     pending st' = [] /\ alive st' = false /\ answered o ≡ₚ pending_tags (pending st)).
Proof.
  unfold reader_thread. intros Hs H.
  destruct (reader_loop turns env st) as [[[st1 o1] env1] fin] eqn:E.
  apply reader_loop_conserves in E as (Hs1 & _ & _ & _ & Hp1); [|done].
  destruct fin; [|by simplify_eq].
  destruct (reader_exit stop st1) as [st2 o2] eqn:E2. simplify_eq.
  apply reader_exit_spec in E2 as (Ho & Hp & Ha & _).
  rewrite answered_app, Hp, Ho, app_nil_r, Hp1. split; [constructor|]. done.
Qed.

(** A table with two callers' requests and the HELLO lambda, and a peer that
    answers the second and then sends a header with a bad magic. *)
Definition demo_state : t :=
  set_requests (set_flags (set_callbacks (set_fds init 5 6) true true true) true true false) 4
    (add 3 (Some (CbUser 30)) 5000 0 (add 2 (Some (CbUser 20)) 5000 0
       (add 1 (Some CbHello) 30000 0 []))).

Definition demo_env : list rd_event :=
  let f := frame_bytes (type_code kDisplayRemoveOk) 3 [] in
  [RdChunk (firstn 5 f); RdIntr; RdChunk (drop 5 f ++ bstr "garbage-garbage-garbage")].

Definition demo_turns : list turn :=
  [ {| t_stop := false; t_poll := PollIn; t_now := 10 |};
    {| t_stop := false; t_poll := PollIn; t_now := 11 |} ].

Lemma reader_thread_exactly_once_witness :
  let '(st', o, _, finished) := reader_thread demo_turns demo_env false demo_state in
  finished = true /\ answered o = [30; 20] /\ pending st' = [] /\
  answered o ≡ₚ pending_tags (pending demo_state).
Proof.
  destruct (reader_thread demo_turns demo_env false demo_state) as [[[st' o] env'] fin] eqn:E.
  assert (sorted (pending demo_state)) as Hs by (repeat apply assign_sorted; constructor).
  destruct (reader_thread_exactly_once _ _ _ _ _ _ _ _ Hs E) as (_ & _ & H).
  vm_compute in E. injection E as <- <- <- <-. destruct (H eq_refl) as (_ & _ & Hp).
  split; [reflexivity|]. split; [reflexivity|]. split; [reflexivity|exact Hp].
Defined.

(** Joining the reader answers what it answers and fails the rest. *)
Lemma join_reader_spec turns env st st' o :
  sorted (pending st) -> join_reader turns env st = (st', o) ->
  localFd st' = localFd st /\ remoteFd st' = remoteFd st /\ closed_fds o = [] /\
  answered o ++ pending_tags (pending st') ≡ₚ pending_tags (pending st).
Proof.
  unfold join_reader. intros Hs H. destruct (joinable st); [|by simplify_eq].
  destruct (reader_loop turns env st) as [[[sa oa] ea] ba] eqn:Ea.
  destruct (reader_exit true sa) as [sb ob] eqn:Eb.
  apply reader_loop_conserves in Ea as (_ & Hla & Hra & Hca & Hpa); [|done].
  apply reader_exit_spec in Eb as (Hob & Hpb & _ & Hlb & Hrb & Hcb & _). simplify_eq. simpl.
  rewrite closed_fds_app, answered_app, Hca, Hcb, Hob, Hpb.
  split; [congruence|]. split; [congruence|]. split; [done|]. simpl. by rewrite app_nil_r, Hpa.
Qed.

Lemma close_fds_spec st st1 o1 st2 o2 :
  close_local_fd st = (st1, o1) -> close_remote_fd st1 = (st2, o2) ->
  localFd st2 < 0 /\ remoteFd st2 < 0 /\ pending st2 = pending st /\
  answered (o1 ++ o2) = [] /\
  closed_fds (o1 ++ o2) = (if 0 <=? localFd st then [localFd st] else []) ++
                          (if 0 <=? remoteFd st then [remoteFd st] else []).
Proof.
  unfold close_local_fd, close_remote_fd. intros H1 H2.
  destruct (0 <=? localFd st) eqn:El; simplify_eq; simpl in *;
    destruct (0 <=? remoteFd _) eqn:Er; simplify_eq; simpl; bool_to_prop; repeat split; done || lia.
Qed.

(** [stop] releases everything: each descriptor that was open is closed
    exactly once and no other is, the channel is dead and not ready, the pending
    table is empty, and every callback that was pending has run exactly once,
    whatever the reader thread still did while it was being joined. *)
Theorem stop_releases turns env st st' o :
  sorted (pending st) -> stop turns env st = (st', o) ->
  localFd st' < 0 /\ remoteFd st' < 0 /\ alive st' = false /\ ready st' = false /\
  pending st' = [] /\ answered o ≡ₚ pending_tags (pending st) /\
  closed_fds o = (if 0 <=? localFd st then [localFd st] else []) ++
                 (if 0 <=? remoteFd st then [remoteFd st] else []).
Proof.
  unfold stop. intros Hs H.
  destruct (join_reader _ _ _) as [st1 o1] eqn:E1.
  apply join_reader_spec in E1 as (Hl1 & Hr1 & Hc1 & Hp1); [|done]. simpl in *.
  destruct (close_local_fd st1) as [st2 o2] eqn:E2.
  destruct (close_remote_fd st2) as [st3 o3] eqn:E3.
  destruct (close_fds_spec _ _ _ _ _ E2 E3) as (Hl3 & Hr3 & Hp3 & Ha3 & Hc3).
  destruct (fail_all_pending _ _ st3) as [st4 o4] eqn:E4.
  apply fail_all_pending_spec in E4 as (Ho4 & Hp4 & _ & Hl4 & Hr4 & _ & Hc4). simplify_eq. simpl.
  rewrite (app_assoc o2), !answered_app, !closed_fds_app, <- answered_app, <- closed_fds_app.
  rewrite Ha3, Hc1, Hc3, Hc4, Ho4, Hp3, Hl1, Hr1, app_nil_r.
  split; [lia|]. split; [lia|]. done.
Qed.

Lemma stop_releases_witness :
  let st := set_joinable demo_state true in
  let '(st', o) := stop [] [] st in
  localFd st' = -1 /\ closed_fds o = [5; 6] /\ answered o = [20; 30] /\ pending st' = [].
Proof.
  assert (sorted (pending (set_joinable demo_state true))) as Hs
    by (repeat apply assign_sorted; constructor).
  destruct (stop [] [] (set_joinable demo_state true)) as [st' o] eqn:E.
  pose proof (stop_releases _ _ _ _ _ Hs E) as (_ & _ & _ & _ & Hp & _ & Hc).
  vm_compute in E. injection E as <- <-. vm_compute in Hp, Hc |- *.
  repeat split; exact Hp || exact Hc || reflexivity.
Defined.

(** Every branch of [request]. On a dead channel nothing is sent and the
    callback fails at once. On a live one either the whole frame, carrying the
    next request id, is on the socket and the callback is registered under that
    id with its deadline, or the frame was cut short, the callback has failed and
    the table is as before. In no case is the callback both run and registered. *)
Theorem request_outcomes type payload timeout now tag wenv st st' o sent :
  find (nextRequestId st) (pending st) = None ->
  request type payload timeout now (Some (CbUser tag)) wenv st = (st', o, sent) ->
  let id := nextRequestId st in
  let frame := frame_bytes (type_code type) id payload in
  (alive st = false /\ sent = [] /\ st' = st /\
     o = [OutResponse tag (failure kControlErrInternal (bstr "control channel not connected"))]) \/
  (alive st = true /\ nextRequestId st' = u32 (id + 1) /\
     ((sent = frame /\ o = [] /\ pending st' = add id (Some (CbUser tag)) timeout now (pending st)) \/
      (sent `prefix_of` frame /\ pending st' = pending st /\
       o = [OutResponse tag (failure kControlErrInternal (bstr "control channel write failed"))]))).
Proof.
  unfold request. intros Hfresh H. destruct (alive st) eqn:Ha; simpl in H;
    [right; split; [done|]|left; by simplify_eq].
  destruct (write_frame _ _ _ _ _) as [ok snt] eqn:Ew.
  apply write_frame_sends in Ew as (Hok & Hpre & _). destruct ok.
  - simplify_eq. split; [done|]. left. destruct (Hok eq_refl) as (-> & _). done.
  - unfold take, add in H. rewrite find_assign_eq in H. simpl in H.
    rewrite erase_assign in H by done. simplify_eq. split; [done|]. by right.
Qed.

Lemma request_outcomes_witness :
  let st := set_flags (set_fds init 5 6) true true false in
  let '(st', o, sent) := request kPing [] 5000 100 (Some (CbUser 7)) [WrOk 3; WrIntr; WrOk 99] st in
  find (nextRequestId st) (pending st) = None /\ o = [] /\
  sent = frame_bytes (type_code kPing) 1 [] /\ nextRequestId st' = 2.
Proof.
  set (st := set_flags (set_fds init 5 6) true true false).
  assert (find (nextRequestId st) (pending st) = None) as Hf by reflexivity.
  destruct (request kPing [] 5000 100 (Some (CbUser 7)) [WrOk 3; WrIntr; WrOk 99] st)
    as [[st' o] sent] eqn:E.
  pose proof (request_outcomes _ _ _ _ _ _ _ _ _ _ Hf E) as H.
  vm_compute in E. injection E as <- <- <-.
  destruct H as [(H & _)|(_ & Hn & [(Hs & Ho & _)|(_ & _ & Ho)])].
  - discriminate H.
  - split; [exact Hf|]. split; [exact Ho|]. split; [exact Hs|exact Hn].
  - discriminate Ho.
Defined.

(** Demultiplexing: a frame whose id no request waits for changes nothing
    and runs nothing (a late response after a timeout), an event never touches
    the table, and a response runs the callback registered under its id, first,
    with that response. *)
Theorem dispatch_demux now h payload st :
  (fh_requestId h = 0 ->
     (dispatch now h payload st).1 = st /\ answered (dispatch now h payload st).2 = []) /\
  (fh_requestId h <> 0 -> find (fh_requestId h) (pending st) = None ->
     pending (dispatch now h payload st).1 = pending st /\ (dispatch now h payload st).2 = []) /\
  (forall tag d, fh_requestId h <> 0 ->
     find (fh_requestId h) (pending st) = Some {| p_callback := Some (CbUser tag); p_deadlineMs := d |} ->
     exists o, (dispatch now h payload st).2 = OutResponse tag (response_of h payload) :: o).
Proof.
  unfold dispatch, take. split; [|split].
  - intros ->. simpl. by destruct (onEvent st).
  - intros H%Z.eqb_neq Hf. by rewrite H, Hf.
  - intros tag d H%Z.eqb_neq Hf. rewrite H, Hf. simpl.
    destruct (ControlChannel.sweep_timeouts now _) as [st2 o2]. by exists o2.
Qed.

Lemma dispatch_demux_witness :
  fh_requestId (frame_header (type_code kDisplayRemoveOk) 2 0) <> 0 /\
  exists o, (dispatch 10 (frame_header (type_code kDisplayRemoveOk) 2 0) [] demo_state).2 =
    OutResponse 20 (response_of (frame_header (type_code kDisplayRemoveOk) 2 0) []) :: o.
Proof.
  split; [discriminate|].
  apply (dispatch_demux 10 (frame_header (type_code kDisplayRemoveOk) 2 0) [] demo_state) with (d := 5000);
    [discriminate|reflexivity].
Defined.

Lemma read_frame_bad hdr rest env :
  rd_live env -> rd_bytes env = hdr ++ rest -> length hdr = wire_size ControlFrameHeader ->
  frame_acceptable (decode hdr) = false -> (read_frame env).1 = None.
Proof.
  intros Hl Hb Hlen Hbad.
  destruct (read_loop_live env (wire_size ControlFrameHeader) Hl) as (env1 & E1 & _).
  { rewrite Hb, length_app. lia. }
  rewrite Hb, take_app_length' in E1 by done.
  unfold read_frame, read_exact. by rewrite E1, Hbad.
Qed.

(** There is no resynchronisation on a corrupt stream: a header with a
    wrong magic, a wrong version or an oversized length ends the reader thread;
    no later byte is dispatched, the channel is dead and not ready, every pending
    request fails, and the shell is told unless it asked for the stop. *)
Theorem bad_frame_closes hdr rest env tn turns st st' o env' finished :
  sorted (pending st) -> rd_live env -> rd_bytes env = hdr ++ rest ->
  length hdr = wire_size ControlFrameHeader -> frame_acceptable (decode hdr) = false ->
  t_stop tn = false -> t_poll tn = PollIn ->
  reader_thread (tn :: turns) env false st = (st', o, env', finished) ->
  finished = true /\ alive st' = false /\ pending st' = [] /\
  answered o = pending_tags (pending st) /\ (OutClosed ∈ o <-> onClosed st = true).
Proof.
  intros Hs Hl Hb Hlen Hbad Hst Hpoll H. unfold reader_thread in H. simpl in H.
  rewrite Hst, Hpoll in H. pose proof (read_frame_bad _ _ _ Hl Hb Hlen Hbad) as Hn.
  destruct (read_frame env) as [r env1]. simpl in Hn. subst r.
  destruct (reader_exit false st) as [st2 o2] eqn:E. simplify_eq.
  apply reader_exit_spec in E as (Ho & Hp & Ha & _ & _ & _ & Hcl). naive_solver.
Qed.

Lemma bad_frame_closes_witness :
  let '(st', o, _, finished) :=
    reader_thread demo_turns [RdChunk (bstr "not a control frame header")] false demo_state in
  finished = true /\ answered o = [20; 30] /\ OutClosed ∈ o.
Proof.
  destruct (reader_thread demo_turns [RdChunk (bstr "not a control frame header")] false demo_state)
    as [[[st' o] env'] fin] eqn:E.
  assert (sorted (pending demo_state)) as Hs by (repeat apply assign_sorted; constructor).
  assert (rd_live [RdChunk (bstr "not a control frame header")]) as Hl by (split; [discriminate|exact I]).
  destruct (bad_frame_closes (bstr "not a control fr") (bstr "ame header") _
    {| t_stop := false; t_poll := PollIn; t_now := 10 |} _ _ _ _ _ _ Hs Hl eq_refl eq_refl eq_refl eq_refl eq_refl E) as (Hf & _ & _ & Ha & Hc).
  split; [exact Hf|]. split; [exact Ha|]. apply Hc. reflexivity.
Defined.

Lemma reader_loop_refines_dispatch_witness :
  let ms := [(1, (type_code kDisplayRemoveOk, 2, [])); (2, (type_code kEventBoot, 0, put32 7))] in
  let s := stream_of ms in
  exists env', reader_loop (in_turns ms) [RdChunk (firstn 3 s); RdIntr; RdChunk (drop 3 s)] demo_state =
    (dispatch_all ms demo_state, env', false) /\ rd_bytes env' = [].
Proof.
  cbv zeta.
  destruct (reader_loop_refines_dispatch
    [(1, (type_code kDisplayRemoveOk, 2, [])); (2, (type_code kEventBoot, 0, put32 7))]
    [RdChunk (firstn 3 (stream_of [(1, (type_code kDisplayRemoveOk, 2, [])); (2, (type_code kEventBoot, 0, put32 7))]));
     RdIntr; RdChunk (drop 3 (stream_of [(1, (type_code kDisplayRemoveOk, 2, [])); (2, (type_code kEventBoot, 0, put32 7))]))]
    [] demo_state) as (env' & E & _ & Hb).
  - repeat constructor; done.
  - repeat split; discriminate.
  - reflexivity.
  - exists env'. split; [exact E|exact Hb].
Defined.
