(* ===== verification/ControlChannelThreads.v ===== *)
(** The shell's control channel under concurrency: any number of caller threads
    inside [ControlChannel::request] against the reader thread, at the
    granularity of the code's atomic operations (an atomic load or store, or a
    whole critical section of the pending table's mutex). The relation [step] is
    one such operation by one thread; runs are its reflexive transitive closure. *)
From stdpp Require Import relations.
From S2P Require Import Prelude StdMap PendingTable ControlProtocol ControlChannel.

Module ControlChannelThreads.

(** Where a caller is inside [request]; the tag names its callback. *)
Inductive caller :=
  | Checked (tag : Z)          (* the first [alive()] returned true *)
  | Fetched (id tag : Z)       (* [nextRequestId_.fetch_add] done *)
  | Added (id tag : Z)         (* [pending_.add] done *)
  | Writing (id tag : Z)       (* [write_frame] found the channel alive *)
  | WriteFailed (id tag : Z).  (* [write_frame] returned false *)

Inductive reader :=
  | Running    (* in the loop *)
  | Dying      (* [alive_] stored false, [fail_all_pending] not yet run *)
  | Dead.      (* [fail_all_pending] done *)

Record world := {
  w_alive : bool;
  w_next : Z;                      (* nextRequestId_ *)
  w_table : list (Z * Z);          (* pending_: request id to callback tag *)
  w_callers : list caller;
  w_reader : reader;
  w_issued : list Z;               (* ghost: callbacks passed to [request] *)
  w_answered : list Z;             (* ghost: callbacks that have run *)
}.

Definition initial : world := {|
  w_alive := true; w_next := 1; w_table := []; w_callers := []; w_reader := Running;
  w_issued := []; w_answered := [] |}.

Definition set_callers (w : world) (cs : list caller) : world := {|
  w_alive := w_alive w; w_next := w_next w; w_table := w_table w; w_callers := cs;
  w_reader := w_reader w; w_issued := w_issued w; w_answered := w_answered w |}.

Definition answer (w : world) (tbl : list (Z * Z)) (cs : list caller) (tags : list Z) : world := {|
  w_alive := w_alive w; w_next := w_next w; w_table := tbl; w_callers := cs;
  w_reader := w_reader w; w_issued := w_issued w; w_answered := tags ++ w_answered w |}.

Definition issue (w : world) (tag : Z) (cs : list caller) (tags : list Z) : world := {|
  w_alive := w_alive w; w_next := w_next w; w_table := w_table w; w_callers := cs;
  w_reader := w_reader w; w_issued := tag :: w_issued w; w_answered := tags ++ w_answered w |}.

(** The steps of a caller that is inside [request]. *)
Inductive request_step (w : world) : world -> Prop :=
  (* request: [nextRequestId_.fetch_add(1)] *)
  | step_fetch tag l1 l2 : w_callers w = l1 ++ Checked tag :: l2 ->
      request_step w {| w_alive := w_alive w; w_next := u32 (w_next w + 1); w_table := w_table w;
                w_callers := l1 ++ Fetched (w_next w) tag :: l2; w_reader := w_reader w;
                w_issued := w_issued w; w_answered := w_answered w |}
  (* request: [pending_.add] *)
  | step_add id tag l1 l2 : w_callers w = l1 ++ Fetched id tag :: l2 ->
      request_step w {| w_alive := w_alive w; w_next := w_next w; w_table := assign id tag (w_table w);
                w_callers := l1 ++ Added id tag :: l2; w_reader := w_reader w;
                w_issued := w_issued w; w_answered := w_answered w |}
  (* write_frame: [if (localFd_ < 0 || !alive())] *)
  | step_write_begin id tag l1 l2 : w_callers w = l1 ++ Added id tag :: l2 -> w_alive w = true ->
      request_step w (set_callers w (l1 ++ Writing id tag :: l2))
  | step_write_reject id tag l1 l2 : w_callers w = l1 ++ Added id tag :: l2 ->
      request_step w (set_callers w (l1 ++ WriteFailed id tag :: l2))
  (* write_frame: the send loop *)
  | step_write_ok id tag l1 l2 : w_callers w = l1 ++ Writing id tag :: l2 ->
      request_step w (set_callers w (l1 ++ l2))
  | step_write_error id tag l1 l2 : w_callers w = l1 ++ Writing id tag :: l2 ->
      request_step w (set_callers w (l1 ++ WriteFailed id tag :: l2))
  (* request: [pending_.take(requestId)] after a failed write *)
  | step_take_failed id tag l1 l2 : w_callers w = l1 ++ WriteFailed id tag :: l2 ->
      request_step w (answer w (erase id (w_table w)) (l1 ++ l2) (option_list (find id (w_table w)))).

(** A step of any thread. *)
Inductive step (w : world) : world -> Prop :=
  (* request: [if (!alive())] *)
  | step_call_live tag : w_alive w = true ->
      step w (issue w tag (Checked tag :: w_callers w) [])
  | step_call_dead tag : w_alive w = false ->
      step w (issue w tag (w_callers w) [tag])
  | step_request w' : request_step w w' -> step w w'
  (* reader: [pending_.take(header.requestId)] *)
  | step_respond id : w_reader w = Running ->
      step w (answer w (erase id (w_table w)) (w_callers w) (option_list (find id (w_table w))))
  (* reader: [sweep_timeouts], whichever entries have expired *)
  | step_sweep (expired : Z -> bool) : w_reader w = Running ->
      step w (answer w (List.filter (fun kv => negb (expired kv.1)) (w_table w)) (w_callers w)
                (map snd (List.filter (fun kv => expired kv.1) (w_table w))))
  (* reader: [alive_.store(false)] *)
  | step_die : w_reader w = Running ->
      step w {| w_alive := false; w_next := w_next w; w_table := w_table w;
                w_callers := w_callers w; w_reader := Dying; w_issued := w_issued w;
                w_answered := w_answered w |}
  (* reader: [fail_all_pending] *)
  | step_fail_all : w_reader w = Dying ->
      step w {| w_alive := w_alive w; w_next := w_next w; w_table := [];
                w_callers := w_callers w; w_reader := Dead; w_issued := w_issued w;
                w_answered := map snd (w_table w) ++ w_answered w |}
  (* stop, after the join: [fail_all_pending] once more *)
  | step_stop : w_reader w = Dead ->
      step w (answer w [] (w_callers w) (map snd (w_table w))).

(** ** The invariant *)

Definition caller_id (c : caller) : option Z :=
  match c with
  | Checked _ => None
  | Fetched id _ | Added id _ | Writing id _ | WriteFailed id _ => Some id
  end.

(** Tags whose callback is not yet in the table. *)
Definition unregistered (c : caller) : option Z :=
  match c with Checked tag | Fetched _ tag => Some tag | _ => None end.

Definition is_checked (c : caller) : bool :=
  match c with Checked _ => true | _ => false end.

Definition occ (x : Z) (l : list Z) : nat := count_occ Z.eq_dec l x.

#[global] Arguments occ : simpl never.

Record inv (w : world) : Prop := {
  inv_sorted : sorted (w_table w);
  inv_next : 1 <= w_next w;
  inv_count : w_next w - 1 + Z.of_nat (length (List.filter is_checked (w_callers w)))
                <= Z.of_nat (length (w_issued w));
  inv_ids : Forall (fun id => id < w_next w) (omap caller_id (w_callers w));
  inv_keys : Forall (fun id => id < w_next w) (keys (w_table w));
  inv_distinct : NoDup (omap caller_id (w_callers w));
  inv_fetched : forall id tag, Fetched id tag ∈ w_callers w -> find id (w_table w) = None;
  inv_conserved : forall x, occ x (w_issued w) =
    (occ x (w_answered w) + occ x (map snd (w_table w)) + occ x (omap unregistered (w_callers w)))%nat;
  inv_alive : w_alive w = true <-> w_reader w = Running;
  inv_dead : w_reader w = Dead -> forall id, is_Some (find id (w_table w)) ->
    exists tag, Added id tag ∈ w_callers w \/ WriteFailed id tag ∈ w_callers w;
}.

(** The channel has seen fewer requests than there are request ids. *)
Definition few (w : world) : Prop := Z.of_nat (length (w_issued w)) < 2 ^ 32 - 1.

(** ** Lemmas on lists of callers *)

Lemma omap_mid {A B} (f : A -> option B) l1 c l2 :
  omap f (l1 ++ c :: l2) = omap f l1 ++ option_list (f c) ++ omap f l2.
Proof. rewrite omap_app. simpl. by destruct (f c). Qed.

Lemma occ_app x l1 l2 : occ x (l1 ++ l2) = (occ x l1 + occ x l2)%nat.
Proof. apply count_occ_app. Qed.

Lemma occ_cons x y l : occ x (y :: l) = (occ x [y] + occ x l)%nat.
Proof. exact (occ_app x [y] l). Qed.

Lemma occ_perm x l1 l2 : l1 ≡ₚ l2 -> occ x l1 = occ x l2.
Proof. intros H. by apply Permutation_count_occ. Qed.

Lemma occ_assign x id tag tbl : find id tbl = None ->
  occ x (map snd (assign id tag tbl)) = (occ x [tag] + occ x (map snd tbl))%nat.
Proof.
  intros H. rewrite (occ_perm x _ (map snd ((id, tag) :: tbl))).
  - simpl. apply occ_cons.
  - apply Permutation_map. by apply assign_perm.
Qed.

Lemma occ_erase x id (tbl : list (Z * Z)) : sorted tbl ->
  occ x (map snd tbl) =
    (occ x (option_list (find id tbl)) + occ x (map snd (erase id tbl)))%nat.
Proof.
  intros Hs. destruct (find id tbl) as [tag|] eqn:E; simpl.
  - rewrite (occ_perm x _ (map snd ((id, tag) :: erase id tbl))).
    + simpl. apply occ_cons.
    + apply Permutation_map. by apply erase_perm.
  - rewrite erase_not_in; [done|]. by apply find_None.
Qed.

Lemma occ_filter x (f : Z * Z -> bool) tbl :
  occ x (map snd tbl) =
    (occ x (map snd (List.filter f tbl)) + occ x (map snd (List.filter (fun kv => negb (f kv)) tbl)))%nat.
Proof.
  induction tbl as [|[k v] tbl IH]; simpl; [done|].
  rewrite (occ_cons x v (map snd tbl)), IH.
  destruct (f (k, v)); simpl; rewrite (occ_cons x v (map snd (List.filter _ tbl))); lia.
Qed.

Lemma keys_filter_Forall (P : Z -> Prop) (f : Z * Z -> bool) tbl :
  Forall P (keys tbl) -> Forall P (keys (List.filter f tbl)).
Proof.
  unfold keys. rewrite !Forall_map. intros H. rewrite Forall_forall in *.
  intros kv [Hin _]%list_elem_of_In%filter_In. apply H. by apply list_elem_of_In.
Qed.

Lemma mid_elem_of {A} (x c c' : A) l1 l2 :
  x ∈ l1 ++ c' :: l2 -> x = c' \/ x ∈ l1 ++ c :: l2.
Proof. rewrite !elem_of_app, !elem_of_cons. naive_solver. Qed.

Lemma mid_other {A} (x c : A) (l1 l2 : list A) : x ∈ l1 ++ c :: l2 -> x <> c -> x ∈ l1 ++ l2.
Proof.
  intros [H|[H|H]%elem_of_cons]%elem_of_app Hne; [|done|]; apply elem_of_app; auto.
Qed.

Lemma mid_incl {A} (x c : A) (l1 l2 : list A) : x ∈ l1 ++ l2 -> x ∈ l1 ++ c :: l2.
Proof. intros [H|H]%elem_of_app; apply elem_of_app; [by left|right; by right]. Qed.

(** A caller other than the one that moves is still there. *)
Lemma mid_swap {A} (x c c' : A) (l1 l2 : list A) : x ∈ l1 ++ c :: l2 -> x <> c -> x ∈ l1 ++ c' :: l2.
Proof. intros. by eapply mid_incl, mid_other. Qed.

(** ** Steps that only move one caller keep the invariant *)

(** A caller changes phase without changing its id, its registration status or
    the shared state. *)
Lemma inv_phase w c c' l1 l2 :
  inv w -> w_callers w = l1 ++ c :: l2 ->
  caller_id c' = caller_id c -> unregistered c' = unregistered c -> is_checked c' = is_checked c ->
  (forall id tag, c' <> Fetched id tag) ->
  (w_reader w = Dead -> forall id tag, c = Added id tag \/ c = WriteFailed id tag -> c' = WriteFailed id tag) ->
  inv (set_callers w (l1 ++ c' :: l2)).
Proof.
  intros [Hs Hn Hc Hi Hk Hd Hf Ho Ha Hdead] E Eid Eun Ech Hnf Hph.
  rewrite E in Hc, Hi, Hd, Hf, Ho, Hdead. constructor; simpl; try done.
  - rewrite List.filter_app, length_app in Hc |- *. simpl in Hc |- *. rewrite Ech.
    destruct (is_checked c); simpl in *; lia.
  - rewrite omap_mid, Eid, <- omap_mid. done.
  - rewrite omap_mid, Eid, <- omap_mid. done.
  - intros id tag [Hin|Hin]%(mid_elem_of _ c).
    + by destruct (Hnf id tag).
    + by apply (Hf id tag).
  - intros x. rewrite omap_mid, Eun, <- omap_mid. apply Ho.
  - intros HD id Hid. destruct (Hdead HD id Hid) as [tag Htag].
    exists tag. destruct Htag as [Hin|Hin];
      apply elem_of_app in Hin as [Hin|[Hin|Hin]%elem_of_cons].
    + left. apply elem_of_app. by left.
    + right. rewrite (Hph HD id tag) by naive_solver. apply elem_of_app. right. left.
    + left. apply elem_of_app. right. by right.
    + right. apply elem_of_app. by left.
    + right. rewrite (Hph HD id tag) by naive_solver. apply elem_of_app. right. left.
    + right. apply elem_of_app. right. by right.
Qed.

(** A caller leaves [request]: it was writing, or its entry is taken out. *)
Lemma inv_leave w c l1 l2 :
  inv w -> w_callers w = l1 ++ c :: l2 -> unregistered c = None ->
  (forall id tag, c = Added id tag \/ c = WriteFailed id tag -> find id (w_table w) = None) ->
  inv (set_callers w (l1 ++ l2)).
Proof.
  intros [Hs Hn Hc Hi Hk Hd Hf Ho Ha Hdead] E Eun Hgone.
  rewrite E in Hc, Hi, Hd, Hf, Ho, Hdead. rewrite omap_mid in Hi, Hd. constructor; simpl; try done.
  - rewrite List.filter_app, length_app in Hc |- *. simpl in Hc. destruct (is_checked c); simpl in Hc; lia.
  - rewrite omap_app. apply Forall_app in Hi as [H1 H2]. apply Forall_app in H2 as [_ H2].
    by apply Forall_app.
  - rewrite omap_app. eapply sublist_NoDup; [exact Hd|]. apply sublist_app; [done|].
    by apply sublist_inserts_l.
  - intros id tag Hin. by apply (Hf id tag), mid_incl.
  - intros x. rewrite Ho, omap_mid, Eun, omap_app. done.
  - intros HD id Hid. destruct (Hdead HD id Hid) as [tag Htag]. exists tag.
    assert (c <> Added id tag /\ c <> WriteFailed id tag) as [H1 H2].
    { split; intros ->; rewrite (Hgone id tag) in Hid by auto; by destruct Hid. }
    destruct Htag as [Hin|Hin]; [left|right]; (eapply mid_other; [exact Hin|done]).
Qed.

(** Taking an entry (or nothing) out of the table and running its callback. *)
Lemma inv_take w id : inv w ->
  inv (answer w (erase id (w_table w)) (w_callers w) (option_list (find id (w_table w)))).
Proof.
  intros [Hs Hn Hc Hi Hk Hd Hf Ho Ha Hdead]. constructor; simpl; try done.
  - by apply erase_sorted.
  - by apply erase_keys_Forall.
  - intros id' tag Hin. rewrite find_erase. by rewrite (Hf id' tag Hin), Tauto.if_same.
  - intros x. rewrite Ho, (occ_erase x id _ Hs), occ_app. lia.
  - intros HD id' Hid. apply (Hdead HD). rewrite find_erase in Hid.
    destruct (id' =? id); [by destruct Hid|done].
Qed.

Lemma inv_filter w (f : Z -> bool) : inv w ->
  inv (answer w (List.filter (fun kv => negb (f kv.1)) (w_table w)) (w_callers w)
         (map snd (List.filter (fun kv => f kv.1) (w_table w)))).
Proof.
  intros [Hs Hn Hc Hi Hk Hd Hf Ho Ha Hdead]. constructor; simpl; try done.
  - by apply filter_sorted.
  - by apply keys_filter_Forall.
  - intros id tag Hin. rewrite find_filter by done. by rewrite (Hf id tag Hin).
  - intros x. rewrite Ho, (occ_filter x (fun kv => f kv.1)), occ_app. lia.
  - intros HD id Hid. apply (Hdead HD). rewrite find_filter in Hid by done.
    destruct (find id (w_table w)); [done|by destruct Hid].
Qed.

Lemma inv_fetch w tag l1 l2 : inv w -> few w -> w_callers w = l1 ++ Checked tag :: l2 ->
  inv {| w_alive := w_alive w; w_next := u32 (w_next w + 1); w_table := w_table w;
         w_callers := l1 ++ Fetched (w_next w) tag :: l2; w_reader := w_reader w;
         w_issued := w_issued w; w_answered := w_answered w |}.
Proof.
  intros [Hs Hn Hc Hi Hk Hd Hf Ho Ha Hdead] Hfew E. unfold few in Hfew.
  rewrite E in Hc, Hi, Hd, Hf, Ho, Hdead. rewrite omap_mid in Hi, Hd. simpl in Hi, Hd.
  rewrite List.filter_app, length_app in Hc. simpl in Hc.
  assert (u32 (w_next w + 1) = w_next w + 1) as Hu by (apply u32_id; split; lia).
  rewrite <- omap_app in Hi, Hd.
  assert (find (w_next w) (w_table w) = None) as Hfresh.
  { apply find_None. intros Hin. rewrite Forall_forall in Hk. specialize (Hk _ Hin). lia. }
  constructor; simpl; rewrite ?Hu, ?omap_mid; try done.
  - lia.
  - rewrite List.filter_app, length_app. simpl. lia.
  - simpl. rewrite omap_app in Hi. rewrite Forall_app in *. destruct Hi as [H1 H2].
    split; [|constructor; [lia|]]; (eapply Forall_impl; [eassumption|simpl; lia]).
  - eapply Forall_impl; [exact Hk|simpl; lia].
  - simpl. rewrite <- Permutation_middle. constructor; [|by rewrite <- omap_app].
    intros Hin. rewrite <- omap_app in Hin. rewrite Forall_forall in Hi. specialize (Hi _ Hin). lia.
  - intros id tg [Hin|Hin]%(mid_elem_of _ (Checked tag)).
    + by simplify_eq.
    + by apply (Hf id tg).
  - intros x. rewrite Ho, omap_mid. done.
  - intros HD id Hid. destruct (Hdead HD id Hid) as [tg Htg]. exists tg.
    destruct Htg; [left|right]; (eapply mid_swap; [eassumption|done]).
Qed.

Lemma inv_add w id tag l1 l2 : inv w -> w_callers w = l1 ++ Fetched id tag :: l2 ->
  inv {| w_alive := w_alive w; w_next := w_next w; w_table := assign id tag (w_table w);
         w_callers := l1 ++ Added id tag :: l2; w_reader := w_reader w;
         w_issued := w_issued w; w_answered := w_answered w |}.
Proof.
  intros [Hs Hn Hc Hi Hk Hd Hf Ho Ha Hdead] E.
  rewrite E in Hc, Hi, Hd, Hf, Ho, Hdead. rewrite omap_mid in Hi, Hd. simpl in Hi, Hd.
  assert (find id (w_table w) = None) as Hfresh.
  { apply (Hf id tag), elem_of_app. right. left. }
  assert (id < w_next w) as Hid. { rewrite Forall_app, Forall_cons in Hi. by destruct Hi as (_ & ? & _). }
  constructor; simpl; rewrite ?omap_mid; try done.
  - by apply assign_sorted.
  - rewrite List.filter_app, length_app in *. done.
  - by apply assign_keys_Forall.
  - intros id' tg Hin.
    assert (Fetched id' tg ∈ l1 ++ l2) as Hin' by (by eapply mid_other).
    rewrite find_assign_ne; [by apply (Hf id' tg), mid_incl|]. intros ->.
    rewrite <- Permutation_middle in Hd. apply NoDup_cons in Hd as [Hnot _]. apply Hnot.
    rewrite <- omap_app. apply list_elem_of_omap. by exists (Fetched id tg).
  - intros x. rewrite Ho, omap_mid, (occ_assign x id tag _ Hfresh). simpl.
    rewrite !occ_app, (occ_cons x tag (omap unregistered l2)). lia.
  - intros HD id' Hid'. rewrite find_assign in Hid'. destruct (Z.eqb_spec id' id) as [Heq|Hne].
    + exists tag. rewrite Heq. left. apply elem_of_app. right. left.
    + destruct (Hdead HD id' Hid') as [tg Htg]. exists tg.
      destruct Htg; [left|right]; (eapply mid_swap; [eassumption|done]).
Qed.

(** ** The invariant holds in every run *)

Lemma step_few w w' : step w w' -> few w' -> few w.
Proof. unfold few. intros H. destruct H as [| |? []| | | | |]; simpl; lia. Qed.

Lemma inv_initial : inv initial.
Proof.
  constructor; simpl; try done; try constructor; try lia; try (intros; by apply not_elem_of_nil in H).
Qed.

Lemma inv_request_step w w' : inv w -> few w -> request_step w w' -> inv w'.
Proof.
  intros Hi Hfew H. destruct H.
  - by apply inv_fetch.
  - by apply inv_add.
  - (* write_begin *) eapply inv_phase; [exact Hi|eassumption|done..|].
    intros HD. destruct (inv_alive _ Hi) as [Ha _]. rewrite Ha in HD; done.
  - (* write_reject *) eapply inv_phase; [exact Hi|eassumption|done..|]. intros _ ?? [?|?]; by simplify_eq.
  - (* write_ok *) eapply inv_leave; [exact Hi|eassumption|done|]. by intros ?? [?|?].
  - (* write_error *) eapply inv_phase; [exact Hi|eassumption|done..|]. by intros _ ?? [?|?].
  - (* take_failed *) apply (inv_take _ id) in Hi.
    apply (inv_leave _ _ _ _ Hi H); [done|]. intros ?? [?|?]; simplify_eq. apply find_erase_eq.
Qed.

Lemma inv_step w w' : inv w -> few w' -> step w w' -> inv w'.
Proof.
  intros Hi Hfew H. pose proof (step_few _ _ H Hfew) as Hfw. destruct H.
  - (* call_live *) destruct Hi as [Hs Hn Hc Hi Hk Hd Hf Ho Ha Hdead]. constructor; simpl; try done.
    + lia.
    + intros id tg [?|Hin]%elem_of_cons; [done|by apply (Hf id tg)].
    + intros x. rewrite (occ_cons x tag (w_issued w)), Ho.
      pose proof (occ_app x [tag] (omap unregistered (w_callers w))) as Hocc.
      change (list_omap caller Z unregistered (w_callers w)) with (omap unregistered (w_callers w)).
      simpl in Hocc. lia.
    + intros HD. destruct Ha as [Ha _]. rewrite Ha in HD; done.
  - (* call_dead *) destruct Hi as [Hs Hn Hc Hi Hk Hd Hf Ho Ha Hdead]. constructor; simpl; try done.
    + lia.
    + intros x. rewrite (occ_cons x tag (w_issued w)), (occ_cons x tag (w_answered w)), Ho. lia.
  - by apply (inv_request_step w).
  - by apply inv_take.
  - by apply inv_filter.
  - (* die *) destruct Hi as [Hs Hn Hc Hi Hk Hd Hf Ho Ha Hdead]. by constructor.
  - (* fail_all *) destruct Hi as [Hs Hn Hc Hi Hk Hd Hf Ho Ha Hdead]. constructor; simpl; try done.
    + constructor.
    + intros x. rewrite Ho, occ_app. change (occ x []) with 0%nat. lia.
    + split; [|done]. intros Hal. apply Ha in Hal. congruence.
  - (* stop *) destruct Hi as [Hs Hn Hc Hi Hk Hd Hf Ho Ha Hdead]. constructor; simpl; try done.
    + constructor.
    + intros x. rewrite Ho, occ_app. change (occ x []) with 0%nat. lia.
Qed.

Lemma inv_reachable w : rtc step initial w -> few w -> inv w.
Proof.
  intros H. cut ((fun w => few w -> inv w) w); [done|]. revert w H.
  refine (rtc_ind_r (R := step) (fun w => few w -> inv w) initial _ _).
  - intros _. apply inv_initial.
  - intros y z _ Hyz IH Hfew. eapply inv_step; [|exact Hfew|exact Hyz].
    apply IH. by eapply step_few.
Qed.

(** With the reader gone and no caller left, nothing can still be pending. *)
Lemma quiescent_answered w :
  inv w -> w_reader w = Dead -> w_callers w = [] -> w_answered w ≡ₚ w_issued w.
Proof.
  intros [Hs Hn Hc Hi Hk Hd Hf Ho Ha Hdead] HD HC. assert (w_table w = []) as Ht.
  { apply sorted_ext; [done|constructor|]. intros k. simpl.
    destruct (find k (w_table w)) eqn:E; [|done].
    destruct (Hdead HD k) as [tg [Hin|Hin]]; [by eexists|..];
      rewrite HC in Hin; by apply not_elem_of_nil in Hin. }
  apply (Permutation_count_occ Z.eq_dec). intros x.
  specialize (Ho x). unfold occ in Ho. rewrite Ho, Ht, HC. simpl. lia.
Qed.

(** C30: under every interleaving of callers, responses, timeouts, write errors
    and the death of the reader thread, a callback passed to [request] runs at
    most once; and when the reader has ended and no caller is inside [request],
    it has run exactly once: no request is lost to the race between registering
    a callback and failing all of them. *)
Theorem callbacks_exactly_once w :
  rtc step initial w -> Z.of_nat (length (w_issued w)) < 2 ^ 32 - 1 ->
  (forall tag, (occ tag (w_answered w) <= occ tag (w_issued w))%nat) /\
  (w_reader w = Dead -> w_callers w = [] -> w_answered w ≡ₚ w_issued w).
Proof.
  intros Hr Hfew. pose proof (inv_reachable w Hr Hfew) as Hi. split.
  - intros tag. rewrite (inv_conserved w Hi tag). lia.
  - by apply quiescent_answered.
Qed.











(** A run of the race: a caller that passed the first [alive()] check registers
    its callback only after the reader has died and failed everything. *)
Definition race_mid : world := {|
  w_alive := false; w_next := 2; w_table := []; w_callers := [Fetched 1 7]; w_reader := Dead;
  w_issued := [7]; w_answered := [] |}.

Definition race_end : world := {|
  w_alive := false; w_next := 2; w_table := []; w_callers := []; w_reader := Dead;
  w_issued := [7]; w_answered := [7] |}.

Lemma race_mid_reachable : rtc step initial race_mid.
Proof.
  eapply rtc_l; [by apply (step_call_live initial 7)|].
  eapply rtc_l; [by apply step_request, (step_fetch _ 7 [] [])|].
  eapply rtc_l; [by apply step_die|]. eapply rtc_l; [by apply step_fail_all|]. apply rtc_refl.
Qed.

Lemma race_end_reachable : rtc step race_mid race_end.
Proof.
  eapply rtc_l; [by apply step_request, (step_add _ 1 7 [] [])|].
  eapply rtc_l; [by apply step_request, (step_write_reject _ 1 7 [] [])|].
  eapply rtc_l; [by apply step_request, (step_take_failed _ 1 7 [] [])|]. apply rtc_refl.
Qed.

Lemma callbacks_exactly_once_witness :
  rtc step initial race_end /\ w_answered race_end ≡ₚ [7].
Proof.
  assert (rtc step initial race_end) as Hr
    by (transitivity race_mid; [exact race_mid_reachable|exact race_end_reachable]).
  split; [exact Hr|].
  assert (Z.of_nat (length (w_issued race_end)) < 2 ^ 32 - 1) as Hb by (simpl; lia).
  destruct (callbacks_exactly_once race_end Hr Hb) as [_ H]. exact (H eq_refl eq_refl).
Defined.



End ControlChannelThreads.
