(* ===== verification/FrameChannel.v ===== *)
(** [shell/core/frame_consumer.{h,cpp}] and [shell/protocol/surface_metadata.h]:
    the shell's end of the frame channel, a shared-memory table of per-display
    seqlock slots with a datagram doorbell.

    The producer is another process whose code is not in the repository, so the
    shared mapping is a parameter: [mem t] is its content at time [t], and the
    consumer's [k]-th load of shared memory happens at time [L k]. Loads happen
    in program order, which is what the acquire load and the acquire fence of
    [read] ask for. What the documented producer discipline promises about
    [mem] is the hypothesis [seqlock_history]. *)
From S2P Require Import Prelude Text Posix ControlProtocol.

Module FrameConsumer.

(** ** Layout of the shared mapping *)

Definition kShmMagic : Z := 0x4d41434d5546524d.
Definition kShmVersion : Z := 2.
Definition kMacmuFrameSlotCount : Z := 16.

Record ShmHeader := {
  shm_magic : Z; shm_version : Z; shm_payloadOffset : Z; shm_slotCount : Z;
  shm_slotStride : Z; shm_reserved0 : Z; shm_reserved1 : Z }.

#[export, refine] Instance ShmHeader_wire : Wire ShmHeader := {|
  wire_size := 40;
  wire_wf h := is_u64 (shm_magic h) /\ is_u32 (shm_version h) /\ is_u32 (shm_payloadOffset h) /\
    is_u32 (shm_slotCount h) /\ is_u32 (shm_slotStride h) /\ is_u64 (shm_reserved0 h) /\
    is_u64 (shm_reserved1 h);
  encode h := put64 (shm_magic h) ++ put32 (shm_version h) ++ put32 (shm_payloadOffset h) ++
    put32 (shm_slotCount h) ++ put32 (shm_slotStride h) ++ put64 (shm_reserved0 h) ++
    put64 (shm_reserved1 h);
  decode bs := {| shm_magic := field 0 8 bs; shm_version := field 8 4 bs;
    shm_payloadOffset := field 12 4 bs; shm_slotCount := field 16 4 bs;
    shm_slotStride := field 20 4 bs; shm_reserved0 := field 24 8 bs;
    shm_reserved1 := field 32 8 bs |};
|}.
Proof. all: wire_laws. Defined.

(** One display's slot; the 16 bytes of padding are two words. *)
Record ShmDisplaySlot := {
  sl_seq : Z; sl_frame : Z; sl_iosurfaceId : Z; sl_width : Z; sl_height : Z; sl_dpi : Z;
  sl_pixelFormat : Z; sl_flags : Z; sl_timestampNs : Z; sl_pad0 : Z; sl_pad1 : Z }.

#[export, refine] Instance ShmDisplaySlot_wire : Wire ShmDisplaySlot := {|
  wire_size := 64;
  wire_wf s := is_u64 (sl_seq s) /\ is_u64 (sl_frame s) /\ is_u32 (sl_iosurfaceId s) /\
    is_u32 (sl_width s) /\ is_u32 (sl_height s) /\ is_u32 (sl_dpi s) /\
    is_u32 (sl_pixelFormat s) /\ is_u32 (sl_flags s) /\ is_u64 (sl_timestampNs s) /\
    is_u64 (sl_pad0 s) /\ is_u64 (sl_pad1 s);
  encode s := put64 (sl_seq s) ++ put64 (sl_frame s) ++ put32 (sl_iosurfaceId s) ++
    put32 (sl_width s) ++ put32 (sl_height s) ++ put32 (sl_dpi s) ++ put32 (sl_pixelFormat s) ++
    put32 (sl_flags s) ++ put64 (sl_timestampNs s) ++ put64 (sl_pad0 s) ++ put64 (sl_pad1 s);
  decode bs := {| sl_seq := field 0 8 bs; sl_frame := field 8 8 bs;
    sl_iosurfaceId := field 16 4 bs; sl_width := field 20 4 bs; sl_height := field 24 4 bs;
    sl_dpi := field 28 4 bs; sl_pixelFormat := field 32 4 bs; sl_flags := field 36 4 bs;
    sl_timestampNs := field 40 8 bs; sl_pad0 := field 48 8 bs; sl_pad1 := field 56 8 bs |};
|}.
Proof. all: wire_laws. Defined.

Definition totalSize : nat :=
  (wire_size ShmHeader + Z.to_nat kMacmuFrameSlotCount * wire_size ShmDisplaySlot)%nat.

(** [static_cast<ShmDisplaySlot*>(slots_) + display_id], read out of a mapping. *)
Definition slot_at (m : bytes) (id : Z) : ShmDisplaySlot :=
  decode (drop (wire_size ShmHeader + Z.to_nat id * wire_size ShmDisplaySlot) m).

Record SurfaceMetadata := {
  sm_displayId : Z; sm_iosurfaceId : Z; sm_width : Z; sm_height : Z; sm_frame : Z }.

(** ** The consumer object *)

Record t := {
  name_ : bytes; shmFd_ : Z; mapped_ : option Z; totalSize_ : nat;
  slots_ : option Z; doorbellFd_ : Z; producerDoorbellFd_ : Z;
  nextScanStart_ : Z; valid_ : bool }.

Definition init : t := {|
  name_ := []; shmFd_ := -1; mapped_ := None; totalSize_ := 0; slots_ := None;
  doorbellFd_ := -1; producerDoorbellFd_ := -1; nextScanStart_ := 0; valid_ := false |}.

Definition set_shm (st : t) (nm : bytes) (fd : Z) (mp : option Z) (sz : nat) (sl : option Z) : t :=
  {| name_ := nm; shmFd_ := fd; mapped_ := mp; totalSize_ := sz; slots_ := sl;
     doorbellFd_ := doorbellFd_ st; producerDoorbellFd_ := producerDoorbellFd_ st;
     nextScanStart_ := nextScanStart_ st; valid_ := valid_ st |}.

Definition set_doorbells (st : t) (c p : Z) : t :=
  {| name_ := name_ st; shmFd_ := shmFd_ st; mapped_ := mapped_ st; totalSize_ := totalSize_ st;
     slots_ := slots_ st; doorbellFd_ := c; producerDoorbellFd_ := p;
     nextScanStart_ := nextScanStart_ st; valid_ := valid_ st |}.

Definition set_next (st : t) (n : Z) : t :=
  {| name_ := name_ st; shmFd_ := shmFd_ st; mapped_ := mapped_ st; totalSize_ := totalSize_ st;
     slots_ := slots_ st; doorbellFd_ := doorbellFd_ st;
     producerDoorbellFd_ := producerDoorbellFd_ st; nextScanStart_ := n; valid_ := valid_ st |}.

Definition set_valid (st : t) (v : bool) : t :=
  {| name_ := name_ st; shmFd_ := shmFd_ st; mapped_ := mapped_ st; totalSize_ := totalSize_ st;
     slots_ := slots_ st; doorbellFd_ := doorbellFd_ st;
     producerDoorbellFd_ := producerDoorbellFd_ st; nextScanStart_ := nextScanStart_ st;
     valid_ := v |}.

(** ** Life cycle *)

(** What the methods do to the rest of the process, in order. *)
Inductive sys :=
  | SysShmOpen (path : bytes) (fd : Z)
  | SysMmap (addr : Z) (size : nat)
  | SysStore (addr : Z) (content : bytes)
  | SysSocketpair (fd0 fd1 : Z)
  | SysFdFlags (fd flags : Z)
  | SysSockBuf (fd : Z)
  | SysClose (fd : Z)
  | SysMunmap (addr : Z) (size : nat)
  | SysShmUnlink (path : bytes).

(** [snprintf] into a buffer of 64. *)
Definition frame_channel_name (wrapper_pid : Z) : bytes :=
  take 63 (bstr "macmu.frame." ++ dec wrapper_pid).

Definition shm_path (name : bytes) : bytes :=
  if bool_decide (SLASH ∈ name) then name else SLASH :: name.

Definition close_producer_doorbell_fd (st : t) : t * list sys :=
  if 0 <=? producerDoorbellFd_ st then
    (set_doorbells st (doorbellFd_ st) (-1), [SysClose (producerDoorbellFd_ st)])
  else (st, []).

Definition teardown (st : t) : t * list sys :=
  let '(st, o1) :=
    if 0 <=? doorbellFd_ st then
      (set_doorbells st (-1) (producerDoorbellFd_ st), [SysClose (doorbellFd_ st)])
    else (st, []) in
  let '(st, o2) := close_producer_doorbell_fd st in
  let '(st, o3) :=
    match mapped_ st with
    | Some a => (set_shm st (name_ st) (shmFd_ st) None (totalSize_ st) (slots_ st),
                 [SysMunmap a (totalSize_ st)])
    | None => (st, [])
    end in
  let '(st, o4) :=
    if 0 <=? shmFd_ st then
      (set_shm st (name_ st) (-1) (mapped_ st) (totalSize_ st) (slots_ st),
       [SysClose (shmFd_ st)])
    else (st, []) in
  let o5 := match name_ st with [] => [] | _ => [SysShmUnlink (shm_path (name_ st))] end in
  (set_valid st false, o1 ++ o2 ++ o3 ++ o4 ++ o5).

(** The kernel's answers to the calls of [create], in call order. *)
Record create_env := {
  ce_shm_open : Z; ce_ftruncate_ok : bool; ce_mmap : option Z;
  ce_socketpair : option (Z * Z);
  ce_getfd0 : Z; ce_setfd0 : bool; ce_getfd1 : Z; ce_setfd1 : bool }.

Definition header : ShmHeader := {|
  shm_magic := kShmMagic; shm_version := kShmVersion;
  shm_payloadOffset := Z.of_nat (wire_size ShmHeader); shm_slotCount := kMacmuFrameSlotCount;
  shm_slotStride := Z.of_nat (wire_size ShmDisplaySlot); shm_reserved0 := 0; shm_reserved1 := 0 |}.

(** The mapping after [memset] and the header stores. *)
Definition fresh_mapping : bytes :=
  encode header ++ replicate (totalSize - wire_size ShmHeader) Byte.x00.

Definition flags_effect (fd : Z) (r : bool * option Z) : list sys :=
  match r.2 with Some fl => [SysFdFlags fd fl] | None => [] end.

Definition create (env : create_env) (wrapper_pid : Z) (st0 : t) : bool * t * list sys :=
  let nm := frame_channel_name wrapper_pid in
  let path := shm_path nm in
  let fd := ce_shm_open env in
  let st := set_shm st0 nm fd (mapped_ st0) (totalSize_ st0) (slots_ st0) in
  if fd <? 0 then (false, st, []) else
  let st := set_shm st nm fd (mapped_ st) totalSize (slots_ st) in
  let o := [SysShmOpen path fd] in
  if negb (ce_ftruncate_ok env) then
    let '(st, o') := teardown st in (false, st, o ++ o') else
  match ce_mmap env with
  | None =>
      let '(st, o') := teardown (set_shm st nm fd None totalSize (slots_ st)) in
      (false, st, o ++ o')
  | Some a =>
      let st := set_shm st nm fd (Some a) totalSize (Some (a + Z.of_nat (wire_size ShmHeader))) in
      let o := o ++ [SysMmap a totalSize; SysStore a fresh_mapping] in
      match ce_socketpair env with
      | None => let '(st, o') := teardown st in (false, st, o ++ o')
      | Some (d0, d1) =>
          let st := set_doorbells st d0 d1 in
          let o := o ++ [SysSocketpair d0 d1] in
          let r0 := set_close_on_exec (ce_getfd0 env) (ce_setfd0 env) true in
          let o := o ++ flags_effect d0 r0 in
          if negb r0.1 then let '(st, o') := teardown st in (false, st, o ++ o') else
          let r1 := set_close_on_exec (ce_getfd1 env) (ce_setfd1 env) true in
          let o := o ++ flags_effect d1 r1 in
          if negb r1.1 then let '(st, o') := teardown st in (false, st, o ++ o') else
          (true, set_valid st true, o ++ [SysSockBuf d0; SysSockBuf d1])
      end
  end.

(** ** The doorbell *)

(** The answers of successive [recv]s; with none left the socket is empty and
    [recv] fails with EAGAIN. *)
Inductive recv_event := RecvBytes (n : nat) | RecvIntr | RecvErr.

(** What is left to receive afterwards. *)
Fixpoint drain_notifications (q : list recv_event) : list recv_event :=
  match q with
  | [] => []
  | RecvBytes (S _) :: q' => drain_notifications q'
  | RecvBytes O :: q' => q'
  | RecvIntr :: q' => drain_notifications q'
  | RecvErr :: q' => q'
  end.

(** [reset_slots]: the bytes of the slot table in the mapping become zero. *)
Definition reset_slots (q : list recv_event) (m : bytes) (st : t) : bytes * list recv_event :=
  match valid_ st, slots_ st with
  | true, Some _ =>
      (take (wire_size ShmHeader) m ++
         replicate (Z.to_nat kMacmuFrameSlotCount * wire_size ShmDisplaySlot) Byte.x00,
       drain_notifications q)
  | _, _ => (m, q)
  end.

(** ** Reading slots *)

Section Reading.
Context (mem : nat -> bytes) (L : nat -> nat).

(** The slot as the [k]-th load sees it. *)
Definition slot_now (id : Z) (k : nat) : ShmDisplaySlot := slot_at (mem (L k)) id.

(** The retry loop of [read]: what it stores to [out], what it returns, and the
    number of the next load. *)
Fixpoint read_attempts (attempts : nat) (id : Z) (k : nat) : option SurfaceMetadata * bool * nat :=
  match attempts with
  | O => (None, false, k)
  | S n =>
      let s0 := sl_seq (slot_now id k) in
      if negb (Z.land s0 1 =? 0) then read_attempts n id (k + 1)
      else
        let iosurfaceId := sl_iosurfaceId (slot_now id (k + 1)) in
        let width := sl_width (slot_now id (k + 2)) in
        let height := sl_height (slot_now id (k + 3)) in
        let frame := sl_frame (slot_now id (k + 4)) in
        let s1 := sl_seq (slot_now id (k + 5)) in
        if s0 =? s1 then
          (Some {| sm_displayId := id; sm_iosurfaceId := iosurfaceId; sm_width := width;
                   sm_height := height; sm_frame := frame |}, negb (frame =? 0), (k + 6)%nat)
        else read_attempts n id (k + 6)
  end.

Definition read (st : t) (display_id : Z) (k : nat) : option SurfaceMetadata * bool * nat :=
  if negb (valid_ st) || (kMacmuFrameSlotCount <=? display_id) then (None, false, k)
  else read_attempts 8 display_id k.

Definition last_frame (last_frames : list Z) (id : Z) : Z := last_frames !!! Z.to_nat id.

(** The [for] loop of [scan_slots] from [offset], with [n] iterations left. *)
Fixpoint scan_loop (n : nat) (st : t) (last_frames : list Z) (start offset : Z) (k : nat)
    : option Z * t * nat :=
  match n with
  | O => (None, st, k)
  | S n' =>
      let id := (start + offset) mod kMacmuFrameSlotCount in
      let '(meta, ok, k') := read st id k in
      let frame := match meta with Some m => sm_frame m | None => 0 end in
      if ok && negb (frame =? 0) && negb (frame =? last_frame last_frames id) then
        (Some id, set_next st ((id + 1) mod kMacmuFrameSlotCount), k')
      else scan_loop n' st last_frames start (offset + 1) k'
  end.

Definition scan_slots (st : t) (last_frames : list Z) (k : nat) : option Z * t * nat :=
  scan_loop (Z.to_nat kMacmuFrameSlotCount) st last_frames
    (nextScanStart_ st mod kMacmuFrameSlotCount) 0 k.

(** What one [poll] of the doorbell reports: readable, with what the drain then
    receives (what it leaves is up to the next poll to report); some other event bit; a timeout; EINTR; another error. It may
    depend on the timeout that was passed. *)
Inductive poll_event :=
  | PollIn (queued : list recv_event) | PollOther | PollTimeout | PollIntr | PollErr.

Context (now : nat -> Z) (polls : nat -> Z -> poll_event).

(** What a wait does, in order: a reading of the clock, a poll with its timeout and
    answer, a scan with the loads it begins and ends at. *)
Inductive wait_event :=
  | EvNow (ms : Z) | EvPoll (timeout : Z) (answer : poll_event) | EvScan (from to : nat).

(** The result of a wait, with what it did. *)
Definition waited : Type := option Z * t * nat * list wait_event.

(** [return scan_slots(...)], after [done]. *)
Definition final_scan (done : list wait_event) (st : t) (last_frames : list Z) (k : nat) : waited :=
  let '(res, st', k') := scan_slots st last_frames k in (res, st', k', done ++ [EvScan k k']).

(** The [do ... while] of [wait_for_any_frame] and the scan after it; [c]
    counts the clock readings and [p] the polls. [None] is out of fuel. *)
Fixpoint wait_loop (fuel : nat) (done : list wait_event) (st : t) (last_frames : list Z) (deadline : Z)
    (k c p : nat) : option waited :=
  match fuel with
  | O => None
  | S f =>
      let again done st k :=
        let done := done ++ [EvNow (now (c + 1))] in
        if now (c + 1)%nat <? deadline then wait_loop f done st last_frames deadline k (c + 2) (p + 1)
        else Some (final_scan done st last_frames k) in
      let done := done ++ [EvNow (now c)] in
      if deadline <=? now c then Some (final_scan done st last_frames k) else
      let timeout := s32 (u64 (deadline - now c)) in
      let done := done ++ [EvPoll timeout (polls p timeout)] in
      match polls p timeout with
      | PollIn queued =>
          let _rest := drain_notifications queued in
          match final_scan done st last_frames k with
          | (Some id, st', k', done') => Some (Some id, st', k', done')
          | (None, st', k', done') => again done' st' k'
          end
      | PollTimeout => Some (final_scan done st last_frames k)
      | PollIntr => again done st k
      | PollOther | PollErr => Some (final_scan done st last_frames k)
      end
  end.

Definition wait_for_any_frame (fuel : nat) (st : t) (last_frames : list Z) (timeout_ms : Z) : option waited :=
  if negb (valid_ st) then Some (None, st, O, []) else
  match final_scan [] st last_frames 0 with
  | (Some id, st', k', done) => Some (Some id, st', k', done)
  | (None, st', k', done) =>
      wait_loop fuel (done ++ [EvNow (now 0)]) st' last_frames (u64 (now 0 + timeout_ms)) k' 1 0
  end.
End Reading.

(** ** The producer's discipline *)

(** The fields [read] takes out of a slot. *)
Definition payload (s : ShmDisplaySlot) : Z * Z * Z * Z :=
  (sl_iosurfaceId s, sl_width s, sl_height s, sl_frame s).

(** The documented seqlock discipline for one slot: [c] counts the producer's
    increments of [seq], and the payload changes only while [c] is odd. *)
Record seqlock_history (mem : nat -> bytes) (id : Z) (c : nat -> Z) : Prop := {
  sh_seq : forall t, sl_seq (slot_at (mem t) id) = u64 (c t);
  sh_step : forall t, c (S t) = c t \/ c (S t) = c t + 1;
  sh_payload : forall t, payload (slot_at (mem (S t)) id) <> payload (slot_at (mem t) id) ->
    Z.odd (c t) = true /\ c (S t) = c t }.

Lemma land_1 z : (Z.land z 1 =? 0) = Z.even z.
Proof.
  change 1 with (Z.ones 1). rewrite Z.land_ones, Zmod_even by lia. by destruct (Z.even z).
Qed.

Lemma even_u64 z : Z.even (u64 z) = Z.even z.
Proof.
  unfold u64. rewrite (Z.div_mod z (2 ^ 64)) at 2 by lia.
  rewrite Z.even_add, Z.even_mul. simpl. by destruct (Z.even (z mod _)).
Qed.

#[local] Opaque slot_at.

Section Discipline.
Context (mem : nat -> bytes) (id : Z) (c : nat -> Z) (H : seqlock_history mem id c).

Lemma count_mono a b : (a <= b)%nat -> c a <= c b.
Proof.
  induction 1 as [|b ? IH]; [lia|]. destruct (sh_step _ _ _ H b); lia.
Qed.

(** Between two times with the same even count the payload does not change. *)
Lemma payload_stable a b x :
  (a <= x <= b)%nat -> c a = c b -> Z.even (c a) = true ->
  payload (slot_at (mem x) id) = payload (slot_at (mem a) id).
Proof.
  intros [Hax Hxb] Hc He. induction Hax as [|x Hax IH]; [done|].
  rewrite <- IH by lia.
  destruct (decide (payload (slot_at (mem (S x)) id) = payload (slot_at (mem x) id)))
    as [|Hne]; [done|].
  apply (sh_payload _ _ _ H) in Hne as [Ho Hs].
  pose proof (count_mono a x Hax). pose proof (count_mono (S x) b Hxb).
  assert (c x = c a) as Hx by lia. rewrite Hx, <- Z.negb_even, He in Ho. done.
Qed.

(** Equal 64-bit samples are equal counts when fewer than 2^64 increments lie
    between them. *)
Lemma count_eq a b :
  (a <= b)%nat -> c b - c a < 2 ^ 64 ->
  sl_seq (slot_at (mem a) id) = sl_seq (slot_at (mem b) id) -> c a = c b.
Proof.
  intros Hab Hlt. rewrite !(sh_seq _ _ _ H). unfold u64. intros E.
  pose proof (count_mono a b Hab).
  assert ((c b - c a) mod 2 ^ 64 = 0) as Hm.
  { rewrite Zminus_mod, E, Z.sub_diag. done. }
  rewrite Z.mod_small in Hm by lia. lia.
Qed.
End Discipline.

Lemma read_attempts_snapshot mem L id c n k m ok k' :
  (forall a b, (a <= b)%nat -> (L a <= L b)%nat) ->
  seqlock_history mem id c ->
  c (L (k + 6 * n)%nat) - c (L k) < 2 ^ 64 ->
  read_attempts mem L n id k = (m, ok, k') ->
  (k <= k' <= k + 6 * n)%nat /\
  match m with
  | None => ok = false
  | Some m => exists T, (L k <= T <= L k')%nat /\ Z.even (c T) = true /\ sm_displayId m = id /\
      payload (slot_at (mem T) id) = (sm_iosurfaceId m, sm_width m, sm_height m, sm_frame m) /\
      ok = negb (sm_frame m =? 0)
  end.
Proof.
  intros HL H. revert k. induction n as [|n IH]; intros k Hlt; simpl.
  { intros [= <- <- <-]. split; [lia|done]. }
  assert (forall d, (d <= 6)%nat -> c (L (k + d + 6 * n)%nat) - c (L (k + d)%nat) < 2 ^ 64) as Hsub.
  { intros d Hd.
    pose proof (count_mono _ _ _ H _ _ (HL (k + d + 6 * n)%nat (k + 6 * S n)%nat ltac:(lia))).
    pose proof (count_mono _ _ _ H _ _ (HL k (k + d)%nat ltac:(lia))). lia. }
  rewrite land_1.
  assert (forall d, (d <= 6)%nat -> read_attempts mem L n id (k + d) = (m, ok, k') ->
    (k <= k' <= k + 6 * S n)%nat /\
    match m with
    | None => ok = false
    | Some m => exists T, (L k <= T <= L k')%nat /\ Z.even (c T) = true /\ sm_displayId m = id /\
        payload (slot_at (mem T) id) = (sm_iosurfaceId m, sm_width m, sm_height m, sm_frame m) /\
        ok = negb (sm_frame m =? 0)
    end) as Hrec.
  { intros d Hd Hr. destruct (IH _ (Hsub d Hd) Hr) as [? Hm]. split; [lia|].
    destruct m; [|done]. destruct Hm as (T & ? & ?). exists T.
    pose proof (HL k (k + d)%nat ltac:(lia)). split; [lia|done]. }
  destruct (negb _) eqn:Ev; [intros Hr; apply (Hrec 1%nat); [lia|done]|].
  destruct (_ =? _) eqn:Es; [|intros Hr; apply (Hrec 6%nat); [lia|done]].
  intros [= <- <- <-]. apply negb_false_iff in Ev. apply Z.eqb_eq in Es.
  split; [lia|]. exists (L k).
  assert (c (L k) = c (L (k + 5)%nat)) as Hc.
  { apply (count_eq mem id); [done|apply HL; lia| |done].
    pose proof (count_mono _ _ _ H _ _ (HL (k + 5)%nat (k + 6 * S n)%nat ltac:(lia))). lia. }
  assert (Z.even (c (L k)) = true) as He.
  { rewrite <- even_u64, <- (sh_seq _ _ _ H). done. }
  split; [split; [done|apply HL; lia]|]. split; [done|]. split; [done|]. split; [|done].
  assert (forall d, (d <= 5)%nat ->
    payload (slot_now mem L id (k + d)) = payload (slot_at (mem (L k)) id)) as Hp.
  { intros d Hd. eapply (payload_stable _ _ _ H (L k) (L (k + 5)%nat)); [|done|done].
    split; apply HL; lia. }
  pose proof (Hp 1%nat ltac:(lia)) as H1. pose proof (Hp 2%nat ltac:(lia)) as H2.
  pose proof (Hp 3%nat ltac:(lia)) as H3. pose proof (Hp 4%nat ltac:(lia)) as H4.
  unfold payload in *. simpl. congruence.
Qed.

(** ** One slot *)

(** C3: a seqlock read is never torn. If the producer follows the
    documented discipline for the slot and makes fewer than 2^64 increments
    during the call, then whatever [read] stores to [out] is the payload the
    slot held at one single moment within the call at which no write was in
    progress; [read] returns true exactly when that frame number is non-zero,
    stores nothing and returns false otherwise, and makes at most 48 loads. *)
Theorem read_never_torn mem L st id c k m ok k' :
  (forall a b, (a <= b)%nat -> (L a <= L b)%nat) ->
  seqlock_history mem id c ->
  c (L (k + 48)%nat) - c (L k) < 2 ^ 64 ->
  read mem L st id k = (m, ok, k') ->
  (k <= k' <= k + 48)%nat /\
  match m with
  | None => ok = false
  | Some m => valid_ st = true /\ id < kMacmuFrameSlotCount /\
      exists T, (L k <= T <= L k')%nat /\ Z.even (c T) = true /\ sm_displayId m = id /\
      payload (slot_at (mem T) id) = (sm_iosurfaceId m, sm_width m, sm_height m, sm_frame m) /\
      ok = negb (sm_frame m =? 0)
  end.
Proof.
  intros HL H Hlt. unfold read. destruct (_ || _) eqn:E.
  { intros [= <- <- <-]. split; [lia|done]. }
  intros Hr. apply (read_attempts_snapshot _ _ _ c) in Hr as [Hk Hm]; [|done..].
  split; [lia|]. destruct m; [|done]. bool_to_prop. done.
Qed.

(** The display's slot is quiescent from load [k] on and holds a published
    frame that differs from the caller's cursor. *)
Definition stable_ready mem L (last_frames : list Z) (id : Z) (k : nat) : Prop :=
  (forall j, (k <= j)%nat -> slot_now mem L id j = slot_now mem L id k) /\
  Z.even (sl_seq (slot_now mem L id k)) = true /\
  sl_frame (slot_now mem L id k) <> 0 /\
  sl_frame (slot_now mem L id k) <> last_frame last_frames id.

(** What [scan_slots] asks of one slot. *)
Definition slot_ready mem L (st : t) (last_frames : list Z) (id : Z) (k : nat) : bool :=
  let '(meta, ok, _) := read mem L st id k in
  let frame := match meta with Some m => sm_frame m | None => 0 end in
  ok && negb (frame =? 0) && negb (frame =? last_frame last_frames id).

Lemma stable_ready_later mem L last id k j :
  (k <= j)%nat -> stable_ready mem L last id k -> stable_ready mem L last id j.
Proof.
  intros Hkj (Hs & He & Hf & Hl). unfold stable_ready.
  rewrite (Hs j) by lia. repeat split; [|done..]. intros i Hi. rewrite (Hs i); [done|lia].
Qed.

(** A quiescent slot is read at the first attempt. *)
Lemma stable_ready_slot_ready mem L st last id k :
  valid_ st = true -> id < kMacmuFrameSlotCount ->
  stable_ready mem L last id k -> slot_ready mem L st last id k = true.
Proof.
  intros Hv Hid (Hs & He & Hf & Hl). unfold slot_ready, read.
  rewrite Hv, (proj2 (Z.leb_gt _ _) Hid). simpl.
  rewrite !(Hs (k + _)%nat) by lia. rewrite land_1, He, Z.eqb_refl. simpl.
  by rewrite (proj2 (Z.eqb_neq _ _) Hf), (proj2 (Z.eqb_neq _ _) Hl).
Qed.

(** ** The scan *)

(** The [i]-th slot of a scan. *)
Definition scan_id (st : t) (i : Z) : Z :=
  (nextScanStart_ st mod kMacmuFrameSlotCount + i) mod kMacmuFrameSlotCount.

Lemma scan_id_range st i : 0 <= scan_id st i < kMacmuFrameSlotCount.
Proof. by apply Z.mod_pos_bound. Qed.

(** Every display has one place in a scan. *)
Lemma scan_id_surj st id :
  0 <= id < kMacmuFrameSlotCount ->
  exists i, 0 <= i < kMacmuFrameSlotCount /\ scan_id st i = id.
Proof.
  intros Hid. exists ((id - nextScanStart_ st) mod kMacmuFrameSlotCount).
  split; [by apply Z.mod_pos_bound|]. unfold scan_id.
  rewrite <- Zplus_mod. replace (_ + _) with id by lia. by apply Z.mod_small.
Qed.

Lemma read_attempts_mono mem L n id k m ok k' :
  read_attempts mem L n id k = (m, ok, k') -> (k <= k')%nat.
Proof.
  revert k. induction n as [|n IH]; intros k; simpl.
  { intros [= <- <- <-]. done. }
  repeat case_match; intros Hr; try apply IH in Hr; simplify_eq; lia.
Qed.

Lemma read_mono mem L st id k m ok k' : read mem L st id k = (m, ok, k') -> (k <= k')%nat.
Proof.
  unfold read. case_match; [by intros [= <- <- <-]|]. apply read_attempts_mono.
Qed.

(** What the rest of a scan, from place [off] on, reports: it stops at the
    first slot of the cyclic order that is ready when it is read, and reads
    every slot when it reports none. *)
Definition scan_spec mem L (st : t) (last : list Z) (k : nat) (off n : Z)
    (r : option Z * t * nat) : Prop :=
  let '(res, st', k') := r in
  exists reads : Z -> nat,
    (forall i, (k <= reads i <= k')%nat) /\
    match res with
    | Some id => exists i, off <= i < n /\ id = scan_id st i /\
        slot_ready mem L st last id (reads i) = true /\
        (forall j, off <= j < i -> slot_ready mem L st last (scan_id st j) (reads j) = false) /\
        st' = set_next st ((id + 1) mod kMacmuFrameSlotCount)
    | None => st' = st /\
        forall j, off <= j < n -> slot_ready mem L st last (scan_id st j) (reads j) = false
    end.

Lemma scan_loop_spec mem L st last n off k :
  scan_spec mem L st last k off (off + Z.of_nat n)
    (scan_loop mem L n st last (nextScanStart_ st mod kMacmuFrameSlotCount) off k).
Proof.
  revert off k. induction n as [|n IH]; intros off k; cbn [scan_loop].
  { exists (fun _ => k). split; [lia|]. split; [done|]. intros j ?. lia. }
  fold (scan_id st off).
  destruct (read mem L st (scan_id st off) k) as [[m ok] k1] eqn:Er.
  pose proof (read_mono _ _ _ _ _ _ _ _ Er) as Hk1.
  assert (slot_ready mem L st last (scan_id st off) k =
    ok && negb (match m with Some m => sm_frame m | None => 0 end =? 0) &&
    negb (match m with Some m => sm_frame m | None => 0 end =? last_frame last (scan_id st off)))
    as Hready by (unfold slot_ready; by rewrite Er).
  rewrite <- Hready. destruct (slot_ready _ _ _ _ _ k) eqn:Hr.
  { exists (fun _ => k). split; [lia|]. exists off. repeat split; [lia|lia|done|intros; lia]. }
  specialize (IH (off + 1) k1). unfold scan_spec in *.
  destruct (scan_loop _ _ _ _ _ _ _ _) as [[res st'] k'].
  destruct IH as (reads & Hreads & IH). pose proof (Hreads off).
  set (reads' := fun i => if i =? off then k else reads i).
  assert (forall i, off + 1 <= i -> reads' i = reads i) as Hge.
  { intros i Hi. unfold reads'. rewrite (proj2 (Z.eqb_neq i off)); [done|lia]. }
  assert (forall b, (forall j, off + 1 <= j < b ->
      slot_ready mem L st last (scan_id st j) (reads j) = false) ->
    forall j, off <= j < b -> slot_ready mem L st last (scan_id st j) (reads' j) = false) as Hext.
  { intros b Hb j Hj. destruct (decide (j = off)) as [->|].
    - unfold reads'. by rewrite Z.eqb_refl.
    - rewrite Hge by lia. apply Hb. lia. }
  exists reads'. split.
  { intros i. pose proof (Hreads i). unfold reads'. destruct (i =? off); lia. }
  destruct res as [id|].
  - destruct IH as (i & Hi & -> & Hrd & Hno & ->). exists i.
    rewrite Hge by lia. repeat split; [lia|lia|done|by apply Hext].
  - destruct IH as [-> Hno]. split; [done|]. apply Hext. intros j Hj. apply Hno. lia.
Qed.

Lemma scan_slots_spec mem L st last k :
  scan_spec mem L st last k 0 kMacmuFrameSlotCount (scan_slots mem L st last k).
Proof. apply scan_loop_spec. Qed.

(** ** Fairness of the scan *)

(** The render thread's successive scans, each with its own cursors. *)
Fixpoint serve mem L (lasts : list (list Z)) (st : t) (k : nat) : list (option Z) :=
  match lasts with
  | [] => []
  | last :: lasts' =>
      let '(res, st', k') := scan_slots mem L st last k in res :: serve mem L lasts' st' k'
  end.

(** How far the next scan is from looking at a display. *)
Definition scan_distance (st : t) (id : Z) : Z := (id - nextScanStart_ st) mod kMacmuFrameSlotCount.

Lemma scan_id_distance st id :
  0 <= id < kMacmuFrameSlotCount -> scan_id st (scan_distance st id) = id.
Proof.
  intros Hid. unfold scan_id, scan_distance.
  rewrite <- Zplus_mod. replace (_ + _) with id by lia. by apply Z.mod_small.
Qed.

Lemma scan_distance_next st id i :
  0 <= id < kMacmuFrameSlotCount -> 0 <= i < scan_distance st id ->
  scan_distance (set_next st ((scan_id st i + 1) mod kMacmuFrameSlotCount)) id
    = scan_distance st id - i - 1.
Proof.
  unfold scan_distance, scan_id, kMacmuFrameSlotCount. simpl. intros Hid Hi.
  Z.div_mod_to_equations. lia.
Qed.

(** One scan with [id] ready either serves [id] or comes closer to it. *)
Lemma scan_progress mem L st last id k :
  0 <= id < kMacmuFrameSlotCount ->
  (forall j, slot_ready mem L st last id j = true) ->
  let '(res, st', _) := scan_slots mem L st last k in
  res = Some id \/ (scan_distance st' id < scan_distance st id /\ valid_ st' = valid_ st).
Proof.
  intros Hid Hready. pose proof (scan_slots_spec mem L st last k) as Hs.
  destruct (scan_slots _ _ _ _ _) as [[res st'] k']. destruct Hs as (reads & _ & Hs).
  assert (0 <= scan_distance st id < kMacmuFrameSlotCount) as Hd by (by apply Z.mod_pos_bound).
  destruct res as [id'|].
  - destruct Hs as (i & Hi & -> & _ & Hno & ->).
    destruct (Z.lt_trichotomy i (scan_distance st id)) as [Hlt|[->|Hgt]].
    + right. rewrite scan_distance_next by lia. split; [lia|done].
    + left. by rewrite scan_id_distance.
    + specialize (Hno (scan_distance st id) ltac:(lia)). rewrite scan_id_distance in Hno by done.
      by rewrite Hready in Hno.
  - destruct Hs as [_ Hno]. specialize (Hno (scan_distance st id) Hd).
    rewrite scan_id_distance in Hno by done. by rewrite Hready in Hno.
Qed.

Lemma slot_ready_valid mem L st st' last id k :
  valid_ st = valid_ st' -> slot_ready mem L st last id k = slot_ready mem L st' last id k.
Proof. intros E. unfold slot_ready, read. by rewrite E. Qed.

(** the round-robin scan starves no display. A display that has an
    unseen frame at every scan is reported by one of the next sixteen scans,
    however busy the other fifteen displays are and wherever the scan last
    stopped. *)
Theorem scan_fair mem L st lasts id k :
  0 <= id < kMacmuFrameSlotCount ->
  length lasts = Z.to_nat kMacmuFrameSlotCount ->
  (forall last j, last ∈ lasts -> slot_ready mem L st last id j = true) ->
  Some id ∈ serve mem L lasts st k.
Proof.
  intros Hid Hlen Hready.
  assert (scan_distance st id < Z.of_nat (length lasts)) as Hd.
  { rewrite Hlen. by apply Z.mod_pos_bound. }
  clear Hlen. revert st k Hready Hd.
  induction lasts as [|last lasts IH]; intros st k Hready Hd; simpl.
  { pose proof (Z.mod_pos_bound (id - nextScanStart_ st) kMacmuFrameSlotCount ltac:(done)).
    unfold scan_distance in Hd. simpl in Hd. lia. }
  pose proof (scan_progress mem L st last id k Hid
    ltac:(intros j; apply Hready; apply list_elem_of_here)) as Hp.
  destruct (scan_slots _ _ _ _ _) as [[res st'] k'].
  destruct Hp as [->|[Hlt Hv]]; [apply list_elem_of_here|].
  apply list_elem_of_further, IH; [|simpl in Hd; lia].
  intros last' j Hin. rewrite (slot_ready_valid mem L st' st) by done.
  apply Hready. by apply list_elem_of_further.
Qed.

(** ** Waiting for a frame *)

(** The wait is over: the clock has reached the deadline, or [poll] timed out, failed or
    reported something else than the doorbell. *)
Definition gives_up (deadline : Z) (e : wait_event) : Prop :=
  match e with
  | EvNow ms => deadline <= ms
  | EvPoll _ (PollTimeout | PollOther | PollErr) => True
  | _ => False
  end.

(** What one scan shows: the display it reports held an unseen frame when it was read;
    when it reports none, no display held one in a quiescent slot when it began. *)
Definition scan_found mem L (valid : t) (last : list Z) (from to : nat) (res : option Z) (st' : t) : Prop :=
  match res with
  | Some id => 0 <= id < kMacmuFrameSlotCount /\
      (exists j, (from <= j <= to)%nat /\ slot_ready mem L valid last id j = true) /\
      nextScanStart_ st' = (id + 1) mod kMacmuFrameSlotCount
  | None => forall id, 0 <= id < kMacmuFrameSlotCount -> ~ stable_ready mem L last id from
  end.

(** What a caller of [wait_for_any_frame] may rely on: the answer is that of the last
    thing the call did, a scan; and for the answer that there is none the wait was over
    just before that scan. *)
Definition wait_ok mem L (valid : t) (last : list Z) (deadline : Z) (r : waited) : Prop :=
  let '(res, st', k', done) := r in
  exists before k, done = before ++ [EvScan k k'] /\ scan_found mem L valid last k k' res st' /\
    match res with
    | Some _ => True
    | None => exists before' e, before = before' ++ [e] /\ gives_up deadline e
    end.

Lemma final_scan_ok mem L done st last k :
  valid_ st = true ->
  let '(res, st', k', done') := final_scan mem L done st last k in
  done' = done ++ [EvScan k k'] /\ scan_found mem L st last k k' res st' /\ (res = None -> st' = st).
Proof.
  intros Hv. unfold final_scan. pose proof (scan_slots_spec mem L st last k) as Hs.
  destruct (scan_slots _ _ _ _ _) as [[res st'] k']. destruct Hs as (reads & Hreads & Hs).
  split; [done|]. destruct res as [id|]; simpl.
  - destruct Hs as (i & Hi & -> & Hr & _ & ->).
    split; [|done]. split; [apply scan_id_range|]. split; [|done]. exists (reads i). split; [apply Hreads|done].
  - destruct Hs as [-> Hno]. split; [|done].
    intros id Hid Hst. destruct (scan_id_surj st id Hid) as (i & Hi & <-).
    specialize (Hno i Hi). rewrite stable_ready_slot_ready in Hno; [done|done|lia|].
    apply (stable_ready_later _ _ _ _ k); [apply Hreads|done].
Qed.

(** The scan that ends the wait. *)
Lemma last_scan_ok mem L done e st last deadline k :
  valid_ st = true -> gives_up deadline e ->
  exists r, Some (final_scan mem L (done ++ [e]) st last k) = Some r /\ wait_ok mem L st last deadline r.
Proof.
  intros Hv He. eexists. split; [done|]. pose proof (final_scan_ok mem L (done ++ [e]) st last k Hv) as H.
  destruct (final_scan _ _ _ _ _ _) as [[[res st'] k'] done']. destruct H as (-> & H & _).
  exists (done ++ [e]), k. split; [done|]. split; [done|]. destruct res; [done|]. by exists done, e.
Qed.

Lemma wait_loop_ok mem L now polls st last deadline n fuel done k c p :
  valid_ st = true ->
  (forall a b, (a <= b)%nat -> now a <= now b) ->
  deadline <= now n -> (n < fuel + c)%nat -> (1 <= fuel)%nat ->
  exists r, wait_loop mem L now polls fuel done st last deadline k c p = Some r /\
    wait_ok mem L st last deadline r.
Proof.
  intros Hv Hmono Hdl. revert done k c p.
  induction fuel as [|fuel IH]; intros done k c p Hf H1; [lia|]. cbn [wait_loop].
  destruct (deadline <=? now c) eqn:Ed; bool_to_prop; [by apply last_scan_ok|].
  assert (c < n)%nat as Hc.
  { destruct (le_lt_dec n c) as [Hle|]; [|lia]. specialize (Hmono n c Hle). lia. }
  assert (forall done k, exists r,
    (if now (c + 1)%nat <? deadline then
       wait_loop mem L now polls fuel (done ++ [EvNow (now (c + 1)%nat)]) st last deadline k (c + 2) (p + 1)
     else Some (final_scan mem L (done ++ [EvNow (now (c + 1)%nat)]) st last k)) = Some r /\
    wait_ok mem L st last deadline r) as Hagain.
  { intros done2 k2. destruct (now (c + 1)%nat <? deadline) eqn:E2; bool_to_prop; [|by apply last_scan_ok].
    apply IH; [lia|]. destruct fuel; [|lia]. assert (n <= c + 1)%nat as Hn by lia. specialize (Hmono _ _ Hn). lia. }
  set (timeout := s32 _). set (done1 := done ++ _).
  destruct (polls p timeout) as [q| | | |]; [|by apply last_scan_ok|by apply last_scan_ok|apply Hagain|by apply last_scan_ok].
  pose proof (final_scan_ok mem L (done1 ++ [EvPoll timeout (PollIn q)]) st last k Hv) as H.
  destruct (final_scan _ _ _ _ _ _) as [[[[id|] st'] k'] done']; destruct H as (-> & H & He).
  - eexists. split; [done|]. eexists _, k. by split.
  - rewrite (He eq_refl). apply Hagain.
Qed.

(** C39: [wait_for_any_frame] terminates and loses no frame. With a monotonic clock whose
    [n]-th reading is past the deadline the call returns after at most [n + 1] rounds,
    whatever [poll] reports in between (frames, stray events, interruptions, errors).
    The last thing it does is a scan of the slots, whose answer it returns: when that
    reports a display, a read of the display's slot during that scan saw a published
    frame that differs from the caller's cursor, and the next scan starts just after it;
    when it reports none, no display held an unseen frame in a quiescent slot when that
    last scan began, after the clock had reached the deadline or [poll] had timed out,
    failed or reported something else than the doorbell. *)
Theorem wait_for_any_frame_sound mem L now polls st last timeout_ms n :
  valid_ st = true ->
  (forall a b, (a <= b)%nat -> now a <= now b) ->
  u64 (now 0%nat + timeout_ms) <= now n ->
  exists r, wait_for_any_frame mem L now polls (S n) st last timeout_ms = Some r /\
    wait_ok mem L st last (u64 (now 0%nat + timeout_ms)) r.
Proof.
  intros Hv Hmono Hdl. unfold wait_for_any_frame. rewrite Hv. simpl negb. cbv iota.
  pose proof (final_scan_ok mem L [] st last 0 Hv) as H.
  destruct (final_scan _ _ _ _ _ _) as [[[[id|] st'] k'] done']; destruct H as (-> & H & He).
  - eexists. split; [done|]. by eexists _, 0%nat.
  - rewrite (He eq_refl). apply (wait_loop_ok _ _ _ _ _ _ _ n); [done..|lia|lia].
Qed.

(** ** Life cycle *)

#[local] Transparent slot_at.

Definition opened (o : list sys) : list Z :=
  o ≫= fun s => match s with
                | SysShmOpen _ fd => [fd] | SysSocketpair a b => [a; b] | _ => [] end.
Definition closed (o : list sys) : list Z :=
  o ≫= fun s => match s with SysClose fd => [fd] | _ => [] end.
Definition mapped (o : list sys) : list (Z * nat) :=
  o ≫= fun s => match s with SysMmap a n => [(a, n)] | _ => [] end.
Definition unmapped (o : list sys) : list (Z * nat) :=
  o ≫= fun s => match s with SysMunmap a n => [(a, n)] | _ => [] end.

(** Everything a trace acquires it also releases, once. *)
Definition balanced (o : list sys) : Prop :=
  opened o ≡ₚ closed o /\ mapped o = unmapped o.

Definition released (st : t) : Prop :=
  shmFd_ st < 0 /\ mapped_ st = None /\ doorbellFd_ st < 0 /\
  producerDoorbellFd_ st < 0 /\ valid_ st = false.

(** What an object holds. *)
Definition held_fds (st : t) : list Z :=
  filter (fun fd => 0 <= fd) [doorbellFd_ st; producerDoorbellFd_ st; shmFd_ st].
Definition held_map (st : t) : list (Z * nat) :=
  match mapped_ st with Some a => [(a, totalSize_ st)] | None => [] end.

Lemma filter_fd fd l :
  filter (fun fd => 0 <= fd) (fd :: l) =
  if 0 <=? fd then fd :: filter (fun fd => 0 <= fd) l else filter (fun fd => 0 <= fd) l.
Proof.
  destruct (Z.leb_spec 0 fd); [by rewrite filter_cons_True|rewrite filter_cons_False; [done|lia]].
Qed.

Lemma teardown_spec st :
  let '(st', o) := teardown st in
  released st' /\ opened o = [] /\ mapped o = [] /\
  closed o = held_fds st /\ unmapped o = held_map st /\
  (name_ st <> [] -> SysShmUnlink (shm_path (name_ st)) ∈ o).
Proof.
  unfold teardown, close_producer_doorbell_fd, released, held_fds, held_map.
  rewrite !filter_fd, filter_nil.
  destruct st as [nm sfd mp sz sl dfd pfd nx v]; simpl.
  destruct (Z.leb_spec 0 dfd), (Z.leb_spec 0 pfd); simpl;
    destruct (Z.leb_spec 0 pfd); try lia; simpl;
    destruct mp; simpl; destruct (Z.leb_spec 0 sfd); simpl; destruct nm; simpl;
    repeat split; try lia; try done;
    intros _; repeat (apply list_elem_of_here || apply list_elem_of_further).
Qed.

Lemma released_holds_nothing st : released st -> held_fds st = [] /\ held_map st = [].
Proof.
  intros (? & Hm & ? & ? & _). unfold held_fds, held_map. rewrite Hm. split; [|done].
  rewrite !filter_cons_False by lia. done.
Qed.

(** A failing branch of [create] that has acquired exactly what the object holds. *)
Lemma teardown_balances st o st' o' :
  name_ st <> [] -> opened o ≡ₚ held_fds st -> mapped o = held_map st ->
  closed o = [] -> unmapped o = [] -> teardown st = (st', o') ->
  balanced (o ++ o') /\ released st' /\ SysShmUnlink (shm_path (name_ st)) ∈ o ++ o'.
Proof.
  intros Hn Ho Hm Hc Hu E. pose proof (teardown_spec st) as Ht. rewrite E in Ht.
  destruct Ht as (Hr & Ho' & Hm' & Hc' & Hu' & Hl). split; [|split; [done|set_solver]].
  unfold balanced, opened, mapped, closed, unmapped in *. rewrite !bind_app.
  rewrite Ho', Hm', Hc, Hu, Hc', Hu', !app_nil_r. simpl. done.
Qed.

Lemma opened_app a b : opened (a ++ b) = opened a ++ opened b.
Proof. apply bind_app. Qed.
Lemma closed_app a b : closed (a ++ b) = closed a ++ closed b.
Proof. apply bind_app. Qed.
Lemma mapped_app a b : mapped (a ++ b) = mapped a ++ mapped b.
Proof. apply bind_app. Qed.
Lemma unmapped_app a b : unmapped (a ++ b) = unmapped a ++ unmapped b.
Proof. apply bind_app. Qed.
Lemma opened_flags fd r : opened (flags_effect fd r) = [].
Proof. unfold flags_effect. by destruct r.2. Qed.
Lemma closed_flags fd r : closed (flags_effect fd r) = [].
Proof. unfold flags_effect. by destruct r.2. Qed.
Lemma mapped_flags fd r : mapped (flags_effect fd r) = [].
Proof. unfold flags_effect. by destruct r.2. Qed.
Lemma unmapped_flags fd r : unmapped (flags_effect fd r) = [].
Proof. unfold flags_effect. by destruct r.2. Qed.
#[local] Hint Rewrite opened_app closed_app mapped_app unmapped_app opened_flags closed_flags
  mapped_flags unmapped_flags : macmu.

Lemma frame_channel_name_fits pid :
  is_u32 pid -> frame_channel_name pid = bstr "macmu.frame." ++ dec pid.
Proof.
  intros Hp. unfold frame_channel_name. apply take_ge. rewrite length_app.
  pose proof (dec_u32_length pid Hp). change (length (bstr "macmu.frame.")) with 12%nat. lia.
Qed.

(** The side conditions of [teardown_balances] on a concrete branch. *)
Ltac holds :=
  unfold held_fds, held_map; rewrite ?filter_fd; autorewrite with macmu; simpl;
  repeat match goal with
  | H : (0 <=? ?x) = true |- context [0 <=? ?x] => rewrite H
  end; simpl; try done; solve_Permutation.

(** All or nothing: what a call of [create] leaves behind. *)
Definition create_post (env : create_env) (pid : Z) (r : bool * t * list sys) : Prop :=
  let '(ok, st, o) := r in
  let path := shm_path (frame_channel_name pid) in
  if ok then
    valid_ st = true /\ closed o = [] /\ unmapped o = [] /\
    let '(st', o') := teardown st in
    balanced (o ++ o') /\ released st' /\ SysShmUnlink path ∈ o ++ o'
  else balanced o /\ (0 <= ce_shm_open env -> released st /\ SysShmUnlink path ∈ o).

Lemma create_fails env pid st o :
  name_ st = frame_channel_name pid -> opened o ≡ₚ held_fds st -> mapped o = held_map st ->
  closed o = [] -> unmapped o = [] ->
  create_post env pid (let '(st', o') := teardown st in (false, st', o ++ o')).
Proof.
  intros Hn Ho Hm Hc Hu. destruct (teardown st) as [st' o'] eqn:E.
  destruct (teardown_balances st o st' o') as (? & ? & ?); [|done..|].
  - rewrite Hn. unfold frame_channel_name. by simpl.
  - unfold create_post. rewrite <- Hn. done.
Qed.

(** C40: setting the frame channel up is all or nothing. On a fresh
    object, whichever system call of [create] fails, every descriptor and the
    mapping acquired so far have been released exactly once, the shared memory
    object is unlinked if it was opened, and the object is back to its released
    state; on success the descriptors and the mapping are held, nothing is
    released, and a later [teardown] releases each of them exactly once and
    unlinks the object. *)
Theorem create_all_or_nothing env pid :
  (forall d0 d1, ce_socketpair env = Some (d0, d1) -> 0 <= d0 /\ 0 <= d1) ->
  create_post env pid (create env pid init).
Proof.
  intros Hd. unfold create.
  destruct (Z.ltb_spec (ce_shm_open env) 0) as [Hneg|Hpos]; [split; [done|lia]|].
  assert ((0 <=? ce_shm_open env) = true) as Hfd by (apply Z.leb_le; lia).
  destruct (ce_ftruncate_ok env); cbn [negb]; [|apply create_fails; holds].
  destruct (ce_mmap env) as [a|]; [|apply create_fails; holds].
  destruct (ce_socketpair env) as [[d0 d1]|]; [|apply create_fails; holds].
  destruct (Hd _ _ eq_refl) as [H0 H1]. apply Z.leb_le in H0, H1.
  set (r0 := set_close_on_exec (ce_getfd0 env) _ _).
  set (r1 := set_close_on_exec (ce_getfd1 env) _ _).
  destruct (negb r0.1); [apply create_fails; holds|].
  destruct (negb r1.1); [apply create_fails; holds|].
  split; [done|]. split; [holds|]. split; [holds|].
  match goal with |- context [teardown ?s] => set (st := s) end.
  destruct (teardown st) as [st' o'] eqn:Et.
  apply (teardown_balances st); [unfold frame_channel_name; by simpl|holds..|done].
Qed.

(** ** A fresh table, and a table between two producers *)

Definition empty_slot : ShmDisplaySlot := {|
  sl_seq := 0; sl_frame := 0; sl_iosurfaceId := 0; sl_width := 0; sl_height := 0; sl_dpi := 0;
  sl_pixelFormat := 0; sl_flags := 0; sl_timestampNs := 0; sl_pad0 := 0; sl_pad1 := 0 |}.

Lemma field_zeros off n m : field off n (replicate m Byte.x00) = 0.
Proof.
  unfold field. rewrite drop_replicate, take_replicate.
  generalize (n `min` (m - off))%nat. induction n0 as [|k IH]; [done|].
  change (Z.lor 0 (Z.shiftl (le_combine (replicate k Byte.x00)) 8) = 0). by rewrite IH.
Qed.

Lemma slot_at_zeros (h : bytes) id :
  length h = wire_size ShmHeader -> 0 <= id ->
  forall n, slot_at (h ++ replicate n Byte.x00) id = empty_slot.
Proof.
  intros Hh Hid n. unfold slot_at. rewrite <- Hh, drop_app_ge, drop_replicate by lia.
  cbn [decode ShmDisplaySlot_wire]. by rewrite !field_zeros.
Qed.

(** Between two generations of the emulator [reset_slots] leaves the
    channel as [create] made it: the mapping keeps its size and its header,
    every slot of the table is the slot of a display that never published, so a
    read of any display reports no frame, and the doorbell holds no datagram
    that was queued before. *)
Theorem reset_slots_fresh st m q :
  valid_ st = true -> slots_ st <> None -> length m = totalSize ->
  Forall (fun e => exists n, e = RecvBytes (S n) \/ e = RecvIntr) q ->
  let '(m', q') := reset_slots q m st in
  length m' = totalSize /\
  take (wire_size ShmHeader) m' = take (wire_size ShmHeader) m /\
  q' = [] /\
  (m = fresh_mapping -> m' = fresh_mapping) /\
  forall id k, 0 <= id < kMacmuFrameSlotCount ->
    slot_at m' id = empty_slot /\
    exists k', read (fun _ => m') (fun k => k) st id k =
      (Some {| sm_displayId := id; sm_iosurfaceId := 0; sm_width := 0; sm_height := 0;
               sm_frame := 0 |}, false, k').
Proof.
  intros Hv Hs Hlen Hq. unfold reset_slots. rewrite Hv. destruct (slots_ st); [|done].
  assert (length (take (wire_size ShmHeader) m) = wire_size ShmHeader) as Hh.
  { rewrite length_take, Hlen. reflexivity. }
  split; [by rewrite length_app, Hh, length_replicate|].
  split; [rewrite take_app_le, take_ge by lia; done|].
  split. { induction Hq as [|e q [n [-> | ->]] _ IH]; [done|exact IH|exact IH]. }
  split. { intros ->. unfold fresh_mapping. f_equal. }
  intros id k Hid. split; [apply slot_at_zeros; lia|].
  exists (k + 6)%nat. unfold read. rewrite Hv, (proj2 (Z.leb_gt _ _) (proj2 Hid)).
  cbn [negb orb read_attempts]. unfold slot_now.
  rewrite !slot_at_zeros by lia. reflexivity.
Qed.

(** ** Concrete runs *)

Definition demo_slot (seq frame : Z) : ShmDisplaySlot := {|
  sl_seq := seq; sl_frame := frame; sl_iosurfaceId := 7 * frame; sl_width := 1080 * frame;
  sl_height := 1920 * frame; sl_dpi := 0; sl_pixelFormat := 0; sl_flags := 0;
  sl_timestampNs := 0; sl_pad0 := 0; sl_pad1 := 0 |}.

Definition demo_mapping (s0 s1 : ShmDisplaySlot) : bytes :=
  encode header ++ encode s0 ++ encode s1 ++ replicate (14 * 64) Byte.x00.

(** One publish of display 0: odd sequence, payload, even sequence. *)
Definition demo_publish (t : nat) : bytes :=
  match t with
  | O => demo_mapping (demo_slot 0 0) empty_slot
  | S O => demo_mapping (demo_slot 1 0) empty_slot
  | S (S O) => demo_mapping (demo_slot 1 1) empty_slot
  | _ => demo_mapping (demo_slot 2 1) empty_slot
  end.

Definition demo_count (t : nat) : Z :=
  match t with O => 0 | S O | S (S O) => 1 | _ => 2 end.

Definition demo_consumer (next : Z) : t := {|
  name_ := bstr "macmu.frame.1"; shmFd_ := 3; mapped_ := Some 4096; totalSize_ := totalSize;
  slots_ := Some 4136; doorbellFd_ := 4; producerDoorbellFd_ := 5; nextScanStart_ := next;
  valid_ := true |}.

Lemma demo_history : seqlock_history demo_publish 0 demo_count.
Proof.
  split.
  - intros [|[|[|t]]]; vm_compute; reflexivity.
  - intros [|[|[|t]]]; vm_compute; auto.
  - intros [|[|[|t]]] H; try (by vm_compute); exfalso; apply H; vm_compute; reflexivity.
Qed.

Lemma read_never_torn_witness :
  exists m k', read demo_publish (fun k => k) (demo_consumer 0) 0 0 = (Some m, true, k') /\
  exists T, (0 <= T <= k')%nat /\ Z.even (demo_count T) = true /\
    payload (slot_at (demo_publish T) 0) =
      (sm_iosurfaceId m, sm_width m, sm_height m, sm_frame m).
Proof.
  destruct (read demo_publish (fun k => k) (demo_consumer 0) 0 0) as [[m ok] k'] eqn:E.
  pose proof (read_never_torn demo_publish (fun k => k) (demo_consumer 0) 0 demo_count 0 m ok k'
    ltac:(auto) demo_history ltac:(vm_compute; reflexivity) E) as [_ H].
  vm_compute in E. injection E as <- <- <-. eexists _, _. split; [reflexivity|].
  destruct H as (_ & _ & T & H1 & H2 & _ & H3 & _). exists T. auto.
Defined.

Lemma scan_fair_witness :
  Some 0 ∈ serve (fun _ => demo_mapping (demo_slot 2 9) (demo_slot 4 3)) (fun k => k)
    (replicate 16 (replicate 16 0)) (demo_consumer 1) 0.
Proof.
  apply scan_fair; [by vm_compute|by vm_compute|].
  intros last j Hin. apply elem_of_replicate in Hin as [-> _]. vm_compute. reflexivity.
Defined.

Lemma wait_for_any_frame_sound_witness :
  exists r, wait_for_any_frame
      (fun t => if (t <? 100)%nat then fresh_mapping
                else demo_mapping empty_slot (demo_slot 2 1))
      (fun k => k) (fun c => 10 * Z.of_nat c)
      (fun p _ => match p with O => PollIntr | _ => PollIn [RecvBytes 16; RecvBytes 16] end)
      6 (demo_consumer 0) (replicate 16 0) 50 = Some r /\ r.1.1.1 = Some 1.
Proof.
  destruct (wait_for_any_frame_sound
      (fun t => if (t <? 100)%nat then fresh_mapping
                else demo_mapping empty_slot (demo_slot 2 1))
      (fun k => k) (fun c => 10 * Z.of_nat c)
      (fun p _ => match p with O => PollIntr | _ => PollIn [RecvBytes 16; RecvBytes 16] end)
      (demo_consumer 0) (replicate 16 0) 50 5 eq_refl ltac:(intros; cbv beta; lia) ltac:(vm_compute; done))
    as (r & Hr & _).
  exists r. split; [exact Hr|]. vm_compute in Hr. injection Hr as <-. reflexivity.
Defined.

Definition demo_create_env (sp : option (Z * Z)) : create_env := {|
  ce_shm_open := 3; ce_ftruncate_ok := true; ce_mmap := Some 4096; ce_socketpair := sp;
  ce_getfd0 := 0; ce_setfd0 := true; ce_getfd1 := 0; ce_setfd1 := false |}.

Lemma create_all_or_nothing_witness :
  create_post (demo_create_env (Some (4, 5))) 77
    (create (demo_create_env (Some (4, 5))) 77 init) /\
  (create (demo_create_env (Some (4, 5))) 77 init).1.1 = false.
Proof.
  split; [|vm_compute; reflexivity].
  apply create_all_or_nothing. intros d0 d1 [= <- <-]. lia.
Defined.

Lemma reset_slots_fresh_witness :
  slot_at (reset_slots [RecvBytes 16; RecvIntr] (demo_publish 2) (demo_consumer 0)).1 0 = empty_slot.
Proof.
  pose proof (reset_slots_fresh (demo_consumer 0) (demo_publish 2) [RecvBytes 16; RecvIntr]
    eq_refl ltac:(done) ltac:(vm_compute; reflexivity)
    ltac:(repeat constructor; exists 15%nat; auto)) as H.
  destruct (reset_slots _ _ _) as [m' q']. destruct H as (_ & _ & _ & _ & H).
  apply (H 0 0%nat). done.
Defined.

End FrameConsumer.
