(* ===== verification/HidKeyboard.v ===== *)
(** [shell/core/hid_keyboard.{h,cpp}]: the translation of Apple virtual key codes
    to USB HID usages and the boot-keyboard report. The abstract specification
    is the set of usages that are held down; [hid_keyboard_refines] shows that
    the object implements it and that its 8-byte report is the canonical
    encoding of that set after any sequence of calls. *)
From S2P Require Import Prelude.

Module HidKeyboard.

Definition kHidKeyboardReportSize : nat := 8.
Definition kHidKeyboardFirstModifier : Z := 0xe0.
Definition kHidKeyboardLastModifier : Z := 0xe7.

(** The [switch] of [mac_virtual_key_to_hid_usage], in source order. *)
Definition key_table : list (Z * Z) :=
  [(0x00, 0x04); (0x0b, 0x05); (0x08, 0x06); (0x02, 0x07); (0x0e, 0x08); (0x03, 0x09);
   (0x05, 0x0a); (0x04, 0x0b); (0x22, 0x0c); (0x26, 0x0d); (0x28, 0x0e); (0x25, 0x0f);
   (0x2e, 0x10); (0x2d, 0x11); (0x1f, 0x12); (0x23, 0x13); (0x0c, 0x14); (0x0f, 0x15);
   (0x01, 0x16); (0x11, 0x17); (0x20, 0x18); (0x09, 0x19); (0x0d, 0x1a); (0x07, 0x1b);
   (0x10, 0x1c); (0x06, 0x1d); (0x12, 0x1e); (0x13, 0x1f); (0x14, 0x20); (0x15, 0x21);
   (0x17, 0x22); (0x16, 0x23); (0x1a, 0x24); (0x1c, 0x25); (0x19, 0x26); (0x1d, 0x27);
   (0x24, 0x28); (0x35, 0x29); (0x33, 0x2a); (0x30, 0x2b); (0x31, 0x2c); (0x1b, 0x2d);
   (0x18, 0x2e); (0x21, 0x2f); (0x1e, 0x30); (0x2a, 0x31); (0x29, 0x33); (0x27, 0x34);
   (0x32, 0x35); (0x2b, 0x36); (0x2f, 0x37); (0x2c, 0x38); (0x39, 0x39); (0x7a, 0x3a);
   (0x78, 0x3b); (0x63, 0x3c); (0x76, 0x3d); (0x60, 0x3e); (0x61, 0x3f); (0x62, 0x40);
   (0x64, 0x41); (0x65, 0x42); (0x6d, 0x43); (0x67, 0x44); (0x6f, 0x45); (0x72, 0x49);
   (0x73, 0x4a); (0x74, 0x4b); (0x75, 0x4c); (0x77, 0x4d); (0x79, 0x4e); (0x7c, 0x4f);
   (0x7b, 0x50); (0x7d, 0x51); (0x7e, 0x52); (0x47, 0x53); (0x4b, 0x54); (0x43, 0x55);
   (0x4e, 0x56); (0x45, 0x57); (0x4c, 0x58); (0x53, 0x59); (0x54, 0x5a); (0x55, 0x5b);
   (0x56, 0x5c); (0x57, 0x5d); (0x58, 0x5e); (0x59, 0x5f); (0x5b, 0x60); (0x5c, 0x61);
   (0x52, 0x62); (0x41, 0x63); (0x0a, 0x64); (0x51, 0); (0x3b, 0xe0); (0x38, 0xe1);
   (0x3a, 0xe2); (0x37, 0xe3); (0x3e, 0xe4); (0x3c, 0xe5); (0x3d, 0xe6); (0x36, 0xe7)].

Definition mac_virtual_key_to_hid_usage (key_code : Z) : Z :=
  match list_find (fun p => p.1 = key_code) key_table with
  | Some (_, (_, usage)) => usage
  | None => 0
  end.

(** ** The object *)

Record HidKeyboardState := { keys_ : list bool; report_ : list Z }.

Definition init : HidKeyboardState := {|
  keys_ := replicate 0x66 false; report_ := replicate kHidKeyboardReportSize 0 |}.

Definition is_modifier (usage : Z) : bool :=
  (kHidKeyboardFirstModifier <=? usage) && (usage <=? kHidKeyboardLastModifier).

(** [static_cast<uint8_t>(1u << (usage - kHidKeyboardFirstModifier))]. *)
Definition modifier_mask (usage : Z) : Z := u8 (Z.shiftl 1 (usage - kHidKeyboardFirstModifier)).

(** [std::fill(report_.begin() + 2, report_.end(), v)]. *)
Definition fill_keys (v : Z) (report : list Z) : list Z :=
  take 2 report ++ replicate (length report - 2) v.

(** The loop of [rebuild_keys] over the usages still to look at. *)
Fixpoint rebuild_loop (usages : list nat) (keys : list bool) (count : nat) (report : list Z)
    : list Z :=
  match usages with
  | [] => report
  | usage :: usages' =>
      if negb (keys !!! usage) then rebuild_loop usages' keys count report
      else if (6 <=? count)%nat then fill_keys 1 report
      else rebuild_loop usages' keys (S count) (<[(2 + count)%nat := u8 (Z.of_nat usage)]> report)
  end.

Definition rebuild_keys (keys : list bool) (report : list Z) : list Z :=
  rebuild_loop (seq 4 (length keys - 4)) keys 0 (fill_keys 0 report).

Definition set_key (usage : Z) (pressed : bool) (st : HidKeyboardState) : bool * HidKeyboardState :=
  if is_modifier usage then
    let mask := modifier_mask usage in
    let wasPressed := negb (Z.land (report_ st !!! 0%nat) mask =? 0) in
    if Bool.eqb wasPressed pressed then (false, st) else
    let byte := if pressed then Z.lor (report_ st !!! 0%nat) mask
                else Z.land (report_ st !!! 0%nat) (u8 (Z.lnot mask)) in
    (true, {| keys_ := keys_ st; report_ := <[0%nat := byte]> (report_ st) |})
  else if (usage <? 0x04) || (Z.of_nat (length (keys_ st)) <=? usage) then (false, st)
  else if Bool.eqb (keys_ st !!! Z.to_nat usage) pressed then (false, st)
  else
    let keys := <[Z.to_nat usage := pressed]> (keys_ st) in
    (true, {| keys_ := keys; report_ := rebuild_keys keys (report_ st) |}).

Definition is_pressed (usage : Z) (st : HidKeyboardState) : bool :=
  if is_modifier usage then negb (Z.land (report_ st !!! 0%nat) (modifier_mask usage) =? 0)
  else (usage <? Z.of_nat (length (keys_ st))) && (keys_ st !!! Z.to_nat usage).

Definition release_all (st : HidKeyboardState) : bool * HidKeyboardState :=
  (existsb (fun byte => negb (byte =? 0)) (report_ st),
   {| keys_ := replicate (length (keys_ st)) false;
      report_ := replicate (length (report_ st)) 0 |}).

(** ** The key table *)

(** The usages the object keeps track of: the ordinary keys of the descriptor
    and the eight modifiers. *)
Definition supported (usage : Z) : bool :=
  ((0x04 <=? usage) && (usage <? 0x66)) || is_modifier usage.

(** The key table is sound and unambiguous. Every key code either has
    no usage (0) or is translated to a usage the keyboard object supports, and
    no two key codes share a usage, so a physical key is never mistaken for
    another one. *)
Theorem key_table_sound k1 :
  (mac_virtual_key_to_hid_usage k1 = 0 \/
   supported (mac_virtual_key_to_hid_usage k1) = true) /\
  forall k2, mac_virtual_key_to_hid_usage k1 = mac_virtual_key_to_hid_usage k2 ->
    mac_virtual_key_to_hid_usage k1 <> 0 -> k1 = k2.
Proof.
  assert (forall k, mac_virtual_key_to_hid_usage k <> 0 ->
    (k, mac_virtual_key_to_hid_usage k) ∈ key_table) as Hin.
  { intros k. unfold mac_virtual_key_to_hid_usage.
    destruct (list_find _ _) as [[i [k' u]]|] eqn:E; [|done].
    apply list_find_Some in E as (Hi & Hk & _). simpl in Hk. subst k'. intros _.
    by apply list_elem_of_lookup_2 in Hi. }
  assert (Forall (fun p => p.2 = 0 \/ supported p.2 = true) key_table) as Hsup.
  { apply (bool_decide_unpack _). vm_compute. exact I. }
  assert (NoDup (map snd (filter (fun p => p.2 <> 0) key_table))) as Hnd.
  { apply (bool_decide_unpack _). vm_compute. exact I. }
  split.
  { destruct (decide (mac_virtual_key_to_hid_usage k1 = 0)) as [|Hne]; [by left|].
    apply Hin in Hne. by apply (proj1 (Forall_forall _ _) Hsup) in Hne. }
  intros k2 E Hne. pose proof (Hin k1 Hne) as H1. rewrite E in Hne. pose proof (Hin k2 Hne) as H2.
  rewrite E in H1.
  assert ((k1, mac_virtual_key_to_hid_usage k2) ∈ filter (fun p => p.2 <> 0) key_table) as F1
    by (by apply list_elem_of_filter).
  assert ((k2, mac_virtual_key_to_hid_usage k2) ∈ filter (fun p => p.2 <> 0) key_table) as F2
    by (by apply list_elem_of_filter).
  apply list_elem_of_lookup in F1 as [i1 F1]. apply list_elem_of_lookup in F2 as [i2 F2].
  assert (i1 = i2) as ->.
  { eapply (NoDup_lookup _ _ _ _ Hnd); rewrite list_lookup_fmap; [by rewrite F1|by rewrite F2]. }
  congruence.
Qed.

(** ** The abstract keyboard: the set of usages held down *)

Inductive op := OpSet (usage : Z) (pressed : bool) | OpRelease.

Definition op_wf (o : op) : Prop :=
  match o with OpSet usage _ => 0 <= usage < 256 | OpRelease => True end.

(** Holding a usage down or letting it go. *)
Definition hold (u : Z) (pressed : bool) (S : gset Z) : gset Z :=
  if pressed then {[u]} ∪ S else S ∖ {[u]}.

Definition spec_step (o : op) (S : gset Z) : bool * gset Z :=
  match o with
  | OpSet u pressed =>
      if supported u then
        (negb (Bool.eqb (bool_decide (u ∈ S)) pressed), hold u pressed S)
      else (false, S)
  | OpRelease => (bool_decide (S <> ∅), ∅)
  end.

Definition step (o : op) (st : HidKeyboardState) : bool * HidKeyboardState :=
  match o with OpSet u pressed => set_key u pressed st | OpRelease => release_all st end.

Definition run {A} (f : op -> A -> bool * A) : list op -> A -> list bool * A :=
  fix go ops a :=
    match ops with
    | [] => ([], a)
    | o :: ops' => let '(b, a') := f o a in let '(bs, a'') := go ops' a' in (b :: bs, a'')
    end.

(** The six key bytes of a boot report: the held keys in increasing order padded
    with zeros, or ErrorRollOver in every position when more than six are held. *)
Definition held_keys (S : gset Z) : list Z := filter (fun u => u ∈ S) (Z.of_nat <$> seq 4 98).

Definition boot_keys (S : gset Z) : list Z :=
  if (length (held_keys S) <=? 6)%nat
  then held_keys S ++ replicate (6 - length (held_keys S)) 0
  else replicate 6 1.

Record represents (st : HidKeyboardState) (S : gset Z) : Prop := {
  rp_keys_length : length (keys_ st) = 0x66%nat;
  rp_key : forall u, (u < 0x66)%nat -> keys_ st !!! u = bool_decide (Z.of_nat u ∈ S);
  rp_report : exists m, report_ st = m :: 0 :: boot_keys S /\ 0 <= m < 256 /\
    forall i, 0 <= i < 8 -> Z.testbit m i = bool_decide (0xe0 + i ∈ S);
  rp_supported : forall u, u ∈ S -> supported u = true }.

(** *** Modifier bits *)

Lemma land_pow2 m i : 0 <= i -> negb (Z.land m (2 ^ i) =? 0) = Z.testbit m i.
Proof.
  intros Hi. destruct (Z.testbit m i) eqn:E.
  - apply negb_true_iff, Z.eqb_neq. intros H0.
    apply (f_equal (fun z => Z.testbit z i)) in H0.
    rewrite Z.land_spec, E, Z.pow2_bits_true, Z.bits_0 in H0 by lia. done.
  - apply negb_false_iff, Z.eqb_eq. apply Z.bits_inj'. intros j Hj.
    rewrite Z.land_spec, Z.pow2_bits_eqb, Z.bits_0 by lia.
    destruct (Z.eqb_spec i j) as [<-|]; [by rewrite E|by rewrite andb_false_r].
Qed.

Lemma is_modifier_range u : is_modifier u = true <-> 0xe0 <= u <= 0xe7.
Proof.
  unfold is_modifier, kHidKeyboardFirstModifier, kHidKeyboardLastModifier.
  rewrite andb_true_iff, !Z.leb_le. lia.
Qed.

Lemma modifier_mask_pow2 u : is_modifier u = true -> modifier_mask u = 2 ^ (u - 0xe0).
Proof.
  intros H. apply is_modifier_range in H.
  unfold modifier_mask, kHidKeyboardFirstModifier, u8. rewrite Z.shiftl_mul_pow2, Z.mul_1_l by lia.
  apply Z.mod_small. split; [apply Z.pow_nonneg; lia|apply Z.pow_lt_mono_r; lia].
Qed.

(** The bits of the modifier byte after one of them is switched. *)
Lemma modifier_byte_bits m u (pressed : bool) i :
  is_modifier u = true -> 0 <= i < 8 ->
  Z.testbit (if pressed then Z.lor m (modifier_mask u) else Z.land m (u8 (Z.lnot (modifier_mask u)))) i
  = if 0xe0 + i =? u then pressed else Z.testbit m i.
Proof.
  intros Hu Hi. rewrite modifier_mask_pow2 by done. apply is_modifier_range in Hu.
  assert (Z.testbit (2 ^ (u - 0xe0)) i = (0xe0 + i =? u)) as Hb.
  { rewrite Z.pow2_bits_eqb by lia.
    destruct (Z.eqb_spec (u - 0xe0) i), (Z.eqb_spec (0xe0 + i) u); lia. }
  destruct pressed.
  - rewrite Z.lor_spec, Hb. destruct (0xe0 + i =? u); [apply orb_true_r|apply orb_false_r].
  - unfold u8. rewrite Z.land_spec, Z.mod_pow2_bits_low, Z.lnot_spec, Hb by lia.
    destruct (0xe0 + i =? u); [apply andb_false_r|apply andb_true_r].
Qed.

Lemma byte_high m i : 0 <= m < 256 -> 8 <= i -> Z.testbit m i = false.
Proof.
  intros Hm Hi. rewrite <- (Z.mod_small m (2 ^ 8)) by done. by apply Z.mod_pow2_bits_high.
Qed.

Lemma byte_of_bits m : (forall i, 8 <= i -> Z.testbit m i = false) -> 0 <= m < 256.
Proof.
  intros Hm. replace m with (m mod 2 ^ 8); [by apply Z.mod_pos_bound|].
  apply Z.bits_inj'. intros i Hi. destruct (Z.lt_ge_cases i 8).
  - by apply Z.mod_pow2_bits_low.
  - by rewrite Z.mod_pow2_bits_high, Hm.
Qed.

Lemma modifier_byte_range m u (pressed : bool) :
  is_modifier u = true -> 0 <= m < 256 ->
  0 <= (if pressed then Z.lor m (modifier_mask u) else Z.land m (u8 (Z.lnot (modifier_mask u)))) < 256.
Proof.
  intros Hu Hm. rewrite modifier_mask_pow2 by done. apply is_modifier_range in Hu.
  apply byte_of_bits. intros i Hi. destruct pressed.
  - rewrite Z.lor_spec, byte_high, Z.pow2_bits_false by lia. done.
  - by rewrite Z.land_spec, byte_high.
Qed.

(** *** The key bytes *)

Lemma fill_keys_spec v a b (l : list Z) : length l = 6%nat -> fill_keys v (a :: b :: l) = a :: b :: replicate 6 v.
Proof. intros Hl. unfold fill_keys. simpl. by rewrite Hl. Qed.

(** The loop appends the held usages to the [count] already stored, until there
    is no room. *)
Lemma rebuild_loop_spec keys usages a b done_ :
  (length done_ <= 6)%nat ->
  Forall (fun u => (u < 256)%nat) usages ->
  let held := Z.of_nat <$> filter (fun u => keys !!! u = true) usages in
  rebuild_loop usages keys (length done_)
    (a :: b :: done_ ++ replicate (6 - length done_) 0) =
  a :: b :: (if (length (done_ ++ held) <=? 6)%nat
             then (done_ ++ held) ++ replicate (6 - length (done_ ++ held)) 0
             else replicate 6 1).
Proof.
  intros Hd Hu. revert done_ Hd. induction Hu as [|u us Hu Hus IH]; intros dn Hd; cbv zeta; cbn [rebuild_loop].
  { cbn. rewrite app_nil_r. apply Nat.leb_le in Hd. by rewrite Hd. }
  rewrite filter_cons. destruct (keys !!! u) eqn:Ek; cbn [negb]; [rewrite decide_True by done|rewrite decide_False by done; by apply IH].
  destruct (Nat.leb_spec 6 (length dn)) as [Hfull|Hroom].
  - rewrite fill_keys_spec by (rewrite length_app, length_replicate; lia).
    rewrite (proj2 (Nat.leb_gt _ _)); [done|]. rewrite length_app. cbn. lia.
  - assert (u8 (Z.of_nat u) = Z.of_nat u) as -> by (apply Z.mod_small; lia).
    rewrite fmap_cons. set (held := Z.of_nat <$> _).
    replace (dn ++ Z.of_nat u :: held) with ((dn ++ [Z.of_nat u]) ++ held)
      by (by rewrite <- app_assoc).
    assert (length (dn ++ [Z.of_nat u]) = S (length dn)) as Hlen by (rewrite length_app; simpl; lia).
    rewrite <- Hlen. specialize (IH (dn ++ [Z.of_nat u])). cbv zeta in IH. fold held in IH.
    rewrite <- IH by lia. f_equal. rewrite Hlen.
    change (<[(2 + length dn)%nat:=Z.of_nat u]> (a :: b :: dn ++ replicate (6 - length dn) 0))
      with (a :: b :: <[length dn:=Z.of_nat u]> (dn ++ replicate (6 - length dn) 0)).
    do 2 f_equal. rewrite insert_app_r_alt, Nat.sub_diag, <- app_assoc by lia.
    by replace (6 - length dn)%nat with (S (6 - S (length dn))) by lia.
Qed.

Lemma held_keys_fmap (S : gset Z) (P : nat -> Prop) `{!forall u, Decision (P u)} us :
  Forall (fun u => P u <-> Z.of_nat u ∈ S) us ->
  filter (fun u => u ∈ S) (Z.of_nat <$> us) = Z.of_nat <$> filter P us.
Proof.
  induction 1 as [|u us Hu _ IH]; [done|]. rewrite fmap_cons, !filter_cons.
  destruct (decide (Z.of_nat u ∈ S)), (decide (P u)); try tauto; by rewrite IH.
Qed.

Lemma rebuild_keys_spec keys a b l (S : gset Z) :
  length keys = 0x66%nat -> length l = 6%nat ->
  (forall u, (u < 0x66)%nat -> keys !!! u = bool_decide (Z.of_nat u ∈ S)) ->
  rebuild_keys keys (a :: b :: l) = a :: b :: boot_keys S.
Proof.
  intros Hk Hl HS. unfold rebuild_keys. rewrite Hk, fill_keys_spec by done.
  change (rebuild_loop (seq 4 98) keys (length (@nil Z))
    (a :: b :: [] ++ replicate (6 - length (@nil Z)) 0) = a :: b :: boot_keys S).
  assert (Forall (fun u => (4 <= u < 0x66)%nat) (seq 4 98)) as Hseq.
  { apply Forall_forall. intros u Hu. apply elem_of_seq in Hu. lia. }
  rewrite rebuild_loop_spec; [|simpl; lia|eapply Forall_impl; [exact Hseq|cbv beta; lia]].
  unfold boot_keys. replace (Z.of_nat <$> _) with (held_keys S); [done|].
  apply held_keys_fmap. eapply Forall_impl; [exact Hseq|]. cbv beta. intros u Hu.
  rewrite HS, bool_decide_eq_true by lia. done.
Qed.

Lemma length_boot_keys S : length (boot_keys S) = 6%nat.
Proof.
  unfold boot_keys. destruct (Nat.leb_spec (length (held_keys S)) 6); [|done].
  rewrite length_app, length_replicate. lia.
Qed.

Lemma elem_of_held_keys S u : u ∈ held_keys S <-> u ∈ S /\ 4 <= u < 0x66.
Proof.
  unfold held_keys. rewrite list_elem_of_filter, list_elem_of_fmap. split.
  - intros [HS (n & -> & Hn)]. apply elem_of_seq in Hn. split; [done|lia].
  - intros [HS Hu]. split; [done|]. exists (Z.to_nat u). split; [lia|]. apply elem_of_seq. lia.
Qed.

(** The key bytes do not depend on the modifiers. *)
Lemma boot_keys_ext S S' :
  (forall u, 4 <= u < 0x66 -> u ∈ S <-> u ∈ S') -> boot_keys S = boot_keys S'.
Proof.
  intros H. assert (held_keys S = held_keys S') as E; [|unfold boot_keys; by rewrite E].
  unfold held_keys. 
  assert (Forall (fun u => 4 <= u < 0x66) (Z.of_nat <$> seq 4 98)) as Hseq.
  { apply Forall_fmap, Forall_forall. intros u Hu. apply elem_of_seq in Hu. simpl. lia. }
  induction Hseq as [|u us Hu _ IH]; [done|]. rewrite !filter_cons. specialize (H u Hu).
  destruct (decide (u ∈ S)), (decide (u ∈ S')); try tauto; by rewrite IH.
Qed.

(** Something is held exactly when some byte of the report is not zero. *)
Lemma report_nonzero m S :
  0 <= m < 256 -> (forall i, 0 <= i < 8 -> Z.testbit m i = bool_decide (0xe0 + i ∈ S)) ->
  (forall u, u ∈ S -> supported u = true) ->
  existsb (fun byte => negb (byte =? 0)) (m :: 0 :: boot_keys S) = bool_decide (S <> ∅).
Proof.
  intros Hm Hbits Hsup. apply eq_true_iff_eq. rewrite existsb_exists, bool_decide_eq_true. split.
  - intros (x & Hx & Hne) ->. apply negb_true_iff, Z.eqb_neq in Hne.
    assert (m = 0) as ->.
    { apply Z.bits_inj'. intros i Hi. rewrite Z.bits_0.
      destruct (Z.lt_ge_cases i 8); [|by apply byte_high]. rewrite Hbits by lia.
      apply bool_decide_eq_false. set_solver. }
    vm_compute in Hx. intuition.
  - intros Hne. apply set_choose_L in Hne as [u Hu]. specialize (Hsup u Hu).
    unfold supported in Hsup. apply orb_true_iff in Hsup as [Hk|Hmod].
    + bool_to_prop. assert (u ∈ held_keys S) as Hin by (apply elem_of_held_keys; split; [done|lia]).
      unfold boot_keys. destruct (length (held_keys S) <=? 6)%nat.
      * exists u. split; [|apply negb_true_iff, Z.eqb_neq; lia].
        do 2 right. apply in_or_app. left. by apply list_elem_of_In.
      * exists 1. split; [simpl; auto|done].
    + apply is_modifier_range in Hmod. exists m. split; [by left|].
      apply negb_true_iff, Z.eqb_neq. intros ->. specialize (Hbits (u - 0xe0) ltac:(lia)).
      rewrite Z.bits_0 in Hbits. symmetry in Hbits. apply bool_decide_eq_false in Hbits.
      apply Hbits. by replace (0xe0 + (u - 0xe0)) with u by lia.
Qed.

(** ** The object implements the abstract keyboard *)

Lemma represents_init : represents init ∅.
Proof.
  split.
  - reflexivity.
  - intros u Hu. cbn [keys_ init]. rewrite bool_decide_eq_false_2 by set_solver.
    apply list_lookup_total_correct. by apply lookup_replicate.
  - exists 0. split; [reflexivity|]. split; [lia|]. intros i Hi.
    rewrite Z.bits_0. symmetry. apply bool_decide_eq_false. set_solver.
  - set_solver.
Qed.

Lemma is_pressed_represents st S u :
  0 <= u < 256 -> represents st S -> is_pressed u st = bool_decide (u ∈ S).
Proof.
  intros Hu [Hkl Hk (m & Hr & Hm & Hbits) Hsup]. unfold is_pressed. rewrite Hr, Hkl.
  destruct (is_modifier u) eqn:Emod.
  - rewrite modifier_mask_pow2 by done. apply is_modifier_range in Emod.
    cbn [lookup_total list_lookup_total]. rewrite land_pow2, Hbits by lia.
    by replace (0xe0 + (u - 0xe0)) with u by lia.
  - destruct (Z.ltb_spec u (Z.of_nat 0x66)) as [Hlt|Hge]; simpl.
    + rewrite Hk by lia. by rewrite Z2Nat.id by lia.
    + symmetry. apply bool_decide_eq_false. intros HS. apply Hsup in HS.
      unfold supported in HS. rewrite Emod, orb_false_r in HS. bool_to_prop. lia.
Qed.

Lemma elem_of_hold u pressed S v :
  v ∈ hold u pressed S <-> if decide (v = u) then pressed = true else v ∈ S.
Proof. unfold hold. destruct pressed, (decide (v = u)); set_solver. Qed.

Lemma hold_same u pressed S : bool_decide (u ∈ S) = pressed -> hold u pressed S = S.
Proof.
  intros <-. apply set_eq. intros v. rewrite elem_of_hold.
  destruct (decide (v = u)) as [->|]; [by rewrite bool_decide_eq_true|done].
Qed.

Lemma hold_supported u pressed S :
  supported u = true -> (forall v, v ∈ S -> supported v = true) ->
  forall v, v ∈ hold u pressed S -> supported v = true.
Proof.
  intros Hu HS v. rewrite elem_of_hold. destruct (decide (v = u)) as [->|]; [done|apply HS].
Qed.

Lemma set_modifier_represents st S u pressed :
  is_modifier u = true -> bool_decide (u ∈ S) <> pressed -> represents st S ->
  let byte := if pressed then Z.lor (report_ st !!! 0%nat) (modifier_mask u)
              else Z.land (report_ st !!! 0%nat) (u8 (Z.lnot (modifier_mask u))) in
  represents {| keys_ := keys_ st; report_ := <[0%nat := byte]> (report_ st) |} (hold u pressed S).
Proof.
  intros Emod Hne [Hkl Hk (m & Hr & Hm & Hbits) Hsup]. rewrite Hr. intros byte.
  pose proof (proj1 (is_modifier_range u) Emod) as Hu. split; simpl; [done| | |].
  - intros v Hv. rewrite Hk by done. apply bool_decide_ext.
    rewrite elem_of_hold, decide_False by lia. done.
  - exists byte. split; [|split; [by apply modifier_byte_range|]].
    + do 2 f_equal. apply boot_keys_ext. intros v Hv. rewrite elem_of_hold, decide_False by lia. done.
    + intros i Hi. unfold byte. cbn [lookup_total list_lookup_total].
      rewrite modifier_byte_bits by done. destruct (Z.eqb_spec (0xe0 + i) u) as [<-|Hiu].
      * symmetry. destruct pressed; [apply bool_decide_eq_true|apply bool_decide_eq_false];
          rewrite elem_of_hold, decide_True by done; done.
      * rewrite Hbits by done. apply bool_decide_ext. rewrite elem_of_hold, decide_False by done. done.
  - apply hold_supported; [|done]. unfold supported. rewrite Emod. apply orb_true_r.
Qed.

Lemma set_ordinary_represents st S u pressed :
  4 <= u < 0x66 -> represents st S ->
  let keys := <[Z.to_nat u := pressed]> (keys_ st) in
  represents {| keys_ := keys; report_ := rebuild_keys keys (report_ st) |} (hold u pressed S).
Proof.
  intros Hu [Hkl Hk (m & Hr & Hm & Hbits) Hsup] keys. rewrite Hr.
  assert (length keys = 0x66%nat) as Hlen by (unfold keys; by rewrite length_insert).
  assert (forall v, (v < 0x66)%nat -> keys !!! v = bool_decide (Z.of_nat v ∈ hold u pressed S)) as Hkeys.
  { intros v Hv. unfold keys. destruct (decide (v = Z.to_nat u)) as [->|Hvu].
    - rewrite list_lookup_total_insert_eq by lia. rewrite Z2Nat.id by lia.
      symmetry. destruct pressed; [apply bool_decide_eq_true|apply bool_decide_eq_false];
        rewrite elem_of_hold, decide_True by done; done.
    - rewrite list_lookup_total_insert_ne by done. rewrite Hk by done. apply bool_decide_ext.
      rewrite elem_of_hold, decide_False by lia. done. }
  split; simpl; [done|done| |].
  - exists m. rewrite (rebuild_keys_spec keys m 0 _ (hold u pressed S))
      by (done || apply length_boot_keys).
    split; [done|]. split; [done|]. intros i Hi. rewrite Hbits by done. apply bool_decide_ext.
    rewrite elem_of_hold, decide_False by lia. done.
  - apply hold_supported; [|done]. unfold supported. apply orb_true_iff. left.
    apply andb_true_iff. split; [apply Z.leb_le|apply Z.ltb_lt]; lia.
Qed.

Lemma step_represents o st S :
  op_wf o -> represents st S ->
  (step o st).1 = (spec_step o S).1 /\ represents (step o st).2 (spec_step o S).2.
Proof.
  intros Hwf HR. destruct o as [u pressed|]; simpl in Hwf |- *.
  - pose proof (is_pressed_represents st S u Hwf HR) as Hp.
    unfold set_key, is_pressed, supported in *. destruct (is_modifier u) eqn:Emod.
    + rewrite orb_true_r, Hp. simpl.
      destruct (Bool.eqb_spec (bool_decide (u ∈ S)) pressed) as [He|Hne]; simpl; (split; [done|]).
      * by rewrite hold_same.
      * by apply set_modifier_represents.
    + rewrite orb_false_r, (rp_keys_length _ _ HR) in *. change (Z.of_nat 0x66) with 0x66 in *.
      assert ((u <? 4) || (0x66 <=? u) = negb ((4 <=? u) && (u <? 0x66))) as ->.
      { destruct (Z.ltb_spec u 4), (Z.leb_spec 0x66 u), (Z.leb_spec 4 u), (Z.ltb_spec u 0x66);
          done || lia. }
      destruct ((4 <=? u) && (u <? 0x66)) eqn:E; simpl; [|done].
      apply andb_true_iff in E as [E1 E2]. rewrite E2 in Hp. simpl in Hp. rewrite Hp. bool_to_prop.
      destruct (Bool.eqb_spec (bool_decide (u ∈ S)) pressed) as [He|Hne]; simpl; (split; [done|]).
      * by rewrite hold_same.
      * apply set_ordinary_represents; [lia|done].
  - destruct HR as [Hkl Hk (m & Hr & Hm & Hbits) Hsup]. split.
    + rewrite Hr. by apply report_nonzero.
    + rewrite Hkl, Hr. simpl. rewrite length_boot_keys. apply represents_init.
Qed.

Lemma run_represents ops st S :
  Forall op_wf ops -> represents st S ->
  (run step ops st).1 = (run spec_step ops S).1 /\
  represents (run step ops st).2 (run spec_step ops S).2.
Proof.
  intros Hwf. revert st S. induction Hwf as [|o ops Ho _ IH]; intros st S HR; [done|].
  cbn [run]. destruct (step_represents o st S Ho HR) as [H1 H2].
  destruct (step o st) as [b st'], (spec_step o S) as [b' S']. cbn [fst snd] in H1, H2. subst b'.
  specialize (IH st' S' H2). fold (run step) (run spec_step).
  destruct (run step ops st'), (run spec_step ops S'). simpl in *.
  destruct IH as [-> ?]. done.
Qed.

(** C28: the keyboard object implements a set of held keys. After any sequence
    of [set_key] and [release_all] calls, starting from a fresh object: every
    call returned whether it changed the set; [is_pressed] is membership; and
    the report is the modifier byte with one bit per held modifier, the
    reserved zero, and the at most six held keys in increasing order padded with
    zeros, or six ErrorRollOver codes when more than six keys are held. *)
Theorem hid_keyboard_refines ops :
  Forall op_wf ops ->
  let '(outs, st) := run step ops init in
  let '(spec_outs, held) := run spec_step ops ∅ in
  outs = spec_outs /\
  (forall u, 0 <= u < 256 -> is_pressed u st = bool_decide (u ∈ held)) /\
  exists m, report_ st = m :: 0 :: boot_keys held /\ 0 <= m < 256 /\
    forall i, 0 <= i < 8 -> Z.testbit m i = bool_decide (0xe0 + i ∈ held).
Proof.
  intros Hwf. destruct (run_represents ops init ∅ Hwf represents_init) as [Ho HR].
  destruct (run step ops init) as [outs st], (run spec_step ops ∅) as [souts held]. simpl in *.
  split; [done|]. split; [intros u Hu; by apply is_pressed_represents|apply (rp_report _ _ HR)].
Qed.

(** Shift, seven letters (roll-over), two of them released again. *)
Definition demo_ops : list op :=
  OpSet 0xe1 true :: ((fun u => OpSet u true) <$> [9; 5; 4; 6; 7; 8; 10]) ++
  [OpSet 9 true; OpSet 10 false; OpSet 5 false; OpSet 3 true].

Lemma hid_keyboard_refines_witness :
  (run step demo_ops init).1 =
    [true; true; true; true; true; true; true; true; false; true; true; false] /\
  (exists m, report_ (run step demo_ops init).2 = m :: 0 :: [4; 6; 7; 8; 9; 0]) /\
  Z.testbit (report_ (run step demo_ops init).2 !!! 0%nat) 1 = true.
Proof.
  pose proof (hid_keyboard_refines demo_ops ltac:(repeat constructor; simpl; lia)) as H.
  destruct (run step demo_ops init) as [outs st] eqn:E.
  destruct (run spec_step demo_ops ∅) as [souts held] eqn:ES.
  destruct H as (H1 & _ & m & Hr & _). vm_compute in E. injection E as <- <-. simpl in *.
  split; [reflexivity|]. split; [by eexists|reflexivity].
Defined.

Lemma key_table_sound_witness :
  supported (mac_virtual_key_to_hid_usage 0x0c) = true /\
  forall k, mac_virtual_key_to_hid_usage k = mac_virtual_key_to_hid_usage 0x0c -> k = 0x0c.
Proof.
  destruct (key_table_sound 0x0c) as [[H|H] Hinj].
  - vm_compute in H. discriminate.
  - split; [exact H|]. intros k Hk. symmetry. apply Hinj; [by symmetry|vm_compute; discriminate].
Defined.

End HidKeyboard.
