(* ===== verification/InputProtocol.v ===== *)
(** [shell/protocol/macmu_input_protocol.h]: the fixed-size datagram that carries
    pointer input from the shell to the emulator. *)
From S2P Require Import Prelude ControlProtocol.

Definition kInputProtocolMagic : Z := 0x4d4d494e.
Definition kInputProtocolVersion : Z := 1.
Definition kInputFdEnv : string := "MACMU_INPUT_FD".
Definition kInputChildFd : Z := 199.
Definition kInputSocketEnv : string := "MACMU_INPUT_SOCKET_PATH".
Definition kInputTouchPressure : Z := 0x400.
Definition kInputTouchMajor : Z := 0x400.
Definition kInputTouchMinor : Z := 0x400.

Inductive InputEventKind := kTouchBegin | kTouchUpdate | kTouchEnd | kMouseMove | kMouseButton.

#[export] Instance InputEventKind_eq_dec : EqDecision InputEventKind.
Proof. solve_decision. Defined.

Definition kind_code (k : InputEventKind) : Z :=
  match k with
  | kTouchBegin => 1 | kTouchUpdate => 2 | kTouchEnd => 3 | kMouseMove => 4 | kMouseButton => 5
  end.

(** [static_cast<InputEventKind>(code)]; [None] has no enumerator. *)
Definition kind_of_code (c : Z) : option InputEventKind :=
  match c with
  | 1 => Some kTouchBegin | 2 => Some kTouchUpdate | 3 => Some kTouchEnd
  | 4 => Some kMouseMove | 5 => Some kMouseButton | _ => None
  end.

Lemma kind_of_kind_code k : kind_of_code (kind_code k) = Some k.
Proof. by destruct k. Qed.

Definition kInputMouseButtonLeft : Z := Z.shiftl 1 0.
Definition kInputMouseButtonRight : Z := Z.shiftl 1 1.
Definition kInputMouseButtonMiddle : Z := Z.shiftl 1 2.

Record InputEventPacket := {
  ip_magic : Z; ip_version : Z; ip_kind : Z; ip_displayId : Z; ip_pointerId : Z;
  ip_x : Z; ip_y : Z; ip_xGlobal : Z; ip_yGlobal : Z; ip_buttons : Z; ip_flags : Z }.

#[export, refine] Instance InputEventPacket_wire : Wire InputEventPacket := {|
  wire_size := 40;
  wire_wf p := is_u32 (ip_magic p) /\ is_u16 (ip_version p) /\ is_u16 (ip_kind p) /\
    is_u32 (ip_displayId p) /\ is_s32 (ip_pointerId p) /\ is_s32 (ip_x p) /\ is_s32 (ip_y p) /\
    is_s32 (ip_xGlobal p) /\ is_s32 (ip_yGlobal p) /\ is_u32 (ip_buttons p) /\ is_u32 (ip_flags p);
  encode p := put32 (ip_magic p) ++ put16 (ip_version p) ++ put16 (ip_kind p) ++
    put32 (ip_displayId p) ++ put32 (ip_pointerId p) ++ put32 (ip_x p) ++
    put32 (ip_y p) ++ put32 (ip_xGlobal p) ++ put32 (ip_yGlobal p) ++
    put32 (ip_buttons p) ++ put32 (ip_flags p);
  decode bs := {| ip_magic := field 0 4 bs; ip_version := field 4 2 bs; ip_kind := field 6 2 bs;
    ip_displayId := field 8 4 bs; ip_pointerId := s32 (field 12 4 bs); ip_x := s32 (field 16 4 bs);
    ip_y := s32 (field 20 4 bs); ip_xGlobal := s32 (field 24 4 bs);
    ip_yGlobal := s32 (field 28 4 bs); ip_buttons := field 32 4 bs; ip_flags := field 36 4 bs |};
|}.
Proof. all: wire_laws. Defined.
