(* ===== verification/InputSender.v ===== *)
(** [shell/core/input_sender.{h,cpp}]: the shell's end of the pointer-input
    datagram socket. The object's state includes [queue], the datagrams that sit
    in the socketpair between the two ends; the emulator takes them from there.
    Each method runs under [m_sendMutex], so it is one atomic operation. *)
From S2P Require Import Prelude Posix ControlProtocol InputProtocol.

Module InputSender.

Record t := { m_fd : Z; m_remoteFd : Z; m_enabled : bool; queue : list bytes }.

Definition init : t := {| m_fd := -1; m_remoteFd := -1; m_enabled := false; queue := [] |}.

Definition with_queue (st : t) (q : list bytes) : t :=
  {| m_fd := m_fd st; m_remoteFd := m_remoteFd st; m_enabled := m_enabled st; queue := q |}.

(** ** Life cycle *)

(** The answers of [socketpair] and of the two [fcntl] pairs of
    [set_close_on_exec]; the descriptors that are closed are returned. *)
Definition create (pair : option (Z * Z)) (fl0 fl1 : Z * bool) (st : t) : bool * t * list Z :=
  match pair with
  | None => (false, st, [])
  | Some (p0, p1) =>
      if negb (set_close_on_exec fl0.1 fl0.2 true).1 || negb (set_close_on_exec fl1.1 fl1.2 true).1
      then (false, st, [p0; p1])
      else (true, {| m_fd := p0; m_remoteFd := p1; m_enabled := m_enabled st; queue := [] |}, [])
  end.

Definition destroy (st : t) : t * list Z :=
  let '(st, o1) :=
    if 0 <=? m_remoteFd st then
      ({| m_fd := m_fd st; m_remoteFd := -1; m_enabled := m_enabled st; queue := queue st |},
       [m_remoteFd st])
    else (st, []) in
  if 0 <=? m_fd st then
    ({| m_fd := -1; m_remoteFd := m_remoteFd st; m_enabled := m_enabled st; queue := queue st |},
     o1 ++ [m_fd st])
  else (st, o1).

Definition valid (st : t) : bool := 0 <=? m_fd st.

(** ** Sending *)

Definition make_packet (kind : InputEventKind) (display_id pointer_id x y buttons : Z)
    : InputEventPacket := {|
  ip_magic := kInputProtocolMagic; ip_version := kInputProtocolVersion; ip_kind := kind_code kind;
  ip_displayId := display_id; ip_pointerId := pointer_id; ip_x := x; ip_y := y;
  ip_xGlobal := x; ip_yGlobal := y; ip_buttons := buttons; ip_flags := 0 |}.

(** The answer of one [send]: a datagram socket takes the whole datagram and
    returns its size, or fails, with EAGAIN/EWOULDBLOCK set apart. *)
Inductive send_answer := SendAll | SendAgain | SendErr.

(** The answer of one [poll(POLLOUT)]. *)
Inductive pollout_answer := PoIntr | PoReady (out : bool) | PoTimeout | PoErr.

(** The [do ... while (EINTR)] loop: whether POLLOUT was reported. With no
    answer left the 5 ms have passed. *)
Fixpoint poll_out (env : list pollout_answer) : bool :=
  match env with
  | [] => false
  | PoIntr :: env' => poll_out env'
  | PoReady out :: _ => out
  | PoTimeout :: _ => false
  | PoErr :: _ => false
  end.

(** What the kernel answers during one call of [send_packet]. *)
Record send_env := {
  se_first : send_answer; se_polls : list pollout_answer; se_second : send_answer }.

Definition is_again (a : send_answer) : bool := match a with SendAgain => true | _ => false end.
Definition is_all (a : send_answer) : bool := match a with SendAll => true | _ => false end.

Definition send_packet (env : send_env) (packet : InputEventPacket) (reliable : bool) (st : t)
    : bool * t :=
  if (m_fd st <? 0) || negb (m_enabled st) then (false, st) else
  let sent :=
    if is_again (se_first env) && reliable then
      if poll_out (se_polls env) then se_second env else se_first env
    else se_first env in
  if is_all sent then (true, with_queue st (queue st ++ [encode packet])) else (false, st).

Definition is_kind (a b : InputEventKind) : bool := bool_decide (a = b).

Definition send_touch (env : send_env) (kind : InputEventKind) (display_id pointer_id x y : Z)
    (st : t) : bool * t :=
  let reliable := is_kind kind kTouchBegin || is_kind kind kTouchEnd in
  send_packet env (make_packet kind display_id pointer_id x y 0) reliable st.

Definition send_mouse_move (env : send_env) (display_id x y buttons : Z) (st : t) : bool * t :=
  send_packet env (make_packet kMouseMove display_id 0 x y buttons) false st.

Definition send_mouse_button (env : send_env) (display_id x y buttons : Z) (st : t) : bool * t :=
  send_packet env (make_packet kMouseButton display_id 0 x y buttons) true st.

(** ** Switching generations *)

(** [while (recv(...) > 0)]: a zero-length datagram or an empty queue ends it. *)
Fixpoint recv_all (q : list bytes) : list bytes :=
  match q with
  | [] => []
  | [] :: q' => q'
  | _ :: q' => recv_all q'
  end.

Definition discard_pending_locked (st : t) : t :=
  if m_remoteFd st <? 0 then st else with_queue st (recv_all (queue st)).

Definition set_enabled (enabled : bool) (st : t) : t :=
  let st :=
    {| m_fd := m_fd st; m_remoteFd := m_remoteFd st; m_enabled := enabled; queue := queue st |} in
  if negb enabled then discard_pending_locked st else st.

(** ** Sequences of calls *)

(** What can happen to the socket: the UI thread calls one of the senders, the
    shell starts or stops a generation, the emulator takes the oldest datagram. *)
Inductive op :=
  | OpTouch (env : send_env) (kind : InputEventKind) (display pointer x y : Z)
  | OpMove (env : send_env) (display x y buttons : Z)
  | OpButton (env : send_env) (display x y buttons : Z)
  | OpEnable (enabled : bool)
  | OpTake.

Definition step (o : op) (st : t) : t :=
  match o with
  | OpTouch env k d p x y => (send_touch env k d p x y st).2
  | OpMove env d x y b => (send_mouse_move env d x y b st).2
  | OpButton env d x y b => (send_mouse_button env d x y b st).2
  | OpEnable e => set_enabled e st
  | OpTake => with_queue st (drop 1 (queue st))
  end.

Definition run (ops : list op) (st : t) : t := foldl (fun st o => step o st) st ops.

(** The packets the sending calls of a sequence would put on the wire. *)
Definition packets_of (ops : list op) : list bytes :=
  ops ≫= fun o => match o with
    | OpTouch _ k d p x y => [encode (make_packet k d p x y 0)]
    | OpMove _ d x y b => [encode (make_packet kMouseMove d 0 x y b)]
    | OpButton _ d x y b => [encode (make_packet kMouseButton d 0 x y b)]
    | _ => []
    end.

Definition enables (o : op) : bool := match o with OpEnable e => e | _ => false end.

#[local] Arguments packets_of : simpl never.
#[local] Arguments encode : simpl never.

(** The invariant of the queue: only whole packets. *)
Definition inv (st : t) : Prop := Forall (fun d => length d = wire_size InputEventPacket) (queue st).

Lemma send_packet_cases env p r st :
  send_packet env p r st = (false, st) \/
  (m_enabled st = true /\ send_packet env p r st = (true, with_queue st (queue st ++ [encode p]))).
Proof.
  unfold send_packet. destruct (m_fd st <? 0), (m_enabled st); simpl; try (by left).
  destruct (is_all _); [by right|by left].
Qed.

Lemma recv_all_whole q :
  Forall (fun d => length d = wire_size InputEventPacket) q -> recv_all q = [].
Proof. induction 1 as [|[|b d] q Hd _ IH]; [done|done|exact IH]. Qed.

Lemma sublist_drop {A} n (l : list A) : drop n l `sublist_of` l.
Proof. rewrite <- (take_drop n l) at 2. by apply sublist_inserts_l. Qed.

(** One step keeps the invariant and the ends of the socket, and adds to the
    queue at most the packet it was asked to send. *)
Lemma step_queue o st :
  inv st -> inv (step o st) /\ m_remoteFd (step o st) = m_remoteFd st /\
  queue (step o st) `sublist_of` queue st ++ packets_of [o].
Proof.
  intros Hinv. assert (queue st `sublist_of` queue st ++ packets_of [o]) as Hsub
    by (apply sublist_inserts_r; done).
  assert (forall env p r, packets_of [o] = [encode p] ->
    let st' := (send_packet env p r st).2 in
    inv st' /\ m_remoteFd st' = m_remoteFd st /\
    queue st' `sublist_of` queue st ++ packets_of [o]) as Hsend.
  { intros env p r Hp. destruct (send_packet_cases env p r st) as [->|[_ ->]]; simpl; [done|].
    rewrite Hp. split; [|done]. unfold inv. simpl. apply Forall_app. split; [done|].
    constructor; [exact (length_encode p)|done]. }
  destruct o; simpl step; [by apply Hsend..| |].
  - unfold set_enabled. destruct enabled; simpl; [done|].
    unfold discard_pending_locked. simpl. destruct (m_remoteFd st <? 0); [done|].
    unfold inv. simpl. rewrite recv_all_whole by done.
    split; [constructor|]. split; [done|]. apply sublist_nil_l.
  - split; [|split; [done|]]; simpl.
    + unfold inv. simpl. apply Forall_drop. done.
    + etrans; [apply sublist_drop|]. by apply sublist_inserts_r.
Qed.

Lemma run_queue ops st :
  inv st -> inv (run ops st) /\ m_remoteFd (run ops st) = m_remoteFd st /\
  queue (run ops st) `sublist_of` queue st ++ packets_of ops.
Proof.
  revert st. induction ops as [|o ops IH]; intros st Hinv.
  { split; [done|]. split; [done|]. by apply sublist_inserts_r. }
  destruct (step_queue o st Hinv) as (H1 & H2 & H3).
  destruct (IH _ H1) as (I1 & I2 & I3). split; [done|]. split; [exact (eq_trans I2 H2)|].
  etrans; [exact I3|]. change (o :: ops) with ([o] ++ ops).
  unfold packets_of in *. rewrite bind_app, (assoc_L (++)). by apply sublist_app.
Qed.

Lemma send_disabled env p r st : m_enabled st = false -> send_packet env p r st = (false, st).
Proof. intros H. unfold send_packet. by rewrite H, orb_true_r. Qed.

(** While the sender is disabled nothing enters the queue. *)
Lemma step_disabled o st :
  m_enabled st = false -> queue st = [] -> enables o = false ->
  m_enabled (step o st) = false /\ queue (step o st) = [].
Proof.
  intros Hd Hq Ho. destruct o; simpl in *; subst;
    try (unfold send_touch, send_mouse_move, send_mouse_button; by rewrite send_disabled).
  - unfold set_enabled, discard_pending_locked. simpl. case_match; simpl; by rewrite Hq.
  - by rewrite Hq.
Qed.

Lemma run_disabled ops st :
  m_enabled st = false -> queue st = [] -> Forall (fun o => enables o = false) ops ->
  m_enabled (run ops st) = false /\ queue (run ops st) = [].
Proof.
  intros Hd Hq Hops. revert st Hd Hq.
  induction Hops as [|o ops Ho _ IH]; intros st Hd Hq; [done|].
  destruct (step_disabled o st Hd Hq Ho). by apply (IH (step o st)).
Qed.

(** C4: input never crosses an emulator restart. Take any history of
    sends, in which the shell disables the sender when one emulator goes away
    and enables it for the next: what the new emulator can read from the socket
    are only packets sent after the re-enabling, in order. In particular the
    queue is empty at that moment, no matter what the senders tried meanwhile
    and how much the old emulator had left unread. *)
Theorem input_generations_isolated st before between after :
  inv st -> 0 <= m_remoteFd st ->
  Forall (fun o => enables o = false) between ->
  let st1 := run (before ++ [OpEnable false] ++ between ++ [OpEnable true]) st in
  queue st1 = [] /\ m_enabled st1 = true /\
  queue (run after st1) `sublist_of` packets_of after.
Proof.
  intros Hinv Hfd Hb st1.
  assert (queue st1 = [] /\ m_enabled st1 = true /\ inv st1) as (Hq & He & Hi).
  { unfold st1, run. rewrite !foldl_app. fold (run before st).
    destruct (run_queue before st Hinv) as (Hi0 & Hr & _). simpl.
    set (st0 := set_enabled false (run before st)).
    assert (queue st0 = [] /\ m_enabled st0 = false /\ inv st0) as (H1 & H2 & H3).
    { unfold st0, set_enabled, discard_pending_locked. simpl.
      rewrite (proj2 (Z.ltb_ge _ _)) by lia. simpl. rewrite recv_all_whole by done.
      repeat split; constructor. }
    fold (run between st0). destruct (run_disabled between st0 H2 H1 Hb) as [H4 H5].
    unfold set_enabled. simpl. unfold inv. simpl. rewrite H5. repeat split; constructor. }
  split; [done|]. split; [done|].
  destruct (run_queue after st1 Hi) as (_ & _ & Hs). by rewrite Hq in Hs.
Qed.

(** What a send reports. [send_packet] returns true exactly when the
    packet is at the end of the queue, and otherwise leaves the queue as it
    was; a disabled or closed sender never sends; and a reliable packet is sent
    whenever the first attempt succeeds or the socket drains within the 5 ms
    wait and accepts the second, while an unreliable one is dropped on a full
    socket without waiting. *)
Theorem send_packet_outcomes env p reliable st :
  let '(ok, st') := send_packet env p reliable st in
  (ok = true <-> (0 <= m_fd st /\ m_enabled st = true /\
     (se_first env = SendAll \/
      (se_first env = SendAgain /\ reliable = true /\ poll_out (se_polls env) = true /\
       se_second env = SendAll)))) /\
  queue st' = queue st ++ (if ok then [encode p] else []) /\
  m_enabled st' = m_enabled st /\ m_fd st' = m_fd st /\ m_remoteFd st' = m_remoteFd st.
Proof.
  unfold send_packet. destruct (Z.ltb_spec (m_fd st) 0) as [Hneg|Hpos]; simpl.
  { rewrite app_nil_r. repeat split; try done; lia. }
  destruct (m_enabled st) eqn:Een; simpl.
  2: { rewrite app_nil_r. split; [|done]. split; [done|]. intros (_ & ? & _). done. }
  destruct (se_first env) eqn:E1, reliable; simpl;
    try destruct (poll_out (se_polls env)) eqn:E2; simpl;
    try destruct (se_second env) eqn:E3; simpl;
    rewrite ?app_nil_r; repeat split; try done; try lia; intuition congruence.
Qed.

Definition all_ok : send_env := {| se_first := SendAll; se_polls := []; se_second := SendErr |}.
Definition full_then_ok : send_env :=
  {| se_first := SendAgain; se_polls := [PoIntr; PoReady true]; se_second := SendAll |}.

Definition demo_sender : t := {| m_fd := 7; m_remoteFd := 8; m_enabled := true; queue := [] |}.

Lemma input_generations_isolated_witness :
  length (queue (run [OpTouch all_ok kTouchBegin 0 0 10 20; OpMove all_ok 0 1 2 0] demo_sender)) = 2%nat /\
  queue (run ([OpTouch all_ok kTouchBegin 0 0 10 20; OpMove all_ok 0 1 2 0] ++ [OpEnable false] ++
    [OpTouch all_ok kTouchEnd 0 0 10 20] ++ [OpEnable true]) demo_sender) = [].
Proof.
  split; [vm_compute; reflexivity|].
  apply (input_generations_isolated demo_sender
    [OpTouch all_ok kTouchBegin 0 0 10 20; OpMove all_ok 0 1 2 0]
    [OpTouch all_ok kTouchEnd 0 0 10 20] []); [constructor|by vm_compute|by repeat constructor].
Defined.

End InputSender.
