(* ===== verification/InputReceiver.v ===== *)
(** [external/qemu/android-qemu2-glue/macmu-input-receiver.cpp]: the emulator's
    end of the pointer-input socket. [thread_loop] is the receiver thread over
    what [poll] and [recv] report; [deliver_packet] is what the main looper runs
    for each packet, with the per-display mouse state. The user event agent
    belongs to the emulator core and is represented by the calls made to it. *)
From S2P Require Import Prelude Text Posix ControlProtocol InputProtocol InputSender.

Module MacMuInputReceiver.

(** ** Data *)

Record MouseState := { hasPosition : bool; ms_x : Z; ms_y : Z }.

Definition default_mouse : MouseState := {| hasPosition := false; ms_x := 0; ms_y := 0 |}.

Record t := {
  mRunning : bool; mAgent : bool; mFd : Z; mPath : bytes; mUsingInheritedFd : bool;
  mThread : bool; mMouseStates : gmap Z MouseState }.

Definition init : t := {|
  mRunning := false; mAgent := false; mFd := -1; mPath := []; mUsingInheritedFd := false;
  mThread := false; mMouseStates := ∅ |}.

(** ** Starting and stopping *)

Inductive action := ActUnlink (path : bytes) | ActClose (fd : Z) | ActJoin.

(** What [start] reads from its surroundings: the two environment variables, the
    answer of [fcntl(F_GETFD)], of [socket] and of [bind]. *)
Record start_env := {
  sv_agent : bool; sv_fdEnv : option bytes; sv_getfd : Z; sv_pathEnv : option bytes;
  sv_socket : Z; sv_bind_ok : bool }.

Definition INT_MAX : Z := 2 ^ 31 - 1.

(** The descriptor advertised in the environment, or -1. *)
Definition env_fd (fdEnv : option bytes) : Z :=
  match fdEnv with
  | Some (b :: bs) =>
      match strtol (b :: bs) with
      | Some (parsed, _) => if (0 <=? parsed) && (parsed <? INT_MAX) then parsed else -1
      | None => -1
      end
  | _ => -1
  end.

(** [sizeof(sockaddr_un::sun_path)] is the platform's. *)
Definition fill_sockaddr (sun_path_size : nat) (path : bytes) : option bytes :=
  if (length path =? 0)%nat || (sun_path_size <=? length path)%nat then None
  else Some (take (sun_path_size - 1) path).

Definition running (st : t) (fd : Z) (path : bytes) (inherited : bool) : t := {|
  mRunning := true; mAgent := true; mFd := fd; mPath := path; mUsingInheritedFd := inherited;
  mThread := true; mMouseStates := mMouseStates st |}.

Definition start (sun_path_size : nat) (env : start_env) (st : t) : t * list action :=
  if mRunning st then (st, []) else
  if negb (sv_agent env) then (st, []) else
  let fd := env_fd (sv_fdEnv env) in
  if 0 <=? fd then
    if sv_getfd env <? 0 then (st, []) else (running st fd [] true, [])
  else
    match sv_pathEnv env with
    | None | Some [] => (st, [])
    | Some path =>
        match fill_sockaddr sun_path_size path with
        | None => (st, [])
        | Some _ =>
            let fd := sv_socket env in
            if fd <? 0 then (st, []) else
            if negb (sv_bind_ok env) then (st, [ActUnlink path; ActClose fd])
            else (running st fd path false, [ActUnlink path])
        end
    end.

Definition stop (st : t) : t * list action :=
  if negb (mRunning st) then (st, []) else
  let st' := {| mRunning := false; mAgent := mAgent st; mFd := -1; mPath := mPath st;
                mUsingInheritedFd := mUsingInheritedFd st; mThread := false;
                mMouseStates := mMouseStates st |} in
  (st', (if 0 <=? mFd st then [ActClose (mFd st)] else []) ++
        (if mThread st then [ActJoin] else []) ++
        match mPath st with
        | [] => []
        | path => if negb (mUsingInheritedFd st) then [ActUnlink path] else []
        end).

(** ** The receiver thread *)

Definition valid_packet (packet : InputEventPacket) : bool :=
  if negb (ip_magic packet =? kInputProtocolMagic) || negb (ip_version packet =? kInputProtocolVersion)
  then false
  else (kind_code kTouchBegin <=? ip_kind packet) && (ip_kind packet <=? kind_code kMouseButton).

(** One round of the loop: [mRunning] was cleared; [poll] was interrupted, failed
    or reported nothing to read; [recv] failed or returned a datagram. *)
Inductive rx_event :=
  | RxStopped | RxIntr | RxPollErr | RxIdle | RxRecvErr | RxData (d : bytes).

(** [recv] into a 40-byte struct: a longer datagram is cut, a shorter one is
    rejected by its size. *)
Definition accept (d : bytes) : option InputEventPacket :=
  if (Nat.min (length d) (wire_size InputEventPacket) =? wire_size InputEventPacket)%nat then
    let packet := decode (take (wire_size InputEventPacket) d) in
    if valid_packet packet then Some packet else None
  else None.

(** Without a main looper [post_packet] drops the packet. *)
Definition post_packet (looper : bool) (packet : InputEventPacket) : list InputEventPacket :=
  if looper then [packet] else [].

(** The packets that are posted to the main looper, in order. *)
Fixpoint thread_loop (looper : bool) (env : list rx_event) : list InputEventPacket :=
  match env with
  | [] => []
  | RxStopped :: _ => []
  | RxIntr :: env' => thread_loop looper env'
  | RxPollErr :: _ => []
  | RxIdle :: env' => thread_loop looper env'
  | RxRecvErr :: env' => thread_loop looper env'
  | RxData d :: env' =>
      match accept d with
      | Some packet => post_packet looper packet ++ thread_loop looper env'
      | None => thread_loop looper env'
      end
  end.

(** ** Delivery on the main looper *)

(** The coordinates are [int]s: a difference beyond their range wraps. *)
Definition int_sub (a b : Z) : Z := s32 (a - b).

Inductive touch_type := kEventTouchBegin | kEventTouchUpdate | kEventTouchEnd.

Inductive agent_call :=
  | SendTouchEvents (type : touch_type) (display_id id pressure orientation x y x_global y_global
      touch_major touch_minor : Z) (displayId : Z)
  | SendMouseEvent (dx dy dz buttons displayId : Z).   (* MOUSE_EVENT_MODE_REL *)

Definition is_mouse (k : InputEventKind) : bool :=
  match k with kMouseMove | kMouseButton => true | _ => false end.

Definition deliver_packet (agent : bool) (packet : InputEventPacket)
    (states : gmap Z MouseState) : gmap Z MouseState * list agent_call :=
  if negb agent then (states, []) else
  let displayId := s32 (ip_displayId packet) in
  match kind_of_code (ip_kind packet) with
  | None => (states, [])
  | Some kind =>
      if is_mouse kind then
        let state := default default_mouse (states !! ip_displayId packet) in
        let dx := if hasPosition state then int_sub (ip_x packet) (ms_x state) else 0 in
        let dy := if hasPosition state then int_sub (ip_y packet) (ms_y state) else 0 in
        (<[ip_displayId packet := {| hasPosition := true; ms_x := ip_x packet;
                                     ms_y := ip_y packet |}]> states,
         [SendMouseEvent dx dy 0 (ip_buttons packet) displayId])
      else
        let type := match kind with
                    | kTouchBegin => kEventTouchBegin
                    | kTouchUpdate => kEventTouchUpdate
                    | _ => kEventTouchEnd
                    end in
        let pressure := match kind with kTouchEnd => 0 | _ => kInputTouchPressure end in
        (states,
         [SendTouchEvents type (ip_displayId packet) (ip_pointerId packet) pressure 0
            (ip_x packet) (ip_y packet) (ip_xGlobal packet) (ip_yGlobal packet)
            kInputTouchMajor kInputTouchMinor displayId])
  end.

Fixpoint deliver_all (packets : list InputEventPacket) (states : gmap Z MouseState)
    : gmap Z MouseState * list agent_call :=
  match packets with
  | [] => (states, [])
  | p :: ps =>
      let '(states1, o1) := deliver_packet true p states in
      let '(states2, o2) := deliver_all ps states1 in
      (states2, o1 ++ o2)
  end.

(** ** What the shell sends is what the agent gets *)

Definition args_wf (display pointer x y buttons : Z) : Prop :=
  is_u32 display /\ is_s32 pointer /\ is_s32 x /\ is_s32 y /\ is_u32 buttons.

Lemma make_packet_wf k d p x y b :
  args_wf d p x y b -> wire_wf (InputSender.make_packet k d p x y b).
Proof.
  intros (? & ? & ? & ? & ?). repeat split; simpl; try done; try apply H; try apply H0;
    try apply H1; try apply H2; try apply H3; by destruct k.
Qed.

Lemma accept_packet k d p x y b :
  args_wf d p x y b ->
  accept (encode (InputSender.make_packet k d p x y b)) = Some (InputSender.make_packet k d p x y b).
Proof.
  intros H. unfold accept. rewrite length_encode, Nat.min_id, Nat.eqb_refl.
  rewrite take_ge by (by rewrite length_encode).
  rewrite decode_encode_nil by (by apply make_packet_wf). by destruct k.
Qed.

(** The arguments of one call of the sender. *)
Record input := { in_kind : InputEventKind; in_display : Z; in_pointer : Z; in_x : Z; in_y : Z;
                  in_buttons : Z }.

Definition input_wf (i : input) : Prop :=
  args_wf (in_display i) (in_pointer i) (in_x i) (in_y i) (in_buttons i).

Definition packet_of (i : input) : InputEventPacket :=
  InputSender.make_packet (in_kind i) (in_display i) (in_pointer i) (in_x i) (in_y i) (in_buttons i).

(** A run of the receiver during which the datagrams of [inputs] arrive, in any
    interleaving with idle polls, interruptions, failed receives and foreign
    datagrams that do not have the protocol's size, magic, version or a known
    kind. *)
Inductive arrives : list rx_event -> list input -> Prop :=
  | arrives_nil : arrives [] []
  | arrives_quiet e env ins : e ∈ [RxIntr; RxIdle; RxRecvErr] -> arrives env ins -> arrives (e :: env) ins
  | arrives_foreign d env ins : accept d = None -> arrives env ins -> arrives (RxData d :: env) ins
  | arrives_packet i env ins :
      input_wf i -> arrives env ins -> arrives (RxData (encode (packet_of i)) :: env) (i :: ins).

Lemma thread_loop_arrives env ins : arrives env ins -> thread_loop true env = packet_of <$> ins.
Proof.
  induction 1 as [|e env ins He _ IH|d env ins Hd _ IH|i env ins Hi _ IH]; [done| | |].
  - by repeat (apply elem_of_cons in He as [->|He]; [exact IH|]); apply elem_of_nil in He.
  - simpl. by rewrite Hd.
  - cbn [thread_loop]. unfold packet_of at 1. rewrite accept_packet by done. simpl. by f_equal.
Qed.

Definition mouse_inputs (d : Z) (ins : list input) : list input :=
  filter (fun i => is_mouse (in_kind i) = true /\ in_display i = d) ins.

Definition position (s : option MouseState) : option (Z * Z) :=
  match s with Some m => if hasPosition m then Some (ms_x m, ms_y m) else None | None => None end.

(** Where the mouse of display [d] is after the inputs [past]: at its last mouse
    input, or where [states] has it. *)
Definition mouse_at (states : gmap Z MouseState) (past : list input) (d : Z) : option (Z * Z) :=
  match last (mouse_inputs d past) with
  | Some i => Some (in_x i, in_y i)
  | None => position (states !! d)
  end.

(** The offset along one axis, exact as long as it is an [int]. *)
Definition offset_of (from to delta : Z) : Prop :=
  delta = int_sub to from /\ (is_s32 (to - from) -> delta = to - from).

(** What the guest is told about one input when the mouse of its display is at [at_]:
    a touch carries the coordinates, the pointer and its phase; a mouse event carries
    the way from [at_] to the input's coordinates, none for a mouse that has no
    position yet, and the buttons. *)
Definition reports (at_ : option (Z * Z)) (i : input) (c : agent_call) : Prop :=
  match c with
  | SendTouchEvents ty di id pr _ x y xg yg _ _ disp =>
      is_mouse (in_kind i) = false /\ di = in_display i /\ id = in_pointer i /\ x = in_x i /\
      y = in_y i /\ xg = in_x i /\ yg = in_y i /\ disp = s32 (in_display i) /\
      (ty = kEventTouchBegin <-> in_kind i = kTouchBegin) /\
      (ty = kEventTouchEnd <-> in_kind i = kTouchEnd) /\ (pr = 0 <-> in_kind i = kTouchEnd)
  | SendMouseEvent dx dy dz b disp =>
      is_mouse (in_kind i) = true /\ dz = 0 /\ b = in_buttons i /\ disp = s32 (in_display i) /\
      match at_ with
      | Some (x, y) => offset_of x (in_x i) dx /\ offset_of y (in_y i) dy
      | None => dx = 0 /\ dy = 0
      end
  end.

Lemma int_sub_offset from to : offset_of from to (int_sub to from).
Proof. split; [done|]. apply s32_id. Qed.

Lemma deliver_reports i states :
  exists c, (deliver_packet true (packet_of i) states).2 = [c] /\ reports (position (states !! in_display i)) i c.
Proof.
  unfold deliver_packet, packet_of. simpl. rewrite kind_of_kind_code.
  destruct i as [[] di p x y b]; simpl; eexists; (split; [done|]); simpl; try (intuition done).
  all: destruct (states !! di) as [[[] mx my]|]; simpl; intuition (done || apply int_sub_offset).
Qed.

(** The positions recorded after an input are those of the inputs delivered. *)
Lemma deliver_mouse_at i states past d :
  mouse_at states (i :: past) d = mouse_at (deliver_packet true (packet_of i) states).1 past d.
Proof.
  unfold mouse_at, mouse_inputs. rewrite filter_cons. unfold deliver_packet. cbn -[is_mouse].
  rewrite kind_of_kind_code. destruct (is_mouse (in_kind i)) eqn:Em; cbn.
  2:{ rewrite decide_False by (by intros [? _]). done. }
  destruct (decide (in_display i = d)) as [Hd|Hd].
  - rewrite decide_True by done. rewrite last_cons. destruct (last _) as [j|]; [done|].
    by rewrite Hd, lookup_insert_eq.
  - rewrite decide_False by (by intros [_ ?]). by rewrite lookup_insert_ne.
Qed.

Lemma deliver_all_reports ins states :
  length (deliver_all (packet_of <$> ins) states).2 = length ins /\
  forall k i, ins !! k = Some i ->
    exists c, (deliver_all (packet_of <$> ins) states).2 !! k = Some c /\
      reports (mouse_at states (take k ins) (in_display i)) i c.
Proof.
  revert states. induction ins as [|i ins IH]; intros states; [done|]. rewrite fmap_cons. cbn [deliver_all].
  destruct (deliver_reports i states) as (c & Hc & Hr). pose proof (deliver_mouse_at i states) as Hm.
  destruct (deliver_packet true (packet_of i) states) as [s1 o1]. cbn [fst snd] in *. subst o1.
  specialize (IH s1). destruct (deliver_all _ s1) as [s2 o2]. destruct IH as [Hl IH]. cbn [snd app] in *.
  split; [cbn; by rewrite Hl|]. intros [|k] j Hj; cbn in Hj.
  - simplify_eq. exists c. by split.
  - destruct (IH k j Hj) as (c' & Hc' & Hr'). exists c'. split; [done|]. cbn [take]. by rewrite Hm.
Qed.

(** C32: pointer input arrives as it was sent. For any interleaving of the shell's
    datagrams with idle polls, interruptions, failed receives and foreign datagrams, the
    receiver posts exactly the shell's packets, in order, and the emulator's agent gets
    exactly one call per packet, for the same display: a touch carries the sender's
    coordinates, pointer and phase; a mouse event carries the sender's buttons and the
    way from the last mouse position of that display, which is that of its last mouse
    packet however many packets of other displays and touches came in between (or the
    one recorded before; no motion when there is none), exactly as long as the
    difference is an [int] and wrapped beyond. *)
Theorem input_end_to_end env ins states :
  arrives env ins ->
  thread_loop true env = packet_of <$> ins /\
  let calls := (deliver_all (thread_loop true env) states).2 in
  length calls = length ins /\
  forall k i, ins !! k = Some i ->
    exists c, calls !! k = Some c /\ reports (mouse_at states (take k ins) (in_display i)) i c.
Proof.
  intros H. rewrite (thread_loop_arrives env ins H). split; [done|]. apply deliver_all_reports.
Qed.

(** ** Relative mouse motion *)

(** The mouse events of one display: their x and y offsets. *)
Definition motion (d : Z) (cs : list agent_call) : list (Z * Z) :=
  cs ≫= fun c => match c with
    | SendMouseEvent dx dy _ _ disp => if bool_decide (disp = s32 d) then [(dx, dy)] else []
    | _ => [] end.

Definition sumZ (l : list Z) : Z := foldr Z.add 0 l.

Lemma s32_inj a b : is_u32 a -> is_u32 b -> s32 a = s32 b -> a = b.
Proof.
  unfold is_u32, s32. intros Ha Hb H.
  assert ((a + 2 ^ 31) mod 2 ^ 32 = (b + 2 ^ 31) mod 2 ^ 32) as E by lia.
  assert ((a - b) mod 2 ^ 32 = 0) as Hm.
  { replace (a - b) with ((a + 2 ^ 31) - (b + 2 ^ 31)) by lia.
    rewrite Zminus_mod, E, Z.sub_diag. done. }
  apply Z.mod_divide in Hm as [k Hk]; [|done]. nia.
Qed.

(** Positions between which no difference leaves the range of an [int]. *)
Definition moderate (x y : Z) : Prop := - 2 ^ 30 <= x < 2 ^ 30 /\ - 2 ^ 30 <= y < 2 ^ 30.

Lemma int_sub_moderate x y x' y' :
  moderate x y -> moderate x' y' -> int_sub x x' = x - x' /\ int_sub y y' = y - y'.
Proof. unfold moderate. intros. split; apply s32_id; unfold is_s32; lia. Qed.

(** The offset reported for a mouse input, given the state of its display. *)
Definition offset (i : input) (states : gmap Z MouseState) : Z * Z :=
  match position (states !! in_display i) with
  | Some (x, y) => (int_sub (in_x i) x, int_sub (in_y i) y)
  | None => (0, 0)
  end.

Definition moved (i : input) (states : gmap Z MouseState) : gmap Z MouseState :=
  <[in_display i := {| hasPosition := true; ms_x := in_x i; ms_y := in_y i |}]> states.

Lemma deliver_all_mouse i ins states :
  is_mouse (in_kind i) = true ->
  (deliver_all (packet_of <$> i :: ins) states).2 =
  SendMouseEvent (offset i states).1 (offset i states).2 0 (in_buttons i) (s32 (in_display i)) ::
  (deliver_all (packet_of <$> ins) (moved i states)).2.
Proof.
  intros Hm. rewrite fmap_cons. cbn [deliver_all]. unfold deliver_packet. simpl negb. cbv iota zeta.
  cbn [packet_of InputSender.make_packet ip_kind]. rewrite kind_of_kind_code, Hm. cbn -[deliver_all].
  fold (moved i states). destruct (deliver_all _ (moved i states)) as [s2 o2]. simpl. f_equal.
  unfold offset, position. destruct (states !! in_display i) as [m|]; [|done]. simpl.
  by destruct (hasPosition m).
Qed.

Lemma deliver_all_touch i ins states d :
  is_mouse (in_kind i) = false ->
  motion d (deliver_all (packet_of <$> i :: ins) states).2 =
  motion d (deliver_all (packet_of <$> ins) states).2.
Proof.
  intros Hm. rewrite fmap_cons. cbn [deliver_all]. unfold deliver_packet. simpl negb. cbv iota zeta.
  cbn [packet_of InputSender.make_packet ip_kind]. rewrite kind_of_kind_code, Hm.
  destruct (deliver_all _ states) as [s2 o2]. done.
Qed.

Lemma motion_mouse d dx dy dz b disp cs :
  motion d (SendMouseEvent dx dy dz b disp :: cs) =
  (if bool_decide (disp = s32 d) then [(dx, dy)] else []) ++ motion d cs.
Proof. done. Qed.

(** The offsets reported for a display from a known position on add up to its
    last position. *)
Lemma motion_from d ins : is_u32 d -> Forall (fun i => input_wf i /\ moderate (in_x i) (in_y i)) ins ->
  forall states x y, position (states !! d) = Some (x, y) -> moderate x y ->
  let cs := (deliver_all (packet_of <$> ins) states).2 in
  (x + sumZ (motion d cs).*1, y + sumZ (motion d cs).*2) =
  default (x, y) ((fun i => (in_x i, in_y i)) <$> last (mouse_inputs d ins)).
Proof.
  intros Hd His. induction His as [|i ins [Hi Hmi] _ IH]; intros states x y Hpos Hxy cs.
  { simpl. f_equal; lia. }
  unfold cs. clear cs. unfold mouse_inputs. rewrite filter_cons.
  destruct (is_mouse (in_kind i)) eqn:Em.
  - rewrite deliver_all_mouse, motion_mouse by done.
    destruct (decide (in_display i = d)) as [Hid|Hne].
    + rewrite decide_True, bool_decide_eq_true_2 by (done || by rewrite Hid).
      assert (position (moved i states !! d) = Some (in_x i, in_y i)) as Hpos'.
      { unfold moved. rewrite Hid, lookup_insert_eq. done. }
      specialize (IH _ _ _ Hpos' Hmi). cbv zeta in IH.
      destruct (int_sub_moderate _ _ _ _ Hmi Hxy) as [Ex Ey].
      rewrite last_cons. fold (mouse_inputs d ins).
      set (mm := motion d (deliver_all (packet_of <$> ins) (moved i states)).2) in *.
      unfold offset. rewrite Hid, Hpos. clearbody mm. simpl. rewrite Ex, Ey.
      destruct (last (mouse_inputs d ins)) as [j|]; simpl in *;
        change (list_fmap _ _ fst mm) with mm.*1; change (list_fmap _ _ snd mm) with mm.*2;
        injection IH as E1 E2; f_equal; lia.
    + rewrite decide_False, bool_decide_eq_false_2.
      * apply IH; [|done]. unfold moved. rewrite lookup_insert_ne by done. done.
      * intros E. apply s32_inj in E; [done|apply Hi|done].
      * intros [_ ?]. done.
  - rewrite deliver_all_touch by done. rewrite decide_False by (by intros [? _]). by apply IH.
Qed.

Lemma length_motion d ins : is_u32 d -> Forall input_wf ins ->
  forall states, length (motion d (deliver_all (packet_of <$> ins) states).2) =
    length (mouse_inputs d ins).
Proof.
  intros Hd His. induction His as [|i ins Hi _ IH]; intros states; [done|].
  unfold mouse_inputs. rewrite filter_cons. destruct (is_mouse (in_kind i)) eqn:Em.
  - rewrite deliver_all_mouse, motion_mouse, length_app, IH by done.
    destruct (decide (in_display i = d)) as [Hid|Hne].
    + rewrite decide_True, bool_decide_eq_true_2 by (done || by rewrite Hid). done.
    + rewrite decide_False, bool_decide_eq_false_2; [done| |by intros [_ ?]].
      intros E. apply s32_inj in E; [done|apply Hi|done].
  - rewrite deliver_all_touch, decide_False by (done || by intros [? _]). apply IH.
Qed.

(** Relative mouse motion neither drifts nor leaks between displays. On
    a receiver that has no position for a display yet, its first mouse packet
    reports no motion, every mouse packet of the display is reported once, and
    the offsets reported for the display add up to the vector from the first to
    the last position the shell sent for it, whatever touch input and whatever
    mouse input for other displays comes in between, as long as the coordinates stay
    below 2^30. *)
Theorem mouse_motion_telescopes d ins states first rest :
  is_u32 d -> Forall (fun i => input_wf i /\ moderate (in_x i) (in_y i)) ins -> states !! d = None ->
  mouse_inputs d ins = first :: rest ->
  let m := motion d (deliver_all (packet_of <$> ins) states).2 in
  let final := default first (last rest) in
  head m = Some (0, 0) /\ length m = length (first :: rest) /\
  sumZ m.*1 = in_x final - in_x first /\ sumZ m.*2 = in_y final - in_y first.
Proof.
  intros Hd His Hnone Hm m final.
  assert (length m = length (first :: rest)) as Hlen.
  { unfold m. rewrite length_motion, Hm; [done|done|]. by eapply Forall_impl; [exact His|intros ? [? _]]. }
  unfold m in *. clear m. revert states Hnone Hlen.
  induction His as [|i ins [Hi Hmi] Hins IH]; intros states Hnone Hlen; [done|].
  unfold mouse_inputs in Hm. rewrite filter_cons in Hm.
  destruct (is_mouse (in_kind i)) eqn:Em.
  - rewrite deliver_all_mouse, motion_mouse in * by done.
    destruct (decide (in_display i = d)) as [Hid|Hne].
    + rewrite decide_True in Hm by done. injection Hm as <- Hrest.
      rewrite bool_decide_eq_true_2 in * by (by rewrite Hid).
      unfold offset in *. rewrite Hid, Hnone in *. cbn [position fst snd app] in *.
      assert (position (moved i states !! d) = Some (in_x i, in_y i)) as Hpos.
      { unfold moved. rewrite Hid, lookup_insert_eq. done. }
      pose proof (motion_from d ins Hd Hins _ _ _ Hpos Hmi) as Hsum. cbv zeta in Hsum.
      fold (mouse_inputs d ins) in Hrest. rewrite Hrest in Hsum.
      set (mm := motion d (deliver_all (packet_of <$> ins) (moved i states)).2) in *.
      clearbody mm. split; [done|]. split; [done|]. unfold final.
      destruct (last rest) as [j|]; simpl in *; injection Hsum as E1 E2;
        change (list_fmap _ _ fst mm) with mm.*1; change (list_fmap _ _ snd mm) with mm.*2; lia.
    + rewrite decide_False in Hm by (by intros [_ ?]).
      rewrite bool_decide_eq_false_2 in *
        by (intros E; apply s32_inj in E; [done|apply Hi|done]).
      apply IH; [done| |done]. unfold moved. by rewrite lookup_insert_ne.
  - rewrite deliver_all_touch in * by done. rewrite decide_False in Hm by (by intros [? _]).
    by apply IH.
Qed.

(** ** Descriptors *)

(** The receiver owns what it opened, and only that. A [start] that does
    not end up running leaves the object unchanged and closes the socket it
    created, if any; a [stop] after a [start] closes the receiver's descriptor
    exactly once, joins the thread, and removes the socket file only when the
    receiver itself created it, never for the inherited descriptor. *)
Theorem receiver_start_stop n env st st' o :
  mRunning st = false -> start n env st = (st', o) ->
  if mRunning st' then
    0 <= mFd st' /\ (forall fd, ActClose fd ∉ o) /\
    (stop st').2 = [ActClose (mFd st'); ActJoin] ++
      (if mUsingInheritedFd st' then [] else [ActUnlink (mPath st')]) /\
    (mUsingInheritedFd st' = true -> mFd st' = env_fd (sv_fdEnv env)) /\
    mRunning (stop st').1 = false /\ mFd (stop st').1 = -1 /\ (stop (stop st').1).2 = []
  else st' = st /\ (forall fd, ActClose fd ∈ o -> fd = sv_socket env).
Proof.
  intros Hrun. unfold start. rewrite Hrun.
  destruct (sv_agent env); simpl; [|intros [= <- <-]; rewrite Hrun; set_solver].
  destruct (Z.leb_spec 0 (env_fd (sv_fdEnv env))) as [Hfd|Hfd].
  - destruct (sv_getfd env <? 0); intros [= <- <-]; [rewrite Hrun; set_solver|].
    simpl. unfold stop. simpl. rewrite (proj2 (Z.leb_le _ _) Hfd). simpl. set_solver.
  - destruct (sv_pathEnv env) as [[|b path]|]; try (intros [= <- <-]; rewrite Hrun; set_solver).
    unfold fill_sockaddr. destruct (_ || _); [intros [= <- <-]; rewrite Hrun; set_solver|].
    destruct (Z.ltb_spec (sv_socket env) 0) as [Hs|Hs];
      [intros [= <- <-]; rewrite Hrun; set_solver|].
    destruct (sv_bind_ok env); simpl; intros [= <- <-]; simpl; [|rewrite Hrun; set_solver].
    unfold stop. simpl. rewrite (proj2 (Z.leb_le _ _) Hs). simpl. set_solver.
Qed.

(** ** Concrete runs *)

Definition demo_input (k : InputEventKind) (d x y : Z) : input :=
  {| in_kind := k; in_display := d; in_pointer := 0; in_x := x; in_y := y; in_buttons := 1 |}.

Definition demo_inputs : list input :=
  [demo_input kMouseMove 0 10 10; demo_input kTouchBegin 0 99 99; demo_input kMouseMove 2 500 500;
   demo_input kMouseMove 0 15 7; demo_input kMouseButton 0 40 (-3)].

Lemma demo_inputs_wf : Forall (fun i => input_wf i /\ moderate (in_x i) (in_y i)) demo_inputs.
Proof. repeat constructor; vm_compute; intuition congruence. Qed.

Definition demo_arrivals : list rx_event :=
  [RxIdle; RxData (encode (packet_of (demo_input kMouseMove 1 12 (-34)))); RxData (bstr "noise"); RxIntr;
   RxData (encode (packet_of (demo_input kTouchEnd 1 13 (-35))));
   RxData (encode (packet_of (demo_input kMouseButton 1 10 (-30))))].

Lemma input_end_to_end_witness :
  exists c, (deliver_all (thread_loop true demo_arrivals) ∅).2 !! 2%nat = Some c /\
    reports (Some (12, -34)) (demo_input kMouseButton 1 10 (-30)) c.
Proof.
  destruct (input_end_to_end demo_arrivals
    [demo_input kMouseMove 1 12 (-34); demo_input kTouchEnd 1 13 (-35); demo_input kMouseButton 1 10 (-30)] ∅)
    as (_ & _ & H).
  - repeat first
      [ apply arrives_nil | apply arrives_quiet; [set_solver|]
      | apply arrives_packet; [vm_compute; intuition congruence|]
      | apply arrives_foreign; [vm_compute; reflexivity|] ].
  - apply (H 2%nat (demo_input kMouseButton 1 10 (-30)) eq_refl).
Defined.

Lemma mouse_motion_telescopes_witness :
  sumZ (motion 0 (deliver_all (packet_of <$> demo_inputs) ∅).2).*1 = 30.
Proof.
  destruct (mouse_motion_telescopes 0 demo_inputs ∅ (demo_input kMouseMove 0 10 10)
    [demo_input kMouseMove 0 15 7; demo_input kMouseButton 0 40 (-3)]
    ltac:(vm_compute; intuition congruence) demo_inputs_wf eq_refl ltac:(vm_compute; reflexivity))
    as (_ & _ & H & _). exact H.
Defined.

Lemma receiver_start_stop_witness :
  (stop (start 104 {| sv_agent := true; sv_fdEnv := Some (bstr "199"); sv_getfd := 0;
     sv_pathEnv := None; sv_socket := -1; sv_bind_ok := false |} init).1).2 = [ActClose 199; ActJoin].
Proof.
  destruct (start 104 {| sv_agent := true; sv_fdEnv := Some (bstr "199"); sv_getfd := 0;
     sv_pathEnv := None; sv_socket := -1; sv_bind_ok := false |} init) as [st' o] eqn:E.
  pose proof (receiver_start_stop _ _ init _ _ eq_refl E) as H.
  vm_compute in E. injection E as <- <-. simpl in H |- *. apply H.
Defined.

End MacMuInputReceiver.
