(* ===== verification/DisplayAgent.v ===== *)
(** The multi-display agent as the control receiver sees it: the interface
    [QAndroidMultiDisplayAgent] that [macmu-control-receiver.cpp] calls and that
    [MultiDisplay.cpp] implements. The class states what the implementation
    promises; the receiver's theorems are proved against it, and the model of
    [MultiDisplay] discharges it. *)
From S2P Require Import Prelude StdMap.

(** What the agent reports about one display. *)
Record DisplayEntry := {
  de_x : Z; de_y : Z; de_width : Z; de_height : Z; de_dpi : Z; de_flags : Z; de_cb : Z;
  de_enabled : bool }.

Class MultiDisplayAgent (S : Type) := {
  agent_ok : S -> Prop;
  (** the display table *)
  agent_displays : S -> list (Z * DisplayEntry);
  (** [getMultiDisplay(id, ..., &enabled)]: the value returned and [enabled] *)
  agent_getMultiDisplay : S -> Z -> bool * bool;
  (** [getNextMultiDisplay(start, &id, ...)] *)
  agent_getNextMultiDisplay : S -> Z -> option (Z * DisplayEntry);
  (** [setMultiDisplay(id, x, y, w, h, dpi, flags, add)] *)
  agent_setMultiDisplay : S -> Z -> Z -> Z -> Z -> Z -> Z -> Z -> bool -> Z * S;
  agent_sorted : forall s, agent_ok s -> sorted (agent_displays s);
  agent_keys : forall s, agent_ok s ->
    Forall (fun k => 0 <= k < 2 ^ 31 - 1) (keys (agent_displays s));
  agent_get_spec : forall s id, agent_ok s ->
    agent_getMultiDisplay s id =
      match find id (agent_displays s) with
      | Some e => (de_enabled e, de_enabled e)
      | None => (false, false)
      end;
  agent_next_spec : forall s start, agent_ok s -> start < 2 ^ 31 - 1 ->
    agent_getNextMultiDisplay s start =
      lower_bound (if start <? 0 then 0 else start + 1) (agent_displays s);
  agent_set_ok : forall s id x y w h dpi flags add,
    agent_ok s -> is_u32 id -> agent_ok (agent_setMultiDisplay s id x y w h dpi flags add).2;
  agent_set_others : forall s id x y w h dpi flags add k,
    agent_ok s -> is_u32 id -> 0 < id < 2 ^ 31 -> k <> id ->
    is_Some (find k (agent_displays (agent_setMultiDisplay s id x y w h dpi flags add).2)) <->
    is_Some (find k (agent_displays s));
}.
#[global] Hint Mode MultiDisplayAgent ! : typeclass_instances.
