(* ===== verification/ControlReceiver.v ===== *)
(** [external/qemu/android-qemu2-glue/macmu-control-receiver.cpp]: the emulator's
    end of the MMCP control plane. The reader thread ([thread_loop]) parses
    frames and answers some of them itself ([handle_frame]); display changes are
    posted to the main looper, whose FIFO of tasks is part of the state, and
    answered there ([run_task]). The streaming thread paces frame exports
    ([stream_step]). The multi-display agent is any [MultiDisplayAgent]; the
    graphics hooks of the emulator are recorded as outputs. *)
From S2P Require Import Prelude Text StdMap Posix ControlProtocol ControlChannel DisplayAgent.

Module MacMuControlReceiver.

Definition kMaxUserDisplayId : Z := 5.
Definition kFrameSlotCount : Z := 16.
Definition kDefaultDisplayStreamFps : Z := 60.
Definition kMaximumDisplayStreamFps : Z := 1000.
Definition EPIPE : Z := 32.
Definition INT_MAX : Z := 2 ^ 31 - 1.

Definition normalize_stream_fps (requestedFps : Z) : Z :=
  if requestedFps =? 0 then kDefaultDisplayStreamFps
  else if kMaximumDisplayStreamFps <? requestedFps then kMaximumDisplayStreamFps else requestedFps.

(** Nanoseconds. *)
Definition stream_interval (framesPerSecond : Z) : Z :=
  1000000000 / normalize_stream_fps framesPerSecond.

(** ** State and outputs *)

Record DisplayStreamState := { maximumFramesPerSecond : Z; nextExport : Z }.

(** A task posted to the main looper. *)
Inductive task :=
  | TaskAdd (requestId : Z) (request : ControlDisplayAdd)
  | TaskRemove (requestId : Z) (request : ControlDisplayRemove)
  | TaskList (requestId : Z).

Definition task_id (k : task) : Z :=
  match k with TaskAdd i _ | TaskRemove i _ | TaskList i => i end.

Inductive Out :=
  | OutFrame (type requestId : Z) (payload : bytes)
  | OutExportEnabled (displayId : Z) (enabled : bool)
  | OutExportFrame (displayId : Z)
  | OutClearFrame (displayId : Z)
  | OutResetSubscriptions
  | OutShutdownRequest
  | OutShutdownFd (fd : Z)
  | OutCloseFd (fd : Z).

#[export] Instance Out_eq_dec : EqDecision Out.
Proof. solve_decision. Defined.

Record t := {
  mRunning : bool; mStopRequested : bool; mFd : Z; mThread : bool;
  mStreamingDisplays : list (Z * DisplayStreamState); mStreamThread : bool;
  looper : option (list task) }.   (* [None]: android_getMainLooper() is null *)

Definition set_run (st : t) (run stop : bool) (fd : Z) (th : bool) : t := {|
  mRunning := run; mStopRequested := stop; mFd := fd; mThread := th;
  mStreamingDisplays := mStreamingDisplays st; mStreamThread := mStreamThread st;
  looper := looper st |}.

Definition set_streams (st : t) (m : list (Z * DisplayStreamState)) (th : bool) : t := {|
  mRunning := mRunning st; mStopRequested := mStopRequested st; mFd := mFd st;
  mThread := mThread st; mStreamingDisplays := m; mStreamThread := th; looper := looper st |}.

Definition set_looper (st : t) (l : option (list task)) : t := {|
  mRunning := mRunning st; mStopRequested := mStopRequested st; mFd := mFd st;
  mThread := mThread st; mStreamingDisplays := mStreamingDisplays st;
  mStreamThread := mStreamThread st; looper := l |}.

(** ** Sending *)

(** [send_frame] hands one frame to [write_all]; the answers of [write] decide
    how much of it reaches the socket ([write_frame]). *)
Definition send_frame (type requestId : Z) (payload : bytes) (st : t) : list Out :=
  if mFd st <? 0 then [] else [OutFrame type requestId payload].

Definition write_frame (type requestId : Z) (payload : bytes) (wenv : list wr_event)
    : bool * bytes * list wr_event :=
  let header := {|
    fh_magic := kControlProtocolMagic; fh_version := kControlProtocolVersion; fh_type := type;
    fh_requestId := requestId; fh_length := Z.of_nat (length payload) |} in
  let '(ok, sent, wenv) := write_loop (encode header) wenv in
  if negb ok then (false, sent, wenv) else
  let '(ok', sent', wenv) := write_loop payload wenv in
  (ok', sent ++ sent', wenv).

Definition send_response `{Wire A} (requestId : Z) (type : ControlMessageType) (payload : A) (st : t)
    : list Out :=
  send_frame (type_code type) requestId (encode payload) st.

Definition send_error (requestId code : Z) (message : bytes) (st : t) : list Out :=
  send_frame (type_code kError) requestId
    (encode {| err_code := code; err_msgLen := Z.of_nat (length message) |} ++ message) st.

Definition send_display_event (displayId state w h dpi flags : Z) (st : t) : list Out :=
  send_frame (type_code kEventDisplay) 0
    (encode {| ev_displayId := displayId; ev_state := state; ev_width := w; ev_height := h;
               ev_dpi := dpi; ev_flags := flags |}) st.

(** ** Display streaming *)

(** [now] is the steady clock in nanoseconds. *)
Definition set_display_streaming (displayId : Z) (enabled : bool) (requestedFramesPerSecond now : Z)
    (st : t) : t * list Out :=
  let o := [OutExportEnabled displayId enabled] in
  if displayId =? 0 then (st, o) else
  let fps := normalize_stream_fps requestedFramesPerSecond in
  if enabled then
    let next := now + stream_interval fps in
    let '(m, exportImmediately) :=
      match find displayId (mStreamingDisplays st) with
      | None => (assign displayId {| maximumFramesPerSecond := fps; nextExport := next |}
                   (mStreamingDisplays st), true)
      | Some stream =>
          if negb (maximumFramesPerSecond stream =? fps) then
            (assign displayId {| maximumFramesPerSecond := fps; nextExport := next |}
               (mStreamingDisplays st), false)
          else (mStreamingDisplays st, false)
      end in
    (set_streams st m true, o ++ if exportImmediately then [OutExportFrame displayId] else [])
  else
    (set_streams st (erase displayId (mStreamingDisplays st)) (mStreamThread st), o).

(** The [for] loop over the streams: the displays that are due, the streams with
    their new deadlines and the earliest deadline. *)
Fixpoint export_scan (now : Z) (m : list (Z * DisplayStreamState)) (nextWake : Z)
    : list Z * list (Z * DisplayStreamState) * Z :=
  match m with
  | [] => ([], [], nextWake)
  | (displayId, state) :: m' =>
      let due := nextExport state <=? now in
      let state' :=
        if due then {| maximumFramesPerSecond := maximumFramesPerSecond state;
                       nextExport := now + stream_interval (maximumFramesPerSecond state) |}
        else state in
      let nextWake' := if nextExport state' <? nextWake then nextExport state' else nextWake in
      let '(ds, m'', w) := export_scan now m' nextWake' in
      ((if due then [displayId] else []) ++ ds, (displayId, state') :: m'', w)
  end.

Definition time_point_max : Z := 2 ^ 63 - 1.

(** What the streaming thread does next. *)
Inductive stream_wait := StreamExit | WaitNonEmpty | WaitUntil (deadline : Z) | StreamAgain.

(** One round of [stream_loop]. *)
Definition stream_step (now : Z) (st : t) : t * list Out * stream_wait :=
  if negb (mRunning st) then (st, [], StreamExit) else
  match mStreamingDisplays st with
  | [] => (st, [], WaitNonEmpty)
  | _ =>
      let '(ds, m, nextWake) := export_scan now (mStreamingDisplays st) time_point_max in
      let st' := set_streams st m (mStreamThread st) in
      match ds with
      | [] => (st', [], WaitUntil nextWake)
      | _ => (st', OutExportFrame <$> ds, StreamAgain)
      end
  end.

Definition stop_stream_thread (st : t) : t * list Out :=
  (set_streams st [] false, [OutResetSubscriptions]).

(** ** Requests that change displays, on the main looper *)

Section WithAgent.
Context {S : Type} `{MultiDisplayAgent S}.

(** [None]: the agent is not available. *)
Fixpoint first_free (candidates : list Z) (a : S) : Z :=
  match candidates with
  | [] => 0
  | c :: cs =>
      let '(exists_, enabled) := agent_getMultiDisplay a c in
      if negb exists_ || negb enabled then c else first_free cs a
  end.

(** The candidates of the auto-allocation loop. *)
Definition user_ids : list Z := [1; 2; 3; 4; 5].

Definition handle_display_add (requestId : Z) (request : ControlDisplayAdd) (agent : option S) (st : t)
    : option S * list Out :=
  match agent with
  | None => (None, send_error requestId kControlErrInternal (bstr "multi-display agent unavailable") st)
  | Some a =>
      let auto := add_displayId request =? kControlDisplayIdAuto in
      let displayId := if auto then first_free user_ids a else add_displayId request in
      if auto && (displayId =? 0) then
        (agent, send_error requestId kControlErrRejected (bstr "no free display id") st)
      else if (displayId =? 0) || (kMaxUserDisplayId <? displayId) then
        (agent, send_error requestId kControlErrInvalidArgument
                  (bstr "display id out of user range (1..5)") st)
      else
        let '(result, a') :=
          agent_setMultiDisplay a displayId (-1) (-1) (add_width request) (add_height request)
            (add_dpi request) (add_flags request) true in
        if result <? 0 then
          (Some a', send_error requestId
            (if result =? - EPIPE then kControlErrNotReady else kControlErrRejected)
            (bstr "setMultiDisplay failed: " ++ dec_signed result) st)
        else
          (Some a', send_response requestId kDisplayAddOk {| addok_displayId := displayId |} st ++
            send_display_event displayId kControlDisplayAdded (add_width request)
              (add_height request) (add_dpi request) (add_flags request) st)
  end.

Definition handle_display_remove (requestId : Z) (request : ControlDisplayRemove) (now : Z)
    (agent : option S) (st : t) : option S * t * list Out :=
  match agent with
  | None =>
      (None, st, send_error requestId kControlErrInternal (bstr "multi-display agent unavailable") st)
  | Some a =>
      if (rm_displayId request =? 0) || (kMaxUserDisplayId <? rm_displayId request) then
        (agent, st, send_error requestId kControlErrInvalidArgument
                      (bstr "display id out of user range (1..5)") st)
      else
        let '(result, a') := agent_setMultiDisplay a (rm_displayId request) (-1) (-1) 0 0 0 0 false in
        if result <? 0 then
          (Some a', st, send_error requestId kControlErrRejected
            (bstr "setMultiDisplay(del) failed: " ++ dec_signed result) st)
        else
          let '(st', o) := set_display_streaming (rm_displayId request) false 0 now st in
          (Some a', st', o ++ [OutClearFrame (rm_displayId request)] ++
            send_frame (type_code kDisplayRemoveOk) requestId [] st' ++
            send_display_event (rm_displayId request) kControlDisplayRemoved 0 0 0 0 st')
  end.

(** The [while (getNextMultiDisplay(...))] loop; [None] is out of fuel. *)
Fixpoint list_loop (fuel : nat) (a : S) (previousId : Z) : option (list ControlDisplayInfo) :=
  match fuel with
  | O => None
  | Datatypes.S f =>
      match agent_getNextMultiDisplay a previousId with
      | None => Some []
      | Some (id, e) =>
          let info := {| info_displayId := id; info_width := de_width e; info_height := de_height e;
                         info_dpi := de_dpi e; info_flags := de_flags e; info_enabled := 1 |} in
          match list_loop f a (s32 id) with
          | None => None
          | Some infos => Some (info :: infos)
          end
      end
  end.

Definition list_payload (infos : list ControlDisplayInfo) : bytes :=
  encode {| list_count := Z.of_nat (length infos) |} ++ (infos ≫= encode).

Definition handle_display_list (fuel : nat) (requestId : Z) (agent : option S) (st : t)
    : option (list Out) :=
  match agent with
  | None => Some (send_error requestId kControlErrInternal (bstr "multi-display agent unavailable") st)
  | Some a =>
      match list_loop fuel a (-1) with
      | None => None
      | Some infos => Some (send_frame (type_code kDisplayListOk) requestId (list_payload infos) st)
      end
  end.

(** The main looper runs a task. The fuel of the list loop is one more than the
    number of displays; [list_loop_enough] shows it is never used up. *)
Definition list_fuel (agent : option S) : nat :=
  match agent with Some a => Datatypes.S (length (agent_displays a)) | None => 1 end.

Definition run_task (k : task) (now : Z) (agent : option S) (st : t) : option S * t * list Out :=
  match k with
  | TaskAdd i r => let '(a, o) := handle_display_add i r agent st in (a, st, o)
  | TaskRemove i r => handle_display_remove i r now agent st
  | TaskList i =>
      (agent, st, default [] (handle_display_list (list_fuel agent) i agent st))
  end.

(** ** The reader thread *)

Definition run_on_main_looper (requestId : Z) (k : task) (st : t) : t * list Out :=
  match looper st with
  | None => (st, send_error requestId kControlErrNotReady (bstr "qemu main looper not ready") st)
  | Some q => (set_looper st (Some (q ++ [k])), [])
  end.

Definition handle_hello (requestId : Z) (st : t) : list Out :=
  send_response requestId kHelloAck
    {| ack_protoVersion := kControlProtocolVersion; ack_capabilities := 0;
       ack_maxDisplays := kMaxUserDisplayId; ack_frameShmVersion := 2 |} st.

Definition kLegacyDisplayStreamSize : nat := 8.

Definition handle_frame (header : ControlFrameHeader) (payload : bytes) (now : Z) (st : t)
    : t * list Out :=
  let id := fh_requestId header in
  match type_of_code (fh_type header) with
  | Some kHello => (st, handle_hello id st)
  | Some kPing => (st, send_response id kPong {| pong_timestampNs := now |} st)
  | Some kDisplayAdd =>
      if (length payload <? wire_size ControlDisplayAdd)%nat then
        (st, send_error id kControlErrInvalidArgument (bstr "short DISPLAY_ADD payload") st)
      else run_on_main_looper id (TaskAdd id (decode payload)) st
  | Some kDisplayRemove =>
      if (length payload <? wire_size ControlDisplayRemove)%nat then
        (st, send_error id kControlErrInvalidArgument (bstr "short DISPLAY_REMOVE payload") st)
      else run_on_main_looper id (TaskRemove id (decode payload)) st
  | Some kDisplayStream =>
      if (length payload <? kLegacyDisplayStreamSize)%nat then
        (st, send_error id kControlErrInvalidArgument (bstr "short DISPLAY_STREAM payload") st)
      else
        let request : ControlDisplayStream := decode (take (wire_size ControlDisplayStream) payload) in
        if kFrameSlotCount <=? st_displayId request then
          (st, send_error id kControlErrInvalidArgument
                 (bstr "display id exceeds frame slot table") st)
        else
          let '(st', o) :=
            set_display_streaming (st_displayId request) (negb (st_enabled request =? 0))
              (st_maximumFramesPerSecond request) now st in
          (st', o ++ send_frame (type_code kDisplayStreamOk) id [] st')
  | Some kDisplayList => run_on_main_looper id (TaskList id) st
  | _ => (st, send_error id kControlErrUnsupported (bstr "unsupported request type") st)
  end.

(** One frame off the inherited descriptor; [None] ends the reader. *)
Definition read_exact (size : nat) (env : list rd_event) := read_loop size env.

Definition read_frame (env : list rd_event)
    : option (ControlFrameHeader * bytes) * list rd_event :=
  match read_exact (wire_size ControlFrameHeader) env with
  | (None, env) => (None, env)
  | (Some hdr, env) =>
      let header : ControlFrameHeader := decode hdr in
      if negb (fh_magic header =? kControlProtocolMagic) ||
         negb (fh_version header =? kControlProtocolVersion) ||
         (kControlMaxPayload <? fh_length header) then (None, env)
      else
        match read_exact (Z.to_nat (fh_length header)) env with
        | (None, env) => (None, env)
        | (Some payload, env) => (Some (header, payload), env)
        end
  end.

(** The loop over the rounds it takes: for each, whether [mRunning] is still set
    when it is loaded and the clock. With no round left the reader is blocked in
    [read] or about to be. The flag says whether the loop was left. *)
Fixpoint thread_loop_body (rounds : list (bool * Z)) (env : list rd_event) (st : t)
    : t * list Out * bool :=
  match rounds with
  | [] => (st, [], false)
  | (running, now) :: rounds' =>
      if negb running then (st, [], true) else
      match read_frame env with
      | (None, _) => (st, [], true)
      | (Some (header, payload), env') =>
          let '(st1, o1) := handle_frame header payload now st in
          let '(st2, o2, b) := thread_loop_body rounds' env' st1 in (st2, o1 ++ o2, b)
      end
  end.

(** After the loop: exports stop, and unless the emulator itself is stopping the
    shell's lease has ended and the VM is asked to shut down. *)
Definition thread_exit (st : t) : t * list Out :=
  (set_run st false (mStopRequested st) (mFd st) (mThread st),
   OutResetSubscriptions ::
   if negb (mStopRequested st) && match looper st with Some _ => true | None => false end
   then [OutShutdownRequest] else []).

Definition thread_loop (rounds : list (bool * Z)) (env : list rd_event) (st : t)
    : t * list Out * bool :=
  let '(st1, o1, finished) := thread_loop_body rounds env st in
  if finished : bool then let '(st2, o2) := thread_exit st1 in (st2, o1 ++ o2, true)
  else (st1, o1, false).

(** ** Life cycle *)

(** [None] is the [std::terminate] of assigning to a joinable [std::thread]. *)
Definition start (fdEnv : option bytes) (getfd : Z) (st : t) : option t :=
  if mRunning st then Some st else
  match fdEnv with
  | None | Some [] => Some st
  | Some text =>
      match strtol text with
      | None => Some st
      | Some (parsed, _) =>
          if (parsed <? 0) || (INT_MAX <=? parsed) then Some st
          else if getfd <? 0 then Some st
          else if mThread st then None
          else Some (set_run st true false parsed true)
      end
  end.

(** [rounds] and [env] are what the reader thread still does before it is joined. *)
Definition stop (rounds : list (bool * Z)) (env : list rd_event) (st : t) : t * list Out :=
  let o0 := if 0 <=? mFd st then [OutShutdownFd (mFd st)] else [] in
  let st0 := set_run st false true (mFd st) (mThread st) in
  let '(st1, o1) :=
    if mThread st0 then
      let '(s, o, _) := thread_loop_body rounds env st0 in
      let '(s, o') := thread_exit s in (set_run s (mRunning s) (mStopRequested s) (mFd s) false, o ++ o')
    else (st0, []) in
  let '(st2, o2) := stop_stream_thread st1 in
  let '(st3, o3) :=
    if 0 <=? mFd st2 then
      (set_run st2 (mRunning st2) (mStopRequested st2) (-1) (mThread st2), [OutCloseFd (mFd st2)])
    else (st2, []) in
  (st3, o0 ++ o1 ++ o2 ++ o3).
End WithAgent.

End MacMuControlReceiver.
