(* ===== verification/ControlReceiverSafety.v ===== *)
(** Theorems about the emulator's control receiver ([ControlReceiver]): every
    request is answered exactly once whatever the interleaving of the reader
    thread and the main looper; display listing, allocation and removal; the
    pacing of frame exports; and the shell's lease on the emulator. *)
From S2P Require Import Prelude Text StdMap Posix ControlProtocol ControlChannel DisplayAgent ControlReceiver.
Import MacMuControlReceiver.

#[local] Arguments encode : simpl never.
#[local] Arguments decode : simpl never.
#[local] Arguments bstr : simpl never.
#[local] Arguments type_code : simpl never.

(** ** Requests and responses *)

(** The response frames among the outputs, as (type, request id): every frame
    that is not an event. *)
Definition responses (o : list Out) : list (Z * Z) :=
  omap (fun x => match x with
    | OutFrame ty id _ => if ty =? type_code kEventDisplay then None else Some (ty, id)
    | _ => None end) o.

(** What may answer a request of a type and id: the response of that type, or an
    error, with the same id. *)
Definition answers (req resp : Z * Z) : Prop :=
  resp.2 = req.2 /\ (resp.1 = control_response_type req.1 \/ resp.1 = type_code kError).

(** The request a looper task will answer. *)
Definition task_key (k : task) : Z * Z :=
  (type_code match k with TaskAdd _ _ => kDisplayAdd | TaskRemove _ _ => kDisplayRemove
             | TaskList _ => kDisplayList end, task_id k).

Lemma responses_app a b : responses (a ++ b) = responses a ++ responses b.
Proof. apply omap_app. Qed.

Lemma responses_clear d o : responses (OutClearFrame d :: o) = responses o.
Proof. done. Qed.

Lemma responses_error id code msg st :
  0 <= mFd st -> responses (send_error id code msg st) = [(type_code kError, id)].
Proof. intros Hf. unfold send_error, send_frame. by rewrite (proj2 (Z.ltb_ge _ _) Hf). Qed.

Lemma responses_frame ty id p st :
  0 <= mFd st -> ty <> type_code kEventDisplay -> responses (send_frame ty id p st) = [(ty, id)].
Proof.
  intros Hf Hne. unfold send_frame. rewrite (proj2 (Z.ltb_ge _ _) Hf). simpl.
  by rewrite (proj2 (Z.eqb_neq _ _) Hne).
Qed.

Lemma responses_event d s w h dpi fl st : responses (send_display_event d s w h dpi fl st) = [].
Proof. unfold send_display_event, send_frame. by case_match. Qed.

Lemma answers_error req : answers req (type_code kError, req.2).
Proof. by split; [|right]. Qed.

Lemma set_display_streaming_frame d en fps now st st' o :
  set_display_streaming d en fps now st = (st', o) ->
  responses o = [] /\ mFd st' = mFd st /\ looper st' = looper st /\ mRunning st' = mRunning st /\
  mStopRequested st' = mStopRequested st /\ mThread st' = mThread st.
Proof. unfold set_display_streaming. intros Hs. by split_ifs. Qed.

Section WithAgent.
Context {S : Type} `{MultiDisplayAgent S}.

(** *** Listing displays *)

Definition info_of (kv : Z * DisplayEntry) : ControlDisplayInfo := {|
  info_displayId := kv.1; info_width := de_width kv.2; info_height := de_height kv.2;
  info_dpi := de_dpi kv.2; info_flags := de_flags kv.2; info_enabled := 1 |}.

Lemma lower_bound_app_ge k (m1 m2 : list (Z * DisplayEntry)) :
  Forall (fun k' => k' < k) (keys m1) -> lower_bound k (m1 ++ m2) = lower_bound k m2.
Proof.
  induction m1 as [|[k0 v0] m1 IH]; simpl; intros HF; [done|].
  inversion HF; subst. rewrite (proj2 (Z.leb_gt _ _)) by lia. by apply IH.
Qed.

(** With one more unit of fuel than there are displays the loop visits every
    display once, in increasing order of ids. *)
Lemma list_loop_suffix (a : S) (visited rest : list (Z * DisplayEntry)) (prev : Z) fuel :
  agent_ok a -> agent_displays a = visited ++ rest -> prev < 2 ^ 31 - 1 ->
  Forall (fun k => k <= prev) (keys visited) -> Forall (fun k => prev < k) (keys rest) ->
  (length rest < fuel)%nat ->
  list_loop fuel a prev = Some (info_of <$> rest).
Proof.
  intros Hok. revert visited prev fuel. induction rest as [|[k e] rest IH];
    intros visited prev [|fuel] Hd Hp Hv Hr Hf; try (simpl in Hf; lia); simpl.
  - rewrite agent_next_spec, Hd, app_nil_r by done.
    destruct (lower_bound _ visited) as [[k v]|] eqn:E; [|done].
    pose proof (agent_sorted a Hok) as Hs. rewrite Hd, app_nil_r in Hs.
    apply lower_bound_Some in E as (Hfind & Hle & _); [|done].
    assert (k ∈ keys visited) as Hin by (apply elem_of_keys; eauto).
    rewrite Forall_forall in Hv. specialize (Hv k Hin).
    pose proof (agent_keys a Hok) as Hk. rewrite Hd, app_nil_r, Forall_forall in Hk.
    specialize (Hk k Hin). destruct (Z.ltb_spec prev 0); lia.
  - pose proof (agent_keys a Hok) as Hk. rewrite Hd, Forall_forall in Hk.
    assert (k ∈ keys (visited ++ (k, e) :: rest)) as Hin
      by (unfold keys; rewrite map_app; apply list_elem_of_In, in_app_iff; right; by left).
    specialize (Hk k Hin).
    inversion Hr as [|? ? Hpk Hr']; subst.
    rewrite agent_next_spec, Hd by done. rewrite lower_bound_app_ge.
    2: { eapply Forall_impl; [exact Hv|]. simpl. intros x Hx. destruct (Z.ltb_spec prev 0); lia. }
    simpl. rewrite (proj2 (Z.leb_le _ _)) by (destruct (Z.ltb_spec prev 0); lia).
    rewrite (s32_id k) by (split; lia).
    pose proof (agent_sorted a Hok) as Hs. rewrite Hd in Hs. unfold sorted, keys in Hs.
    rewrite map_app in Hs. apply StronglySorted_app in Hs as (_ & _ & Hs2).
    apply StronglySorted_inv in Hs2 as [_ Hall].
    rewrite (IH (visited ++ [(k, e)]) k); [done|by rewrite <- app_assoc|lia| |done|simpl in Hf; lia].
    unfold keys. rewrite map_app. apply Forall_app. split; [|by constructor].
    eapply Forall_impl; [exact Hv|]. simpl. lia.
Qed.

Lemma list_loop_enough (a : S) : agent_ok a ->
  list_loop (list_fuel (Some a)) a (-1) = Some (info_of <$> agent_displays a).
Proof.
  intros Hok. apply (list_loop_suffix a []); [done|done|lia|constructor| |simpl; lia].
  eapply Forall_impl; [by apply agent_keys|]. simpl. lia.
Qed.
(** *** One answer per request *)

Lemma handle_display_add_answers id r (agent : option S) st a' o :
  0 <= mFd st -> handle_display_add id r agent st = (a', o) ->
  exists resp, responses o = [resp] /\ answers (type_code kDisplayAdd, id) resp.
Proof.
  intros Hfd. unfold handle_display_add, send_response.
  repeat case_match; intros [= <- <-];
    rewrite ?responses_app, ?responses_event, ?app_nil_r, ?responses_error by done;
    try (eexists; split; [done|]; apply (answers_error (_, id)));
  rewrite responses_frame by done; eexists; (split; [done|]); (split; [done|]); by left.
Qed.

Lemma handle_display_remove_answers id r now (agent : option S) st a' st' o :
  0 <= mFd st -> handle_display_remove id r now agent st = (a', st', o) ->
  mFd st' = mFd st /\ looper st' = looper st /\
  exists resp, responses o = [resp] /\ answers (type_code kDisplayRemove, id) resp.
Proof.
  intros Hfd. unfold handle_display_remove. destruct agent as [a|].
  2: { intros [= <- <- <-]. rewrite responses_error by done.
       split; [done|]. split; [done|]. eexists. split; [done|]. apply (answers_error (_, id)). }
  case_match.
  { intros [= <- <- <-]. rewrite responses_error by done.
    split; [done|]. split; [done|]. eexists. split; [done|]. apply (answers_error (_, id)). }
  destruct (agent_setMultiDisplay _ _ _ _ _ _ _ _ _) as [res a1]. case_match.
  { intros [= <- <- <-]. rewrite responses_error by done.
    split; [done|]. split; [done|]. eexists. split; [done|]. apply (answers_error (_, id)). }
  destruct (set_display_streaming _ _ _ _ _) as [st1 o1] eqn:Es.
  apply set_display_streaming_frame in Es as (Hr & Hf & Hl & _).
  intros [= <- <- <-]. split; [done|]. split; [done|].
  rewrite responses_app, Hr, responses_clear, responses_app, responses_event, responses_frame
    by (done || lia).
  eexists. split; [done|]. split; [done|]. by left.
Qed.

Lemma run_task_answers k now (agent : option S) st a' st' o :
  (forall a, agent = Some a -> agent_ok a) -> 0 <= mFd st ->
  run_task k now agent st = (a', st', o) ->
  mFd st' = mFd st /\ looper st' = looper st /\
  exists resp, responses o = [resp] /\ answers (task_key k) resp.
Proof.
  intros Hok Hfd. unfold run_task. destruct k as [i r|i r|i]; simpl.
  - destruct (handle_display_add i r agent st) as [a1 o1] eqn:E. intros [= <- <- <-].
    apply handle_display_add_answers in E; [|done]. done.
  - intros E. by apply handle_display_remove_answers in E.
  - intros [= <- <- <-]. split; [done|]. split; [done|]. unfold handle_display_list.
    destruct agent as [a|].
    + rewrite list_loop_enough by (by apply Hok). simpl. rewrite responses_frame by done.
      eexists. split; [done|]. split; [done|]. by left.
    + simpl. rewrite responses_error by done. eexists. split; [done|]. apply (answers_error (_, i)).
Qed.

(** What handling a request frame does: it is answered at once, or a task that
    will answer it is appended to the looper's queue. *)
Definition frame_handled (req : Z * Z) (st st' : t) (o : list Out) : Prop :=
  mFd st' = mFd st /\
  ((looper st' = looper st /\ exists resp, responses o = [resp] /\ answers req resp) \/
   (responses o = [] /\ exists q k, looper st = Some q /\ looper st' = Some (q ++ [k]) /\
      task_key k = req)).

Lemma error_handled req code msg st :
  0 <= mFd st -> frame_handled req st st (send_error req.2 code msg st).
Proof.
  intros Hfd. split; [done|]. left. split; [done|]. rewrite responses_error by done.
  eexists. split; [done|]. apply answers_error.
Qed.

Lemma response_handled (ty : ControlMessageType) rty id p st st' o :
  0 <= mFd st -> mFd st' = mFd st -> looper st' = looper st -> responses o = [] ->
  type_code rty = control_response_type (type_code ty) -> rty <> kEventDisplay ->
  frame_handled (type_code ty, id) st st' (o ++ send_frame (type_code rty) id p st').
Proof.
  intros Hfd Hf Hl Ho Hty Hne. split; [done|]. left. split; [done|].
  rewrite responses_app, Ho, responses_frame; [|lia|by intros ?%type_code_inj].
  eexists. split; [done|]. split; [done|]. by left.
Qed.

Lemma post_handled k id st st' o :
  0 <= mFd st -> id = task_id k -> run_on_main_looper id k st = (st', o) ->
  frame_handled (task_key k) st st' o.
Proof.
  intros Hfd ->. unfold run_on_main_looper. destruct (looper st) as [q|] eqn:El; intros [= <- <-].
  - split; [done|]. right. split; [done|]. eauto 10.
  - by apply (error_handled (task_key k)).
Qed.

Lemma handle_frame_answers h p now st st' o :
  0 <= mFd st -> handle_frame h p now st = (st', o) ->
  frame_handled (fh_type h, fh_requestId h) st st' o.
Proof.
  intros Hfd. unfold handle_frame, handle_hello, send_response.
  destruct (type_of_code (fh_type h)) as [ty|] eqn:Ety;
    [|intros [= <- <-]; by apply (error_handled (_, _))].
  apply type_of_code_Some in Ety. rewrite <- Ety.
  destruct ty; try (intros [= <- <-]; by apply (error_handled (_, _)));
    try (intros [= <- <-]; by apply (response_handled _ _ _ _ st st []));
    repeat (case_match; [intros [= <- <-]; by apply (error_handled (_, _))|]);
    try (intros E; by apply post_handled in E).
  destruct (set_display_streaming _ _ _ _ _) as [st1 o1] eqn:Es.
  apply set_display_streaming_frame in Es as (Hr & Hf & Hl & _).
  intros [= <- <-]. by apply response_handled.
Qed.

Lemma first_free_cases cs (a : S) : first_free cs a = 0 \/ first_free cs a ∈ cs.
Proof.
  induction cs as [|c cs IH]; simpl; [by left|]. destruct (agent_getMultiDisplay a c) as [ex en].
  case_match; [right; apply list_elem_of_here|]. destruct IH; [by left|right].
  by apply list_elem_of_further.
Qed.

(** Requests as [memcpy] reads them are within the ranges of their fields. *)
Definition task_wf (k : task) : Prop :=
  match k with
  | TaskAdd _ r => wire_wf r | TaskRemove _ r => wire_wf r | TaskList _ => True
  end.

Definition agent_fine (agent : option S) : Prop := match agent with Some a => agent_ok a | None => True end.

Lemma user_range id : 0 <= id -> (id =? 0) || (kMaxUserDisplayId <? id) = false -> is_u32 id.
Proof. unfold kMaxUserDisplayId. intros ? E. bool_to_prop. split; lia. Qed.

Lemma run_task_agent_fine k now (agent : option S) st a' st' o :
  task_wf k -> agent_fine agent -> run_task k now agent st = (a', st', o) -> agent_fine a'.
Proof.
  intros Hwf Hok. unfold run_task. destruct k as [i r|i r|i].
  - destruct (handle_display_add i r agent st) as [a1 o1] eqn:E. intros [= <- <- <-].
    unfold handle_display_add in E. destruct agent as [a|]; [|by injection E as <- <-].
    set (id := if add_displayId r =? kControlDisplayIdAuto then first_free user_ids a
               else add_displayId r) in E.
    assert (0 <= id) as Hid.
    { unfold id. destruct (add_displayId r =? _); [|apply (proj1 Hwf)]. destruct (first_free_cases user_ids a) as [->|Hin]; [done|].
      unfold user_ids in Hin. set_unfold. lia. }
    clearbody id. destruct (_ && _); [by injection E as <- <-|].
    destruct ((id =? 0) || _) eqn:Er; [by injection E as <- <-|].
    pose proof (agent_set_ok a id (-1) (-1) (add_width r) (add_height r) (add_dpi r) (add_flags r) true
      Hok (user_range id Hid Er)) as Hs.
    destruct (agent_setMultiDisplay a id _ _ _ _ _ _ _) as [res a2].
    destruct (res <? 0); by injection E as <- <-.
  - unfold handle_display_remove. destruct agent as [a|]; [|by intros [= <- <- <-]].
    destruct ((rm_displayId r =? 0) || _) eqn:Er; [by intros [= <- <- <-]|].
    pose proof (agent_set_ok a (rm_displayId r) (-1) (-1) 0 0 0 0 false Hok
      (user_range _ (proj1 Hwf) Er)) as Hs.
    destruct (agent_setMultiDisplay a _ _ _ _ _ _ _ _) as [res a2].
    destruct (res <? 0); [by intros [= <- <- <-]|].
    destruct (set_display_streaming _ _ _ _ _). by intros [= <- <- <-].
  - by intros [= <- <- <-].
Qed.

(** *** The receiver as a whole *)

(** The reader thread handles a frame, or the main looper runs its oldest task. *)
Inductive event := EvFrame (h : ControlFrameHeader) (p : bytes) (now : Z) | EvTask (now : Z).

Definition sys_step (e : event) (agent : option S) (st : t) : option S * t * list Out :=
  match e with
  | EvFrame h p now => let '(st', o) := handle_frame h p now st in (agent, st', o)
  | EvTask now =>
      match looper st with
      | Some (k :: q) => run_task k now agent (set_looper st (Some q))
      | _ => (agent, st, [])
      end
  end.

Fixpoint sys_run (es : list event) (agent : option S) (st : t) : option S * t * list Out :=
  match es with
  | [] => (agent, st, [])
  | e :: es' =>
      let '(a1, st1, o1) := sys_step e agent st in
      let '(a2, st2, o2) := sys_run es' a1 st1 in (a2, st2, o1 ++ o2)
  end.

Definition requests (es : list event) : list (Z * Z) :=
  omap (fun e => match e with
    | EvFrame h _ _ => Some (fh_type h, fh_requestId h) | EvTask _ => None end) es.

Definition queue (st : t) : list task := default [] (looper st).

Lemma field4_u32 off bs : is_u32 (field off 4 bs).
Proof. apply (field_range off 4). Qed.

Lemma handle_frame_queue_wf h p now st st' o :
  Forall task_wf (queue st) -> handle_frame h p now st = (st', o) -> Forall task_wf (queue st').
Proof.
  intros Hq. unfold handle_frame.
  assert (forall k st1 o1, task_wf k -> run_on_main_looper (fh_requestId h) k st = (st1, o1) ->
    Forall task_wf (queue st1)) as Hpost.
  { intros k st1 o1 Hk. unfold run_on_main_looper, queue in *.
    destruct (looper st) as [q|] eqn:El; intros [= <- <-]; simpl; [|by rewrite El].
    apply Forall_app. split; [done|]. by constructor. }
  destruct (type_of_code (fh_type h)) as [[]|]; try (by intros [= <- <-]);
    repeat (case_match; [by intros [= <- <-]|]).
  - apply Hpost. repeat split; apply field4_u32.
  - apply Hpost. repeat split; apply field4_u32.
  - by apply Hpost.
  - destruct (set_display_streaming _ _ _ _ _) as [st1 o1] eqn:Es. intros [= <- <-].
    apply set_display_streaming_frame in Es as (_ & _ & Hl & _). unfold queue in *. by rewrite Hl.
Qed.

Lemma sys_step_answers e agent st a' st' o :
  agent_fine agent -> 0 <= mFd st -> Forall task_wf (queue st) ->
  sys_step e agent st = (a', st', o) ->
  agent_fine a' /\ mFd st' = mFd st /\ Forall task_wf (queue st') /\
  exists answered,
    requests [e] ++ (task_key <$> queue st) ≡ₚ answered ++ (task_key <$> queue st') /\
    Forall2 answers answered (responses o).
Proof.
  intros Ha Hf Hq. destruct e as [h p now|now]; simpl.
  - destruct (handle_frame h p now st) as [st1 o1] eqn:E. intros [= <- <- <-].
    pose proof (handle_frame_queue_wf _ _ _ _ _ _ Hq E) as Hq1.
    apply handle_frame_answers in E as [Hf1 [[Hl (r & Hr & Hans)]|[Hr (q & k & Hl & Hl1 & Hk)]]]; [| |done].
    + split; [done|]. split; [done|]. split; [done|]. exists [(fh_type h, fh_requestId h)].
      unfold queue. rewrite Hl, Hr. split; [done|]. constructor; [done|constructor].
    + split; [done|]. split; [done|]. split; [done|]. exists []. unfold queue. rewrite Hl, Hl1, Hr. simpl.
      split; [|done]. rewrite fmap_app, <- Hk. simpl. by rewrite Permutation_cons_append.
  - unfold queue in *. destruct (looper st) as [[|k q]|] eqn:El; simpl in Hq;
      try (intros [= <- <- <-]; rewrite El; split; [done|]; split; [done|]; split; [done|];
           exists []; split; [done|constructor]).
    apply Forall_cons in Hq as [Hk Hq]. intros E.
    pose proof (run_task_agent_fine _ _ _ _ _ _ _ Hk Ha E) as Ha'.
    apply run_task_answers in E as (Hf1 & Hl1 & r & Hr & Hans); [|by intros a ->|done].
    simpl in Hf1, Hl1. rewrite Hl1, Hr. split; [done|]. split; [done|]. split; [done|].
    exists [task_key k]. split; [done|]. constructor; [done|constructor].
Qed.

(** C1: every request is answered exactly once. Take any interleaving of
    frames read by the receiver thread, of any type and with any payload, with
    the main looper running its tasks, whatever the multi-display agent replies:
    the requests handled so far are, up to order, the answered ones together
    with those whose task is still queued; and the responses sent are, one for
    one, answers to the former: same request id, and either the response type of
    that request or ERROR. So once the queue is empty each request has exactly
    one response. *)
Theorem requests_answered_once es agent st a' st' o :
  agent_fine agent -> 0 <= mFd st -> queue st = [] ->
  sys_run es agent st = (a', st', o) ->
  exists answered,
    requests es ≡ₚ answered ++ (task_key <$> queue st') /\
    Forall2 answers answered (responses o).
Proof.
  intros Ha Hf Hq0 E.
  assert (Forall task_wf (queue st)) as Hq by (by rewrite Hq0).
  enough (exists answered,
    requests es ++ (task_key <$> queue st) ≡ₚ answered ++ (task_key <$> queue st') /\
    Forall2 answers answered (responses o)) as (ans & Hp & HF).
  { exists ans. rewrite Hq0 in Hp. simpl in Hp. by rewrite app_nil_r in Hp. }
  clear Hq0. revert agent st a' st' o Ha Hf Hq E.
  induction es as [|e es IH]; intros agent st a' st' o Ha Hf Hq E.
  { injection E as <- <- <-. exists []. split; [done|constructor]. }
  cbn [sys_run] in E. destruct (sys_step e agent st) as [[a1 st1] o1] eqn:E1.
  destruct (sys_run es a1 st1) as [[a2 st2] o2] eqn:E2. injection E as <- <- <-.
  apply sys_step_answers in E1 as (Ha1 & Hf1 & Hq1 & ans1 & Hp1 & HF1); [|done..].
  apply IH in E2 as (ans2 & Hp2 & HF2); [|done|lia|done].
  exists (ans1 ++ ans2). rewrite responses_app. split; [|by apply Forall2_app].
  change (e :: es) with ([e] ++ es). unfold requests in *. rewrite omap_app.
  rewrite <- app_assoc, (Permutation_app_comm (omap _ es)), app_assoc, Hp1.
  rewrite <- !app_assoc, (Permutation_app_comm _ (omap _ es)), Hp2. done.
Qed.

(** Reading a DISPLAY_LIST_OK payload back. *)
Fixpoint parse_entries (n : nat) (bs : bytes) : list ControlDisplayInfo :=
  match n with
  | O => []
  | Datatypes.S n' => decode bs :: parse_entries n' (drop (wire_size ControlDisplayInfo) bs)
  end.

Definition parse_list_ok (bs : bytes) : list ControlDisplayInfo :=
  let head : ControlDisplayListOk := decode bs in
  parse_entries (Z.to_nat (list_count head)) (drop (wire_size ControlDisplayListOk) bs).

Lemma parse_entries_encode infos :
  Forall wire_wf infos -> parse_entries (length infos) (infos ≫= encode) = infos.
Proof.
  induction 1 as [|i infos Hi _ IH]; [done|]. cbn [length parse_entries].
  rewrite bind_cons, decode_encode by done. f_equal.
  rewrite drop_app_length' by (symmetry; apply length_encode). exact IH.
Qed.

Lemma parse_list_payload infos :
  Forall wire_wf infos -> is_u32 (Z.of_nat (length infos)) ->
  parse_list_ok (list_payload infos) = infos.
Proof.
  intros Hwf Hlen. unfold parse_list_ok, list_payload.
  rewrite decode_encode by done. cbn [list_count]. rewrite Nat2Z.id.
  rewrite drop_app_length'
    by exact (eq_sym (length_encode {| list_count := Z.of_nat (length infos) |})).
  by apply parse_entries_encode.
Qed.

(** DISPLAY_LIST tells the truth. The loop over [getNextMultiDisplay]
    terminates, and one DISPLAY_LIST_OK frame with the request's id is sent whose
    payload, read back, has exactly one entry per display of the table, in
    increasing order of ids, with the display's size, density and flags. *)
Theorem display_list_complete (a : S) id st :
  agent_ok a -> 0 <= mFd st ->
  Forall (fun kv => wire_wf (info_of kv)) (agent_displays a) ->
  is_u32 (Z.of_nat (length (agent_displays a))) ->
  exists payload,
    handle_display_list (list_fuel (Some a)) id (Some a) st =
      Some [OutFrame (type_code kDisplayListOk) id payload] /\
    parse_list_ok payload = info_of <$> agent_displays a /\
    StronglySorted Z.lt (info_displayId <$> parse_list_ok payload) /\
    forall i e, find i (agent_displays a) = Some e -> info_of (i, e) ∈ parse_list_ok payload.
Proof.
  intros Hok Hf Hwf Hlen.
  assert (parse_list_ok (list_payload (info_of <$> agent_displays a)) = info_of <$> agent_displays a)
    as Hparse.
  { apply parse_list_payload; [by apply Forall_fmap|by rewrite length_fmap]. }
  exists (list_payload (info_of <$> agent_displays a)). rewrite Hparse. split; [|split; [done|split]].
  - unfold handle_display_list. rewrite list_loop_enough by done.
    unfold send_frame. by rewrite (proj2 (Z.ltb_ge _ _) Hf).
  - rewrite <- list_fmap_compose. exact (agent_sorted a Hok).
  - intros i e Hfind. apply list_elem_of_fmap. exists (i, e). split; [done|]. by apply find_elem_of.
Qed.

(** *** Adding and removing displays *)

(** An id no enabled display has. *)
Definition free (a : S) (id : Z) : Prop :=
  forall e, find id (agent_displays a) = Some e -> de_enabled e = false.

Lemma getMultiDisplay_free (a : S) id :
  agent_ok a ->
  (negb (agent_getMultiDisplay a id).1 || negb (agent_getMultiDisplay a id).2 = true <-> free a id).
Proof.
  intros Hok. rewrite agent_get_spec by done. unfold free.
  destruct (find id (agent_displays a)) as [e|]; simpl.
  - destruct (de_enabled e) eqn:Ee; simpl; split; try done; try congruence.
    intros Hf. by rewrite (Hf e eq_refl) in Ee.
  - by split.
Qed.

Lemma first_free_least cs (a : S) :
  agent_ok a -> 0 ∉ cs ->
  (first_free cs a = 0 /\ Forall (fun c => ~ free a c) cs) \/
  (free a (first_free cs a) /\ exists before after,
     cs = before ++ first_free cs a :: after /\ Forall (fun c => ~ free a c) before).
Proof.
  intros Hok. induction cs as [|c cs IH]; intros H0; simpl; [by left|].
  pose proof (getMultiDisplay_free a c Hok) as Hfree.
  destruct (agent_getMultiDisplay a c) as [ex en]. simpl in Hfree.
  destruct (negb ex || negb en) eqn:E.
  - right. split; [by apply Hfree|]. by exists [], cs.
  - assert (~ free a c) as Hn by (intros ?%Hfree; done).
    destruct IH as [[-> HF]|(Hf & b & af & Hcs & HF)]; [set_solver|left; by split; [|constructor]|].
    right. split; [done|]. exists (c :: b), af. split; [simpl; by rewrite <- Hcs|by constructor].
Qed.

(** Auto-allocation: no user id is free, or the least free one is found. *)
Lemma first_free_user (a : S) : agent_ok a ->
  (first_free user_ids a = 0 /\ forall c, 1 <= c <= kMaxUserDisplayId -> ~ free a c) \/
  (1 <= first_free user_ids a <= kMaxUserDisplayId /\ free a (first_free user_ids a) /\
   forall c, 1 <= c < first_free user_ids a -> ~ free a c).
Proof.
  intros Hok.
  destruct (first_free_least user_ids a Hok ltac:(unfold user_ids; set_solver))
    as [[-> HF]|(Hf & b & af & Hcs & HF)].
  - left. split; [done|]. intros c Hc. rewrite Forall_forall in HF. apply HF.
    unfold user_ids, kMaxUserDisplayId in *.
    assert (c = 1 \/ c = 2 \/ c = 3 \/ c = 4 \/ c = 5) by lia. set_solver.
  - right. generalize dependent (first_free user_ids a). intros d Hf Hcs.
    unfold user_ids, kMaxUserDisplayId in *. rewrite Forall_forall in HF.
    do 5 (destruct b as [|? b]; [injection Hcs as <- <-; split; [lia|]; split; [done|];
      intros c Hc; apply HF; clear -Hc; rewrite ?elem_of_cons, elem_of_nil; lia|
      injection Hcs as <- Hcs]).
    by destruct b.
Qed.

(** The id a DISPLAY_ADD is about: the one it names or, for an automatic one, the
    least free user id. *)
Definition add_target (a : S) (r : ControlDisplayAdd) (d : Z) : Prop :=
  if add_displayId r =? kControlDisplayIdAuto then
    1 <= d <= kMaxUserDisplayId /\ free a d /\ forall c, 1 <= c < d -> ~ free a c
  else d = add_displayId r.

Definition error_frame (id code : Z) (message : bytes) : Out :=
  OutFrame (type_code kError) id
    (encode {| err_code := code; err_msgLen := Z.of_nat (length message) |} ++ message).

Lemma send_error_frame id code msg st :
  0 <= mFd st -> send_error id code msg st = [error_frame id code msg].
Proof. intros Hf. unfold send_error, send_frame. by rewrite (proj2 (Z.ltb_ge _ _) Hf). Qed.

Lemma set_display_outcome (a : S) d id r st a' o :
  0 <= mFd st ->
  (let '(result, a1) := agent_setMultiDisplay a d (-1) (-1) (add_width r) (add_height r)
                          (add_dpi r) (add_flags r) true in
   if result <? 0 then
     (Some a1, send_error id
       (if result =? - EPIPE then kControlErrNotReady else kControlErrRejected)
       (bstr "setMultiDisplay failed: " ++ dec_signed result) st)
   else
     (Some a1, send_response id kDisplayAddOk {| addok_displayId := d |} st ++
       send_display_event d kControlDisplayAdded (add_width r) (add_height r) (add_dpi r)
         (add_flags r) st)) = (a', o) ->
  let '(result, a1) := agent_setMultiDisplay a d (-1) (-1) (add_width r) (add_height r)
                         (add_dpi r) (add_flags r) true in
  a' = Some a1 /\
  (result < 0 -> exists msg, o = [error_frame id
     (if result =? - EPIPE then kControlErrNotReady else kControlErrRejected) msg]) /\
  (0 <= result -> o = [
     OutFrame (type_code kDisplayAddOk) id (encode {| addok_displayId := d |});
     OutFrame (type_code kEventDisplay) 0
       (encode {| ev_displayId := d; ev_state := kControlDisplayAdded; ev_width := add_width r;
                  ev_height := add_height r; ev_dpi := add_dpi r; ev_flags := add_flags r |})]).
Proof.
  intros Hfd. destruct (agent_setMultiDisplay _ _ _ _ _ _ _ _ _) as [res a1].
  destruct (Z.ltb_spec res 0) as [Hr|Hr]; intros [= <- <-].
  - rewrite send_error_frame by done. split; [done|]. split; [eauto|lia].
  - unfold send_response, send_display_event, send_frame. rewrite (proj2 (Z.ltb_ge _ _) Hfd).
    split; [done|]. split; [lia|done].
Qed.

(** Every branch of DISPLAY_ADD. An automatic request with no free id in
    1..5 is rejected, and one for an id outside 1..5 is refused as an invalid
    argument, both without touching the displays. Otherwise the id is the
    requested one or the least free one, [setMultiDisplay] is called once for
    it, and the shell gets either DISPLAY_ADD_OK with that id followed by the
    ADDED event with the requested geometry, or one error, NOT_READY exactly
    when the guest pipe was missing. *)
Theorem display_add_outcomes (a : S) id r st a' o :
  agent_ok a -> 0 <= mFd st -> handle_display_add id r (Some a) st = (a', o) ->
  (add_displayId r = kControlDisplayIdAuto /\ (forall c, 1 <= c <= kMaxUserDisplayId -> ~ free a c) /\
     a' = Some a /\ o = [error_frame id kControlErrRejected (bstr "no free display id")]) \/
  (add_displayId r <> kControlDisplayIdAuto /\
     (add_displayId r = 0 \/ kMaxUserDisplayId < add_displayId r) /\ a' = Some a /\
     o = [error_frame id kControlErrInvalidArgument (bstr "display id out of user range (1..5)")]) \/
  (exists d, add_target a r d /\
     let '(result, a1) := agent_setMultiDisplay a d (-1) (-1) (add_width r) (add_height r)
                            (add_dpi r) (add_flags r) true in
     a' = Some a1 /\
     (result < 0 -> exists msg, o = [error_frame id
        (if result =? - EPIPE then kControlErrNotReady else kControlErrRejected) msg]) /\
     (0 <= result -> o = [
        OutFrame (type_code kDisplayAddOk) id (encode {| addok_displayId := d |});
        OutFrame (type_code kEventDisplay) 0
          (encode {| ev_displayId := d; ev_state := kControlDisplayAdded; ev_width := add_width r;
                     ev_height := add_height r; ev_dpi := add_dpi r; ev_flags := add_flags r |})])).
Proof.
  intros Hok Hfd. unfold handle_display_add, add_target.
  destruct (add_displayId r =? kControlDisplayIdAuto) eqn:Ea; cbn [andb].
  - apply Z.eqb_eq in Ea. destruct (first_free_user a Hok) as [[-> Hno]|(Hr & Hfree & Hleast)].
    { intros [= <- <-]. rewrite send_error_frame by done. by left. }
    set (d := first_free user_ids a) in *. clearbody d. unfold kMaxUserDisplayId in Hr.
    rewrite (proj2 (Z.eqb_neq d 0)), (proj2 (Z.ltb_ge kMaxUserDisplayId d))
      by (unfold kMaxUserDisplayId; lia). cbn [orb].
    intros E. right. right. exists d. split; [done|]. by apply (set_display_outcome a _ id r st).
  - apply Z.eqb_neq in Ea. destruct (_ || _) eqn:Er.
    { intros [= <- <-]. rewrite send_error_frame by done. right. left. split; [done|].
      split; [|done]. apply orb_true_iff in Er as [Er|Er]; [left; by apply Z.eqb_eq|right; by apply Z.ltb_lt]. }
    intros E. right. right. exists (add_displayId r). split; [done|]. by apply (set_display_outcome a _ id r st).
Qed.

(** C29: an id is reusable only after its frames are gone. When a
    DISPLAY_REMOVE succeeds, the display no longer streams, and the outputs are,
    in this order: exports of the display are disabled, its frame slot is
    cleared, DISPLAY_REMOVE_OK is sent, the REMOVED event is sent. A request for
    an id outside 1..5, or one the agent rejects, sends one error and leaves
    streaming as it was. *)
Theorem display_remove_order (a : S) id r now st a' st' o :
  0 <= mFd st -> 0 <= rm_displayId r ->
  handle_display_remove id r now (Some a) st = (a', st', o) ->
  (exists code msg, o = [error_frame id code msg] /\ st' = st) \/
  (1 <= rm_displayId r <= kMaxUserDisplayId /\
   find (rm_displayId r) (mStreamingDisplays st') = None /\
   (forall k, k <> rm_displayId r ->
      find k (mStreamingDisplays st') = find k (mStreamingDisplays st)) /\
   o = [OutExportEnabled (rm_displayId r) false; OutClearFrame (rm_displayId r);
        OutFrame (type_code kDisplayRemoveOk) id [];
        OutFrame (type_code kEventDisplay) 0
          (encode {| ev_displayId := rm_displayId r; ev_state := kControlDisplayRemoved;
                     ev_width := 0; ev_height := 0; ev_dpi := 0; ev_flags := 0 |})]).
Proof.
  intros Hfd Hpos. unfold handle_display_remove.
  destruct (_ || _) eqn:Er.
  { intros [= <- <- <-]. rewrite send_error_frame by done. left. eauto. }
  destruct (agent_setMultiDisplay _ _ _ _ _ _ _ _ _) as [res a1].
  destruct (res <? 0).
  { intros [= <- <- <-]. rewrite send_error_frame by done. left. eauto. }
  bool_to_prop. unfold set_display_streaming. rewrite (proj2 (Z.eqb_neq _ _)) by done.
  unfold send_display_event, send_frame. simpl. rewrite (proj2 (Z.ltb_ge _ _) Hfd).
  intros [= <- <- <-]. right. split; [lia|]. simpl.
  split; [by apply find_erase_eq|]. split; [|done]. intros k Hk. by apply find_erase_ne.
Qed.
End WithAgent.

(** ** Pacing of frame exports *)

(** Whatever rate is asked for, a display is exported between once a second and a
    thousand times a second. *)
Lemma stream_interval_bounds fps : 0 <= fps -> 1000000 <= stream_interval fps <= 1000000000.
Proof.
  intros Hf. unfold stream_interval. set (n := normalize_stream_fps fps).
  assert (1 <= n <= 1000) as Hn.
  { unfold n, normalize_stream_fps, kDefaultDisplayStreamFps, kMaximumDisplayStreamFps.
    destruct (Z.eqb_spec fps 0); [lia|]. destruct (Z.ltb_spec 1000 fps); lia. }
  split.
  - change 1000000 with (1000000000 / 1000). apply Z.div_le_compat_l; lia.
  - change 1000000000 with (1000000000 / 1) at 2. apply Z.div_le_compat_l; lia.
Qed.

Definition due (now : Z) (s : DisplayStreamState) : bool := nextExport s <=? now.

Definition refresh (now : Z) (s : DisplayStreamState) : DisplayStreamState :=
  if due now s then {| maximumFramesPerSecond := maximumFramesPerSecond s;
                       nextExport := now + stream_interval (maximumFramesPerSecond s) |} else s.

Lemma export_scan_spec now m w ds m' w' :
  export_scan now m w = (ds, m', w') ->
  ds = map fst (List.filter (fun kv => due now (snd kv)) m) /\
  m' = map (fun kv => (fst kv, refresh now (snd kv))) m /\
  w' <= w /\ Forall (fun kv => w' <= nextExport (snd kv)) m' /\
  (w' = w \/ exists kv, kv ∈ m' /\ w' = nextExport (snd kv)).
Proof.
  revert w ds m' w'. induction m as [|[k s] m IH]; intros w ds m' w' E.
  { injection E as <- <- <-. repeat split; [lia|constructor|by left]. }
  cbn [export_scan] in E. fold (due now s) (refresh now s) in E.
  set (w1 := if nextExport (refresh now s) <? w then nextExport (refresh now s) else w) in E.
  destruct (export_scan now m w1) as [[ds1 m1] w2] eqn:E1. injection E as <- <- <-.
  destruct (IH _ _ _ _ E1) as (-> & -> & Hle & HF & Hmin). simpl.
  split; [by destruct (due now s)|]. split; [done|].
  assert (w1 <= w /\ w1 <= nextExport (refresh now s)) as [Hw1 Hw2].
  { unfold w1. destruct (Z.ltb_spec (nextExport (refresh now s)) w); lia. }
  split; [lia|]. split; [constructor; [simpl; lia|done]|].
  destruct Hmin as [->|(kv & Hin & ->)]; [|right; exists kv; split; [by apply list_elem_of_further|done]].
  unfold w1. destruct (Z.ltb_spec (nextExport (refresh now s)) w); [|by left].
  right. eexists. split; [apply list_elem_of_here|done].
Qed.

(** One round of the streaming thread or one call of [set_display_streaming]. *)
Inductive stream_op := SopTick (now : Z) | SopSet (d : Z) (enabled : bool) (fps now : Z).

Definition stream_op_step (op : stream_op) (st : t) : t * list Out :=
  match op with
  | SopTick now => let '(st', o, _) := stream_step now st in (st', o)
  | SopSet d en fps now => set_display_streaming d en fps now st
  end.

Definition op_time (op : stream_op) : Z := match op with SopTick now | SopSet _ _ _ now => now end.

(** The operations of a run, each with whether it exports display [d]. *)
Fixpoint exports (d : Z) (ops : list stream_op) (st : t) : list (stream_op * bool) :=
  match ops with
  | [] => []
  | op :: ops' =>
      let '(st', o) := stream_op_step op st in (op, bool_decide (OutExportFrame d ∈ o)) :: exports d ops' st'
  end.

(** What a run shows of the stream of a display: the rate it was last asked for, when it
    was last exported, and when its pace was last set (by an export or a new rate). *)
Record stream_log := { l_rate : Z; l_last : Z; l_set : Z }.

(** The cadence a display is promised. [None]: it is not streamed. While it is not
    streamed it is not exported, and enabling it exports it at once. From then on it is
    exported by rounds of the streaming thread only, never earlier than its interval
    after its last export (also the one of the enabling request, and across changes of
    the rate), and by every round an interval after its pace was set. *)
Fixpoint cadence (d : Z) (log : option stream_log) (tr : list (stream_op * bool)) : Prop :=
  match tr with
  | [] => True
  | (SopTick now, exported) :: tr =>
      match log with
      | None => exported = false /\ cadence d None tr
      | Some l =>
          (exported = true -> l_last l + stream_interval (l_rate l) <= now) /\
          (l_set l + stream_interval (l_rate l) <= now -> exported = true) /\
          cadence d (Some (if exported then {| l_rate := l_rate l; l_last := now; l_set := now |} else l)) tr
      end
  | (SopSet d' enabled fps now, exported) :: tr =>
      if negb (d' =? d) then exported = false /\ cadence d log tr
      else if negb enabled then exported = false /\ cadence d None tr
      else
        match log with
        | None => exported = true /\ cadence d (Some {| l_rate := fps; l_last := now; l_set := now |}) tr
        | Some l =>
            exported = false /\
            cadence d (Some {| l_rate := fps; l_last := l_last l;
              l_set := if normalize_stream_fps (l_rate l) =? normalize_stream_fps fps then l_set l else now |}) tr
        end
  end.

(** The steady clock does not go back. *)
Fixpoint clock_from (now : Z) (ops : list stream_op) : Prop :=
  match ops with [] => True | op :: ops => now <= op_time op /\ clock_from (op_time op) ops end.

(** The stream of a display, as the log describes it. *)
Definition stream_of (now : Z) (log : option stream_log) (s : option DisplayStreamState) : Prop :=
  match log, s with
  | None, None => True
  | Some l, Some s =>
      maximumFramesPerSecond s = normalize_stream_fps (l_rate l) /\
      nextExport s = l_set l + stream_interval (l_rate l) /\ l_last l <= l_set l <= now
  | _, _ => False
  end.

Lemma normalize_idem fps : normalize_stream_fps (normalize_stream_fps fps) = normalize_stream_fps fps.
Proof.
  unfold normalize_stream_fps, kDefaultDisplayStreamFps, kMaximumDisplayStreamFps.
  destruct (Z.eqb_spec fps 0); [done|]. destruct (Z.ltb_spec 1000 fps); [done|].
  rewrite (proj2 (Z.eqb_neq _ _)), (proj2 (Z.ltb_ge _ _)) by lia. done.
Qed.

Lemma stream_interval_normalized fps : stream_interval (normalize_stream_fps fps) = stream_interval fps.
Proof. unfold stream_interval. by rewrite normalize_idem. Qed.

Lemma elem_of_export_outs d (ds : list Z) : OutExportFrame d ∈ (OutExportFrame <$> ds) <-> d ∈ ds.
Proof. rewrite list_elem_of_fmap. naive_solver. Qed.

(** A round exports a display exactly when its deadline has passed, and moves its
    deadline then and only then. *)
Lemma stream_step_display now st st' o w d s :
  mRunning st = true -> sorted (mStreamingDisplays st) -> find d (mStreamingDisplays st) = Some s ->
  stream_step now st = (st', o, w) ->
  sorted (mStreamingDisplays st') /\ mRunning st' = true /\
  find d (mStreamingDisplays st') = Some (refresh now s) /\
  (OutExportFrame d ∈ o <-> due now s = true).
Proof.
  intros Hrun Hs Hd. unfold stream_step. rewrite Hrun. simpl.
  destruct (mStreamingDisplays st) as [|kv m] eqn:Em; [done|]. rewrite <- Em in *. clear kv m Em.
  destruct (export_scan _ _ _) as [[ds m] nw] eqn:E.
  apply export_scan_spec in E as (Hds & Hm & _).
  assert (d ∈ ds <-> due now s = true) as Hin.
  { rewrite Hds. split.
    - intros Hin%list_elem_of_In. apply in_map_iff in Hin as ([k s'] & <- & Hin).
      apply filter_In in Hin as [Hin Hdue]. apply list_elem_of_In, elem_of_find in Hin; [|done].
      simpl in *. congruence.
    - intros Hdue. apply list_elem_of_In, in_map_iff. exists (d, s). split; [done|].
      apply filter_In. split; [|done]. by apply list_elem_of_In, find_elem_of. }
  assert (sorted m) as Hsm by (rewrite Hm; by apply map_snd_sorted).
  assert (find d m = Some (refresh now s)) as Hfm.
  { rewrite Hm. by rewrite (find_map (fun _ => refresh now)), Hd. }
  destruct ds as [|d0 ds]; intros [= <- <- <-]; simpl; (split; [done|]); (split; [done|]);
    (split; [done|]).
  - rewrite <- Hin. split; [intros []%elem_of_nil|intros []%elem_of_nil].
  - rewrite <- Hin, <- elem_of_export_outs. done.
Qed.

(** A round does not export a display that is not streamed. *)
Lemma stream_step_absent now st d :
  mRunning st = true -> sorted (mStreamingDisplays st) -> find d (mStreamingDisplays st) = None ->
  let '(st', o, _) := stream_step now st in
  sorted (mStreamingDisplays st') /\ mRunning st' = true /\ find d (mStreamingDisplays st') = None /\
  OutExportFrame d ∉ o.
Proof.
  intros Hrun Hs Hd. unfold stream_step. rewrite Hrun. simpl.
  destruct (mStreamingDisplays st) as [|kv m] eqn:Em; [rewrite Em; split_and!; [constructor|done..|by intros []%elem_of_nil]|].
  rewrite <- Em in *. clear kv m Em. destruct (export_scan _ _ _) as [[ds m] nw] eqn:E.
  apply export_scan_spec in E as (Hds & Hm & _).
  assert (d ∉ ds) as Hin.
  { rewrite Hds. intros Hin%list_elem_of_In. apply in_map_iff in Hin as ([k s'] & <- & Hin).
    apply filter_In in Hin as [Hin _]. apply list_elem_of_In, elem_of_find in Hin; [|done]. simpl in *. congruence. }
  assert (sorted m) as Hsm by (rewrite Hm; by apply map_snd_sorted).
  assert (find d m = None) as Hfm by (rewrite Hm; by rewrite (find_map (fun _ => refresh now)), Hd).
  destruct ds as [|d0 ds]; simpl; split_and!; try done; [by intros []%elem_of_nil|].
  by rewrite <- (elem_of_export_outs d (d0 :: ds)) in Hin.
Qed.

Lemma set_streaming_keeps d' en fps now st :
  sorted (mStreamingDisplays st) ->
  let st' := (set_display_streaming d' en fps now st).1 in
  sorted (mStreamingDisplays st') /\ mRunning st' = mRunning st.
Proof.
  intros Hs. unfold set_display_streaming. destruct (d' =? 0); [done|].
  destruct en; [|simpl; split; [by apply erase_sorted|done]].
  destruct (find d' _) as [s'|]; [destruct (negb _)|]; simpl; split; try done; by apply assign_sorted.
Qed.

Lemma set_streaming_other d' en fps now st d :
  d' <> d ->
  find d (mStreamingDisplays (set_display_streaming d' en fps now st).1) = find d (mStreamingDisplays st) /\
  OutExportFrame d ∉ (set_display_streaming d' en fps now st).2.
Proof.
  intros Hne. unfold set_display_streaming. destruct (d' =? 0); [set_solver|].
  destruct en; [|simpl; split; [by rewrite find_erase_ne|set_solver]].
  destruct (find d' _) as [s'|]; [destruct (negb _)|]; simpl; (split; [|set_solver]); try done; by rewrite find_assign_ne.
Qed.

(** A streaming request for the display itself. *)
Lemma set_streaming_own d fps now st log t0 :
  d <> 0 -> stream_of t0 log (find d (mStreamingDisplays st)) -> t0 <= now ->
  let '(st', o) := set_display_streaming d true fps now st in
  match log with
  | None => OutExportFrame d ∈ o /\
      stream_of now (Some {| l_rate := fps; l_last := now; l_set := now |}) (find d (mStreamingDisplays st'))
  | Some l => OutExportFrame d ∉ o /\
      stream_of now (Some {| l_rate := fps; l_last := l_last l;
        l_set := if normalize_stream_fps (l_rate l) =? normalize_stream_fps fps then l_set l else now |})
        (find d (mStreamingDisplays st'))
  end.
Proof.
  intros Hd Hs Ht. unfold set_display_streaming. rewrite (proj2 (Z.eqb_neq _ _) Hd).
  destruct log as [l|], (find d (mStreamingDisplays st)) as [s|] eqn:Ef; cbn in Hs; try done.
  - destruct Hs as (Hr & Hn & Hl). rewrite Hr.
    destruct (Z.eqb_spec (normalize_stream_fps (l_rate l)) (normalize_stream_fps fps)) as [E|E]; cbn.
    + split; [set_solver|]. rewrite Ef. cbn. rewrite Hr, Hn. unfold stream_interval. rewrite E. split_and!; [done..|lia|lia].
    + split; [set_solver|]. rewrite find_assign_eq. cbn. rewrite stream_interval_normalized. split_and!; [done..|lia|lia].
  - cbn. split; [set_solver|]. rewrite find_assign_eq. cbn. rewrite stream_interval_normalized. split_and!; [done..|lia|lia].
Qed.

Lemma stream_of_later now now' log s : now <= now' -> stream_of now log s -> stream_of now' log s.
Proof. destruct log, s; cbn; intuition lia. Qed.

(** A round of the streaming thread, seen from one display. *)
Lemma stream_tick_own d now st log t0 :
  mRunning st = true -> sorted (mStreamingDisplays st) -> stream_of t0 log (find d (mStreamingDisplays st)) -> t0 <= now ->
  let '(st', o, _) := stream_step now st in
  sorted (mStreamingDisplays st') /\ mRunning st' = true /\
  match log with
  | None => OutExportFrame d ∉ o /\ find d (mStreamingDisplays st') = None
  | Some l =>
      (OutExportFrame d ∈ o <-> l_set l + stream_interval (l_rate l) <= now) /\
      stream_of now (Some (if bool_decide (OutExportFrame d ∈ o)
        then {| l_rate := l_rate l; l_last := now; l_set := now |} else l)) (find d (mStreamingDisplays st'))
  end.
Proof.
  intros Hrun Hs Hlog Ht. destruct log as [l|], (find d (mStreamingDisplays st)) as [s|] eqn:Ef; cbn in Hlog; try done.
  - destruct (stream_step now st) as [[st' o] w] eqn:E.
    apply (stream_step_display _ _ _ _ _ d s) in E as (Hs' & Hrun' & Hd' & Hin); [|done..].
    destruct Hlog as (Hr & Hn & Hl). split; [done|]. split; [done|].
    assert (OutExportFrame d ∈ o <-> l_set l + stream_interval (l_rate l) <= now) as Hiff
      by (rewrite Hin; unfold due; rewrite Hn; apply Z.leb_le).
    split; [done|]. rewrite Hd'. unfold refresh.
    case_bool_decide as Hb.
    + rewrite (proj1 Hin Hb). cbn. rewrite Hr, stream_interval_normalized. split_and!; [done..|lia|lia].
    + rewrite (proj1 (Bool.not_true_iff_false _) (fun H => Hb (proj2 Hin H))). cbn. split_and!; [done..|lia|lia].
  - pose proof (stream_step_absent now st d Hrun Hs Ef) as H. destruct (stream_step now st) as [[st' o] w]. naive_solver.
Qed.

Lemma cadence_from d ops : d <> 0 ->
  forall st log t0, mRunning st = true -> sorted (mStreamingDisplays st) ->
  stream_of t0 log (find d (mStreamingDisplays st)) -> clock_from t0 ops ->
  cadence d log (exports d ops st).
Proof.
  intros Hd. induction ops as [|op ops IH]; intros st log t0 Hrun Hs Hlog Hc; [done|].
  destruct Hc as [Ht Hc].
  cbn [exports]. destruct op as [now|d' en fps now]; cbn [stream_op_step op_time] in *.
  - pose proof (stream_tick_own d now st log t0 Hrun Hs Hlog Ht) as H.
    destruct (stream_step now st) as [[st' o] w]. destruct H as (Hs' & Hrun' & H). cbn [cadence].
    destruct log as [l|]; destruct H as [H1 H2].
    + split_and!; [|by intros Hx; apply bool_decide_eq_true, H1|by apply (IH st' _ now)].
      intros Hx%bool_decide_eq_true. apply H1 in Hx. destruct (find d (mStreamingDisplays st)); cbn in Hlog; lia || done.
    + split; [by apply bool_decide_eq_false|]. apply (IH st' _ now); try done. by rewrite H2.
  - pose proof (set_streaming_keeps d' en fps now st Hs) as [Hs' Hrun'].
    pose proof (set_streaming_other d' en fps now st d) as Ho. pose proof (set_streaming_own d fps now st log t0 Hd Hlog Ht) as Hown.
    destruct (decide (d' = d)) as [->|Hne].
    + destruct en.
      * destruct (set_display_streaming d true fps now st) as [st' o]. cbn [fst snd] in *.
        cbn [cadence]. rewrite Z.eqb_refl. destruct log as [l|]; destruct Hown as [H1 H2].
        -- split; [by apply bool_decide_eq_false|]. apply (IH st' _ now); congruence || done.
        -- split; [by apply bool_decide_eq_true|]. apply (IH st' _ now); congruence || done.
      * unfold set_display_streaming in *. rewrite (proj2 (Z.eqb_neq _ _) Hd) in *. cbn [fst snd] in *.
        cbn [cadence]. rewrite Z.eqb_refl. split; [apply bool_decide_eq_false; set_solver|]. apply (IH _ _ now); [congruence|done| |done].
        cbn. by rewrite find_erase_eq.
    + destruct (Ho Hne) as [H1 H2]. destruct (set_display_streaming d' en fps now st) as [st' o]. cbn [fst snd] in *.
      cbn [cadence]. rewrite (proj2 (Z.eqb_neq _ _) Hne). split; [by apply bool_decide_eq_false|].
      apply (IH st' _ now); [congruence|done| |done]. rewrite H1. by apply (stream_of_later t0).
Qed.

(** C36: a display is exported at a maximum cadence. Take any sequence of rounds of the
    streaming thread, at whatever times of a steady clock it wakes up, and of streaming
    requests for this and for other displays, on a receiver that does not stream the
    display yet. Each request that enables the display exports it at once; while it
    stays enabled, each later export is made by the streaming thread and comes at least
    an interval of the rate last asked for after the export before (the one of the
    request included, and also when the rate changes in between), so late wake-ups and
    repeated requests never cause a burst; a round that comes an interval after the last
    export or change of the rate does export; a disabled display is not exported; and
    the interval is between 1 ms and 1 s whatever rate is asked for. Exports are timed by
    the clock reading that decides them. *)
Theorem stream_cadence d ops st now :
  d <> 0 -> mRunning st = true -> sorted (mStreamingDisplays st) ->
  find d (mStreamingDisplays st) = None -> clock_from now ops ->
  cadence d None (exports d ops st) /\
  (forall fps, 0 <= fps -> 1000000 <= stream_interval fps <= 1000000000).
Proof.
  intros Hd Hrun Hs Hf Hc. split; [|apply stream_interval_bounds].
  apply (cadence_from d ops Hd st None now); try done. by rewrite Hf.
Qed.

(** ** The shell's lease *)

(** The descriptors closed and the shutdowns requested among the outputs. *)
Definition closes (o : list Out) : list Z :=
  omap (fun x => match x with OutCloseFd fd => Some fd | _ => None end) o.
Definition shutdowns (o : list Out) : list Out :=
  filter (fun x => x = OutShutdownRequest) o.

(** Output that neither closes a descriptor nor asks for a shutdown. *)
Definition harmless (o : list Out) : Prop := closes o = [] /\ shutdowns o = [].

Lemma harmless_app a b : harmless a -> harmless b -> harmless (a ++ b).
Proof.
  intros [Ha Hb] [Hc Hd]. unfold harmless, closes, shutdowns in *.
  rewrite omap_app, filter_app. by rewrite Ha, Hb, Hc, Hd.
Qed.

Lemma send_frame_harmless ty id p st : harmless (send_frame ty id p st).
Proof. unfold send_frame. by case_match. Qed.

Lemma set_display_streaming_harmless d en fps now st :
  harmless (set_display_streaming d en fps now st).2.
Proof. unfold set_display_streaming. repeat case_match; done. Qed.

(** What the reader thread never touches. *)
Definition same_core (st st' : t) : Prop :=
  mFd st' = mFd st /\ mStopRequested st' = mStopRequested st /\ mThread st' = mThread st /\
  (looper st = None <-> looper st' = None).

Lemma run_on_main_looper_harmless id k st st' o :
  run_on_main_looper id k st = (st', o) -> harmless o /\ same_core st st'.
Proof.
  unfold run_on_main_looper. destruct (looper st) as [q|] eqn:El; intros [= <- <-].
  - split; [done|]. unfold same_core. simpl. by rewrite El.
  - split; [apply send_frame_harmless|done].
Qed.

Lemma handle_frame_harmless h p now st st' o :
  handle_frame h p now st = (st', o) -> harmless o /\ same_core st st'.
Proof.
  unfold handle_frame, handle_hello, send_response, send_error.
  assert (forall ty i q, harmless (send_frame ty i q st) /\ same_core st st) as Hs.
  { intros. split; [apply send_frame_harmless|done]. }
  destruct (type_of_code (fh_type h)) as [[]|]; try (intros [= <- <-]; apply Hs);
    repeat (case_match; [intros [= <- <-]; apply Hs|]);
    try apply run_on_main_looper_harmless.
  pose proof (set_display_streaming_harmless (st_displayId (decode (take 12 p)))
    (negb (st_enabled (decode (take 12 p)) =? 0))
    (st_maximumFramesPerSecond (decode (take 12 p))) now st) as Hh.
  cbn [wire_size ControlDisplayStream_wire].
  destruct (set_display_streaming _ _ _ _ _) as [st1 o1] eqn:Es.
  apply set_display_streaming_frame in Es as (_ & ? & ? & ? & ? & ?).
  intros [= <- <-]. split; [apply harmless_app; [done|apply send_frame_harmless]|].
  unfold same_core. repeat split; congruence.
Qed.

Lemma thread_loop_body_harmless rounds env st st' o b :
  thread_loop_body rounds env st = (st', o, b) -> harmless o /\ same_core st st'.
Proof.
  revert env st st' o b. induction rounds as [|[running now] rounds IH]; intros env st st' o b E.
  { by injection E as <- <- <-. }
  cbn [thread_loop_body] in E. destruct running; simpl in E; [|by injection E as <- <- <-].
  destruct (read_frame env) as [[[h p]|] env']; [|by injection E as <- <- <-].
  destruct (handle_frame h p now st) as [st1 o1] eqn:E1.
  destruct (thread_loop_body rounds env' st1) as [[st2 o2] b2] eqn:E2. injection E as <- <- <-.
  apply handle_frame_harmless in E1 as [H1 (A1 & A2 & A3 & A4)].
  apply IH in E2 as [H2 (B1 & B2 & B3 & B4)].
  split; [by apply harmless_app|]. unfold same_core.
  repeat split; [congruence..| |]; intros; apply B4, A4 || apply A4, B4; done.
Qed.

(** C35: losing the shell shuts the emulator down, stopping the receiver does
    not. When the reader thread ends because the stream ended, failed or carried
    a corrupt frame, exports are reset and exactly one VM shutdown is requested.
    When [stop] is called, whatever the reader thread still does before it is
    joined, no shutdown is requested, the descriptor is closed exactly once, all
    streams are dropped, and a second [stop] closes nothing. *)
Theorem lease_and_stop rounds env st q :
  0 <= mFd st -> looper st = Some q ->
  (forall st' o, mStopRequested st = false -> thread_loop rounds env st = (st', o, true) ->
     length (shutdowns o) = 1%nat /\ OutResetSubscriptions ∈ o /\ closes o = [] /\
     mRunning st' = false) /\
  (let '(st', o) := stop rounds env st in
   shutdowns o = [] /\ closes o = [mFd st] /\ mFd st' = -1 /\ mStreamingDisplays st' = [] /\
   mThread st' = false /\ mRunning st' = false /\ closes (stop [] [] st').2 = []).
Proof.
  intros Hfd Hl. split.
  - intros st' o Hstop. unfold thread_loop.
    destruct (thread_loop_body rounds env st) as [[st1 o1] b] eqn:E.
    apply thread_loop_body_harmless in E as [[Hc Hs] (_ & H2 & _ & H4)].
    destruct b; [|done]. unfold thread_exit. rewrite H2, Hstop. simpl.
    assert (looper st1 <> None) as Hl1 by (intros E; apply H4 in E; congruence).
    destruct (looper st1); [|done]. intros [= <- <-]. unfold shutdowns, closes in *.
    rewrite filter_app, omap_app, Hs, Hc. split; [done|]. split; [|done].
    apply elem_of_app. right. apply list_elem_of_here.
  - unfold stop. rewrite (proj2 (Z.leb_le _ _) Hfd). simpl. destruct (mThread st).
    + destruct (thread_loop_body rounds env _) as [[st1 o1] b] eqn:E.
      apply thread_loop_body_harmless in E as [[Hc Hs] (H1 & H2 & _)]. simpl in H1, H2.
      unfold thread_exit. simpl. rewrite H1, H2. simpl. rewrite (proj2 (Z.leb_le _ _) Hfd).
      unfold shutdowns, closes in *. rewrite filter_cons_False by done. cbn [omap list_omap].
      rewrite !filter_app, !omap_app, Hs, Hc. done.
    + simpl. rewrite (proj2 (Z.leb_le _ _) Hfd). done.
Qed.
