(* ===== verification/MultiDisplay.v ===== *)
(** [external/qemu/android/android-emu/android/emulation/MultiDisplay.cpp] (with the
    flag constants of [AutoDisplays.h]): the emulator's table of displays, its
    window layout and the translation of window coordinates to displays.

    [host-common/MultiDisplay.h], which declares the class, is not in the
    repository: its constants and the default [MultiDisplayInfo] are parameters
    ([limits]). What the methods ask of other components (feature flags, the
    AVD, the skin layout, the guest pipe, the recorder, the stacked-layout
    solver) is the record [host]. Calls made to the window, the recorder and the
    guest are recorded as [effect]s. Each method holds [mLock] while it touches
    the table, so it is one operation on the state. *)
From S2P Require Import Prelude Text StdMap.

Module MultiDisplay.

Definition EPIPE : Z := 32.
Definition ENODEV : Z := 19.
Definition ENOSYS : Z := 38.
Definition EINVAL : Z := 22.

(** [SkinRotation]. *)
Inductive SkinRotation := SKIN_ROTATION_0 | SKIN_ROTATION_90 | SKIN_ROTATION_180 | SKIN_ROTATION_270.

#[export] Instance SkinRotation_eq_dec : EqDecision SkinRotation.
Proof. solve_decision. Defined.

Definition rotation_code (r : SkinRotation) : Z :=
  match r with
  | SKIN_ROTATION_0 => 0 | SKIN_ROTATION_90 => 1 | SKIN_ROTATION_180 => 2 | SKIN_ROTATION_270 => 3
  end.

(** ** Data *)

Record MultiDisplayInfo := {
  pos_x : Z; pos_y : Z; width : Z; height : Z; originalWidth : Z; originalHeight : Z;
  dpi : Z; flag : Z; enabled : bool; cb : Z; rotation : Z; colorTransform : bytes }.

Definition set_pos (i : MultiDisplayInfo) (x y : Z) : MultiDisplayInfo := {|
  pos_x := x; pos_y := y; width := width i; height := height i;
  originalWidth := originalWidth i; originalHeight := originalHeight i; dpi := dpi i;
  flag := flag i; enabled := enabled i; cb := cb i; rotation := rotation i;
  colorTransform := colorTransform i |}.

Definition set_rotation (i : MultiDisplayInfo) (r : Z) : MultiDisplayInfo := {|
  pos_x := pos_x i; pos_y := pos_y i; width := width i; height := height i;
  originalWidth := originalWidth i; originalHeight := originalHeight i; dpi := dpi i;
  flag := flag i; enabled := enabled i; cb := cb i; rotation := r;
  colorTransform := colorTransform i |}.

Definition set_size (i : MultiDisplayInfo) (w h : Z) : MultiDisplayInfo := {|
  pos_x := pos_x i; pos_y := pos_y i; width := w; height := h;
  originalWidth := originalWidth i; originalHeight := originalHeight i; dpi := dpi i;
  flag := flag i; enabled := enabled i; cb := cb i; rotation := rotation i;
  colorTransform := colorTransform i |}.

Definition set_cb (i : MultiDisplayInfo) (c : Z) : MultiDisplayInfo := {|
  pos_x := pos_x i; pos_y := pos_y i; width := width i; height := height i;
  originalWidth := originalWidth i; originalHeight := originalHeight i; dpi := dpi i;
  flag := flag i; enabled := enabled i; cb := c; rotation := rotation i;
  colorTransform := colorTransform i |}.

Definition set_transform (i : MultiDisplayInfo) (m : bytes) : MultiDisplayInfo := {|
  pos_x := pos_x i; pos_y := pos_y i; width := width i; height := height i;
  originalWidth := originalWidth i; originalHeight := originalHeight i; dpi := dpi i;
  flag := flag i; enabled := enabled i; cb := cb i; rotation := rotation i; colorTransform := m |}.

(** What [setDisplayPose] stores. *)
Definition set_pose (i : MultiDisplayInfo) (x y w h dp fl rot : Z) : MultiDisplayInfo := {|
  pos_x := x; pos_y := y; width := w; height := h; originalWidth := w; originalHeight := h;
  dpi := dp; flag := fl; enabled := enabled i; cb := cb i; rotation := rot;
  colorTransform := colorTransform i |}.

Record t := { mGuestMode : bool; mRotation : Z; mMultiDisplay : list (Z * MultiDisplayInfo) }.

Definition with_map (st : t) (m : list (Z * MultiDisplayInfo)) : t :=
  {| mGuestMode := mGuestMode st; mRotation := mRotation st; mMultiDisplay := m |}.

Inductive display_change :=
  | DisplayAdded | DisplayRemoved | DisplayChanged | DisplayTransactionCompleted.

Inductive effect :=
  | FireEvent (change : display_change) (id : Z)
  | ShowMessage (text : bytes)
  | VmSetDisplay (id w h dpi : Z)
  | StartDisplayPipe
  | PipeSend (id w h dpi flag : Z) (add : bool)
  | StopRecording
  | AddMultiDisplayWindow (id : Z) (add : bool) (w h : Z)
  | SetUIDisplayRegion (w h : Z)
  | SetNoSkin
  | RestoreSkin
  | NotifyColorBufferChanged (id cb : Z)
  | UpdateUIPage (id : Z).

(** The constants of [MultiDisplay.h] and [MultiDisplayInfo()]. *)
Record limits := {
  s_maxNumMultiDisplay : Z; s_displayIdInternalBegin : Z; s_invalidIdMultiDisplay : Z;
  default_info : MultiDisplayInfo }.

(** What [avdInfo] reports about the AVD. *)
Record avd := { avd_auto : bool; avd_desktop36 : bool; avd_tv_or_wear : bool; avd_apiLevel : Z }.

Record host := {
  h_feature : bool; h_folded_area : bool; h_resizable : bool; h_avd : option avd;
  h_layout : option SkinRotation;
  h_minigbm : bool; h_hotplug_option : bool; h_hotplug_hw : bool;
  h_pipe : bool; h_adb : bool;
  h_window : bool; h_pixel_fold : bool; h_second_display : Z; h_folded : bool; h_grpc_ui : bool;
  h_automotive : bool;
  h_stacked : list (Z * (Z * Z)) -> list (Z * (Z * Z));   (* resolveStackedLayout *)
  h_recorder_display : Z; h_recording : bool }.

Section WithHost.
Context (K : limits) (H : host).

(** ** Flags *)

Definition VIRTUAL_DISPLAY_FLAG_PUBLIC : Z := Z.shiftl 1 0.
Definition VIRTUAL_DISPLAY_FLAG_PRESENTATION : Z := Z.shiftl 1 1.
Definition VIRTUAL_DISPLAY_FLAG_OWN_CONTENT_ONLY : Z := Z.shiftl 1 3.
Definition VIRTUAL_DISPLAY_FLAG_SUPPORTS_TOUCH : Z := Z.shiftl 1 6.
Definition VIRTUAL_DISPLAY_FLAG_ROTATES_WITH_CONTENT : Z := Z.shiftl 1 7.
Definition VIRTUAL_DISPLAY_FLAG_DESTROY_CONTENT_ON_REMOVAL : Z := Z.shiftl 1 8.
Definition VIRTUAL_DISPLAY_FLAG_SHOULD_SHOW_SYSTEM_DECORATIONS : Z := Z.shiftl 1 9.
Definition VIRTUAL_DISPLAY_FLAG_TRUSTED : Z := Z.shiftl 1 10.
Definition VIRTUAL_DISPLAY_FLAG_ALLOWS_CONTENT_MODE_SWITCH : Z := Z.shiftl 1 17.

Definition flags (l : list Z) : Z := foldr Z.lor 0 l.

Definition DEFAULT_FLAGS_AUTO : Z := flags
  [VIRTUAL_DISPLAY_FLAG_PUBLIC; VIRTUAL_DISPLAY_FLAG_OWN_CONTENT_ONLY;
   VIRTUAL_DISPLAY_FLAG_ROTATES_WITH_CONTENT; VIRTUAL_DISPLAY_FLAG_TRUSTED;
   VIRTUAL_DISPLAY_FLAG_SUPPORTS_TOUCH; VIRTUAL_DISPLAY_FLAG_SHOULD_SHOW_SYSTEM_DECORATIONS;
   VIRTUAL_DISPLAY_FLAG_DESTROY_CONTENT_ON_REMOVAL].

Definition DEFAULT_FLAGS_AUTO_CLUSTER : Z := flags
  [VIRTUAL_DISPLAY_FLAG_OWN_CONTENT_ONLY; VIRTUAL_DISPLAY_FLAG_TRUSTED;
   VIRTUAL_DISPLAY_FLAG_SUPPORTS_TOUCH; VIRTUAL_DISPLAY_FLAG_DESTROY_CONTENT_ON_REMOVAL].

Definition DEFAULT_FLAGS_DESKTOP : Z := flags
  [VIRTUAL_DISPLAY_FLAG_PUBLIC; VIRTUAL_DISPLAY_FLAG_TRUSTED;
   VIRTUAL_DISPLAY_FLAG_ALLOWS_CONTENT_MODE_SWITCH; VIRTUAL_DISPLAY_FLAG_SUPPORTS_TOUCH;
   VIRTUAL_DISPLAY_FLAG_PRESENTATION].

Definition DEFAULT_FLAGS_SINCE_S : Z := flags
  [VIRTUAL_DISPLAY_FLAG_PUBLIC; VIRTUAL_DISPLAY_FLAG_OWN_CONTENT_ONLY;
   VIRTUAL_DISPLAY_FLAG_ROTATES_WITH_CONTENT; VIRTUAL_DISPLAY_FLAG_TRUSTED;
   VIRTUAL_DISPLAY_FLAG_SUPPORTS_TOUCH; VIRTUAL_DISPLAY_FLAG_SHOULD_SHOW_SYSTEM_DECORATIONS;
   VIRTUAL_DISPLAY_FLAG_PRESENTATION].

Definition getDefaultFlagsForDisplay (displayId : Z) : Z :=
  if displayId =? 1 then DEFAULT_FLAGS_AUTO_CLUSTER else DEFAULT_FLAGS_AUTO.

(** The flags a display gets when the caller passes none. *)
Definition default_flag (id : Z) : Z :=
  match h_avd H with
  | None => 0
  | Some a =>
      if avd_auto a then getDefaultFlagsForDisplay id
      else if avd_desktop36 a then DEFAULT_FLAGS_DESKTOP
      else if 31 <=? avd_apiLevel a then DEFAULT_FLAGS_SINCE_S
      else 0
  end.

(** ** Parameters *)

(** [None] when the parameters are valid, otherwise the message that is shown;
    [320 * dpi / 160] is computed in [uint32_t]. *)
Definition param_error (id w h dp : Z) : option bytes :=
  if (dp <? 120) || (640 <? dp) then Some (bstr "dpi should be between 120 and 640")
  else if (w <? u32 (320 * dp) / 160) || (h <? u32 (320 * dp) / 160) then
    Some (bstr "width and height should be >= 320dp")
  else if negb (((w <=? 7680) && (h <=? 4320)) || ((w <=? 4320) && (h <=? 7680))) then
    Some (bstr "resolution should not exceed 8k (7680*4320)")
  else if s_maxNumMultiDisplay K <? id then
    Some (bstr "Display index cannot be more than " ++ dec_signed (s_maxNumMultiDisplay K))
  else None.

Definition multiDisplayParamValidate (id w h dp : Z) : bool * list effect :=
  match param_error id w h dp with
  | None => (true, [])
  | Some msg => (false, [ShowMessage msg])
  end.

(** ** Layout *)

Definition current_rotation : SkinRotation := default SKIN_ROTATION_0 (h_layout H).

Definition entry (id : Z) (m : list (Z * MultiDisplayInfo)) : MultiDisplayInfo :=
  default (default_info K) (find id m).   (* what [mMultiDisplay[id]] reads *)

Definition pile_up (r : SkinRotation) : bool :=
  bool_decide (r = SKIN_ROTATION_90) || bool_decide (r = SKIN_ROTATION_270).
Definition normal_order (r : SkinRotation) : bool :=
  bool_decide (r = SKIN_ROTATION_0) || bool_decide (r = SKIN_ROTATION_270).

(** Size of a display in the rotated window. *)
Definition rotated_size (r : SkinRotation) (i : MultiDisplayInfo) : Z * Z :=
  if pile_up r then (originalHeight i, originalWidth i) else (originalWidth i, originalHeight i).

Definition place (r : SkinRotation) (i : MultiDisplayInfo) (x y : Z) : MultiDisplayInfo :=
  let '(w, h) := rotated_size r i in
  set_rotation (set_pos (set_size i w h) (s32 x) (s32 y)) (rotation_code r).

(** The first pass, in [normalOrder]: the widest display when piled up. *)
Fixpoint max_width (r : SkinRotation) (total_w : Z) (m : list (Z * MultiDisplayInfo)) : Z :=
  match m with
  | [] => total_w
  | (_, i) :: m' =>
      max_width r (if pile_up r then Z.max total_w (rotated_size r i).1 else total_w) m'
  end.

(** The second pass, in [normalOrder]. *)
Fixpoint place_normal (r : SkinRotation) (total_w total_h : Z) (m : list (Z * MultiDisplayInfo))
    : list (Z * MultiDisplayInfo) :=
  match m with
  | [] => []
  | (id, i) :: m' =>
      let '(w, h) := rotated_size r i in
      if pile_up r then
        (id, place r i (u32 (total_w - w)) total_h) :: place_normal r total_w (u32 (total_h + h)) m'
      else
        (id, place r i total_w 0) :: place_normal r (u32 (total_w + w)) total_h m'
  end.

(** The first pass in reversed order: the totals the second pass counts down from. *)
Fixpoint totals (r : SkinRotation) (total_w total_h : Z) (m : list (Z * MultiDisplayInfo)) : Z * Z :=
  match m with
  | [] => (total_w, total_h)
  | (_, i) :: m' =>
      let '(w, h) := rotated_size r i in
      if pile_up r then totals r total_w (u32 (total_h + h)) m'
      else totals r (u32 (total_w + w)) (Z.max h total_h) m'
  end.

Fixpoint place_reversed (r : SkinRotation) (total_w total_h : Z) (m : list (Z * MultiDisplayInfo))
    : list (Z * MultiDisplayInfo) :=
  match m with
  | [] => []
  | (id, i) :: m' =>
      let '(w, h) := rotated_size r i in
      if pile_up r then
        let th := u32 (total_h - h) in (id, place r i 0 th) :: place_reversed r total_w th m'
      else
        let tw := u32 (total_w - w) in
        (id, place r i tw (u32 (total_h - h))) :: place_reversed r tw total_h m'
  end.

Definition performRotationLocked (r : SkinRotation) (m : list (Z * MultiDisplayInfo))
    : list (Z * MultiDisplayInfo) :=
  if h_pixel_fold H then
    let second_exists := match find (h_second_display H) m with Some _ => true | None => false end in
    let m := assign 0 (set_rotation (set_pos (entry 0 m) 0 0) (rotation_code r)) m in
    if second_exists then
      assign (h_second_display H)
        (set_rotation (set_pos (entry (h_second_display H) m) 0 0) (rotation_code r)) m
    else m
  else if normal_order r then place_normal r (max_width r 0 m) 0 m
  else let '(tw, th) := totals r 0 0 m in place_reversed r tw th m.

Definition active (kv : Z * MultiDisplayInfo) : bool := (kv.1 =? 0) || negb (cb kv.2 =? 0).

(** [recomputeStackedLayoutLocked]: the solver's positions for the active displays. *)
Definition recomputeStackedLayoutLocked (m : list (Z * MultiDisplayInfo))
    : list (Z * MultiDisplayInfo) :=
  let rectangles := map (fun kv => (kv.1, (width kv.2, height kv.2))) (List.filter active m) in
  foldl (fun m r => assign r.1 (set_pos (entry r.1 m) (s32 r.2.1) (s32 r.2.2)) m) m
    (h_stacked H rectangles).

Definition recomputeLayoutLocked (m : list (Z * MultiDisplayInfo)) : list (Z * MultiDisplayInfo) :=
  let m := performRotationLocked current_rotation m in
  if h_automotive H then recomputeStackedLayoutLocked m else m.

Definition performRotation (r : SkinRotation) (st : t) : t :=
  with_map st (performRotationLocked r (mMultiDisplay st)).

Definition getNumberActiveMultiDisplaysLocked (m : list (Z * MultiDisplayInfo)) : Z :=
  Z.of_nat (length (List.filter active m)).

(** (width, height) of the window; the sums are [uint32_t]. *)
Definition getCombinedDisplaySizeLocked (m : list (Z * MultiDisplayInfo)) : Z * Z :=
  if h_pixel_fold H then
    let second_exists := match find (h_second_display H) m with Some _ => true | None => false end in
    let i := if h_folded H && second_exists then entry (h_second_display H) m else entry 0 m in
    let '(w, h) := (originalWidth i, originalHeight i) in
    if pile_up current_rotation then (h, w) else (w, h)
  else
    foldl (fun wh kv =>
        if active kv then
          (Z.max wh.1 (u32 (width kv.2 + pos_x kv.2)), Z.max wh.2 (u32 (height kv.2 + pos_y kv.2)))
        else wh) (0, 0) m.

Definition getCombinedDisplaySize (st : t) : Z * Z := getCombinedDisplaySizeLocked (mMultiDisplay st).

(** ** Creating, placing and destroying displays *)

(** The first internal id that is not in use. *)
Fixpoint internal_id (ids : list Z) (m : list (Z * MultiDisplayInfo)) : Z :=
  match ids with
  | [] => s_invalidIdMultiDisplay K
  | i :: ids' => match find i m with None => i | Some _ => internal_id ids' m end
  end.

Definition internal_ids : list Z :=
  seqZ (s_displayIdInternalBegin K) (s_maxNumMultiDisplay K - s_displayIdInternalBegin K).

(** Result, the id that was allocated, state, effects. *)
Definition createDisplay (id : Z) (st : t) : Z * Z * t * list effect :=
  if mGuestMode st then (- ENOSYS, id, st, []) else
  if s_maxNumMultiDisplay K <? Z.of_nat (length (mMultiDisplay st)) then (- EINVAL, id, st, []) else
  match find id (mMultiDisplay st) with
  | Some _ => (0, id, st, [])
  | None =>
      let id' := if id =? s_invalidIdMultiDisplay K
                 then internal_id internal_ids (mMultiDisplay st) else id in
      if id' =? s_invalidIdMultiDisplay K then (- EINVAL, id', st, []) else
      (0, id', with_map st (emplace id' (default_info K) (mMultiDisplay st)),
       [FireEvent DisplayAdded id'; FireEvent DisplayTransactionCompleted 0])
  end.

(** The window changes after the table changed. *)
Definition stop_recording_of (id : Z) : list effect :=
  if (h_recorder_display H =? id) && h_recording H then [StopRecording] else [].

Definition destroyDisplay (id : Z) (st : t) : Z * t * list effect :=
  if mGuestMode st then (- ENOSYS, st, []) else
  match find id (mMultiDisplay st) with
  | None => (0, st, [])
  | Some i =>
      let needUIUpdate := negb (cb i =? 0) in
      let m := erase id (mMultiDisplay st) in
      let m := if needUIUpdate && negb (h_window H) then recomputeLayoutLocked m else m in
      let '(w, h) := getCombinedDisplaySizeLocked m in
      let restoreSkin :=
        needUIUpdate && negb (h_window H) && (getNumberActiveMultiDisplaysLocked m =? 1) in
      (0, with_map st m,
       (if needUIUpdate then
          stop_recording_of id ++
          [if h_window H then AddMultiDisplayWindow id false 0 0 else SetUIDisplayRegion w h] ++
          (if restoreSkin then [RestoreSkin] else [])
        else []) ++ [FireEvent DisplayRemoved id])
  end.

Definition setDisplayPose (id x y w h dp fl : Z) (st : t) : Z * t * list effect :=
  let rot := match h_layout H with Some r => rotation_code r | None => 0 end in
  if mGuestMode st then (- ENOSYS, st, []) else
  match find id (mMultiDisplay st) with
  | None => (- EINVAL, st, [])
  | Some i =>
      let displaySizeChanged := negb (width i =? w) || negb (height i =? h) in
      let checkRecording := negb (cb i =? 0) && displaySizeChanged in
      let m := assign id (set_pose i x y w h dp fl rot) (mMultiDisplay st) in
      let bound := negb (cb i =? 0) in
      let m := if bound && negb (h_window H) && ((x =? -1) && (y =? -1))
               then recomputeLayoutLocked m else m in
      let '(cw, ch) := getCombinedDisplaySizeLocked m in
      let UIUpdate := bound && (negb (h_pixel_fold H) && (0 <? id) && displaySizeChanged) in
      (0, with_map st m,
       (if checkRecording then stop_recording_of id else []) ++
       (if UIUpdate then
          [if h_window H then AddMultiDisplayWindow id true w h else SetUIDisplayRegion cw ch]
        else []) ++ [FireEvent DisplayChanged id])
  end.

Definition setGpuMode (isGuestMode : bool) (info : MultiDisplayInfo) (st : t) : t :=
  let st := {| mGuestMode := isGuestMode; mRotation := mRotation st;
               mMultiDisplay := mMultiDisplay st |} in
  if isGuestMode then with_map st (emplace 0 info (mMultiDisplay st)) else st.

(** ** Color buffers *)

Definition setDisplayColorBuffer (id colorBuffer : Z) (st : t) : Z * t * list effect :=
  if mGuestMode st then (- ENOSYS, st, []) else
  match find id (mMultiDisplay st) with
  | None => (- EINVAL, st, [])
  | Some i =>
      if cb i =? colorBuffer then (0, st, []) else
      let first := cb i =? 0 in
      let m := if first then assign id (set_cb i colorBuffer) (mMultiDisplay st)
               else mMultiDisplay st in
      let m := if first && negb (h_window H) then recomputeLayoutLocked m else m in
      let '(w, h) := if first && h_window H then (width (entry id m), height (entry id m))
                     else getCombinedDisplaySizeLocked m in
      let noSkin := first && negb (h_window H) && (getNumberActiveMultiDisplaysLocked m =? 2) in
      let needUpdate := negb (h_pixel_fold H) && (0 <? id) && first in
      let m := assign id (set_cb (entry id m) colorBuffer) m in
      (0, with_map st m,
       (if noSkin then [SetNoSkin] else []) ++
       (if needUpdate then
          [if h_window H then AddMultiDisplayWindow id true w h else SetUIDisplayRegion w h;
           FireEvent DisplayChanged id]
        else []) ++ [NotifyColorBufferChanged id colorBuffer])
  end.

Definition getDisplayColorBuffer (id : Z) (st : t) : Z * option Z :=
  if mGuestMode st then (- ENOSYS, None) else
  match find id (mMultiDisplay st) with
  | None => (- EINVAL, None)
  | Some i => (0, Some (cb i))
  end.

Fixpoint display_of_cb (colorBuffer : Z) (m : list (Z * MultiDisplayInfo)) : option Z :=
  match m with
  | [] => None
  | (id, i) :: m' => if cb i =? colorBuffer then Some id else display_of_cb colorBuffer m'
  end.

Definition getColorBufferDisplay (colorBuffer : Z) (st : t) : Z * option Z :=
  if mGuestMode st then (- ENOSYS, None) else
  match display_of_cb colorBuffer (mMultiDisplay st) with
  | Some id => (0, Some id)
  | None => (- EINVAL, None)
  end.

Definition getColorTransformMatrix (id : Z) (st : t) : Z * option bytes :=
  if mGuestMode st then (-1, None) else
  match find id (mMultiDisplay st) with
  | None => (-1, None)
  | Some i => (0, Some (colorTransform i))
  end.

Definition setColorTransformMatrix (id : Z) (matrix : bytes) (st : t) : Z * t :=
  if mGuestMode st then (-1, st) else
  match find id (mMultiDisplay st) with
  | None => (-1, st)
  | Some i => (0, with_map st (assign id (set_transform i matrix) (mMultiDisplay st)))
  end.

Definition getDisplayPose (id : Z) (st : t) : Z * option (Z * Z * Z * Z) :=
  if mGuestMode st then (- ENOSYS, None) else
  match find id (mMultiDisplay st) with
  | None => (- EINVAL, None)
  | Some i => (0, Some (pos_x i, pos_y i, width i, height i))
  end.

(** ** Requests of the console and the control plane *)

Definition hotPlugDisplayEnabled : bool :=
  h_minigbm H && (h_hotplug_option H || h_hotplug_hw H).

(** Only whether there was something to run is of interest here. *)
Definition startDisplayPipe : list effect := if h_adb H then [StartDisplayPipe] else [].

Definition setMultiDisplay (id x y w h dp fl : Z) (add : bool) (st : t) : Z * t * list effect :=
  if negb (h_feature H) then (- ENODEV, st, []) else
  if h_folded_area H then (- ENOSYS, st, []) else
  if h_resizable H then (- ENOSYS, st, []) else
  if match h_avd H with Some a => avd_tv_or_wear a | None => false end then (- ENOSYS, st, []) else
  if mGuestMode st then (- ENOSYS, st, []) else
  let '(valid, o) := if add then multiDisplayParamValidate id w h dp else (true, []) in
  if negb valid then (- EINVAL, st, o) else
  let fl := if fl =? 0 then default_flag id else fl in
  if negb (bool_decide (current_rotation = SKIN_ROTATION_0)) then
    (- EINVAL, st, [ShowMessage (bstr "Please apply multiple displays without rotation")]) else
  if hotPlugDisplayEnabled then
    (0, st, [if add then VmSetDisplay id w h dp else VmSetDisplay id 0 0 0]) else
  let '(ret, id, st, o) :=
    if add then
      let '(ret, id, st, o) := createDisplay id st in
      if negb (ret =? 0) then (ret, id, st, o) else
      let '(ret, st, o') := setDisplayPose id x y w h dp fl st in
      (ret, id, st, o ++ o')
    else
      let '(ret, st, o) := destroyDisplay id st in (ret, id, st, o) in
  if negb (ret =? 0) then (ret, st, o) else
  let o := o ++ (if h_pipe H then [] else startDisplayPipe) in
  if h_pipe H then (0, st, o ++ [PipeSend id w h dp fl add]) else (- EPIPE, st, o).

Definition getMultiDisplay (id : Z) (st : t) : bool * option MultiDisplayInfo :=
  match find id (mMultiDisplay st) with
  | None => (false, None)
  | Some i => (enabled i, Some i)
  end.

(** [start_id + 1] is an [int] and becomes a [uint32_t] key. *)
Definition getNextMultiDisplay (start_id : Z) (st : t) : option (Z * MultiDisplayInfo) :=
  let key := if start_id <? 0 then 0 else u32 (start_id + 1) in
  lower_bound key (mMultiDisplay st).

(** ** Window coordinates *)

(** The loops over the displays, one per rotation; all arithmetic is [uint32_t].
    The result is the translated point and the display it is on. *)
Fixpoint translate_0 (totalH x y : Z) (m : list (Z * MultiDisplayInfo)) : option (Z * Z * Z) :=
  match m with
  | [] => None
  | (id, i) :: m' =>
      if negb (id =? 0) && (cb i =? 0) then translate_0 totalH x y m' else
      let px := u32 (pos_x i) in
      let py := u32 (totalH - height i - pos_y i) in
      if (u32 (x - px) <? width i) && (u32 (y - py) <? height i) then
        Some (u32 (x - px), u32 (y - py), id)
      else translate_0 totalH x y m'
  end.

Fixpoint translate_180 (totalW totalH currXoffset x y : Z) (m : list (Z * MultiDisplayInfo))
    : option (Z * Z * Z) :=
  match m with
  | [] => None
  | (id, i) :: m' =>
      if negb (id =? 0) && (cb i =? 0) then translate_180 totalW totalH currXoffset x y m' else
      let normal_x := u32 (totalW - x) in
      let delta := u32 (totalH - height i) in
      if (u32 (normal_x - pos_x i) <? width i) && (u32 (y - delta) <=? height i) then
        Some (u32 (x - currXoffset), u32 (y - delta), id)
      else translate_180 totalW totalH (u32 (currXoffset + width i)) x y m'
  end.

Fixpoint translate_270 (x y : Z) (m : list (Z * MultiDisplayInfo)) : option (Z * Z * Z) :=
  match m with
  | [] => None
  | (id, i) :: m' =>
      if negb (id =? 0) && (cb i =? 0) then translate_270 x y m' else
      if (u32 (x - pos_y i) <? height i) && (u32 (y - pos_x i) <? width i) then
        Some (u32 (x - pos_y i), u32 (y - pos_x i), id)
      else translate_270 x y m'
  end.

Fixpoint translate_90 (totalW totalH currYoffset x y : Z) (m : list (Z * MultiDisplayInfo))
    : option (Z * Z * Z) :=
  match m with
  | [] => None
  | (id, i) :: m' =>
      if negb (id =? 0) && (cb i =? 0) then translate_90 totalW totalH currYoffset x y m' else
      let delta_w := u32 (totalW - width i) in
      let normal_x := u32 (totalH - x) in
      let normal_y := u32 (totalW - y) in
      if (u32 (normal_x - pos_y i) <? height i) && (u32 (normal_y - pos_x i) <? width i) then
        Some (u32 (x - currYoffset), u32 (y - delta_w), id)
      else translate_90 totalW totalH (u32 (currYoffset + height i)) x y m'
  end.

Definition translateCoordination (x y : Z) (st : t) : option (Z * Z * Z) :=
  if mGuestMode st then Some (x, y, 0) else
  if h_pixel_fold H then
    Some (x, y, if h_folded H && negb (h_grpc_ui H) then u32 (h_second_display H) else 0)
  else
    let m := mMultiDisplay st in
    let '(totalW, totalH) := getCombinedDisplaySizeLocked m in
    match current_rotation with
    | SKIN_ROTATION_0 => translate_0 totalH x y m
    | SKIN_ROTATION_180 => translate_180 totalW totalH 0 x y m
    | SKIN_ROTATION_270 => translate_270 x y m
    | SKIN_ROTATION_90 => translate_90 totalW totalH 0 x y m
    end.

End WithHost.
End MultiDisplay.
