(* ===== verification/MultiDisplaySafety.v ===== *)
(** Theorems about the display table ([MultiDisplay]): the table stays sorted and
    within its id range, [setMultiDisplay] touches one display, the four window
    layouts never overlap, and a click in the window is translated to the display
    it is on. The instance [multi_display_agent] discharges the interface the
    control receiver relies on. *)
From S2P Require Import Prelude Text StdMap DisplayAgent MultiDisplay.
Import MultiDisplay.

(** ** What is assumed of the parameters *)

(** The id range of the class is small and its invalid id lies outside it. *)
Record limits_ok (K : limits) : Prop := {
  lim_max : 0 <= s_maxNumMultiDisplay K < 2 ^ 31 - 1;
  lim_begin : 0 <= s_displayIdInternalBegin K;
  lim_invalid : s_maxNumMultiDisplay K < s_invalidIdMultiDisplay K }.

(** Not a pixel fold, and the stacked-layout solver places only the rectangles it
    was given. *)
Record host_ok (H : host) : Prop := {
  host_flat : h_pixel_fold H = false;
  host_stacked : forall rects r, r ∈ h_stacked H rects -> r.1 ∈ map fst rects }.

(** ** Layout keeps the set of displays *)

Section Keys.
Context {V : Type}.
Implicit Types m : list (Z * V).

Lemma assign_keys_same k v m : sorted m -> k ∈ keys m -> keys (assign k v m) = keys m.
Proof.
  unfold sorted. induction m as [|[k0 v0] m IH]; simpl; intros Hs Hin; [by apply elem_of_nil in Hin|].
  apply StronglySorted_inv in Hs as [Hs Hall].
  destruct (Z.ltb_spec k k0) as [Hlt|Hge].
  - exfalso. apply elem_of_cons in Hin as [->|Hin]; [lia|].
    rewrite Forall_forall in Hall. specialize (Hall k Hin). simpl in Hall. lia.
  - destruct (Z.eqb_spec k k0) as [->|Hne]; [done|]. simpl. f_equal. apply IH; [done|].
    by apply elem_of_cons in Hin as [->|?].
Qed.

Lemma keys_map_snd (f : Z -> V -> V) m : keys (map (fun kv => (fst kv, f (fst kv) (snd kv))) m) = keys m.
Proof. unfold keys. by rewrite map_map. Qed.
End Keys.

Section Layout.
Context (K : limits) (H : host) (HH : host_ok H).
Implicit Types m : list (Z * MultiDisplayInfo).

Lemma place_normal_keys r tw th m : keys (place_normal r tw th m) = keys m.
Proof.
  revert tw th. induction m as [|[k i] m IH]; intros tw th; [done|]. cbn [place_normal].
  destruct (rotated_size r i) as [w h]. destruct (pile_up r); simpl; by rewrite IH.
Qed.

Lemma place_reversed_keys r tw th m : keys (place_reversed r tw th m) = keys m.
Proof.
  revert tw th. induction m as [|[k i] m IH]; intros tw th; [done|]. cbn [place_reversed].
  destruct (rotated_size r i) as [w h]. destruct (pile_up r); simpl; by rewrite IH.
Qed.

Lemma performRotationLocked_keys r m : keys (performRotationLocked K H r m) = keys m.
Proof.
  unfold performRotationLocked. rewrite (host_flat H HH). destruct (normal_order r).
  - apply place_normal_keys.
  - destruct (totals r 0 0 m). apply place_reversed_keys.
Qed.

Lemma recomputeStackedLayoutLocked_keys m :
  sorted m -> keys (recomputeStackedLayoutLocked K H m) = keys m.
Proof.
  intros Hs. unfold recomputeStackedLayoutLocked.
  assert (Forall (fun r => r.1 ∈ keys m)
    (h_stacked H (map (fun kv => (kv.1, (width kv.2, height kv.2))) (List.filter active m)))) as HF.
  { apply Forall_forall. intros r Hr. apply (host_stacked H HH) in Hr.
    rewrite map_map in Hr. apply list_elem_of_In, in_map_iff in Hr as ([k i] & <- & Hin).
    apply filter_In in Hin as [Hin _]. simpl. apply list_elem_of_In, in_map_iff. by exists (k, i). }
  revert m Hs HF. generalize (h_stacked H) as f. intros f m.
  generalize (f (map (fun kv => (kv.1, (width kv.2, height kv.2))) (List.filter active m))) as l.
  intros l. revert m. induction l as [|r l IH]; intros m Hs HF; [done|].
  apply Forall_cons in HF as [Hr HF]. simpl.
  set (v := set_pos _ _ _).
  assert (keys (assign r.1 v m) = keys m) as Hk by (by apply assign_keys_same).
  rewrite IH; [done|by apply assign_sorted|by rewrite Hk].
Qed.

Lemma recomputeLayoutLocked_keys m : sorted m -> keys (recomputeLayoutLocked K H m) = keys m.
Proof.
  intros Hs. unfold recomputeLayoutLocked.
  pose proof (performRotationLocked_keys (current_rotation H) m) as Hk.
  destruct (h_automotive H); [|done].
  rewrite recomputeStackedLayoutLocked_keys; [done|]. unfold sorted in *. by rewrite Hk.
Qed.
End Layout.

(** ** The table under the operations *)

(** Sorted, with ids in the range the callers' signed arithmetic can handle. *)
Definition table_ok (st : t) : Prop :=
  sorted (mMultiDisplay st) /\ Forall (fun k => 0 <= k < 2 ^ 31 - 1) (keys (mMultiDisplay st)).

(** [st'] has the displays of [st], except possibly [id]. *)
Definition only_changes (id : Z) (st st' : t) : Prop :=
  forall k, k <> id -> k ∈ keys (mMultiDisplay st') <-> k ∈ keys (mMultiDisplay st).

Lemma only_changes_refl id st : only_changes id st st.
Proof. by intros k. Qed.
#[local] Hint Resolve only_changes_refl : core.

Lemma table_ok_keys st st' :
  keys (mMultiDisplay st') = keys (mMultiDisplay st) -> table_ok st -> table_ok st'.
Proof. unfold table_ok, sorted. by intros ->. Qed.

Section Operations.
Context (K : limits) (H : host) (HK : limits_ok K) (HH : host_ok H).

Lemma emplace_keys {V} k (v : V) m j : j ∈ keys (emplace k v m) <-> j = k \/ j ∈ keys m.
Proof.
  rewrite !elem_of_keys, find_emplace. destruct (find j m) eqn:E.
  - split; [by right|eauto].
  - destruct (Z.eqb_spec j k) as [->|Hne]; [split; [by left|eauto]|].
    split; [by intros [? ?]|]. by intros [?|[? ?]].
Qed.

Lemma erase_keys {V} k (m : list (Z * V)) j : j ∈ keys (erase k m) <-> j <> k /\ j ∈ keys m.
Proof.
  rewrite !elem_of_keys, find_erase. destruct (Z.eqb_spec j k) as [->|].
  - split; [by intros [? ?]|by intros [? _]].
  - naive_solver.
Qed.

Lemma createDisplay_table id r id' st st' o :
  table_ok st -> 0 <= id < 2 ^ 31 - 1 -> id <> s_invalidIdMultiDisplay K ->
  createDisplay K id st = (r, id', st', o) ->
  id' = id /\ table_ok st' /\ only_changes id st st' /\ mGuestMode st' = mGuestMode st /\
  (r = 0 -> id ∈ keys (mMultiDisplay st')) /\ (r <> 0 -> st' = st).
Proof.
  intros Hok Hid Hinv. unfold createDisplay.
  assert (forall e, e <> 0 ->
    id = id /\ table_ok st /\ only_changes id st st /\ mGuestMode st = mGuestMode st /\
    (e = 0 -> id ∈ keys (mMultiDisplay st)) /\ (e <> 0 -> st = st)) as Hfail by done.
  destruct (mGuestMode st) eqn:Eg; [intros [= <- <- <- <-]; rewrite ?Eg in *; by apply Hfail|].
  case_match; [intros [= <- <- <- <-]; rewrite ?Eg in *; by apply Hfail|].
  destruct (find id (mMultiDisplay st)) as [i|] eqn:Ef.
  { intros [= <- <- <- <-]. split; [done|]. split; [done|]. split; [done|]. split; [done|].
    split; [|done]. intros _. apply elem_of_keys. by rewrite Ef. }
  apply Z.eqb_neq in Hinv. cbv zeta. rewrite Hinv. cbv iota. rewrite Hinv.
  intros [= <- <- <- <-]. destruct Hok as [Hs Hk]. split; [done|].
  assert (forall j, j ∈ keys (emplace id (default_info K) (mMultiDisplay st)) <->
    j = id \/ j ∈ keys (mMultiDisplay st)) as He by (intros; apply emplace_keys).
  split; [split; simpl|].
  - by apply emplace_sorted.
  - apply Forall_forall. intros j [->|Hj]%He; [done|]. rewrite Forall_forall in Hk. by apply Hk.
  - split; [intros k Hne; simpl; rewrite He; naive_solver|].
    split; [done|]. split; [|done]. intros _. apply He. by left.
Qed.

Lemma destroyDisplay_table id r st st' o :
  table_ok st -> destroyDisplay K H id st = (r, st', o) ->
  table_ok st' /\ only_changes id st st' /\ (r = 0 -> id ∉ keys (mMultiDisplay st')).
Proof.
  intros Hok. unfold destroyDisplay.
  destruct (mGuestMode st); [intros [= <- <- <-]; split; [done|]; split; [done|]; unfold ENOSYS; lia|].
  destruct (find id (mMultiDisplay st)) as [i|] eqn:Ef.
  2: { intros [= <- <- <-]. split; [done|]. split; [done|]. intros _. by apply find_None. }
  set (m := if _ : bool then recomputeLayoutLocked K H _ else _).
  destruct (getCombinedDisplaySizeLocked K H m) as [w h]. intros [= <- <- <-].
  destruct Hok as [Hs Hk]. pose proof (erase_sorted id _ Hs) as Hse.
  assert (keys m = keys (erase id (mMultiDisplay st))) as Hm.
  { unfold m. case_match; [|done]. by apply recomputeLayoutLocked_keys. }
  assert (forall j, j ∈ keys m <-> j <> id /\ j ∈ keys (mMultiDisplay st)) as He.
  { intros j. rewrite Hm. apply erase_keys. }
  split; [split; simpl|].
  - unfold sorted in *. by rewrite Hm.
  - apply Forall_forall. intros j [_ Hj]%He. rewrite Forall_forall in Hk. by apply Hk.
  - split; [intros k Hne; simpl; rewrite He; naive_solver|]. intros _. simpl. rewrite He. naive_solver.
Qed.

Lemma setDisplayPose_table id x y w h dp fl r st st' o :
  table_ok st -> setDisplayPose K H id x y w h dp fl st = (r, st', o) ->
  keys (mMultiDisplay st') = keys (mMultiDisplay st).
Proof.
  intros [Hs Hk]. unfold setDisplayPose.
  destruct (mGuestMode st); [by intros [= <- <- <-]|].
  destruct (find id (mMultiDisplay st)) as [i|] eqn:Ef; [|by intros [= <- <- <-]].
  set (m1 := assign id _ _). set (m := if _ : bool then recomputeLayoutLocked K H m1 else m1).
  destruct (getCombinedDisplaySizeLocked K H m) as [cw ch]. intros [= <- <- <-]. simpl.
  assert (keys m1 = keys (mMultiDisplay st)) as H1.
  { apply assign_keys_same; [done|]. apply elem_of_keys. by rewrite Ef. }
  unfold m. case_match; [|done]. rewrite recomputeLayoutLocked_keys; [done|done|].
  by apply assign_sorted.
Qed.

Lemma setMultiDisplay_table id x y w h dp fl add r st st' o :
  table_ok st -> 0 <= id -> setMultiDisplay K H id x y w h dp fl add st = (r, st', o) ->
  table_ok st' /\ only_changes id st st'.
Proof.
  intros Hok Hid. unfold setMultiDisplay.
  destruct (negb (h_feature H)); [by intros [= <- <- <-]|].
  destruct (h_folded_area H); [by intros [= <- <- <-]|].
  destruct (h_resizable H); [by intros [= <- <- <-]|].
  destruct (match h_avd H with Some a => avd_tv_or_wear a | None => false end);
    [by intros [= <- <- <-]|].
  destruct (mGuestMode st); [by intros [= <- <- <-]|].
  destruct (if add then multiDisplayParamValidate K id w h dp else (true, [])) as [valid ov] eqn:Ev.
  destruct valid; simpl negb; cbv iota; [|by intros [= <- <- <-]]. cbv zeta.
  destruct (negb (bool_decide _)); [by intros [= <- <- <-]|].
  destruct (hotPlugDisplayEnabled H); [by intros [= <- <- <-]|].
  set (fl' := if fl =? 0 then _ else _).
  assert (forall ret id' st1 o1,
    (if add then
       let '(ret, id, st, o) := createDisplay K id st in
       if negb (ret =? 0) then (ret, id, st, o) else
       let '(ret, st, o') := setDisplayPose K H id x y w h dp fl' st in (ret, id, st, o ++ o')
     else let '(ret, st, o) := destroyDisplay K H id st in (ret, id, st, o)) = (ret, id', st1, o1) ->
    table_ok st1 /\ only_changes id st st1) as Hbody.
  { intros ret id' st1 o1. destruct add.
    - destruct (createDisplay K id st) as [[[r1 id1] s1] o2] eqn:E1.
      unfold multiDisplayParamValidate in Ev.
      assert (id <= s_maxNumMultiDisplay K) as Hmax.
      { unfold param_error in Ev. repeat (case_match; [done|]).
        destruct (s_maxNumMultiDisplay K <? id) eqn:E; [done|]. by apply Z.ltb_ge in E. }
      pose proof (lim_max K HK). pose proof (lim_invalid K HK).
      apply createDisplay_table in E1 as (-> & Hok1 & Hoc & _); [|done|lia|lia].
      destruct (negb (r1 =? 0)); [by intros [= <- <- <- <-]|].
      destruct (setDisplayPose _ _ _ _ _ _ _ _ _ _) as [[r2 s2] o3] eqn:E2.
      intros [= <- <- <- <-]. apply setDisplayPose_table in E2; [|done].
      split; [by apply (table_ok_keys s1)|]. intros k Hk. rewrite E2. by apply Hoc.
    - destruct (destroyDisplay K H id st) as [[r1 s1] o2] eqn:E1. intros [= <- <- <- <-].
      apply destroyDisplay_table in E1 as (? & ? & _); done. }
  match goal with
  | |- (match ?b with _ => _ end) = _ -> _ => destruct b as [[[ret id'] st1] o1] eqn:Eb
  end.
  destruct (Hbody _ _ _ _ eq_refl). repeat case_match; by intros [= <- <- <-].
Qed.
End Operations.

(** ** The interface of the control receiver *)

Definition display_entry (i : MultiDisplayInfo) : DisplayEntry := {|
  de_x := pos_x i; de_y := pos_y i; de_width := originalWidth i; de_height := originalHeight i;
  de_dpi := dpi i; de_flags := flag i; de_cb := cb i; de_enabled := enabled i |}.

Definition on_entry (kv : Z * MultiDisplayInfo) : Z * DisplayEntry := (kv.1, display_entry kv.2).

Lemma keys_on_entry m : keys (map on_entry m) = keys m.
Proof. unfold keys. by rewrite map_map. Qed.

Lemma find_on_entry k m : find k (map on_entry m) = display_entry <$> find k m.
Proof. induction m as [|[k0 i] m IH]; [done|]. simpl. by destruct (k =? k0). Qed.

Lemma lower_bound_on_entry k m : lower_bound k (map on_entry m) = on_entry <$> lower_bound k m.
Proof. induction m as [|[k0 i] m IH]; [done|]. simpl. by destruct (k <=? k0). Qed.

#[export, refine] Instance multi_display_agent (K : limits) (H : host)
    (HK : limits_ok K) (HH : host_ok H) : MultiDisplayAgent t := {|
  agent_ok := table_ok;
  agent_displays st := map on_entry (mMultiDisplay st);
  agent_getMultiDisplay st id :=
    match getMultiDisplay id st with
    | (b, Some i) => (b, enabled i)
    | (b, None) => (b, false)
    end;
  agent_getNextMultiDisplay st start := on_entry <$> getNextMultiDisplay start st;
  agent_setMultiDisplay st id x y w h dp fl add :=
    let '(r, st', _) := setMultiDisplay K H id x y w h dp fl add st in (r, st');
|}.
Proof.
  - intros st [Hs _]. unfold sorted. by rewrite keys_on_entry.
  - intros st [_ Hk]. by rewrite keys_on_entry.
  - intros st id _. rewrite find_on_entry. unfold getMultiDisplay.
    by destruct (find id (mMultiDisplay st)).
  - intros st start _ Hs. rewrite lower_bound_on_entry. unfold getNextMultiDisplay.
    destruct (Z.ltb_spec start 0); [done|]. rewrite u32_id; [done|]. split; lia.
  - intros st id x y w h dp fl add Hok [Hid _].
    destruct (setMultiDisplay _ _ _ _ _ _ _ _ _ _ _) as [[r st'] o] eqn:E.
    by apply setMultiDisplay_table in E as [? _].
  - intros st id x y w h dp fl add k Hok [Hid _] _ Hne.
    destruct (setMultiDisplay _ _ _ _ _ _ _ _ _ _ _) as [[r st'] o] eqn:E.
    apply setMultiDisplay_table in E as [_ Hoc]; [|done..].
    simpl. rewrite !find_on_entry, !fmap_is_Some, <- !elem_of_keys. by apply Hoc.
Defined.

(** ** Layouts do not overlap *)

(** Two displays share no pixel of the window. *)
Definition apart (i j : MultiDisplayInfo) : Prop :=
  pos_x i + width i <= pos_x j \/ pos_x j + width j <= pos_x i \/
  pos_y i + height i <= pos_y j \/ pos_y j + height j <= pos_y i.

(** The sum of all widths and heights: the bound on every coordinate. *)
Definition extent (m : list (Z * MultiDisplayInfo)) : Z :=
  foldr (fun kv a => originalWidth kv.2 + originalHeight kv.2 + a) 0 m.

Definition sizes_ok (m : list (Z * MultiDisplayInfo)) : Prop :=
  Forall (fun kv => 0 <= originalWidth kv.2 /\ 0 <= originalHeight kv.2) m.

Lemma extent_nonneg m : sizes_ok m -> 0 <= extent m.
Proof. induction 1 as [|kv m Hkv _ IH]; simpl; lia. Qed.

(** A display placed by a layout of rotation [r] whose coordinates stay below [b]. *)
Definition placed (r : SkinRotation) (b : Z) (i i' : MultiDisplayInfo) : Prop :=
  (width i', height i') = rotated_size r i /\ rotation i' = rotation_code r /\ cb i' = cb i /\
  originalWidth i' = originalWidth i /\ originalHeight i' = originalHeight i /\
  0 <= pos_x i' /\ pos_x i' + width i' <= b /\ 0 <= pos_y i' /\ pos_y i' + height i' <= b.

Lemma rotated_size_sum r i :
  (rotated_size r i).1 + (rotated_size r i).2 = originalWidth i + originalHeight i.
Proof. unfold rotated_size. destruct (pile_up r); simpl; lia. Qed.

Lemma rotated_size_nonneg r i :
  0 <= originalWidth i -> 0 <= originalHeight i ->
  0 <= (rotated_size r i).1 /\ 0 <= (rotated_size r i).2.
Proof. unfold rotated_size. by destruct (pile_up r). Qed.

Lemma place_placed r i x y b :
  0 <= x -> 0 <= y -> b < 2 ^ 31 -> 0 <= (rotated_size r i).1 -> 0 <= (rotated_size r i).2 ->
  x + (rotated_size r i).1 <= b -> y + (rotated_size r i).2 <= b ->
  placed r b i (place r i x y) /\ pos_x (place r i x y) = x /\ pos_y (place r i x y) = y.
Proof.
  intros. unfold placed, place. destruct (rotated_size r i) as [w h] eqn:E. simpl in *.
  rewrite !s32_id by (split; lia). repeat split; lia.
Qed.

(** What a layout of [m] is: every display placed within [b], no two overlapping. *)
Definition layout (r : SkinRotation) (b : Z) (m m' : list (Z * MultiDisplayInfo)) : Prop :=
  Forall2 (fun kv kv' => kv'.1 = kv.1 /\ placed r b kv.2 kv'.2) m m' /\
  ForallOrdPairs (fun kv kv' => apart kv.2 kv'.2) m'.

Lemma place_normal_row r b m tw th :
  pile_up r = false -> sizes_ok m -> 0 <= tw -> tw + extent m <= b -> b < 2 ^ 31 ->
  layout r b m (place_normal r tw th m) /\
  Forall (fun kv => tw <= pos_x kv.2) (place_normal r tw th m).
Proof.
  intros Hp Hs. revert tw. induction Hs as [|[k i] m Hkv Hs IH]; intros tw Htw Hb Hlt.
  { repeat constructor. }
  pose proof (extent_nonneg m Hs).
  cbn [place_normal]. cbn [extent foldr snd] in Hb. fold (extent m) in Hb. simpl in Hkv.
  pose proof (rotated_size_sum r i) as Hsum.
  pose proof (rotated_size_nonneg r i (proj1 Hkv) (proj2 Hkv)) as Hnn.
  destruct (rotated_size r i) as [w h] eqn:E. simpl in Hsum, Hnn. rewrite Hp.
  rewrite (u32_id (tw + w)) by (split; lia).
  destruct (IH (tw + w)) as [[H2 Hop] Hge]; [lia|lia|done|].
  destruct (place_placed r i tw 0 b) as (Hpl & Hx & Hy); rewrite ?E; simpl; try lia.
  assert (width (place r i tw 0) = w) as Hw by (destruct Hpl as [Hw _]; rewrite E in Hw; by injection Hw).
  split; [split|].
  - constructor; [done|exact H2].
  - constructor; [|exact Hop]. eapply Forall_impl; [exact Hge|]. simpl. intros kv Hkv'. left. lia.
  - constructor; [simpl; lia|]. eapply Forall_impl; [exact Hge|]. simpl. lia.
Qed.

Lemma max_width_ge r tw m : tw <= max_width r tw m.
Proof.
  revert tw. induction m as [|[k i] m IH]; intros tw; simpl; [lia|].
  destruct (pile_up r); [|apply IH]. etrans; [|apply IH]. lia.
Qed.

Lemma max_width_each r tw m : pile_up r = true ->
  Forall (fun kv => (rotated_size r kv.2).1 <= max_width r tw m) m.
Proof.
  intros Hp. revert tw. induction m as [|[k i] m IH]; intros tw; constructor; simpl; rewrite Hp.
  - etrans; [|apply max_width_ge]. simpl. lia.
  - apply IH.
Qed.

Lemma max_width_extent r tw m : 0 <= tw -> sizes_ok m -> max_width r tw m <= tw + extent m.
Proof.
  intros Htw Hs. revert tw Htw. induction Hs as [|[k i] m Hkv Hs IH]; intros tw Htw; simpl; [lia|].
  simpl in Hkv. pose proof (extent_nonneg m Hs). pose proof (rotated_size_sum r i).
  pose proof (rotated_size_nonneg r i (proj1 Hkv) (proj2 Hkv)).
  fold (extent m). destruct (pile_up r).
  - etrans; [apply IH; lia|]. lia.
  - etrans; [apply IH; lia|]. lia.
Qed.

Lemma place_normal_pile r b m tw th :
  pile_up r = true -> sizes_ok m -> Forall (fun kv => (rotated_size r kv.2).1 <= tw) m ->
  tw <= b -> 0 <= th -> th + extent m <= b -> b < 2 ^ 31 ->
  layout r b m (place_normal r tw th m) /\
  Forall (fun kv => th <= pos_y kv.2) (place_normal r tw th m).
Proof.
  intros Hp Hs Hw Htw. revert th.
  induction Hs as [|[k i] m Hkv Hs IH]; intros th Hth Hb Hlt.
  { repeat constructor. }
  apply Forall_cons in Hw as [Hwi Hw]. pose proof (extent_nonneg m Hs).
  cbn [place_normal]. cbn [extent foldr snd] in Hb. fold (extent m) in Hb. simpl in Hkv, Hwi.
  pose proof (rotated_size_sum r i) as Hsum.
  pose proof (rotated_size_nonneg r i (proj1 Hkv) (proj2 Hkv)) as Hnn.
  destruct (rotated_size r i) as [w h] eqn:E. simpl in Hsum, Hnn, Hwi. rewrite Hp.
  rewrite (u32_id (th + h)), (u32_id (tw - w)) by (split; lia).
  destruct (IH Hw (th + h)) as [[H2 Hop] Hge]; [lia|lia|done|].
  destruct (place_placed r i (tw - w) th b) as (Hpl & Hx & Hy); rewrite ?E; simpl; try lia.
  assert (height (place r i (tw - w) th) = h) as Hh
    by (destruct Hpl as [Hh _]; rewrite E in Hh; by injection Hh).
  split; [split|].
  - constructor; [done|exact H2].
  - constructor; [|exact Hop]. eapply Forall_impl; [exact Hge|]. simpl. intros kv Hkv'.
    right. right. left. lia.
  - constructor; [simpl; lia|]. eapply Forall_impl; [exact Hge|]. simpl. lia.
Qed.

Definition sum_width (r : SkinRotation) (m : list (Z * MultiDisplayInfo)) : Z :=
  foldr (fun kv a => (rotated_size r kv.2).1 + a) 0 m.
Definition sum_height (r : SkinRotation) (m : list (Z * MultiDisplayInfo)) : Z :=
  foldr (fun kv a => (rotated_size r kv.2).2 + a) 0 m.

Lemma sums_extent r m : sizes_ok m ->
  0 <= sum_width r m /\ 0 <= sum_height r m /\ sum_width r m + sum_height r m = extent m.
Proof.
  induction 1 as [|kv m Hkv _ IH]; simpl; [lia|].
  pose proof (rotated_size_sum r kv.2).
  pose proof (rotated_size_nonneg r kv.2 (proj1 Hkv) (proj2 Hkv)). lia.
Qed.

Lemma totals_pile r m tw th :
  pile_up r = true -> sizes_ok m -> 0 <= th -> th + extent m < 2 ^ 31 ->
  totals r tw th m = (tw, th + sum_height r m).
Proof.
  intros Hp Hs. revert th. induction Hs as [|[k i] m Hkv Hs IH]; intros th Hth Hlt; simpl.
  { by rewrite Z.add_0_r. }
  simpl in *. pose proof (extent_nonneg m Hs). fold (extent m) in Hlt.
  pose proof (rotated_size_sum r i). pose proof (rotated_size_nonneg r i (proj1 Hkv) (proj2 Hkv)).
  destruct (rotated_size r i) as [w h]. simpl in *. rewrite Hp.
  rewrite u32_id by (split; lia). rewrite IH by lia. f_equal. fold (sum_height r m). lia.
Qed.

Lemma totals_row r m tw th :
  pile_up r = false -> sizes_ok m -> 0 <= tw -> 0 <= th -> tw + extent m < 2 ^ 31 ->
  exists th', totals r tw th m = (tw + sum_width r m, th') /\ th <= th' <= th + extent m /\
    Forall (fun kv => (rotated_size r kv.2).2 <= th') m.
Proof.
  intros Hp Hs. revert tw th. induction Hs as [|[k i] m Hkv Hs IH]; intros tw th Htw Hth Hlt; simpl.
  { exists th. rewrite Z.add_0_r. split; [done|]. split; [lia|constructor]. }
  simpl in *. pose proof (extent_nonneg m Hs). fold (extent m) in Hlt |- *.
  pose proof (rotated_size_sum r i). pose proof (rotated_size_nonneg r i (proj1 Hkv) (proj2 Hkv)).
  destruct (rotated_size r i) as [w h] eqn:E. simpl in *. rewrite Hp.
  rewrite u32_id by (split; lia).
  destruct (IH (tw + w) (Z.max h th)) as (th' & -> & Hth' & HF); [lia..|].
  exists th'. fold (sum_width r m). split; [f_equal; lia|]. split; [lia|].
  constructor; [simpl; rewrite E; simpl; lia|done].
Qed.

Lemma place_reversed_row r b m tw th :
  pile_up r = false -> sizes_ok m -> Forall (fun kv => (rotated_size r kv.2).2 <= th) m ->
  th <= b -> sum_width r m <= tw -> tw <= b -> b < 2 ^ 31 ->
  layout r b m (place_reversed r tw th m) /\
  Forall (fun kv => pos_x kv.2 + width kv.2 <= tw) (place_reversed r tw th m).
Proof.
  intros Hp Hs Hh Hth. revert tw.
  induction Hs as [|[k i] m Hkv Hs IH]; intros tw Htw Hb Hlt.
  { repeat constructor. }
  apply Forall_cons in Hh as [Hhi Hh]. pose proof (sums_extent r m Hs).
  cbn [place_reversed]. cbn [sum_width foldr snd] in Htw. fold (sum_width r m) in Htw.
  simpl in Hkv, Hhi. pose proof (rotated_size_nonneg r i (proj1 Hkv) (proj2 Hkv)) as Hnn.
  destruct (rotated_size r i) as [w h] eqn:E. simpl in Hnn, Hhi, Htw. rewrite Hp.
  rewrite (u32_id (tw - w)), (u32_id (th - h)) by (split; lia).
  destruct (IH Hh (tw - w)) as [[H2 Hop] Hge]; [lia|lia|done|].
  destruct (place_placed r i (tw - w) (th - h) b) as (Hpl & Hx & Hy); rewrite ?E; simpl; try lia.
  assert (width (place r i (tw - w) (th - h)) = w) as Hw
    by (destruct Hpl as [Hw _]; rewrite E in Hw; by injection Hw).
  split; [split|].
  - constructor; [done|exact H2].
  - constructor; [|exact Hop]. eapply Forall_impl; [exact Hge|]. simpl. intros kv Hkv'.
    right. left. lia.
  - constructor; [simpl; lia|]. eapply Forall_impl; [exact Hge|]. simpl. lia.
Qed.

Lemma place_reversed_pile r b m tw th :
  pile_up r = true -> sizes_ok m -> extent m <= b -> sum_height r m <= th -> th <= b -> b < 2 ^ 31 ->
  layout r b m (place_reversed r tw th m) /\
  Forall (fun kv => pos_y kv.2 + height kv.2 <= th) (place_reversed r tw th m).
Proof.
  intros Hp Hs. revert th.
  induction Hs as [|[k i] m Hkv Hs IH]; intros th Hext Hth Hb Hlt.
  { repeat constructor. }
  pose proof (sums_extent r m Hs).
  cbn [place_reversed]. cbn [sum_height foldr snd] in Hth. fold (sum_height r m) in Hth.
  cbn [extent foldr snd] in Hext. fold (extent m) in Hext.
  simpl in Hkv. pose proof (rotated_size_nonneg r i (proj1 Hkv) (proj2 Hkv)) as Hnn.
  pose proof (rotated_size_sum r i) as Hsum.
  destruct (rotated_size r i) as [w h] eqn:E. simpl in Hnn, Hth, Hsum. rewrite Hp.
  rewrite (u32_id (th - h)) by (split; lia).
  destruct (IH (th - h)) as [[H2 Hop] Hge]; [lia|lia|lia|done|].
  destruct (place_placed r i 0 (th - h) b) as (Hpl & Hx & Hy); rewrite ?E; simpl; try lia.
  assert (height (place r i 0 (th - h)) = h) as Hh
    by (destruct Hpl as [Hh _]; rewrite E in Hh; by injection Hh).
  split; [split|].
  - constructor; [done|exact H2].
  - constructor; [|exact Hop]. eapply Forall_impl; [exact Hge|]. simpl. intros kv Hkv'.
    right. right. right. lia.
  - constructor; [simpl; lia|]. eapply Forall_impl; [exact Hge|]. simpl. lia.
Qed.

(** The layout of every device but the Pixel Fold. *)
Lemma rotation_layout K H r m :
  h_pixel_fold H = false -> sizes_ok m -> extent m < 2 ^ 31 ->
  layout r (extent m) m (performRotationLocked K H r m).
Proof.
  intros Hfold Hs Hlt. unfold performRotationLocked. rewrite Hfold.
  pose proof (extent_nonneg m Hs) as Hnn. pose proof (sums_extent r m Hs).
  destruct (normal_order r), (pile_up r) eqn:Hp.
  - pose proof (max_width_extent r 0 m ltac:(lia) Hs).
    apply place_normal_pile; try done; try lia. by apply max_width_each.
  - assert (max_width r 0 m = 0) as ->.
    { clear -Hp. generalize 0 as tw. induction m as [|[k i] m IH]; intros tw; simpl; [done|].
      rewrite Hp. apply IH. }
    apply place_normal_row; done || lia.
  - rewrite totals_pile by (done || lia). apply place_reversed_pile; done || lia.
  - destruct (totals_row r m 0 0) as (th' & -> & Hth & HF); [done || lia..|].
    apply place_reversed_row; done || lia.
Qed.

(** A Pixel Fold stacks its two panels: the primary display, and the second one
    when the table has it, are at the origin, in the new rotation and with the
    size they had, and every other entry of the table is what it was. *)
Definition stacked_at_origin (K : limits) (H : host) (r : SkinRotation)
    (m m' : list (Z * MultiDisplayInfo)) : Prop :=
  forall id,
    if (id =? 0) || ((id =? h_second_display H) && bool_decide (id ∈ keys m)) then
      exists i', find id m' = Some i' /\ pos_x i' = 0 /\ pos_y i' = 0 /\
        rotation i' = rotation_code r /\ width i' = width (entry K id m) /\
        height i' = height (entry K id m) /\ originalWidth i' = originalWidth (entry K id m) /\
        originalHeight i' = originalHeight (entry K id m) /\ cb i' = cb (entry K id m)
    else find id m' = find id m.

Lemma rotation_fold K H r m :
  h_pixel_fold H = true -> stacked_at_origin K H r m (performRotationLocked K H r m).
Proof.
  intros Hf id. set (at0 := fun i => set_rotation (set_pos i 0 0) (rotation_code r)).
  enough (find id (performRotationLocked K H r m) =
    if (id =? 0) || ((id =? h_second_display H) && bool_decide (id ∈ keys m))
    then Some (at0 (entry K id m)) else find id m) as E.
  { rewrite E. destruct (_ || _); [|done]. eexists. split; [done|]. by repeat split. }
  unfold performRotationLocked. rewrite Hf. cbv zeta. fold (at0 (entry K 0 m)).
  set (s := h_second_display H). fold (at0 (entry K s (assign 0 (at0 (entry K 0 m)) m))).
  destruct (find s m) eqn:Es.
  - rewrite !find_assign. unfold entry at 1. rewrite find_assign.
    destruct (Z.eqb_spec id s) as [->|Hs]; simpl.
    + destruct (Z.eqb_spec s 0) as [->|H0]; simpl; [by unfold at0|].
      rewrite bool_decide_true; [done|]. rewrite elem_of_keys. by exists m0.
    + destruct (Z.eqb_spec id 0) as [->|H0]; done.
  - rewrite find_assign. destruct (Z.eqb_spec id 0) as [->|H0]; [done|]. simpl.
    destruct (Z.eqb_spec id s) as [->|Hs]; [|done]. simpl.
    rewrite bool_decide_false; [done|]. by rewrite <- find_None.
Qed.

(** C6: the window layout. As long as the sizes of all displays add up to less
    than 2^31, [performRotationLocked] does the following for each of the four
    rotations. On every device but a Pixel Fold ([h_pixel_fold] false) it keeps
    the displays, gives each its original size (swapped when the window is on its
    side) and the new rotation, places it at non-negative coordinates without
    wrap-around, and no two displays share a pixel. On a Pixel Fold it puts the
    primary display and the second panel, one over the other, at the origin with
    the size they had, and leaves every other entry alone. *)
Theorem performRotation_layout K H r m :
  sizes_ok m -> extent m < 2 ^ 31 ->
  if h_pixel_fold H then stacked_at_origin K H r m (performRotationLocked K H r m)
  else layout r (extent m) m (performRotationLocked K H r m).
Proof.
  intros Hs Hlt. destruct (h_pixel_fold H) eqn:Hf; [by apply rotation_fold|by apply rotation_layout].
Qed.

(** ** Translating window coordinates *)

Definition within (b : Z) (kv : Z * MultiDisplayInfo) : Prop :=
  0 <= pos_x kv.2 /\ pos_x kv.2 + width kv.2 <= b /\ 0 <= pos_y kv.2 /\
  pos_y kv.2 + height kv.2 <= b /\ 0 <= width kv.2 /\ 0 <= height kv.2.

(** The window is at least as high as every active display, and no higher than
    the bound on the coordinates. *)
Lemma combined_height H m b :
  h_pixel_fold H = false -> 0 <= b < 2 ^ 31 -> Forall (within b) m -> forall K,
  (getCombinedDisplaySizeLocked K H m).2 <= b /\
  Forall (fun kv => active kv = true ->
    pos_y kv.2 + height kv.2 <= (getCombinedDisplaySizeLocked K H m).2) m.
Proof.
  intros Hf Hb HF K. unfold getCombinedDisplaySizeLocked. rewrite Hf.
  set (step := fun (wh : Z * Z) (kv : Z * MultiDisplayInfo) => if active kv then _ else wh).
  assert (forall wh, wh.2 <= b -> wh.2 <= (foldl step wh m).2 <= b /\
    Forall (fun kv => active kv = true -> pos_y kv.2 + height kv.2 <= (foldl step wh m).2) m) as Hall;
    [|destruct (Hall (0, 0)) as [[_ ?] ?]; [simpl; lia|done]].
  induction HF as [|kv m Hkv _ IH]; intros wh Hwh; [split; [simpl; lia|constructor]|].
  simpl. unfold within in Hkv.
  assert ((step wh kv).2 <= b /\ wh.2 <= (step wh kv).2 /\
    (active kv = true -> pos_y kv.2 + height kv.2 <= (step wh kv).2)) as (H1 & H2 & H3).
  { unfold step. destruct (active kv); [|done]. simpl. rewrite u32_id by (split; lia). lia. }
  destruct (IH (step wh kv) H1) as [H4 H5]. split; [lia|]. constructor; [intros Ha; specialize (H3 Ha); lia|done].
Qed.

Lemma translate_0_hit totalH x y lx ly id i l1 l2 b :
  b < 2 ^ 31 -> 0 <= totalH <= b -> Forall (within b) (l1 ++ (id, i) :: l2) ->
  Forall (fun kv => active kv = true -> pos_y kv.2 + height kv.2 <= totalH) (l1 ++ (id, i) :: l2) ->
  Forall (fun kv => apart kv.2 i) l1 -> active (id, i) = true ->
  0 <= lx < width i -> 0 <= ly < height i ->
  x = pos_x i + lx -> y = totalH - height i - pos_y i + ly ->
  translate_0 totalH x y (l1 ++ (id, i) :: l2) = Some (lx, ly, id).
Proof.
  intros Hb HT HF HH Hap Hact Hlx Hly Ex Ey.
  apply Forall_app in HF as [HF1 HF2]. apply Forall_app in HH as [HH1 HH2].
  apply Forall_cons in HF2 as [(Hx0 & Hxb & Hy0 & Hyb & _) _].
  apply Forall_cons in HH2 as [Hh _]. specialize (Hh Hact). cbn [snd] in *.
  assert (forall k v, (negb (k =? 0) && (cb v =? 0)) = negb (active (k, v))) as Hskip.
  { intros k v. unfold active. simpl. by destruct (k =? 0), (cb v =? 0). }
  induction l1 as [|[j q] l1 IH]; cbn [app translate_0].
  - rewrite (Hskip id i), Hact. simpl.
    rewrite (u32_id (pos_x i)), (u32_id (totalH - height i - pos_y i)) by (split; lia).
    rewrite (u32_id (x - pos_x i)), (u32_id (y - _)) by (split; lia).
    rewrite (proj2 (Z.ltb_lt _ _)), (proj2 (Z.ltb_lt _ _)) by lia. simpl.
    do 3 f_equal; lia.
  - apply Forall_cons in HF1 as [(Qx0 & Qxb & Qy0 & Qyb & Qw & Qh) HF1].
    apply Forall_cons in HH1 as [Hq HH1]. apply Forall_cons in Hap as [Hapq Hap].
    specialize (IH HF1 HH1 Hap). rewrite (Hskip j q).
    destruct (active (j, q)) eqn:Ea; simpl; [|done]. specialize (Hq eq_refl). cbn [snd] in *.
    destruct (_ && _) eqn:Ehit; [|done]. exfalso. bool_to_prop.
    rewrite (u32_id (pos_x q)), (u32_id (totalH - height q - pos_y q)) in * by (split; lia).
    assert (forall a w, - 2 ^ 31 < a < 2 ^ 31 -> w < 2 ^ 31 -> u32 a < w -> 0 <= a < w) as Hu.
    { intros a w Ha Hw Hlt. destruct (Z.le_gt_cases 0 a).
      - rewrite u32_id in Hlt by (split; lia). lia.
      - unfold u32 in Hlt. rewrite <- (Z_mod_plus_full a 1) in Hlt.
        rewrite Z.mod_small in Hlt by lia. lia. }
    match goal with Hl1 : u32 (x - _) < _, Hl2 : u32 (y - _) < _ |- _ =>
      apply Hu in Hl1, Hl2; [|lia..] end.
    unfold apart in Hapq. lia.
Qed.

(** a click lands on the display it hits. In the unrotated window
    laid out by [performRotationLocked], take any active display and any point of
    it: the window point where it is drawn (the window's origin is its top left
    corner, the layout's its bottom left) is translated back to exactly this
    display and this point, whatever other displays there are. *)
Theorem translate_hits_display K H m st id i lx ly :
  h_pixel_fold H = false -> current_rotation H = SKIN_ROTATION_0 -> mGuestMode st = false ->
  sizes_ok m -> extent m < 2 ^ 31 ->
  mMultiDisplay st = performRotationLocked K H SKIN_ROTATION_0 m ->
  (id, i) ∈ mMultiDisplay st -> active (id, i) = true ->
  0 <= lx < width i -> 0 <= ly < height i ->
  let totalH := (getCombinedDisplaySize K H st).2 in
  translateCoordination K H (pos_x i + lx) (totalH - height i - pos_y i + ly) st = Some (lx, ly, id).
Proof.
  intros Hf Hrot Hg Hs Hlt Hm Hin Hact Hlx Hly totalH.
  pose proof (rotation_layout K H SKIN_ROTATION_0 m Hf Hs Hlt) as [H2 Hop].
  rewrite <- Hm in *. pose proof (extent_nonneg m Hs).
  assert (Forall (within (extent m)) (mMultiDisplay st)) as Hwithin.
  { clear -H2 Hs. revert H2. generalize (extent m) as b. intros b H2.
    induction H2 as [|kv kv' m m' [_ Hp] _ IH]; [constructor|].
    apply Forall_cons in Hs as [Hkv Hs]. constructor; [|by apply IH].
    destruct Hp as (Hsz & _ & _ & _ & _ & ? & ? & ? & ?).
    pose proof (rotated_size_nonneg SKIN_ROTATION_0 kv.2 (proj1 Hkv) (proj2 Hkv)) as Hnn.
    rewrite <- Hsz in Hnn. simpl in Hnn. unfold within. lia. }
  pose proof (combined_height H (mMultiDisplay st) (extent m) Hf ltac:(lia) Hwithin K) as [Hle HH].
  unfold translateCoordination, totalH, getCombinedDisplaySize. rewrite Hg, Hf, Hrot.
  destruct (getCombinedDisplaySizeLocked K H (mMultiDisplay st)) as [tw th]. simpl in Hle, HH |- *.
  apply list_elem_of_split in Hin as (l1 & l2 & E). rewrite E in *.
  apply (translate_0_hit th _ _ lx ly id i l1 l2 (extent m)); try done.
  - split; [|done]. apply Forall_app in HH as [_ HH]. apply Forall_cons in HH as [Hh _].
    apply Forall_app in Hwithin as [_ Hw]. apply Forall_cons in Hw as [Hw _].
    specialize (Hh Hact). unfold within in Hw. simpl in *. lia.
  - clear -Hop. induction l1 as [|kv l1 IH]; [constructor|]. inversion Hop as [|? ? HF Hop']; subst.
    constructor; [|by apply IH]. apply Forall_app in HF as [_ HF]. by apply Forall_cons in HF as [? _].
Qed.

(** ** [setMultiDisplay] on every branch *)

(** What a call leaves behind, given its result. *)
Definition set_post (H : host) (id w h dp : Z) (add : bool) (st : t) (res : Z * t * list effect)
    : Prop :=
  let '(r, st', o) := res in
  r <= 0 /\
  (r = 0 -> hotPlugDisplayEnabled H = false ->
     (id ∈ keys (mMultiDisplay st') <-> add = true) /\
     exists fl, last o = Some (PipeSend id w h dp fl add)) /\
  (r <> 0 -> r <> - EPIPE -> st' = st) /\
  (r = - EPIPE -> h_pipe H = false /\ (id ∈ keys (mMultiDisplay st') <-> add = true)).

Lemma set_post_error H id w h dp add st e o :
  e < 0 -> e <> - EPIPE -> set_post H id w h dp add st (e, st, o).
Proof. intros He Hne. split; [lia|]. split; [lia|]. by split. Qed.

(** The end of the call: the guest is told through its pipe, or EPIPE. *)
Lemma set_post_done H id w h dp fl add st st1 o (o1 : list effect) :
  (id ∈ keys (mMultiDisplay st1) <-> add = true) ->
  set_post H id w h dp add st
    (if h_pipe H then (0, st1, o ++ [PipeSend id w h dp fl add]) else (- EPIPE, st1, o1)).
Proof.
  intros Hin. destruct (h_pipe H) eqn:Ep; unfold set_post; rewrite ?Ep.
  - split; [done|]. split; [|split; [done|intros Hr; vm_compute in Hr; discriminate]].
    intros _ _. split; [done|]. rewrite last_snoc. by exists fl.
  - split; [vm_compute; discriminate|]. split; [intros Hr; vm_compute in Hr; discriminate|]. by split.
Qed.

(** Not in guest mode, adding and placing a display cannot half-fail. *)
Lemma add_display_cases K H id x y w h dp fl st :
  limits_ok K -> host_ok H -> table_ok st -> 0 <= id <= s_maxNumMultiDisplay K ->
  mGuestMode st = false ->
  (exists e, e < 0 /\ e <> - EPIPE /\ createDisplay K id st = (e, id, st, [])) \/
  (exists st1 o1 st2 o2, createDisplay K id st = (0, id, st1, o1) /\
     setDisplayPose K H id x y w h dp fl st1 = (0, st2, o2) /\ id ∈ keys (mMultiDisplay st2)).
Proof.
  intros HK HH Hok Hid Hg. pose proof (lim_max K HK). pose proof (lim_invalid K HK).
  destruct (createDisplay K id st) as [[[r id'] st1] o1] eqn:E.
  pose proof (createDisplay_table K id r id' st st1 o1 Hok ltac:(lia) ltac:(lia) E)
    as (-> & Hok1 & _ & Hg1 & Hin & Hst).
  unfold createDisplay in E. rewrite Hg in E.
  destruct (_ <? Z.of_nat _).
  { left. injection E as <- <- <-. exists (- EINVAL). by repeat split; vm_compute. }
  assert (r = 0) as ->.
  { destruct (find id (mMultiDisplay st)); [by injection E|].
    assert ((id =? s_invalidIdMultiDisplay K) = false) as Hne by (apply Z.eqb_neq; lia).
    cbv zeta in E. rewrite Hne in E. cbv iota in E. rewrite Hne in E. by injection E. }
  right. specialize (Hin eq_refl).
  destruct (setDisplayPose K H id x y w h dp fl st1) as [[r2 st2] o2] eqn:E2.
  pose proof (setDisplayPose_table K H HH _ _ _ _ _ _ _ _ _ _ _ Hok1 E2) as Hk.
  exists st1, o1, st2, o2. split; [done|]. rewrite Hk. split; [|done].
  rewrite E2. repeat f_equal. unfold setDisplayPose in E2. rewrite Hg1, Hg in E2.
  apply elem_of_keys in Hin as [i Hi]. rewrite Hi in E2.
  destruct (getCombinedDisplaySizeLocked _ _ _). by injection E2 as <- _ _.
Qed.

Lemma destroy_display_ok K H id st :
  host_ok H -> table_ok st -> mGuestMode st = false ->
  exists st1 o1, destroyDisplay K H id st = (0, st1, o1) /\ id ∉ keys (mMultiDisplay st1).
Proof.
  intros HH Hok Hg. destruct (destroyDisplay K H id st) as [[r st1] o1] eqn:E.
  pose proof (destroyDisplay_table K H HH _ _ _ _ _ Hok E) as (_ & _ & Hn).
  exists st1, o1. assert (r = 0) as ->; [|by split; [|apply Hn]].
  unfold destroyDisplay in E. rewrite Hg in E. destruct (find id (mMultiDisplay st)); [|by injection E].
  destruct (getCombinedDisplaySizeLocked _ _ _). by injection E as <- <- <-.
Qed.

(** Every branch of the call. *)
Lemma setMultiDisplay_branches K H id x y w h dp fl add st :
  limits_ok K -> host_ok H -> table_ok st -> 0 <= id ->
  let res := setMultiDisplay K H id x y w h dp fl add st in
  table_ok res.1.2 /\ only_changes id st res.1.2 /\ set_post H id w h dp add st res.
Proof.
  intros HK HH Hok Hid res. destruct res as [[r st'] o] eqn:Eres.
  destruct (setMultiDisplay_table K H HK HH _ _ _ _ _ _ _ _ _ _ _ _ Hok Hid Eres) as [Hok' Hoc].
  split; [done|]. split; [done|]. rewrite <- Eres. unfold res, setMultiDisplay.
  destruct (negb (h_feature H)); [by apply set_post_error|].
  destruct (h_folded_area H); [by apply set_post_error|].
  destruct (h_resizable H); [by apply set_post_error|].
  destruct (match h_avd H with Some a => avd_tv_or_wear a | None => false end);
    [by apply set_post_error|].
  destruct (mGuestMode st) eqn:Eg; [by apply set_post_error|].
  destruct (if add then multiDisplayParamValidate K id w h dp else (true, [])) as [valid ov] eqn:Ev.
  destruct valid; simpl negb; cbv iota zeta; [|by apply set_post_error].
  destruct (negb (bool_decide _)); [by apply set_post_error|].
  destruct (hotPlugDisplayEnabled H) eqn:Ehp; [by split; [|split; [rewrite Ehp|]]|].
  set (fl' := if fl =? 0 then _ else _). destruct add.
  - assert (id <= s_maxNumMultiDisplay K) as Hmax.
    { unfold multiDisplayParamValidate, param_error in Ev. repeat (case_match; [done|]).
      destruct (s_maxNumMultiDisplay K <? id) eqn:E; [done|]. by apply Z.ltb_ge in E. }
    destruct (add_display_cases K H id x y w h dp fl' st HK HH Hok (conj Hid Hmax) Eg)
      as [(e & He1 & He2 & ->)|(st1 & o1 & st2 & o2 & -> & -> & Hin)].
    + assert ((e =? 0) = false) as Hne by (apply Z.eqb_neq; lia). rewrite Hne. simpl. rewrite Hne. by apply set_post_error.
    + simpl. by apply set_post_done.
  - destruct (destroy_display_ok K H id st HH Hok Eg) as (st1 & o1 & -> & Hn). simpl.
    by apply set_post_done.
Qed.

(** C31: what [setMultiDisplay] does to the table, on a device that is no Pixel
    Fold ([host_ok]). Its result is 0 or a negative error. Whatever it returns, the
    table stays sorted and in range and no display other than [id] appears or
    disappears. Success without hotplug means the display exists after an add
    and does not after a removal, and the guest was told so; every error other
    than EPIPE leaves the table untouched; EPIPE, which is returned when the
    guest pipe is not up, comes after the change: the display has been created,
    or destroyed, although the call failed. *)
Theorem setMultiDisplay_outcomes K H id x y w h dp fl add st :
  limits_ok K -> host_ok H -> table_ok st -> 0 <= id ->
  let res := setMultiDisplay K H id x y w h dp fl add st in
  table_ok res.1.2 /\ only_changes id st res.1.2 /\ set_post H id w h dp add st res.
Proof. apply setMultiDisplay_branches. Qed.
