(* ===== verification/EmulatorDisplays.v ===== *)
(** The emulator's control receiver on top of its display table: the receiver of
    [ControlReceiver] with [MultiDisplay] as its agent, concrete runs of both,
    and what a guest that is not ready does to automatic display ids. *)
From S2P Require Import Prelude Text StdMap Posix ControlProtocol DisplayAgent ControlReceiver ControlReceiverSafety MultiDisplay MultiDisplaySafety.
Import MacMuControlReceiver.

Definition demo_info : MultiDisplay.MultiDisplayInfo := {|
  MultiDisplay.pos_x := 0; MultiDisplay.pos_y := 0; MultiDisplay.width := 0;
  MultiDisplay.height := 0; MultiDisplay.originalWidth := 0; MultiDisplay.originalHeight := 0;
  MultiDisplay.dpi := 0; MultiDisplay.flag := 0; MultiDisplay.enabled := true;
  MultiDisplay.cb := 0; MultiDisplay.rotation := 0; MultiDisplay.colorTransform := [] |}.

Definition demo_limits : MultiDisplay.limits := {|
  MultiDisplay.s_maxNumMultiDisplay := 11; MultiDisplay.s_displayIdInternalBegin := 6;
  MultiDisplay.s_invalidIdMultiDisplay := 0xFFFFFFAB; MultiDisplay.default_info := demo_info |}.

(** A phone with the multi-display feature, with or without the guest's pipe. *)
Definition demo_host (pipe : bool) : MultiDisplay.host := {|
  MultiDisplay.h_feature := true; MultiDisplay.h_folded_area := false;
  MultiDisplay.h_resizable := false;
  MultiDisplay.h_avd := Some {| MultiDisplay.avd_auto := false; MultiDisplay.avd_desktop36 := false;
    MultiDisplay.avd_tv_or_wear := false; MultiDisplay.avd_apiLevel := 34 |};
  MultiDisplay.h_layout := None; MultiDisplay.h_minigbm := false;
  MultiDisplay.h_hotplug_option := false; MultiDisplay.h_hotplug_hw := false;
  MultiDisplay.h_pipe := pipe; MultiDisplay.h_adb := false; MultiDisplay.h_window := false;
  MultiDisplay.h_pixel_fold := false; MultiDisplay.h_second_display := 0;
  MultiDisplay.h_folded := false; MultiDisplay.h_grpc_ui := false;
  MultiDisplay.h_automotive := false; MultiDisplay.h_stacked := fun _ => [];
  MultiDisplay.h_recorder_display := 0; MultiDisplay.h_recording := false |}.

Lemma demo_limits_ok : limits_ok demo_limits.
Proof. by repeat split. Qed.

Lemma demo_host_ok pipe : host_ok (demo_host pipe).
Proof. split; [done|]. intros rects r Hr. by apply elem_of_nil in Hr. Qed.

Definition demo_agent (pipe : bool) : MultiDisplayAgent MultiDisplay.t :=
  multi_display_agent demo_limits (demo_host pipe) demo_limits_ok (demo_host_ok pipe).

Definition primary : MultiDisplay.MultiDisplayInfo := {|
  MultiDisplay.pos_x := 0; MultiDisplay.pos_y := 0; MultiDisplay.width := 1080;
  MultiDisplay.height := 1920; MultiDisplay.originalWidth := 1080;
  MultiDisplay.originalHeight := 1920; MultiDisplay.dpi := 420; MultiDisplay.flag := 0;
  MultiDisplay.enabled := true; MultiDisplay.cb := 5; MultiDisplay.rotation := 0;
  MultiDisplay.colorTransform := [] |}.

Definition demo_table : MultiDisplay.t := {|
  MultiDisplay.mGuestMode := false; MultiDisplay.mRotation := 0;
  MultiDisplay.mMultiDisplay := [(0, primary)] |}.

Lemma demo_table_ok : table_ok demo_table.
Proof. split; repeat constructor; simpl; lia. Qed.

Definition demo_receiver : t := {|
  mRunning := true; mStopRequested := false; mFd := 197; mThread := true;
  mStreamingDisplays := []; mStreamThread := false; looper := Some [] |}.

Definition request_frame (ty : ControlMessageType) (id : Z) (p : bytes) : event :=
  EvFrame {| fh_magic := kControlProtocolMagic; fh_version := kControlProtocolVersion;
             fh_type := type_code ty; fh_requestId := id; fh_length := Z.of_nat (length p) |} p 1000.

Definition auto_add : ControlDisplayAdd := {|
  add_displayId := kControlDisplayIdAuto; add_width := 1080; add_height := 1920; add_dpi := 320;
  add_flags := 0 |}.

(** ** Concrete runs *)

Lemma requests_answered_once_witness :
  let es := [request_frame kDisplayAdd 7 (encode auto_add); request_frame kPing 8 [];
             EvTask 2000; request_frame kDisplayList 9 []] in
  let '(_, st', o) := sys_run (H := demo_agent true) es (Some demo_table) demo_receiver in
  responses o = [(type_code kPong, 8); (type_code kDisplayAddOk, 7)] /\
  exists answered, requests es ≡ₚ answered ++ (task_key <$> queue st').
Proof.
  set (es := [_; _; _; _]). cbv zeta.
  destruct (sys_run (H := demo_agent true) es (Some demo_table) demo_receiver) as [[a' st'] o] eqn:E.
  destruct (requests_answered_once (H := demo_agent true) es (Some demo_table) demo_receiver a' st' o
    demo_table_ok ltac:(simpl; lia) eq_refl E) as (answered & Hp & _).
  split; [|by exists answered].
  apply (f_equal (fun r => responses r.2)) in E. simpl in E. rewrite <- E.
  vm_compute. reflexivity.
Defined.

Lemma display_list_complete_witness :
  exists payload, handle_display_list (H := demo_agent true)
      (list_fuel (H := demo_agent true) (Some demo_table)) 3 (Some demo_table) demo_receiver =
    Some [OutFrame (type_code kDisplayListOk) 3 payload] /\
  info_displayId <$> parse_list_ok payload = [0].
Proof.
  destruct (display_list_complete (H := demo_agent true) demo_table 3 demo_receiver demo_table_ok
    ltac:(simpl; lia)) as (payload & Hl & Hp & _).
  - repeat constructor; simpl; try lia; by vm_compute.
  - split; simpl; lia.
  - exists payload. split; [exact Hl|]. rewrite Hp. reflexivity.
Defined.

Lemma display_add_outcomes_witness :
  exists a' o, handle_display_add (H := demo_agent true) 4 auto_add (Some demo_table) demo_receiver =
      (a', o) /\
    length o = 2%nat /\ exists d, add_target (H := demo_agent true) demo_table auto_add d.
Proof.
  destruct (handle_display_add (H := demo_agent true) 4 auto_add (Some demo_table) demo_receiver)
    as [a' o] eqn:E.
  exists a', o. split; [reflexivity|].
  assert (length o = 2%nat) as Hlen by (apply (f_equal snd) in E; vm_compute in E; by subst).
  split; [exact Hlen|].
  destruct (display_add_outcomes (H := demo_agent true) demo_table 4 auto_add demo_receiver a' o
    demo_table_ok ltac:(simpl; lia) E) as [(_ & _ & _ & Ho)|[(_ & _ & _ & Ho)|(d & Hd & _)]].
  - by rewrite Ho in Hlen.
  - by rewrite Ho in Hlen.
  - exists d. exact Hd.
Defined.

Lemma display_remove_order_witness :
  exists o1 o2, (handle_display_remove (H := demo_agent true) 5 {| rm_displayId := 2 |} 0
      (Some demo_table) demo_receiver).2 = o1 ++ [OutClearFrame 2;
        OutFrame (type_code kDisplayRemoveOk) 5 []] ++ o2.
Proof.
  destruct (handle_display_remove (H := demo_agent true) 5 {| rm_displayId := 2 |} 0
    (Some demo_table) demo_receiver) as [[a' st'] o] eqn:E.
  destruct (display_remove_order (H := demo_agent true) demo_table 5 {| rm_displayId := 2 |} 0
    demo_receiver a' st' o ltac:(simpl; lia) ltac:(simpl; lia) E)
    as [(code & msg & Ho & _)|(_ & _ & _ & Ho)].
  - exfalso. apply (f_equal snd) in E. vm_compute in E. rewrite <- E in Ho. discriminate.
  - simpl. rewrite Ho. eexists [_], [_]. reflexivity.
Defined.

Definition demo_streaming : t := {|
  mRunning := true; mStopRequested := false; mFd := 197; mThread := true;
  mStreamingDisplays := [(1, {| maximumFramesPerSecond := 60; nextExport := 100 |})];
  mStreamThread := true; looper := Some [] |}.

(** Display 2 is enabled, exported by two rounds, slowed down, disabled and enabled
    again. *)
Definition demo_ops : list stream_op :=
  [SopSet 2 true 60 1000; SopTick 1001; SopTick 20000000; SopSet 2 true 60 20000001; SopTick 36666666;
   SopSet 2 true 30 36666667; SopTick 60000000; SopTick 70000000; SopSet 2 false 0 70000001; SopTick 200000000;
   SopSet 2 true 0 200000001].

Lemma stream_cadence_witness :
  cadence 2 None (exports 2 demo_ops demo_streaming) /\
  (exports 2 demo_ops demo_streaming).*2 = [true; false; true; false; true; false; false; true; false; false; true].
Proof.
  split; [|vm_compute; reflexivity].
  apply (stream_cadence 2 demo_ops demo_streaming 0); [done|done|by repeat constructor|reflexivity|].
  cbn. lia.
Defined.

Lemma lease_and_stop_witness :
  closes (stop [] [] demo_streaming).2 = [197] /\
  (exists st' o, thread_loop [(true, 0)] [RdErr] demo_streaming = (st', o, true) /\
     length (shutdowns o) = 1%nat).
Proof.
  destruct (lease_and_stop [(true, 0)] [RdErr] demo_streaming [] ltac:(simpl; lia) eq_refl) as [H1 _].
  destruct (lease_and_stop [] [] demo_streaming [] ltac:(simpl; lia) eq_refl) as [_ H2].
  destruct (stop [] [] demo_streaming) as [st2 o2]. split; [apply H2|].
  eexists _, _. split; [vm_compute; reflexivity|]. by eapply H1.
Defined.

Definition secondary : MultiDisplay.MultiDisplayInfo := {|
  MultiDisplay.pos_x := -1; MultiDisplay.pos_y := -1; MultiDisplay.width := 600;
  MultiDisplay.height := 1000; MultiDisplay.originalWidth := 600;
  MultiDisplay.originalHeight := 1000; MultiDisplay.dpi := 160; MultiDisplay.flag := 0;
  MultiDisplay.enabled := true; MultiDisplay.cb := 9; MultiDisplay.rotation := 0;
  MultiDisplay.colorTransform := [] |}.

Definition two_displays : list (Z * MultiDisplay.MultiDisplayInfo) := [(0, primary); (1, secondary)].

Lemma performRotation_layout_witness :
  layout MultiDisplay.SKIN_ROTATION_90 4600 two_displays
    (MultiDisplay.performRotationLocked demo_limits (demo_host true) MultiDisplay.SKIN_ROTATION_90
       two_displays).
Proof.
  apply (performRotation_layout demo_limits (demo_host true) MultiDisplay.SKIN_ROTATION_90
    two_displays); [repeat constructor; simpl; lia|by vm_compute].
Defined.

Lemma translate_hits_display_witness :
  MultiDisplay.translateCoordination demo_limits (demo_host true) (1080 + 10) (920 + 20)
    {| MultiDisplay.mGuestMode := false; MultiDisplay.mRotation := 0;
       MultiDisplay.mMultiDisplay := MultiDisplay.performRotationLocked demo_limits (demo_host true)
         MultiDisplay.SKIN_ROTATION_0 two_displays |} = Some (10, 20, 1).
Proof.
  apply (translate_hits_display demo_limits (demo_host true) two_displays
    {| MultiDisplay.mGuestMode := false; MultiDisplay.mRotation := 0;
       MultiDisplay.mMultiDisplay := MultiDisplay.performRotationLocked demo_limits (demo_host true)
         MultiDisplay.SKIN_ROTATION_0 two_displays |} 1
    (MultiDisplay.place MultiDisplay.SKIN_ROTATION_0 secondary 1080 0) 10 20);
    try done; try (repeat constructor; simpl; lia); try (simpl; lia).
Defined.

Lemma setMultiDisplay_outcomes_witness :
  2 ∈ keys (MultiDisplay.mMultiDisplay (MultiDisplay.setMultiDisplay demo_limits (demo_host true)
    2 (-1) (-1) 1080 1920 320 0 true demo_table).1.2).
Proof.
  pose proof (setMultiDisplay_outcomes demo_limits (demo_host true) 2 (-1) (-1) 1080 1920 320 0 true
    demo_table demo_limits_ok (demo_host_ok true) demo_table_ok ltac:(lia)) as (_ & _ & _ & Hpost & _).
  by apply Hpost.
Defined.

(** ** A guest that is not ready *)

(** [n] automatic DISPLAY_ADD requests in a row. *)
Fixpoint add_n (pipe : bool) (n : nat) (a : option MultiDisplay.t) : option MultiDisplay.t * list Out :=
  match n with
  | O => (a, [])
  | S n' =>
      let '(a1, o1) := handle_display_add (H := demo_agent pipe) 1 auto_add a demo_receiver in
      let '(a2, o2) := add_n pipe n' a1 in (a2, o1 ++ o2)
  end.

(** While the guest's pipe is missing, each automatic DISPLAY_ADD fails with
    NOT_READY but leaves its display in the table, so five failed requests use up
    the user ids and the sixth fails with "no free display id". *)
Theorem failed_adds_exhaust_ids :
  let '(a, o) := add_n false 6 (Some demo_table) in
  (fun x => match x with OutFrame _ _ p => err_code (decode p) | _ => 0 end) <$> o =
    replicate 5 kControlErrNotReady ++ [kControlErrRejected] /\
  match a with Some st => keys (MultiDisplay.mMultiDisplay st) = [0; 1; 2; 3; 4; 5] | None => False end.
Proof. vm_compute. split; reflexivity. Qed.
