(* ===== verification/UnixListener.v ===== *)
(** [shell/core/unix_listener.h]: creating the host's Unix sockets, waking a
    thread that blocks in [accept] on one of them, and the "v\n" / "ok"
    handshake with the guest agent. Each function returns the system calls it
    made besides its result. *)
From S2P Require Import Prelude Text Posix.

Module UnixListener.

(** [sizeof(addr.sun_path)] on macOS. *)
Definition sun_path_size : nat := 104.

Inductive syscall :=
  | SysSetFd (fd flags : Z)
  | SysUnlink (path : bytes)
  | SysBind (fd : Z) (path : bytes)
  | SysListen (fd : Z)
  | SysConnect (fd : Z) (path : bytes)
  | SysClose (fd : Z)
  | SysLog (message : bytes).

(** The kernel's answers during one call: the descriptor [socket] returns, the
    [fcntl] pair of [set_close_on_exec], whether [bind] and [listen] return 0,
    and the text of [strerror(errno)]. *)
Record listener_env := {
  le_socket : Z; le_fcntl : Z * bool; le_bind : bool; le_listen : bool; le_error : bytes }.

(** The call of [F_SETFD], when there was one. *)
Definition setfd_calls (fd : Z) (flags : option Z) : list syscall :=
  match flags with Some fl => [SysSetFd fd fl] | None => [] end.

(** [snprintf(addr.sun_path, sizeof(addr.sun_path), "%s", path.c_str())]. *)
Definition sun_path (path : bytes) : bytes := take (sun_path_size - 1) (c_str path).

Definition create_unix_listener (env : listener_env) (path : bytes) : Z * list syscall :=
  if (length path =? 0)%nat || (sun_path_size <=? length path)%nat then
    (-1, [SysLog (bstr "invalid Unix socket path: " ++ path)])
  else
  let fd := le_socket env in
  if fd <? 0 then (-1, [SysLog (bstr "socket(listener) failed: " ++ le_error env)]) else
  let '(ok, flags) := set_close_on_exec (le_fcntl env).1 (le_fcntl env).2 true in
  let calls := setfd_calls fd flags in
  if negb ok then
    (-1, calls ++ [SysLog (bstr "failed to set FD_CLOEXEC on Unix listener"); SysClose fd])
  else
  let calls := calls ++ [SysUnlink (c_str path); SysBind fd (sun_path path)] in
  if negb (le_bind env) then
    (-1, calls ++ [SysLog (bstr "bind(listener:" ++ path ++ bstr ") failed: " ++ le_error env);
                   SysClose fd])
  else
  let calls := calls ++ [SysListen fd] in
  if negb (le_listen env) then
    (-1, calls ++ [SysLog (bstr "listen failed: " ++ le_error env); SysClose fd])
  else (fd, calls).

(** [fd] and [fcntl]: the answers of [socket] and of [set_close_on_exec], whose
    result is ignored. *)
Definition wake_unix_listener (fd : Z) (fcntl : Z * bool) (path : bytes) : list syscall :=
  if (length path =? 0)%nat then [] else
  if fd <? 0 then [] else
  setfd_calls fd (set_close_on_exec fcntl.1 fcntl.2 true).2 ++
  [SysConnect fd (sun_path path); SysClose fd].

(** ** The handshake *)

Definition ping : bytes := bstr "v" ++ [NL].

Definition is_prefix (p bs : bytes) : bool := bool_decide (p `prefix_of` bs).

(** [strstr(haystack, needle) != nullptr] on a C string. *)
Fixpoint strstr (bs needle : bytes) : bool :=
  is_prefix needle bs ||
  match bs with [] => false | _ :: bs' => strstr bs' needle end.

(** What happens on the wire: the result of [send], the result of [poll] with
    whether POLLIN was reported, and the bytes [read] finds ([None] for an
    error), of which it takes at most 15. *)
Record handshake_env := {
  he_send : Z; he_poll : Z; he_pollin : bool; he_read : option bytes }.

Definition response_size : nat := 16.

Definition perform_unix_pipe_handshake (env : handshake_env) : bool :=
  if negb (he_send env =? Z.of_nat (length ping)) then false else
  if (he_poll env <=? 0) || negb (he_pollin env) then false else
  match he_read env with
  | None => false
  | Some bs =>
      let response := take (response_size - 1) bs in
      (2 <=? length response)%nat && strstr (c_str response) (bstr "ok")
  end.

(** ** What the listener promises *)

Definition closes (calls : list syscall) : list Z :=
  omap (fun c => match c with SysClose fd => Some fd | _ => None end) calls.

Definition listens (calls : list syscall) : list Z :=
  omap (fun c => match c with SysListen fd => Some fd | _ => None end) calls.

Definition binds (calls : list syscall) : list (Z * bytes) :=
  omap (fun c => match c with SysBind fd p => Some (fd, p) | _ => None end) calls.

Lemma sun_path_id path :
  NUL ∉ path -> (length path < sun_path_size)%nat -> sun_path path = path.
Proof.
  intros Hn Hl. unfold sun_path. rewrite c_str_id by done. apply take_ge.
  unfold sun_path_size in *. lia.
Qed.

(** [create_unix_listener] is all or nothing. When it returns a
    descriptor, that descriptor is the new socket, close-on-exec, bound to
    exactly the path that was asked for (never a truncation of it) and
    listening, and nothing was closed; otherwise it returns -1 and a socket that
    was opened has been closed, once. *)
Theorem create_unix_listener_all_or_nothing env path :
  NUL ∉ path ->
  let '(fd, calls) := create_unix_listener env path in
  if 0 <=? fd then
    fd = le_socket env /\ binds calls = [(fd, path)] /\ listens calls = [fd] /\
    closes calls = [] /\ (0 < length path < sun_path_size)%nat /\
    exists fl, SysSetFd fd fl ∈ calls /\ Z.testbit fl 0 = true
  else
    fd = -1 /\
    (closes calls = [le_socket env] \/
     closes calls = [] /\ binds calls = [] /\
       (le_socket env < 0 \/ path = [] \/ (sun_path_size <= length path)%nat)).
Proof.
  intros Hn. unfold create_unix_listener.
  destruct (Nat.eqb_spec (length path) 0) as [E|E]; cbn [orb].
  { apply length_zero_iff_nil in E as ->. split; [done|right]. tauto. }
  destruct (Nat.leb_spec sun_path_size (length path)) as [L|L]; simpl; [split; [done|right]; tauto|].
  destruct (Z.ltb_spec (le_socket env) 0) as [S|S]; simpl; [split; [done|right]; tauto|].
  rewrite (sun_path_id path Hn L).
  destruct (set_close_on_exec _ _ true) as [ok fl] eqn:Hfl.
  destruct ok; simpl; cycle 1.
  { split; [done|]. left. by destruct fl. }
  destruct fl as [fl|]; [|unfold set_close_on_exec in Hfl; by destruct ((le_fcntl env).1 <? 0)].
  destruct (le_bind env); simpl; [|split; [done|by left]].
  destruct (le_listen env); simpl; [|split; [done|by left]].
  rewrite (proj2 (Z.leb_le 0 _) S). repeat split; try done; try lia.
  exists fl. split; [by left|]. by apply set_close_on_exec_flags in Hfl as [? _].
Qed.

End UnixListener.

Definition listener_env_ok : UnixListener.listener_env := {|
  UnixListener.le_socket := 7; UnixListener.le_fcntl := (0, true);
  UnixListener.le_bind := true; UnixListener.le_listen := true;
  UnixListener.le_error := [] |}.

Lemma create_unix_listener_all_or_nothing_witness :
  (NUL ∉ bstr "/tmp/macmu.sock") /\
  (UnixListener.create_unix_listener listener_env_ok (bstr "/tmp/macmu.sock")).1 = 7 /\
  UnixListener.closes
    (UnixListener.create_unix_listener listener_env_ok (bstr "/tmp/macmu.sock")).2 = [].
Proof.
  assert (NUL ∉ bstr "/tmp/macmu.sock") as Hn by (apply split_at_None; reflexivity).
  split; [exact Hn|]. split; [reflexivity|].
  pose proof (UnixListener.create_unix_listener_all_or_nothing listener_env_ok _ Hn) as H.
  destruct H as (_ & _ & _ & H & _). exact H.
Defined.

Example handshake_ok :
  UnixListener.perform_unix_pipe_handshake {| UnixListener.he_send := 2;
    UnixListener.he_poll := 1; UnixListener.he_pollin := true;
    UnixListener.he_read := Some (bstr "ok" ++ [NL]) |} = true.
Proof. reflexivity. Qed.
