(* ===== verification/GuestInput.v ===== *)
(** [shell/core/guest_input_sender.{h,cpp}]: the line-oriented input connection
    to the guest agent. The formatting calls, [send_line] on a stream socket
    with short writes, and the accept thread with [start] and [stop], whose
    steps interleave with the senders. *)
From Stdlib Require Import SpecFloat.
From S2P Require Import Prelude Text Posix InputProtocol InputSender HidKeyboard UnixListener.

Module GuestInputSender.

(** ** [milliscroll] on binary32 *)

Definition float := spec_float.
Definition float_prec : Z := 24.
Definition float_emax : Z := 128.

(** [1000.0f] = 16384000 * 2 ^ -14. *)
Definition kScale : float := S754_finite false 16384000 (-14).
Definition kMaxAxisValue : float := S754_finite false 16384000 (-14).

Definition float_lt (a b : float) : bool := SFltb a b.

(** [std::clamp]: the comparisons with a NaN are false, so it is returned. *)
Definition clamp (v lo hi : float) : float :=
  if float_lt v lo then lo else if float_lt hi v then hi else v.

(** [std::lround] rounds halfway cases away from zero; its result on a NaN or an
    infinity is unspecified, hence the argument [special]. *)
Definition lround (special : float -> Z) (v : float) : Z :=
  match v with
  | S754_zero _ => 0
  | S754_finite s m e =>
      let mag := if 0 <=? e then Zpos m * 2 ^ e
                 else (2 * Zpos m + 2 ^ (- e)) / (2 * 2 ^ (- e)) in
      if s then - mag else mag
  | _ => special v
  end.

Definition milliscroll (special : float -> Z) (value : float) : Z :=
  let clamped := clamp value (SFopp kMaxAxisValue) kMaxAxisValue in
  s32 (lround special (SFmul float_prec float_emax clamped kScale)).

(** ** State *)

(** Where the accept thread is: at the head of its loop, blocked in [accept], in
    the handshake with a descriptor it accepted, about to publish it, or gone. *)
Inductive accept_pc :=
  | AcHead | AcAccept (listenFd : Z) | AcHandshake (fd : Z) | AcPublish (fd : Z) | AcExited.

(** [stream] is what the connected agent has been sent since the handshake and
    [past] the streams of the connections before it, oldest first; [opened] and
    [closed] are the client descriptors [accept] returned and [close] took. *)
Record t := {
  m_socketPath : bytes; m_listenFd : Z; m_writeFd : Z; m_stopRequested : bool;
  m_acceptThread : option accept_pc;
  stream : bytes; past : list bytes; opened : list Z; closed : list Z }.

Definition init : t := {|
  m_socketPath := []; m_listenFd := -1; m_writeFd := -1; m_stopRequested := false;
  m_acceptThread := None; stream := []; past := []; opened := []; closed := [] |}.

Definition with_thread (st : t) (pc : option accept_pc) : t := {|
  m_socketPath := m_socketPath st; m_listenFd := m_listenFd st; m_writeFd := m_writeFd st;
  m_stopRequested := m_stopRequested st; m_acceptThread := pc;
  stream := stream st; past := past st; opened := opened st; closed := closed st |}.

Definition with_stream (st : t) (bs : bytes) : t := {|
  m_socketPath := m_socketPath st; m_listenFd := m_listenFd st; m_writeFd := m_writeFd st;
  m_stopRequested := m_stopRequested st; m_acceptThread := m_acceptThread st;
  stream := bs; past := past st; opened := opened st; closed := closed st |}.

Definition with_closed (st : t) (fd : Z) : t := {|
  m_socketPath := m_socketPath st; m_listenFd := m_listenFd st; m_writeFd := m_writeFd st;
  m_stopRequested := m_stopRequested st; m_acceptThread := m_acceptThread st;
  stream := stream st; past := past st; opened := opened st; closed := closed st ++ [fd] |}.

Definition ready (st : t) : bool := 0 <=? m_writeFd st.

(** [m_writeFd.exchange(-1)] and [close_fd]. *)
Definition close_client_locked (st : t) : t :=
  let fd := m_writeFd st in
  if 0 <=? fd then {|
    m_socketPath := m_socketPath st; m_listenFd := m_listenFd st; m_writeFd := -1;
    m_stopRequested := m_stopRequested st; m_acceptThread := m_acceptThread st;
    stream := []; past := past st ++ [stream st];
    opened := opened st; closed := closed st ++ [fd] |}
  else {|
    m_socketPath := m_socketPath st; m_listenFd := m_listenFd st; m_writeFd := -1;
    m_stopRequested := m_stopRequested st; m_acceptThread := m_acceptThread st;
    stream := stream st; past := past st; opened := opened st; closed := closed st |}.

(** ** [send_line] *)

(** One [send] on the stream socket: it takes the first [n] bytes, reports
    EAGAIN/EWOULDBLOCK, or fails. *)
Inductive send_answer := SendSome (n : nat) | SendAgain | SendErr.

Record line_env := {
  le_first : send_answer; le_polls : list InputSender.pollout_answer; le_second : send_answer }.

(** The bytes that were accepted and what [written] holds ([None] for -1). *)
Definition do_send (a : send_answer) (line : bytes) : bytes * option nat :=
  match a with
  | SendSome n => (take n line, Some (Nat.min n (length line)))
  | _ => ([], None)
  end.

Definition is_again (a : send_answer) : bool := match a with SendAgain => true | _ => false end.

Definition send_line (env : line_env) (line : bytes) (reliable : bool) (st : t) : bool * t :=
  if m_writeFd st <? 0 then (false, st) else
  let answer :=
    if is_again (le_first env) && reliable then
      if InputSender.poll_out (le_polls env) then le_second env else le_first env
    else le_first env in
  let '(sent, written) := do_send answer line in
  let st := with_stream st (stream st ++ sent) in
  if bool_decide (written = Some (length line)) then (true, st) else
  if negb reliable && is_again answer then (false, st) else
  (false, close_client_locked st).

(** ** The senders *)

(** [snprintf] into a buffer of [size] bytes followed by the length check. *)
Definition send_formatted (env : line_env) (size : nat) (line : bytes) (reliable : bool) (st : t)
    : bool * t :=
  if (length line =? 0)%nat || (size <=? length line)%nat then (false, st)
  else send_line env line reliable st.

Definition hover_line (display_id x y : Z) : bytes :=
  bstr "h " ++ dec display_id ++ [SP] ++ dec_signed x ++ [SP] ++ dec_signed y ++ [NL].

Definition send_hover (env : line_env) (display_id x y : Z) (st : t) : bool * t :=
  send_formatted env 96 (hover_line display_id x y) false st.

Definition exit_line : bytes := bstr "e" ++ [NL].

Definition send_hover_exit (env : line_env) (st : t) : bool * t :=
  send_line env exit_line true st.

Definition scroll_line (display_id x y h v : Z) : bytes :=
  bstr "s " ++ dec display_id ++ [SP] ++ dec_signed x ++ [SP] ++ dec_signed y ++ [SP] ++
  dec_signed h ++ [SP] ++ dec_signed v ++ [NL].

Definition send_scroll (special : float -> Z) (env : line_env) (display_id x y : Z)
    (hscroll vscroll : float) (st : t) : bool * t :=
  let hscrollMilli := milliscroll special hscroll in
  let vscrollMilli := milliscroll special vscroll in
  if (hscrollMilli =? 0) && (vscrollMilli =? 0) then (true, st)
  else send_formatted env 128 (scroll_line display_id x y hscrollMilli vscrollMilli) false st.

Definition touch_phase (kind : InputEventKind) : option Init.Byte.byte :=
  match kind with
  | kTouchBegin => Some Byte.x62   (* 'b' *)
  | kTouchUpdate => Some Byte.x6d  (* 'm' *)
  | kTouchEnd => Some Byte.x65     (* 'e' *)
  | _ => None
  end.

Definition touch_line (display_id pointer_id : Z) (phase : Init.Byte.byte) (x y : Z) : bytes :=
  bstr "t " ++ dec display_id ++ [SP] ++ dec_signed pointer_id ++ [SP] ++ [phase] ++ [SP] ++
  dec_signed x ++ [SP] ++ dec_signed y ++ [NL].

Definition send_touch (env : line_env) (kind : InputEventKind) (display_id pointer_id x y : Z)
    (st : t) : bool * t :=
  match touch_phase kind with
  | None => (false, st)
  | Some phase =>
      send_formatted env 128 (touch_line display_id pointer_id phase x y)
        (negb (bool_decide (phase = Byte.x6d))) st
  end.

Definition mouse_line (verb : string) (display_id x y buttons : Z) : bytes :=
  bstr verb ++ dec display_id ++ [SP] ++ dec_signed x ++ [SP] ++ dec_signed y ++ [SP] ++
  dec buttons ++ [NL].

Definition send_mouse_move (env : line_env) (display_id x y buttons : Z) (st : t) : bool * t :=
  send_formatted env 128 (mouse_line "m " display_id x y buttons) false st.

Definition send_mouse_button (env : line_env) (display_id x y buttons : Z) (st : t) : bool * t :=
  send_formatted env 128 (mouse_line "b " display_id x y buttons) true st.

Definition kHex : bytes := bstr "0123456789abcdef".

Definition hex_digit (d : Z) : Init.Byte.byte := nth (Z.to_nat d) kHex Byte.x00.

Definition hex_byte (b : Z) : bytes :=
  [hex_digit (Z.shiftr b 4); hex_digit (Z.land b 0x0f)].

Definition keyboard_prefix (display_id : Z) : bytes := bstr "k " ++ dec display_id ++ [SP].

Definition keyboard_line (display_id : Z) (report : list Z) : bytes :=
  keyboard_prefix display_id ++ (report ≫= hex_byte) ++ [NL].

Definition send_keyboard_report (env : line_env) (display_id : Z) (report : list Z) (st : t)
    : bool * t :=
  let prefix := length (keyboard_prefix display_id) in
  if (prefix =? 0)%nat || (64 <=? prefix + length report * 2 + 1)%nat then (false, st)
  else send_line env (keyboard_line display_id report) true st.

(** ** The accept thread *)

(** The answers one iteration of the loop sees: the result of [accept] with
    whether errno is EINTR (both failures return to the head of the loop, one of
    them after a pause), the [fcntl] pair of [set_close_on_exec], and the
    handshake. *)
Inductive accept_event :=
  | EvHead
  | EvAccept (fd : Z) (eintr : bool) (fcntl : Z * bool)
  | EvHandshake (env : UnixListener.handshake_env)
  | EvPublish.

Definition with_opened (st : t) (fd : Z) : t := {|
  m_socketPath := m_socketPath st; m_listenFd := m_listenFd st; m_writeFd := m_writeFd st;
  m_stopRequested := m_stopRequested st; m_acceptThread := m_acceptThread st;
  stream := stream st; past := past st; opened := opened st ++ [fd]; closed := closed st |}.

(** Publishing a client replaces the previous one, under [m_socketMutex]. *)
Definition publish (fd : Z) (st : t) : t :=
  let st := close_client_locked st in {|
    m_socketPath := m_socketPath st; m_listenFd := m_listenFd st; m_writeFd := fd;
    m_stopRequested := m_stopRequested st; m_acceptThread := m_acceptThread st;
    stream := []; past := past st; opened := opened st; closed := closed st |}.

(** One step of [accept_thread]; [None] when the thread is not at that point. *)
Definition accept_thread (ev : accept_event) (st : t) : option t :=
  match m_acceptThread st, ev with
  | Some AcHead, EvHead =>
      Some (with_thread st (Some (
        if m_stopRequested st then AcExited
        else if m_listenFd st <? 0 then AcExited else AcAccept (m_listenFd st))))
  | Some (AcAccept _), EvAccept fd _ fcntl =>
      if fd <? 0 then Some (with_thread st (Some AcHead)) else
      let st := with_opened st fd in
      if negb (set_close_on_exec fcntl.1 fcntl.2 true).1
      then Some (with_thread (with_closed st fd) (Some AcHead))
      else Some (with_thread st (Some (AcHandshake fd)))
  | Some (AcHandshake fd), EvHandshake env =>
      if negb (UnixListener.perform_unix_pipe_handshake env)
      then Some (with_thread (with_closed st fd) (Some AcHead))
      else Some (with_thread st (Some (AcPublish fd)))
  | Some (AcPublish fd), EvPublish => Some (with_thread (publish fd st) (Some AcHead))
  | _, _ => None
  end.

(** ** [start] and [stop] *)

Definition close_listener (st : t) : t :=
  let listenFd := m_listenFd st in {|
    m_socketPath := m_socketPath st; m_listenFd := -1; m_writeFd := m_writeFd st;
    m_stopRequested := true; m_acceptThread := m_acceptThread st;
    stream := stream st; past := past st; opened := opened st;
    closed := closed st ++ (if 0 <=? listenFd then [listenFd] else []) |}.

(** The part of [stop] before the join: the accept thread runs on meanwhile. *)
Definition stop_begin (wake_fd : Z) (fcntl : Z * bool) (st : t) : t * list UnixListener.syscall :=
  (close_client_locked (close_listener st),
   UnixListener.wake_unix_listener wake_fd fcntl (m_socketPath st)).

(** The join and what follows it; [None] while the accept thread still runs. *)
Definition stop_end (st : t) : option (t * list UnixListener.syscall) :=
  match m_acceptThread st with
  | None | Some AcExited =>
      Some ({| m_socketPath := []; m_listenFd := m_listenFd st; m_writeFd := m_writeFd st;
               m_stopRequested := m_stopRequested st; m_acceptThread := None;
               stream := stream st; past := past st; opened := opened st; closed := closed st |},
            if (length (m_socketPath st) =? 0)%nat then []
            else [UnixListener.SysUnlink (c_str (m_socketPath st))])
  | _ => None
  end.

(** [start] after its call of [stop]. *)
Definition start (env : UnixListener.listener_env) (socket_path : bytes) (st : t) : bool * t :=
  let fd := (UnixListener.create_unix_listener env socket_path).1 in
  if fd <? 0 then (false, st) else
  (true, {| m_socketPath := socket_path; m_listenFd := fd; m_writeFd := m_writeFd st;
            m_stopRequested := false; m_acceptThread := Some AcHead;
            stream := stream st; past := past st; opened := opened st ++ [fd];
            closed := closed st |}).

(** ** Sequences of operations *)

(** A call of one of the senders. *)
Inductive command :=
  | CHover (display_id x y : Z)
  | CHoverExit
  | CScroll (display_id x y : Z) (hscroll vscroll : float)
  | CTouch (kind : InputEventKind) (display_id pointer_id x y : Z)
  | CMouseMove (display_id x y buttons : Z)
  | CMouseButton (display_id x y buttons : Z)
  | CKeyboard (display_id : Z) (report : list Z).

Section ops.
Context (special : float -> Z).

Definition call (env : line_env) (c : command) (st : t) : bool * t :=
  match c with
  | CHover d x y => send_hover env d x y st
  | CHoverExit => send_hover_exit env st
  | CScroll d x y h v => send_scroll special env d x y h v st
  | CTouch k d p x y => send_touch env k d p x y st
  | CMouseMove d x y b => send_mouse_move env d x y b st
  | CMouseButton d x y b => send_mouse_button env d x y b st
  | CKeyboard d r => send_keyboard_report env d r st
  end.

(** The line a call puts on the wire and whether it may wait for room; [None]
    when the call sends nothing (an empty scroll, a touch of another kind). *)
Definition command_line (c : command) : option (bytes * bool) :=
  match c with
  | CHover d x y => Some (hover_line d x y, false)
  | CHoverExit => Some (exit_line, true)
  | CScroll d x y h v =>
      let h := milliscroll special h in
      let v := milliscroll special v in
      if (h =? 0) && (v =? 0) then None else Some (scroll_line d x y h v, false)
  | CTouch k d p x y =>
      match touch_phase k with
      | Some ph => Some (touch_line d p ph x y, negb (bool_decide (ph = Byte.x6d)))
      | None => None
      end
  | CMouseMove d x y b => Some (mouse_line "m " d x y b, false)
  | CMouseButton d x y b => Some (mouse_line "b " d x y b, true)
  | CKeyboard d r => Some (keyboard_line d r, true)
  end.

(** The argument types: [uint32_t], [int] and the report array. *)
Definition in_range (c : command) : Prop :=
  match c with
  | CHover d x y => is_u32 d /\ is_s32 x /\ is_s32 y
  | CHoverExit => True
  | CScroll d x y _ _ => is_u32 d /\ is_s32 x /\ is_s32 y
  | CTouch _ d p x y => is_u32 d /\ is_s32 p /\ is_s32 x /\ is_s32 y
  | CMouseMove d x y b | CMouseButton d x y b =>
      is_u32 d /\ is_s32 x /\ is_s32 y /\ is_u32 b
  | CKeyboard d r =>
      is_u32 d /\ length r = HidKeyboard.kHidKeyboardReportSize /\ Forall (fun b => 0 <= b < 256) r
  end.

Inductive op :=
  | OpCall (env : line_env) (c : command)
  | OpAccept (ev : accept_event)
  | OpStopBegin (wake_fd : Z) (fcntl : Z * bool)
  | OpStopEnd
  | OpStart (env : UnixListener.listener_env) (path : bytes).

(** One step of the program, with the line it acknowledged: a call that sent a
    line and returned true. [start] runs after [stop] has joined the thread. *)
Definition step (o : op) (st : t) : option (t * list bytes) :=
  match o with
  | OpCall env c =>
      let '(ok, st') := call env c st in
      Some (st', match command_line c with
                 | Some (l, _) => if (ok : bool) then [l] else []
                 | None => []
                 end)
  | OpAccept ev => st' ← accept_thread ev st; Some (st', [])
  | OpStopBegin w f => Some ((stop_begin w f st).1, [])
  | OpStopEnd => r ← stop_end st; Some (r.1, [])
  | OpStart env path =>
      match m_acceptThread st with
      | None => if m_listenFd st <? 0 then Some ((start env path st).2, []) else None
      | Some _ => None
      end
  end.

Fixpoint run (ops : list op) (st : t) : option (t * list bytes) :=
  match ops with
  | [] => Some (st, [])
  | o :: ops =>
      '(st, l) ← step o st;
      '(st', ls) ← run ops st;
      Some (st', l ++ ls)
  end.

Definition op_in_range (o : op) : Prop :=
  match o with OpCall _ c => in_range c | _ => True end.
End ops.

(** ** What one call does to the stream *)

(** A call of [send_line] either delivers the whole line, or leaves everything
    as it was, or drops the connection after a prefix of the line. *)
Lemma send_line_cases env line reliable st :
  (0 <= m_writeFd st /\
   send_line env line reliable st = (true, with_stream st (stream st ++ line))) \/
  send_line env line reliable st = (false, st) \/
  (0 <= m_writeFd st /\ exists p, p `prefix_of` line /\
   send_line env line reliable st =
     (false, close_client_locked (with_stream st (stream st ++ p)))).
Proof.
  unfold send_line. destruct (Z.ltb_spec (m_writeFd st) 0) as [Hfd|Hfd]; [by right; left|].
  set (answer := if is_again _ && _ then _ else _).
  assert (with_stream st (stream st ++ []) = st) as Hid
    by (rewrite app_nil_r; by destruct st).
  destruct answer as [n| |]; simpl.
  - destruct (decide (length line <= n)%nat) as [Hn|Hn].
    + rewrite take_ge, Nat.min_r, bool_decide_true by (done || lia). by left.
    + rewrite bool_decide_false by (intros [= E]; lia). rewrite andb_false_r. right. right.
      split; [done|]. exists (take n line). split; [apply prefix_take|done].
  - destruct reliable; simpl; [|right; left; by rewrite Hid].
    right. right. split; [done|]. exists []. by split; [apply prefix_nil|].
  - right. right. rewrite andb_false_r. split; [done|]. exists [].
    by split; [apply prefix_nil|].
Qed.

(** ** Lines *)

Definition is_line (l : bytes) : Prop := exists body, l = body ++ [NL] /\ NL ∉ body.

Lemma not_in_dec b n :
  0 <= n -> (byte.unsigned b < 48 \/ 57 < byte.unsigned b) -> b ∉ dec n.
Proof. apply dec_not_in. Qed.

Lemma not_in_dec_signed b z :
  (byte.unsigned b < 45 \/ byte.unsigned b > 57) -> b ∉ dec_signed z.
Proof.
  intros Hb. unfold dec_signed. destruct (Z.ltb_spec z 0).
  - apply not_elem_of_cons. split; [intros ->; vm_compute in Hb; by destruct Hb|]. apply dec_not_in; lia.
  - apply dec_not_in; lia.
Qed.

(** The reading end's view of a line: words separated by single spaces. *)
Fixpoint words (bs : bytes) : list bytes :=
  match bs with
  | [] => [[]]
  | b :: bs' =>
      if decide (b = SP) then [] :: words bs'
      else match words bs' with w :: ws => (b :: w) :: ws | [] => [[b]] end
  end.

Lemma words_app w r : SP ∉ w -> words (w ++ SP :: r) = w :: words r.
Proof.
  induction w as [|b w IH]; intros H; simpl; [done|].
  apply not_elem_of_cons in H as [Hb Hw]. by rewrite decide_False, IH.
Qed.

Lemma words_one w : SP ∉ w -> words w = [w].
Proof.
  induction w as [|b w IH]; intros H; simpl; [done|].
  apply not_elem_of_cons in H as [Hb Hw]. by rewrite decide_False, IH.
Qed.

Definition read_unsigned (w : bytes) : option Z :=
  match strtoull w with
  | Some r => if bool_decide (st_end r = []) && negb (st_errno r) then Some (st_value r) else None
  | None => None
  end.

Definition read_signed (w : bytes) : option Z :=
  match strtol w with Some (v, []) => Some v | _ => None end.

Lemma read_unsigned_dec n : is_u32 n -> read_unsigned (dec n) = Some n.
Proof.
  intros [H0 H1]. unfold read_unsigned. rewrite <- (app_nil_r (dec n)), strtoull_dec; [done|split; lia|done].
Qed.

Lemma read_signed_dec z : is_s32 z -> read_signed (dec_signed z) = Some z.
Proof.
  intros [H0 H1]. unfold read_signed, dec_signed. destruct (Z.ltb_spec z 0).
  - unfold strtol.
    change (skip_sign (skip_spaces (MINUS :: dec (- z)))) with (true, dec (- z)). cbn iota.
    destruct (dec_cons (- z)) as (d & ds & Hd & E); [lia|].
    assert (starts_with_digit (dec (- z)) = true) as -> by (rewrite E; simpl; by rewrite digit_val_of).
    rewrite <- (app_nil_r (dec (- z))), dec_value by (done || lia).
    f_equal. lia.
  - rewrite <- (app_nil_r (dec z)), strtol_dec by (done || lia). done.
Qed.

Definition hex_val (b : Init.Byte.byte) : option Z :=
  let v := byte.unsigned b in
  if (48 <=? v) && (v <=? 57) then Some (v - 48)
  else if (97 <=? v) && (v <=? 102) then Some (v - 87) else None.

Fixpoint read_hex (w : bytes) : option (list Z) :=
  match w with
  | [] => Some []
  | [_] => None
  | a :: b :: w' =>
      h ← hex_val a; l ← hex_val b; r ← read_hex w'; Some (h * 16 + l :: r)
  end.

(** A statement about every hexadecimal digit is sixteen computations. *)
Lemma hex_digits (P : Z -> Prop) :
  Forall P (Z.of_nat <$> seq 0 16) -> forall d, 0 <= d < 16 -> P d.
Proof.
  rewrite Forall_forall. intros HF d Hd. apply HF, list_elem_of_fmap. exists (Z.to_nat d).
  split; [lia|]. apply elem_of_seq. lia.
Qed.

Lemma hex_val_digit d : 0 <= d < 16 -> hex_val (hex_digit d) = Some d.
Proof. revert d. apply hex_digits. by repeat constructor. Qed.

Lemma hex_digit_text d : 0 <= d < 16 -> 48 <= byte.unsigned (hex_digit d) <= 102.
Proof. revert d. apply hex_digits. repeat constructor; vm_compute; by intros [=]. Qed.

Lemma nibbles b : 0 <= b < 256 ->
  0 <= Z.shiftr b 4 < 16 /\ 0 <= Z.land b 0x0f < 16 /\ Z.shiftr b 4 * 16 + Z.land b 0x0f = b.
Proof.
  intros Hb. change 0x0f with (Z.ones 4). rewrite Z.land_ones, Z.shiftr_div_pow2 by lia.
  change (2 ^ 4) with 16. pose proof (Z.div_mod b 16). pose proof (Z.mod_pos_bound b 16).
  assert (b / 16 < 16) by (apply Z.div_lt_upper_bound; lia).
  assert (0 <= b / 16) by (apply Z.div_pos; lia). lia.
Qed.

Lemma read_hex_report r : Forall (fun b => 0 <= b < 256) r -> read_hex (r ≫= hex_byte) = Some r.
Proof.
  induction 1 as [|b r Hb _ IH]; [done|]. destruct (nibbles b Hb) as (H1 & H2 & H3).
  cbn -[Z.shiftr Z.land hex_digit hex_val]. rewrite !hex_val_digit by done. simpl.
  change (r ≫= hex_byte) with (mbind hex_byte r) in IH. rewrite IH. simpl. by rewrite H3.
Qed.

Lemma hex_report_text r b :
  Forall (fun b => 0 <= b < 256) r -> byte.unsigned b < 48 -> b ∉ (r ≫= hex_byte).
Proof.
  intros Hr Hb (x & Hx & Hin)%list_elem_of_bind. rewrite Forall_forall in Hr.
  destruct (nibbles x (Hr x Hin)) as (H1 & H2 & _).
  apply hex_digit_text in H1, H2. unfold hex_byte in Hx. set_unfold in Hx.
  destruct Hx as [->|[->|[]]]; lia.
Qed.

(** ** The grammar the lines are written in *)

(** What a line says, as its reader takes it apart. *)
Inductive message :=
  | MHover (display_id x y : Z)
  | MHoverExit
  | MScroll (display_id x y h v : Z)
  | MTouch (display_id pointer_id : Z) (phase : bytes) (x y : Z)
  | MMouseMove (display_id x y buttons : Z)
  | MMouseButton (display_id x y buttons : Z)
  | MKeyboard (display_id : Z) (report : list Z).

Definition read_words (ws : list bytes) : option message :=
  match ws with
  | [v] => if bool_decide (v = bstr "e") then Some MHoverExit else None
  | [v; d; r] =>
      if bool_decide (v = bstr "k") then
        d ← read_unsigned d; r ← read_hex r; Some (MKeyboard d r)
      else None
  | [v; d; x; y] =>
      if bool_decide (v = bstr "h") then
        d ← read_unsigned d; x ← read_signed x; y ← read_signed y; Some (MHover d x y)
      else None
  | [v; d; x; y; b] =>
      d ← read_unsigned d; x ← read_signed x; y ← read_signed y; b ← read_unsigned b;
      if bool_decide (v = bstr "m") then Some (MMouseMove d x y b)
      else if bool_decide (v = bstr "b") then Some (MMouseButton d x y b) else None
  | [v; d; a; b; c; e] =>
      if bool_decide (v = bstr "s") then
        d ← read_unsigned d; x ← read_signed a; y ← read_signed b;
        h ← read_signed c; v ← read_signed e; Some (MScroll d x y h v)
      else if bool_decide (v = bstr "t") then
        d ← read_unsigned d; p ← read_signed a; x ← read_signed c; y ← read_signed e;
        Some (MTouch d p b x y)
      else None
  | _ => None
  end.

(** A line is read up to its newline. *)
Definition read_line (l : bytes) : option message :=
  match split_at NL l with Some (body, []) => read_words (words body) | _ => None end.

Definition message_of (special : float -> Z) (c : command) : message :=
  match c with
  | CHover d x y => MHover d x y
  | CHoverExit => MHoverExit
  | CScroll d x y h v => MScroll d x y (milliscroll special h) (milliscroll special v)
  | CTouch k d p x y => MTouch d p (from_option (fun b => [b]) [] (touch_phase k)) x y
  | CMouseMove d x y b => MMouseMove d x y b
  | CMouseButton d x y b => MMouseButton d x y b
  | CKeyboard d r => MKeyboard d r
  end.

(** A line as a list of words: each word free of separators. *)
Fixpoint join (ws : list bytes) : bytes :=
  match ws with [] => [] | [w] => w | w :: ws => w ++ SP :: join ws end.

Lemma words_join ws : ws <> [] -> Forall (fun w => SP ∉ w) ws -> words (join ws) = ws.
Proof.
  intros Hne HF. induction HF as [|w ws Hw HF IH]; [done|].
  destruct ws as [|w' ws]; [by apply words_one|].
  change (join (w :: w' :: ws)) with (w ++ SP :: join (w' :: ws)).
  rewrite words_app by done. by rewrite IH.
Qed.

Lemma join_newline ws : Forall (fun w => NL ∉ w) ws -> NL ∉ join ws.
Proof.
  induction 1 as [|w ws Hw HF IH]; simpl; [apply not_elem_of_nil|]. destruct ws; [done|].
  rewrite not_elem_of_app, not_elem_of_cons. done.
Qed.

Definition plain (w : bytes) : Prop := (SP ∉ w) /\ (NL ∉ w).

(** A line of plain words is one line and is read back as its words. *)
Lemma read_line_join ws :
  ws <> [] -> Forall plain ws ->
  is_line (join ws ++ [NL]) /\ read_line (join ws ++ [NL]) = read_words ws.
Proof.
  intros Hne HF.
  assert (NL ∉ join ws) as Hnl.
  { apply join_newline. eapply Forall_impl; [exact HF|]. by intros w [_ H]. }
  split; [by exists (join ws)|]. unfold read_line.
  rewrite split_at_app by done. rewrite words_join; [done..|].
  eapply Forall_impl; [exact HF|]. by intros w [H _].
Qed.

Lemma plain_dec n : is_u32 n -> plain (dec n).
Proof. intros [? ?]. split; apply dec_not_in; try lia; left; by vm_compute. Qed.

Lemma plain_dec_signed z : plain (dec_signed z).
Proof. split; apply not_in_dec_signed; left; by vm_compute. Qed.

Lemma plain_hex r : Forall (fun b => 0 <= b < 256) r -> plain (r ≫= hex_byte).
Proof. intros Hr. split; (apply hex_report_text; [done|by vm_compute]). Qed.

(** Literal words and one-byte words are checked by computation. *)
Lemma plain_closed w : split_at SP w = None -> split_at NL w = None -> plain w.
Proof. intros ?%split_at_None ?%split_at_None. by split. Qed.

Lemma plain_phase k b : touch_phase k = Some b -> plain [b].
Proof. intros H. apply plain_closed; by destruct k; simplify_eq/=. Qed.

Lemma milliscroll_range special f : is_s32 (milliscroll special f).
Proof. apply s32_range. Qed.

Lemma length_hex r : length (r ≫= hex_byte) = (2 * length r)%nat.
Proof. induction r as [|b r IH]; [done|]. simpl. unfold mbind in IH. rewrite IH. lia. Qed.

(** The words of each line. *)
Definition line_words (special : float -> Z) (c : command) : list bytes :=
  match c with
  | CHover d x y => [bstr "h"; dec d; dec_signed x; dec_signed y]
  | CHoverExit => [bstr "e"]
  | CScroll d x y h v =>
      [bstr "s"; dec d; dec_signed x; dec_signed y;
       dec_signed (milliscroll special h); dec_signed (milliscroll special v)]
  | CTouch k d p x y =>
      [bstr "t"; dec d; dec_signed p; from_option (fun b => [b]) [] (touch_phase k);
       dec_signed x; dec_signed y]
  | CMouseMove d x y b => [bstr "m"; dec d; dec_signed x; dec_signed y; dec b]
  | CMouseButton d x y b => [bstr "b"; dec d; dec_signed x; dec_signed y; dec b]
  | CKeyboard d r => [bstr "k"; dec d; r ≫= hex_byte]
  end.

#[local] Arguments dec : simpl never.
#[local] Arguments dec_signed : simpl never.
#[local] Arguments milliscroll : simpl never.

Lemma command_line_words special c l rel :
  command_line special c = Some (l, rel) -> l = join (line_words special c) ++ [NL].
Proof.
  destruct c; simpl; intros H; repeat case_match; simplify_eq/=;
    unfold hover_line, scroll_line, touch_line, mouse_line, keyboard_line, keyboard_prefix;
    by do 5 (simpl; rewrite <- ?app_assoc).
Qed.

(** The printed fields are short enough for the buffers, whatever they hold. *)
Lemma line_fits special c l rel (size : nat) :
  in_range c -> command_line special c = Some (l, rel) ->
  (match c with CHover _ _ _ => 96 | CKeyboard _ _ => 64 | _ => 128 end <= size)%nat ->
  (0 < length l < size)%nat.
Proof.
  intros Hr Hl Hs. apply command_line_words in Hl as ->.
  assert (forall z, is_s32 z -> (length (dec_signed z) <= 11)%nat) as Hd by apply dec_signed_length.
  assert (forall z, is_u32 z -> (length (dec z) <= 10)%nat) as Hu by apply dec_u32_length.
  destruct c; simpl in Hr; destruct_and?; cbn [line_words join];
    repeat match goal with
    | H : is_u32 ?z |- _ => apply Hu in H
    | H : is_s32 ?z |- _ => apply Hd in H
    end.
  3: pose proof (Hd _ (milliscroll_range special hscroll)).
  3: pose proof (Hd _ (milliscroll_range special vscroll)).
  4: assert (length (from_option (fun b => [b]) [] (touch_phase kind)) <= 1)%nat
       by (destruct (touch_phase kind); simpl; lia).
  7: assert (length report = 8)%nat by assumption; pose proof (length_hex report).
  all: repeat first [rewrite length_app | progress cbn [length]]; simpl bstr; simpl length; lia.
Qed.

Lemma send_formatted_fits env size line rel st :
  (0 < length line < size)%nat -> send_formatted env size line rel st = send_line env line rel st.
Proof.
  intros H. unfold send_formatted. destruct (Nat.eqb_spec (length line) 0); [lia|].
  destruct (Nat.leb_spec size (length line)); [lia|done].
Qed.

(** No call is refused by its buffer: it sends its line or, when there is none,
    does nothing. *)
Lemma call_sends special env c st :
  in_range c ->
  call special env c st =
    match command_line special c with
    | Some (l, rel) => send_line env l rel st
    | None => (match c with CScroll _ _ _ _ _ => true | _ => false end, st)
    end.
Proof.
  intros Hr. destruct (command_line special c) as [[l rel]|] eqn:E.
  - pose proof (line_fits special c l rel) as Hf.
    destruct c; simpl in E; unfold call, send_hover, send_hover_exit, send_scroll, send_touch,
      send_mouse_move, send_mouse_button, send_keyboard_report;
      try (simplify_eq; by rewrite send_formatted_fits by (apply Hf; done)).
    + by simplify_eq.
    + case_match; simplify_eq/=. rewrite send_formatted_fits; [done|].
      apply Hf; [done| |done]. simpl. by case_match.
    + case_match; simplify_eq/=. rewrite send_formatted_fits; [done|].
      apply Hf; [done| |done]. simpl. by case_match; simplify_eq.
    + simplify_eq. specialize (Hf 64%nat Hr eq_refl (le_n _)).
      unfold keyboard_line in Hf. rewrite !length_app, length_hex in Hf.
      destruct (Nat.eqb_spec (length (keyboard_prefix display_id)) 0) as [E|_].
      { unfold keyboard_prefix in E. rewrite length_app in E. simpl in E. lia. }
      destruct (Nat.leb_spec 64 (length (keyboard_prefix display_id) + length report * 2 + 1));
        [change (length [NL]) with 1%nat in Hf; lia|done].
  - destruct c; simpl in E; unfold call, send_scroll, send_touch; try done.
    + by case_match.
    + by case_match.
Qed.

(** The line of a call is one line, and it reads back as the call. *)
Lemma guest_line_of special c l rel :
  in_range c -> command_line special c = Some (l, rel) ->
  is_line l /\ read_line l = Some (message_of special c).
Proof.
  intros Hr E.
  pose proof (command_line_words _ _ _ _ E) as ->.
  destruct (read_line_join (line_words special c)) as [H1 H2]; [by destruct c| |].
  - destruct c; simpl in *; destruct_and?;
      repeat first [apply Forall_nil; done | apply Forall_cons; split];
      try done; try apply plain_dec_signed; try (by apply plain_dec);
      try (by apply plain_closed); try (by apply plain_hex).
    destruct (touch_phase kind) eqn:Hk; [|done]. simpl. by eapply plain_phase.
  - split; [done|]. rewrite H2.
    destruct c; simpl in Hr; destruct_and?; cbn [line_words read_words];
      rewrite ?bool_decide_true, ?bool_decide_false by done;
      rewrite ?read_unsigned_dec by done; simpl;
      rewrite ?read_signed_dec by (done || apply milliscroll_range); simpl;
      rewrite ?read_unsigned_dec by done; simpl; rewrite ?read_hex_report by done; done.
Qed.

(** every call of a sender with arguments of its C++ types hands
    [send_line] one line (the fixed buffers are always large enough): a single
    line with its newline only at the end, which the agent's reader takes apart
    into exactly the arguments of the call; only an empty scroll and a touch of
    another kind send nothing. *)
Theorem guest_lines_roundtrip special env c st :
  in_range c ->
  match command_line special c with
  | Some (l, rel) =>
      call special env c st = send_line env l rel st /\ is_line l /\
      read_line l = Some (message_of special c)
  | None => (call special env c st).2 = st
  end.
Proof.
  intros Hr. rewrite (call_sends special env c st Hr).
  destruct (command_line special c) as [[l rel]|] eqn:E; [|done]. split; [done|].
  by apply (guest_line_of special c l rel).
Qed.

(** ** Connections *)

Definition fd_list (fd : Z) : list Z := if 0 <=? fd then [fd] else [].

(** The descriptors the object still holds: the listener, the published client
    and the client the accept thread is talking to. *)
Definition live (st : t) : list Z :=
  fd_list (m_listenFd st) ++ fd_list (m_writeFd st) ++
  match m_acceptThread st with Some (AcHandshake fd | AcPublish fd) => [fd] | _ => [] end.

(** A stream that ended: whole lines, then possibly the beginning of one more. *)
Definition ended (s : bytes) (ls : list bytes) : Prop :=
  exists p, s = concat ls ++ p /\ (p = [] \/ exists l, is_line l /\ p `prefix_of` l).

Definition framing (st : t) (acked : list bytes) : Prop :=
  exists lss ls, acked = concat lss ++ ls /\ stream st = concat ls /\
    Forall2 ended (past st) lss /\ (m_writeFd st < 0 -> ls = []).

Definition thread_ok (st : t) : Prop :=
  match m_acceptThread st with Some (AcHandshake fd | AcPublish fd) => 0 <= fd | _ => True end.

Definition inv (st : t) (acked : list bytes) : Prop :=
  framing st acked /\ opened st ≡ₚ closed st ++ live st /\ thread_ok st.

Lemma input_inv_init : inv init [].
Proof. split; [|done]. by exists [], []. Qed.

Lemma close_client_opened st : opened (close_client_locked st) = opened st.
Proof. unfold close_client_locked. by case_match. Qed.

Lemma close_client_fds st :
  closed (close_client_locked st) = closed st ++ fd_list (m_writeFd st) /\
  live (close_client_locked st) =
    fd_list (m_listenFd st) ++
    match m_acceptThread st with Some (AcHandshake fd | AcPublish fd) => [fd] | _ => [] end.
Proof.
  unfold close_client_locked, fd_list, live. destruct (0 <=? m_writeFd st); simpl; [done|].
  by rewrite app_nil_r.
Qed.

Lemma close_client_thread st : m_acceptThread (close_client_locked st) = m_acceptThread st.
Proof. unfold close_client_locked. by case_match. Qed.

(** Dropping the client keeps the account of descriptors, ... *)
Lemma close_client_account st :
  opened st ≡ₚ closed st ++ live st ->
  opened (close_client_locked st) ≡ₚ closed (close_client_locked st) ++ live (close_client_locked st).
Proof.
  intros H. destruct (close_client_fds st) as [-> ->]. rewrite close_client_opened, H.
  unfold live. solve_Permutation.
Qed.

(** ... and ends its stream, after [p] more bytes of a line. *)
Lemma close_client_framing st acked p :
  framing st acked -> 0 <= m_writeFd st ->
  (p = [] \/ exists l, is_line l /\ p `prefix_of` l) ->
  framing (close_client_locked (with_stream st (stream st ++ p))) acked.
Proof.
  intros (lss & ls & -> & Hs & Hp & _) Hfd Hpre. unfold close_client_locked. simpl.
  rewrite (proj2 (Z.leb_le 0 _) Hfd). exists (lss ++ [ls]), []. simpl.
  rewrite concat_app, app_nil_r. simpl. rewrite app_nil_r. split; [done|]. split; [done|].
  split; [|done]. apply Forall2_app; [done|]. constructor; [|constructor].
  exists p. by rewrite Hs.
Qed.

Lemma close_client_framing_now st acked :
  framing st acked -> framing (close_client_locked st) acked.
Proof.
  intros H. destruct (Z.le_gt_cases 0 (m_writeFd st)) as [Hfd|Hfd].
  - pose proof (close_client_framing st acked [] H Hfd (or_introl eq_refl)) as H'.
    rewrite app_nil_r in H'. by destruct st.
  - unfold close_client_locked. rewrite (proj2 (Z.leb_gt 0 _) Hfd).
    destruct H as (lss & ls & ? & ? & ? & Hls). exists lss, ls. simpl. naive_solver.
Qed.

(** One call of a sender. *)
Lemma send_line_inv env line rel st acked :
  is_line line -> inv st acked ->
  inv (send_line env line rel st).2
    (acked ++ if (send_line env line rel st).1 then [line] else []).
Proof.
  intros Hl (Hf & Hp & Ht).
  destruct (send_line_cases env line rel st) as [[Hfd ->]|[->|(Hfd & p & Hpre & ->)]]; simpl.
  - split; [|done]. destruct Hf as (lss & ls & -> & Hs & Hp' & Hls).
    exists lss, (ls ++ [line]). simpl. rewrite Hs, concat_app, <- app_assoc. simpl.
    rewrite app_nil_r. repeat split; try done. lia.
  - by rewrite app_nil_r.
  - rewrite app_nil_r. split; [|split].
    + apply close_client_framing; [done..|]. right. by exists line.
    + by apply close_client_account.
    + unfold thread_ok. by rewrite close_client_thread.
Qed.

Lemma call_inv special env c st acked :
  in_range c -> inv st acked ->
  inv (call special env c st).2
    (acked ++ match command_line special c with
              | Some (l, _) => if (call special env c st).1 then [l] else []
              | None => [] end).
Proof.
  intros Hr Hi. rewrite (call_sends special env c st Hr).
  destruct (command_line special c) as [[l rel]|] eqn:E; [|simpl; by rewrite app_nil_r].
  apply send_line_inv; [|done]. by apply (guest_line_of special c l rel).
Qed.

(** Moving the thread's program counter or a descriptor between the lists does
    not touch the streams. *)
Lemma framing_ext st st' acked :
  stream st' = stream st -> past st' = past st -> m_writeFd st' = m_writeFd st ->
  framing st acked -> framing st' acked.
Proof.
  intros E1 E2 E3 (lss & ls & H1 & H2 & H3 & H4). exists lss, ls. by rewrite E1, E2, E3.
Qed.

Lemma publish_inv fd st acked :
  0 <= fd -> m_acceptThread st = Some (AcPublish fd) -> inv st acked ->
  inv (with_thread (publish fd st) (Some AcHead)) acked.
Proof.
  intros Hfd Ht (Hf & Hp & _). pose proof (close_client_framing_now st acked Hf) as Hf'.
  pose proof (close_client_account st Hp) as Hp'.
  destruct (close_client_fds st) as [_ Hl]. rewrite Hl, Ht in Hp'. split; [|split; [|done]].
  - destruct Hf' as (lss & ls & ? & Hs & ? & Hls). exists lss, ls. simpl.
    assert (m_writeFd (close_client_locked st) < 0) as Hneg
      by (unfold close_client_locked; destruct (0 <=? m_writeFd st); simpl; lia).
    specialize (Hls Hneg) as ->. simpl in Hs. done.
  - assert (m_listenFd (close_client_locked st) = m_listenFd st) as Hlisten
      by (unfold close_client_locked; by destruct (0 <=? m_writeFd st)).
    unfold live, fd_list at 2. simpl. rewrite (proj2 (Z.leb_le 0 fd) Hfd), Hlisten, Hp'. done.
Qed.

Lemma input_accept_thread_inv ev st st' acked :
  accept_thread ev st = Some st' -> inv st acked -> inv st' acked.
Proof.
  intros H Hi. pose proof Hi as (Hf & Hp & Ht). unfold accept_thread in H. unfold thread_ok in Ht.
  destruct (m_acceptThread st) as [[|lfd|fd|fd|]|] eqn:Epc; destruct ev; try done.
  - simplify_eq. split; [by eapply framing_ext|].
    unfold live, thread_ok in *. simpl. rewrite Epc in Hp. simpl in Hp.
    destruct (m_stopRequested st); [done|]. by destruct (m_listenFd st <? 0).
  - destruct (Z.ltb_spec fd 0) as [Hneg|Hpos].
    { simplify_eq. split; [by eapply framing_ext|].
      unfold live, thread_ok in *. simpl. by rewrite Epc in Hp. }
    destruct (negb _); simplify_eq; (split; [by eapply framing_ext|]);
      unfold live, thread_ok in *; simpl; rewrite Epc in Hp; (split; [|done]);
      rewrite Hp; solve_Permutation.
  - destruct (negb _); simplify_eq; (split; [by eapply framing_ext|]);
      unfold live, thread_ok in *; simpl; rewrite Epc in Hp; (split; [|done]);
      rewrite Hp; solve_Permutation.
  - simplify_eq. by apply publish_inv.
Qed.

Lemma stop_begin_inv w f st acked : inv st acked -> inv (stop_begin w f st).1 acked.
Proof.
  intros (Hf & Hp & Ht). simpl. split; [|split].
  - apply close_client_framing_now. by eapply framing_ext.
  - apply close_client_account. unfold live in *. simpl. rewrite Hp. unfold fd_list.
    solve_Permutation.
  - unfold thread_ok in *. by rewrite close_client_thread.
Qed.

Lemma input_stop_end_inv st r acked : stop_end st = Some r -> inv st acked -> inv r.1 acked.
Proof.
  unfold stop_end. intros H (Hf & Hp & _). unfold live in Hp.
  destruct (m_acceptThread st) as [[]|] eqn:Epc; simplify_eq; simpl;
    by split; [eapply framing_ext|split].
Qed.

Lemma start_inv env path st acked :
  m_acceptThread st = None -> m_listenFd st < 0 -> inv st acked ->
  inv (start env path st).2 acked.
Proof.
  intros Ht Hl (Hf & Hp & Hok). unfold start.
  destruct (Z.ltb_spec (UnixListener.create_unix_listener env path).1 0) as [Hn|Hn]; [done|].
  split; [by eapply framing_ext|]. split; [|done]. unfold live in *. simpl.
  rewrite Ht in Hp. unfold fd_list in Hp |- *. rewrite (proj2 (Z.leb_gt 0 _) Hl) in Hp.
  rewrite (proj2 (Z.leb_le 0 _) Hn), Hp. solve_Permutation.
Qed.

Lemma input_step_inv special o st st' l acked :
  op_in_range o -> step special o st = Some (st', l) -> inv st acked -> inv st' (acked ++ l).
Proof.
  intros Ho H Hi. destruct o as [env c|ev|w f| |env path]; simpl in H.
  - pose proof (call_inv special env c st acked Ho Hi) as Hc.
    destruct (call special env c st) as [ok st'']. by simplify_eq.
  - destruct (accept_thread ev st) as [st''|] eqn:E; simplify_eq/=. rewrite app_nil_r.
    by eapply input_accept_thread_inv.
  - simplify_eq. rewrite app_nil_r. by apply (stop_begin_inv w f).
  - destruct (stop_end st) as [r|] eqn:E; simplify_eq/=. rewrite app_nil_r.
    by eapply input_stop_end_inv.
  - destruct (m_acceptThread st) eqn:Ht; [done|].
    destruct (Z.ltb_spec (m_listenFd st) 0); simplify_eq. rewrite app_nil_r. by apply start_inv.
Qed.

Lemma input_run_inv special ops st st' ls acked :
  Forall op_in_range ops -> run special ops st = Some (st', ls) -> inv st acked ->
  inv st' (acked ++ ls).
Proof.
  intros HF. revert st ls acked. induction HF as [|o ops Ho _ IH]; intros st ls acked H Hi.
  { simplify_eq/=. by rewrite app_nil_r. }
  simpl in H. destruct (step special o st) as [[st1 l]|] eqn:E1; simplify_eq/=.
  destruct (run special ops st1) as [[st2 ls']|] eqn:E2; simplify_eq/=.
  rewrite (assoc_L (++)). eapply IH; [done|]. by eapply input_step_inv.
Qed.

(** C23: for every interleaving of sender calls, accept-thread steps,
    [start] and [stop], and for every short write, EAGAIN or error: the agent's
    stream consists of whole lines, in order exactly the lines of the calls that
    returned true since it connected; a line that was cut short is the end of
    its connection's stream, never followed by another byte; and every
    descriptor that was opened has been closed exactly once or is still held. *)
Theorem guest_stream_whole_lines special ops st acked :
  Forall op_in_range ops -> run special ops init = Some (st, acked) ->
  (exists lss ls, acked = concat lss ++ ls /\ stream st = concat ls /\
     Forall2 ended (past st) lss) /\
  opened st ≡ₚ closed st ++ live st.
Proof.
  intros HF Hr. destruct (input_run_inv special ops init st acked [] HF Hr input_inv_init)
    as ((lss & ls & ? & ? & ? & _) & ? & _). split; [|done]. by exists lss, ls.
Qed.

End GuestInputSender.

(** ** Concrete runs *)
Import GuestInputSender.

Definition demo_special : float -> Z := fun _ => 0.

Definition demo_handshake : UnixListener.handshake_env := {|
  UnixListener.he_send := 2; UnixListener.he_poll := 1; UnixListener.he_pollin := true;
  UnixListener.he_read := Some (bstr "ok" ++ [NL]) |}.

Definition demo_send (n : nat) : line_env :=
  {| le_first := SendSome n; le_polls := []; le_second := SendErr |}.

(** A client connects, takes a hover line whole and three bytes of a keyboard
    report, and is dropped; a second client takes its place. *)
Definition demo_connect (fd : Z) : list op :=
  [OpAccept EvHead; OpAccept (EvAccept fd false (0, true)); OpAccept (EvHandshake demo_handshake);
   OpAccept EvPublish].

Definition demo_ops : list op :=
  OpStart listener_env_ok (bstr "/tmp/macmu.sock") :: demo_connect 9 ++
  [OpCall (demo_send 100) (CHover 0 10 (-20));
   OpCall (demo_send 3) (CKeyboard 0 [0; 0; 4; 0; 0; 0; 0; 0])] ++
  demo_connect 10 ++ [OpCall (demo_send 100) (CTouch kTouchEnd 1 7 3 4)].

(** The line protocol on a scroll of one and a half notches up. *)
Example demo_scroll :
  command_line demo_special
    (CScroll 2 100 (-5) (S754_zero false) (S754_finite false 12582912 (-23))) =
  Some (bstr "s 2 100 -5 0 1500" ++ [NL], false).
Proof. vm_compute. reflexivity. Qed.

Lemma guest_lines_roundtrip_witness :
  in_range (CHover 0 10 (-20)) /\
  read_line (bstr "h 0 10 -20" ++ [NL]) = Some (MHover 0 10 (-20)).
Proof.
  assert (in_range (CHover 0 10 (-20))) as Hr by (unfold in_range, is_u32, is_s32; lia).
  split; [exact Hr|].
  pose proof (guest_lines_roundtrip demo_special (demo_send 0) _ init Hr) as (_ & _ & H).
  exact H.
Defined.

Lemma guest_stream_whole_lines_witness :
  exists st acked, run demo_special demo_ops init = Some (st, acked) /\
    past st = [bstr "h 0 10 -20" ++ [NL] ++ bstr "k 0"] /\
    opened st ≡ₚ closed st ++ live st.
Proof.
  assert (Forall op_in_range demo_ops) as HF.
  { repeat constructor; unfold is_u32, is_s32; simpl; lia. }
  destruct (run demo_special demo_ops init) as [[st acked]|] eqn:E; [|by vm_compute in E].
  exists st, acked. split; [reflexivity|]. split.
  - vm_compute in E. by simplify_eq.
  - exact (proj2 (guest_stream_whole_lines demo_special demo_ops st acked HF E)).
Defined.

(** [stop] does not wait for a handshake before it closes the client: a client
    whose handshake was in flight is published afterwards and is still connected
    when [stop] returns. *)
Lemma stop_leaves_late_client :
  exists st, run demo_special
    ([OpStart listener_env_ok (bstr "/tmp/macmu.sock"); OpAccept EvHead;
      OpAccept (EvAccept 9 false (0, true));
      OpStopBegin 11 (0, true);
      OpAccept (EvHandshake demo_handshake); OpAccept EvPublish; OpAccept EvHead;
      OpStopEnd]) init = Some (st, []) /\
    m_acceptThread st = None /\ ready st = true /\ live st = [9].
Proof. eexists. split; [vm_compute; reflexivity|]. repeat split. Qed.
