(* ===== verification/GuestControl.v ===== *)
(** [shell/core/guest_control_client.{h,cpp}]: the shell's request/response
    client of the guest agent. Requests and APK transfers are issued from any
    thread; the accept thread hands a connection to the line reader, which
    answers the callbacks. The operations below are the atomic pieces the
    threads interleave: an access to an atomic, a method of the pending table,
    or a section under [writeMutex_]. *)
From S2P Require Import Prelude Text StdMap Posix PendingTable UnixListener.

Module GuestControlClient.
Import PendingRequestTable.

Definition kMaximumApkBytes : Z := 2 * 1024 * 1024 * 1024.
Definition kApkTransferBufferBytes : Z := 256 * 1024.

(** ** State *)

(** [std::function] values are named by an integer; what a callback was run
    with. *)
Record response := { r_callback : Z; r_ok : bool; r_text : bytes }.

Definition table := list (Z * Pending Z).

Inductive accept_pc :=
  | GcHead | GcAccept | GcHandshake (fd : Z) | GcPublish (fd : Z)
  | GcServe (fd : Z) (buffer : bytes)
  | GcDisconnect (fd : Z) | GcFailAll (disconnected : bool) | GcExited.

(** Where a call of [request] is: past the connection check, registered and
    about to write, or about to take its callback back after a failure. *)
Inductive call :=
  | Checked (command : bytes) (timeout_ms : Z) (callback : option Z)
  | Added (id : Z) (command : bytes)
  | Failing (id : Z) (message : bytes).

(** Where the one active call of [install_apk] is. While it is [InWriting] it
    holds [writeMutex_]; [data] are the payload bytes sent so far. *)
Inductive install_pc :=
  | InNone
  | InChecking (timeout_ms : Z) (callback : option Z)
  | InAdding (timeout_ms : Z) (callback : option Z) (apkSize : Z)
  | InPrepared (id apkSize : Z)
  | InWriting (id apkSize : Z) (data : bytes) (remaining : Z) (writeFailed : bool)
  | InRelease (id : Z) (writeFailed : bool).

(** The published connection: [wire] is what it has accepted since the
    handshake, [wire_failed] whether a [send] on it has failed before it was shut
    down, and [wire_shut] whether it was shut down. *)
Record connection := { clientFd_ : Z; wire : bytes; wire_failed : bool; wire_shut : bool }.

Record t := {
  socketPath_ : bytes; listenFd_ : Z; conn : connection; stopRequested_ : bool;
  acceptThread_ : option accept_pc; fileTransferActive_ : bool;
  connectionCallback_ : bool; pending_ : table; nextRequestId_ : Z;
  calls : list call; install : install_pc;
  given : list Z;              (* callbacks passed to [request] and [install_apk] *)
  fired : list response;       (* callbacks that were run *)
  notified : list bool }.      (* what [connectionCallback_] was run with *)

Definition no_conn : connection :=
  {| clientFd_ := -1; wire := []; wire_failed := false; wire_shut := false |}.

Definition init : t := {|
  socketPath_ := []; listenFd_ := -1; conn := no_conn; stopRequested_ := false;
  acceptThread_ := None; fileTransferActive_ := false; connectionCallback_ := false;
  pending_ := []; nextRequestId_ := 1; calls := []; install := InNone;
  given := []; fired := []; notified := [] |}.

Definition ready (st : t) : bool := 0 <=? clientFd_ (conn st).

Definition set_conn (c : connection) (st : t) : t := {|
  socketPath_ := socketPath_ st; listenFd_ := listenFd_ st; conn := c;
  stopRequested_ := stopRequested_ st; acceptThread_ := acceptThread_ st;
  fileTransferActive_ := fileTransferActive_ st; connectionCallback_ := connectionCallback_ st;
  pending_ := pending_ st; nextRequestId_ := nextRequestId_ st; calls := calls st;
  install := install st; given := given st; fired := fired st; notified := notified st |}.

Definition set_thread (pc : option accept_pc) (st : t) : t := {|
  socketPath_ := socketPath_ st; listenFd_ := listenFd_ st; conn := conn st;
  stopRequested_ := stopRequested_ st; acceptThread_ := pc;
  fileTransferActive_ := fileTransferActive_ st; connectionCallback_ := connectionCallback_ st;
  pending_ := pending_ st; nextRequestId_ := nextRequestId_ st; calls := calls st;
  install := install st; given := given st; fired := fired st; notified := notified st |}.

Definition set_calls (cs : list call) (st : t) : t := {|
  socketPath_ := socketPath_ st; listenFd_ := listenFd_ st; conn := conn st;
  stopRequested_ := stopRequested_ st; acceptThread_ := acceptThread_ st;
  fileTransferActive_ := fileTransferActive_ st; connectionCallback_ := connectionCallback_ st;
  pending_ := pending_ st; nextRequestId_ := nextRequestId_ st; calls := cs;
  install := install st; given := given st; fired := fired st; notified := notified st |}.

Definition set_install (active : bool) (pc : install_pc) (st : t) : t := {|
  socketPath_ := socketPath_ st; listenFd_ := listenFd_ st; conn := conn st;
  stopRequested_ := stopRequested_ st; acceptThread_ := acceptThread_ st;
  fileTransferActive_ := active; connectionCallback_ := connectionCallback_ st;
  pending_ := pending_ st; nextRequestId_ := nextRequestId_ st; calls := calls st;
  install := pc; given := given st; fired := fired st; notified := notified st |}.

Definition set_pending (p : table) (st : t) : t := {|
  socketPath_ := socketPath_ st; listenFd_ := listenFd_ st; conn := conn st;
  stopRequested_ := stopRequested_ st; acceptThread_ := acceptThread_ st;
  fileTransferActive_ := fileTransferActive_ st; connectionCallback_ := connectionCallback_ st;
  pending_ := p; nextRequestId_ := nextRequestId_ st; calls := calls st;
  install := install st; given := given st; fired := fired st; notified := notified st |}.

Definition add_given (cb : option Z) (st : t) : t := {|
  socketPath_ := socketPath_ st; listenFd_ := listenFd_ st; conn := conn st;
  stopRequested_ := stopRequested_ st; acceptThread_ := acceptThread_ st;
  fileTransferActive_ := fileTransferActive_ st; connectionCallback_ := connectionCallback_ st;
  pending_ := pending_ st; nextRequestId_ := nextRequestId_ st; calls := calls st;
  install := install st; given := given st ++ option_list cb;
  fired := fired st; notified := notified st |}.

(** Running callbacks; an empty [std::function] is not run. *)
Definition fire (cbs : list Z) (ok : bool) (text : bytes) (st : t) : t := {|
  socketPath_ := socketPath_ st; listenFd_ := listenFd_ st; conn := conn st;
  stopRequested_ := stopRequested_ st; acceptThread_ := acceptThread_ st;
  fileTransferActive_ := fileTransferActive_ st; connectionCallback_ := connectionCallback_ st;
  pending_ := pending_ st; nextRequestId_ := nextRequestId_ st; calls := calls st;
  install := install st; given := given st;
  fired := fired st ++ map (fun cb => {| r_callback := cb; r_ok := ok; r_text := text |}) cbs;
  notified := notified st |}.

Definition notify (b : bool) (st : t) : t := {|
  socketPath_ := socketPath_ st; listenFd_ := listenFd_ st; conn := conn st;
  stopRequested_ := stopRequested_ st; acceptThread_ := acceptThread_ st;
  fileTransferActive_ := fileTransferActive_ st; connectionCallback_ := connectionCallback_ st;
  pending_ := pending_ st; nextRequestId_ := nextRequestId_ st; calls := calls st;
  install := install st; given := given st; fired := fired st;
  notified := notified st ++ (if connectionCallback_ st then [b] else []) |}.

(** ** The pending table *)

Definition take_and_fire (id : Z) (ok : bool) (text : bytes) (st : t) : t :=
  let '(cb, p) := take id (pending_ st) in
  fire (option_list cb) ok text (set_pending p st).

Definition fail_all_pending (message : bytes) (st : t) : t :=
  let '(cbs, p) := fail_all (pending_ st) in
  fire cbs false message (set_pending p st).

Definition sweep_timeouts (now : Z) (st : t) : t :=
  let '(cbs, p) := PendingRequestTable.sweep_timeouts now (pending_ st) in
  fire cbs false (bstr "guest request timed out") (set_pending p st).

(** [nextRequestId_.fetch_add(1)] and [if (callback) pending_.add(...)]. *)
Definition register (callback : option Z) (timeout_ms now : Z) (st : t) : Z * t :=
  let requestId := nextRequestId_ st in
  (requestId,
   {| socketPath_ := socketPath_ st; listenFd_ := listenFd_ st; conn := conn st;
      stopRequested_ := stopRequested_ st; acceptThread_ := acceptThread_ st;
      fileTransferActive_ := fileTransferActive_ st;
      connectionCallback_ := connectionCallback_ st;
      pending_ := match callback with
                  | Some _ => add requestId callback timeout_ms now (pending_ st)
                  | None => pending_ st
                  end;
      nextRequestId_ := u64 (requestId + 1); calls := calls st; install := install st;
      given := given st; fired := fired st; notified := notified st |}).

(** ** Writing *)

(** The send loop on the published connection. A socket that was shut down
    refuses to send. *)
Definition send_loop (data : bytes) (env : list wr_event) (c : connection) : bool * connection :=
  let '(ok, sent) := if wire_shut c then (bool_decide (data = []), [])
                     else (write_loop data env).1 in
  (ok, {| clientFd_ := clientFd_ c; wire := wire c ++ sent;
          wire_failed := wire_failed c || negb ok && negb (wire_shut c);
          wire_shut := wire_shut c |}).

Definition shutdown_conn (c : connection) : connection :=
  {| clientFd_ := clientFd_ c; wire := wire c; wire_failed := wire_failed c; wire_shut := true |}.

Definition request_line (id : Z) (command : bytes) : bytes := dec id ++ [SP] ++ command ++ [NL].

(** Whether [writeMutex_] is held across steps. *)
Definition lock_held (st : t) : bool :=
  match install st with InWriting _ _ _ _ _ => true | _ => false end.

(** *** [request] *)

Definition request (command : bytes) (timeout_ms : Z) (callback : option Z) (st : t) : t :=
  let st := add_given callback st in
  if clientFd_ (conn st) <? 0 then
    fire (option_list callback) false (bstr "guest agent not connected") st
  else set_calls (calls st ++ [Checked command timeout_ms callback]) st.

Definition request_add (now : Z) (command : bytes) (timeout_ms : Z) (callback : option Z)
    (rest : list call) (st : t) : t :=
  let '(id, st) := register callback timeout_ms now st in
  set_calls (rest ++ [Added id command]) st.

(** The section under [writeMutex_]; [None] while the call waits for it. *)
Definition request_write (env : list wr_event) (id : Z) (command : bytes) (rest : list call) (st : t)
    : option t :=
  let failed message := Some (set_calls (rest ++ [Failing id message]) st) in
  if lock_held st && negb (fileTransferActive_ st) then None else
  if fileTransferActive_ st then failed (bstr "APK transfer in progress") else
  if clientFd_ (conn st) <? 0 then failed (bstr "guest control write failed") else
  let '(ok, c) := send_loop (request_line id command) env (conn st) in
  Some (set_calls (rest ++ if (ok : bool) then [] else [Failing id (bstr "guest control write failed")])
          (set_conn c st)).

(** The next step of the call at position [i]. *)
Definition call_step (i : nat) (now : Z) (env : list wr_event) (st : t) : option t :=
  let rest := delete i (calls st) in
  match calls st !! i with
  | Some (Checked command timeout_ms callback) =>
      Some (request_add now command timeout_ms callback rest st)
  | Some (Added id command) => request_write env id command rest st
  | Some (Failing id message) => Some (take_and_fire id false message (set_calls rest st))
  | None => None
  end.

(** *** [install_apk] *)

Definition install_begin (timeout_ms : Z) (callback : option Z) (st : t) : t :=
  let st := add_given callback st in
  if fileTransferActive_ st then
    fire (option_list callback) false (bstr "another APK transfer is already in progress") st
  else set_install true (InChecking timeout_ms callback) st.

(** What [open] and [fstat] answer: the error text of a failed [open], or
    whether [fstat] succeeded, whether the file is regular, and [st_size]. *)
Inductive apk_file :=
  | ApkOpenFailed (error : bytes)
  | ApkOpened (fstat_ok regular : bool) (st_size : Z).

Definition install_check (file : apk_file) (st : t) : option t :=
  match install st with
  | InChecking timeout_ms callback =>
      let failed message :=
        Some (fire (option_list callback) false message (set_install false InNone st)) in
      match file with
      | ApkOpenFailed error => failed (bstr "could not open APK: " ++ error)
      | ApkOpened fstat_ok regular st_size =>
          if negb fstat_ok || negb regular || (st_size <=? 0) then
            failed (bstr "APK must be a non-empty regular file") else
          if kMaximumApkBytes <? st_size then
            failed (bstr "APK exceeds the 2 GiB transfer limit") else
          if clientFd_ (conn st) <? 0 then failed (bstr "guest agent not connected") else
          Some (set_install true (InAdding timeout_ms callback st_size) st)
      end
  | _ => None
  end.

Definition install_add (now : Z) (st : t) : option t :=
  match install st with
  | InAdding timeout_ms callback apkSize =>
      let '(id, st) := register callback timeout_ms now st in
      Some (set_install true (InPrepared id apkSize) st)
  | _ => None
  end.

Definition install_header (id apkSize : Z) : bytes :=
  dec id ++ bstr " install " ++ dec apkSize ++ [NL].

(** Taking [writeMutex_] and sending the header. *)
Definition install_lock (env : list wr_event) (st : t) : option t :=
  match install st with
  | InPrepared id apkSize =>
      if clientFd_ (conn st) <? 0 then
        Some (set_install true (InWriting id apkSize [] apkSize true) st)
      else
        let '(ok, c) := send_loop (install_header id apkSize) env (conn st) in
        Some (set_install true (InWriting id apkSize [] apkSize (negb ok)) (set_conn c st))
  | _ => None
  end.

(** One iteration of the copy loop: [read] of at most [wanted] bytes, then the
    send loop. *)
Definition install_copy (answer : rd_event) (env : list wr_event) (st : t) : option t :=
  match install st with
  | InWriting id apkSize data remaining writeFailed =>
      if writeFailed || (remaining <=? 0) || stopRequested_ st then None else
      let wanted := Z.to_nat (Z.min remaining kApkTransferBufferBytes) in
      match answer with
      | RdIntr => Some st
      | RdErr => Some (set_install true (InWriting id apkSize data remaining true) st)
      | RdChunk bs =>
          let buffer := firstn wanted bs in
          if (length buffer =? 0)%nat then
            Some (set_install true (InWriting id apkSize data remaining true) st)
          else
            let '(ok, c) := send_loop buffer env (conn st) in
            Some (set_install true
              (InWriting id apkSize (data ++ buffer) (remaining - Z.of_nat (length buffer)) (negb ok))
              (set_conn c st))
      end
  | _ => None
  end.

(** The end of the section: a transfer that did not complete shuts the
    connection down. *)
Definition install_unlock (st : t) : option t :=
  match install st with
  | InWriting id apkSize data remaining writeFailed =>
      if negb writeFailed && negb (remaining <=? 0) && negb (stopRequested_ st) then None else
      let writeFailed := writeFailed || negb (remaining =? 0) in
      let st := if writeFailed && (0 <=? clientFd_ (conn st))
                then set_conn (shutdown_conn (conn st)) st else st in
      Some (set_install true (InRelease id writeFailed) st)
  | _ => None
  end.

Definition install_release (st : t) : option t :=
  match install st with
  | InRelease id writeFailed =>
      let st := set_install false InNone st in
      Some (if writeFailed
            then set_calls (calls st ++ [Failing id (bstr "APK transfer failed")]) st else st)
  | _ => None
  end.

(** ** The line reader *)

(** [std::strncmp(rest, word, n) == 0] followed by a check of the byte after. *)
Definition word_then (word rest : bytes) : option bytes :=
  if bool_decide (firstn (length word) rest = word) then
    match drop (length word) rest with
    | [] => Some []
    | b :: rest' => if bool_decide (b = SP) then Some rest' else None
    end
  else None.

(** The response a line holds: its id, whether it is ok, and the payload. *)
Definition parse_line (line : bytes) : option (Z * bool * bytes) :=
  let s := c_str line in
  match strtoull s with
  | None => None
  | Some r =>
      if st_errno r then None else
      match st_end r with
      | b :: rest =>
          if bool_decide (b = SP) then
            match word_then (bstr "ok") rest with
            | Some payload => Some (st_value r, true, payload)
            | None =>
                match word_then (bstr "err") rest with
                | Some payload => Some (st_value r, false, payload)
                | None => None
                end
            end
          else None
      | [] => None
      end
  end.

Definition handle_line (line : bytes) (st : t) : t :=
  match parse_line line with
  | Some (id, ok, payload) => take_and_fire id ok payload st
  | None => st
  end.

(** The next complete line of the buffer, without its CR, and what follows it. *)
Definition chomp (line : bytes) : bytes :=
  match last line with
  | Some b => if bool_decide (b = CR) then firstn (length line - 1) line else line
  | None => line
  end.

Definition next_line (buffer : bytes) : option (bytes * bytes) :=
  match split_at NL buffer with
  | Some (line, rest) => Some (chomp line, rest)
  | None => None
  end.

(** [4u << 20]. *)
Definition max_line : Z := Z.shiftl 4 20.

(** [if (!line.empty()) handle_line(line)]. *)
Definition handle_nonempty (line : bytes) (st : t) : t :=
  if (length line =? 0)%nat then st else handle_line line st.

(** What the reader waits for: [poll] timing out, being interrupted or failing,
    or what [read] answers. *)
Inductive serve_event :=
  | SvLine | SvTimeout (now : Z) | SvPollIntr | SvPollErr | SvRead (answer : rd_event).

Definition chunk_size : Z := 16 * 1024.

(** One step of [serve_connection]: a buffered line is handled first; then the
    size check, the stop check and one [poll] and [read]. The result is the new
    buffer, or [None] when the function returns. *)
Definition serve_connection (ev : serve_event) (buffer : bytes) (st : t) : option bytes * t :=
  match next_line buffer with
  | Some (line, rest) => (Some rest, handle_nonempty line st)
  | None =>
      if max_line <? Z.of_nat (length buffer) then (None, st) else
      if stopRequested_ st then (None, st) else
      match ev with
      | SvLine | SvPollIntr => (Some buffer, st)
      | SvTimeout now => (Some buffer, sweep_timeouts now st)
      | SvPollErr => (None, st)
      | SvRead RdIntr => (Some buffer, st)
      | SvRead RdErr => (None, st)
      | SvRead (RdChunk bs) =>
          let chunk := firstn (Z.to_nat chunk_size) bs in
          if (length chunk =? 0)%nat then (None, st) else (Some (buffer ++ chunk), st)
      end
  end.

(** ** The accept thread *)

Inductive accept_event :=
  | EvHead
  | EvAccept (fd : Z) (eintr : bool) (fcntl : Z * bool)
  | EvHandshake (env : UnixListener.handshake_env)
  | EvPublish
  | EvServe (ev : serve_event)
  | EvDisconnect
  | EvFailAll.

(** Sections under [writeMutex_] wait while an APK transfer holds it ([None]). *)
Definition accept_thread (ev : accept_event) (st : t) : option t :=
  match acceptThread_ st, ev with
  | Some GcHead, EvHead =>
      Some (set_thread (Some (if stopRequested_ st then GcExited
                              else if listenFd_ st <? 0 then GcExited else GcAccept)) st)
  | Some GcAccept, EvAccept fd _ fcntl =>
      Some (set_thread (Some (
        if fd <? 0 then GcHead else
        if negb (set_close_on_exec fcntl.1 fcntl.2 true).1 then GcHead else GcHandshake fd)) st)
  | Some (GcHandshake fd), EvHandshake env =>
      Some (set_thread (Some (
        if negb (UnixListener.perform_unix_pipe_handshake env) then GcHead else GcPublish fd)) st)
  | Some (GcPublish fd), EvPublish =>
      if lock_held st then None else
      if stopRequested_ st then Some (set_thread (Some GcExited) st) else
      Some (notify true (set_thread (Some (GcServe fd []))
        (set_conn {| clientFd_ := fd; wire := []; wire_failed := false; wire_shut := false |} st)))
  | Some (GcServe fd buffer), EvServe ev =>
      let '(buffer', st) := serve_connection ev buffer st in
      Some (set_thread (Some (match buffer' with
                              | Some b => GcServe fd b | None => GcDisconnect fd end)) st)
  | Some (GcDisconnect fd), EvDisconnect =>
      if lock_held st then None else
      let disconnected := clientFd_ (conn st) =? fd in
      let st := if disconnected then set_conn no_conn st else st in
      Some (set_thread (Some (GcFailAll disconnected)) st)
  | Some (GcFailAll disconnected), EvFailAll =>
      let st := fail_all_pending (bstr "guest agent disconnected") st in
      Some (set_thread (Some GcHead) (if disconnected then notify false st else st))
  | _, _ => None
  end.

(** ** [start] and [stop] *)

Definition set_listen (path : bytes) (fd : Z) (stop cb : bool) (st : t) : t := {|
  socketPath_ := path; listenFd_ := fd; conn := conn st; stopRequested_ := stop;
  acceptThread_ := acceptThread_ st; fileTransferActive_ := fileTransferActive_ st;
  connectionCallback_ := cb; pending_ := pending_ st; nextRequestId_ := nextRequestId_ st;
  calls := calls st; install := install st; given := given st; fired := fired st;
  notified := notified st |}.

(** Up to the wake-up of the accept thread. *)
Definition stop_begin (st : t) : t :=
  set_listen (socketPath_ st) (-1) true (connectionCallback_ st) st.

(** The section under [writeMutex_]. *)
Definition stop_shutdown (st : t) : option t :=
  if lock_held st then None else
  Some (if 0 <=? clientFd_ (conn st) then set_conn (shutdown_conn (conn st)) st else st).

(** The join and what follows it. *)
Definition stop_end (st : t) : option t :=
  match acceptThread_ st with
  | None | Some GcExited =>
      let st := set_listen [] (listenFd_ st) (stopRequested_ st) (connectionCallback_ st)
                  (set_thread None st) in
      let st := fail_all_pending (bstr "guest control client stopped") st in
      Some (set_listen (socketPath_ st) (listenFd_ st) (stopRequested_ st) false st)
  | _ => None
  end.

(** [start] after its call of [stop]. *)
Definition start (env : UnixListener.listener_env) (path : bytes) (callback : bool) (st : t)
    : bool * t :=
  let fd := (UnixListener.create_unix_listener env path).1 in
  if fd <? 0 then (false, st)
  else (true, set_thread (Some GcHead) (set_listen path fd false callback st)).

(** ** Interleavings *)

Inductive op :=
  | OpRequest (command : bytes) (timeout_ms : Z) (callback : option Z)
  | OpCall (i : nat) (now : Z) (env : list wr_event)
  | OpInstall (timeout_ms : Z) (callback : option Z)
  | OpInstallCheck (file : apk_file)
  | OpInstallAdd (now : Z)
  | OpInstallLock (env : list wr_event)
  | OpInstallCopy (answer : rd_event) (env : list wr_event)
  | OpInstallUnlock
  | OpInstallRelease
  | OpAccept (ev : accept_event)
  | OpStopBegin | OpStopShutdown | OpStopEnd
  | OpStart (env : UnixListener.listener_env) (path : bytes) (callback : bool).

Definition step (o : op) (st : t) : option t :=
  match o with
  | OpRequest c tm cb => Some (request c tm cb st)
  | OpCall i now env => call_step i now env st
  | OpInstall tm cb => Some (install_begin tm cb st)
  | OpInstallCheck f => install_check f st
  | OpInstallAdd now => install_add now st
  | OpInstallLock env => install_lock env st
  | OpInstallCopy a env => install_copy a env st
  | OpInstallUnlock => install_unlock st
  | OpInstallRelease => install_release st
  | OpAccept ev => accept_thread ev st
  | OpStopBegin => Some (stop_begin st)
  | OpStopShutdown => stop_shutdown st
  | OpStopEnd => stop_end st
  | OpStart env path cb =>
      match acceptThread_ st with
      | None => Some (start env path cb st).2
      | Some _ => None
      end
  end.

Fixpoint run (ops : list op) (st : t) : option t :=
  match ops with
  | [] => Some st
  | o :: ops => st ← step o st; run ops st
  end.

End GuestControlClient.
