(* ===== verification/GuestControlLines.v ===== *)
(** The guest control client's line reader: responses, and independence of how
    the byte stream is cut into reads. *)
From S2P Require Import Prelude Text StdMap Posix PendingTable UnixListener GuestControl.
Import GuestControlClient.

(** ** Responses *)

(** The agent's side of the protocol: "<id> ok [payload]" and "<id> err [message]". *)
Definition response_line (id : Z) (ok : bool) (payload : bytes) : bytes :=
  dec id ++ [SP] ++ bstr (if ok then "ok" else "err") ++
  match payload with [] => [] | _ => SP :: payload end.

#[local] Arguments dec : simpl never.

Lemma word_then_word w rest :
  word_then w (w ++ match rest with [] => [] | _ => SP :: rest end) = Some rest.
Proof.
  unfold word_then. rewrite take_app_length, bool_decide_true by done.
  rewrite drop_app_length. by destruct rest.
Qed.

Lemma response_line_text id ok payload :
  is_u64 id -> NUL ∉ payload -> NUL ∉ response_line id ok payload.
Proof.
  intros [H0 _] Hp. unfold response_line. rewrite !not_elem_of_app. repeat split.
  - apply dec_not_in; [done|]. left. by vm_compute.
  - apply split_at_None. reflexivity.
  - apply split_at_None. by destruct ok.
  - destruct payload; [done|]. apply not_elem_of_cons. by split.
Qed.

Lemma parse_response id ok payload :
  is_u64 id -> NUL ∉ payload ->
  parse_line (response_line id ok payload) = Some (id, ok, payload).
Proof.
  intros Hid Hp. unfold parse_line. rewrite c_str_id by by apply response_line_text.
  unfold response_line at 1. rewrite strtoull_dec by done. cbn [st_errno st_end st_value app].
  rewrite bool_decide_true by done. destruct ok.
  - by rewrite word_then_word.
  - rewrite word_then_word. by destruct payload.
Qed.

(** A response line of the agent, for any 64-bit id and any payload
    without NUL, runs the callback registered under that id (if it is still
    registered) once, with the status and the payload the agent sent, removes it,
    and touches no other request. *)
Theorem response_roundtrip id ok payload st :
  is_u64 id -> NUL ∉ payload ->
  let st' := handle_line (response_line id ok payload) st in
  fired st' = fired st ++
    match find id (pending_ st) ≫= PendingRequestTable.p_callback with
    | Some cb => [{| r_callback := cb; r_ok := ok; r_text := payload |}]
    | None => []
    end /\
  find id (pending_ st') = None /\
  (forall id', id' <> id -> find id' (pending_ st') = find id' (pending_ st)) /\
  calls st' = calls st /\ conn st' = conn st /\ nextRequestId_ st' = nextRequestId_ st.
Proof.
  intros Hid Hp st'. unfold st', handle_line. rewrite parse_response by done.
  unfold take_and_fire.
  pose proof (PendingRequestTable.take_find id (pending_ st)) as Hf.
  pose proof (PendingRequestTable.take_gone id (pending_ st)) as Hg.
  pose proof (fun id' => PendingRequestTable.take_other id id' (pending_ st)) as Ho.
  destruct (PendingRequestTable.take id (pending_ st)) as [cb p]. simpl in *.
  rewrite <- Hf. split; [by destruct cb|]. done.
Qed.

(** ** Cutting the stream into lines *)

(** The complete lines of a byte string and what is left after the last one. *)
Fixpoint split_lines (bs : bytes) : list bytes * bytes :=
  match bs with
  | [] => ([], [])
  | b :: bs' =>
      let '(ls, r) := split_lines bs' in
      if decide (b = NL) then ([] :: ls, r)
      else match ls with l :: ls' => ((b :: l) :: ls', r) | [] => ([], b :: r) end
  end.

Lemma split_lines_None bs : split_at NL bs = None -> split_lines bs = ([], bs).
Proof.
  induction bs as [|b bs IH]; intros H; [done|]. simpl in *.
  case_decide; [done|]. destruct (split_at NL bs) as [[]|]; [done|]. by rewrite IH.
Qed.

Lemma split_lines_Some bs l r :
  split_at NL bs = Some (l, r) -> split_lines bs = (l :: (split_lines r).1, (split_lines r).2).
Proof.
  revert l. induction bs as [|b bs IH]; intros l H; [done|]. simpl in *.
  case_decide; simplify_eq; [by destruct (split_lines r)|].
  destruct (split_at NL bs) as [[l' r']|]; simplify_eq. by rewrite (IH _ eq_refl).
Qed.

Lemma split_lines_app bs1 bs2 :
  split_lines (bs1 ++ bs2) =
    ((split_lines bs1).1 ++ (split_lines ((split_lines bs1).2 ++ bs2)).1,
     (split_lines ((split_lines bs1).2 ++ bs2)).2).
Proof.
  induction bs1 as [|b bs1 IH]; simpl; [by destruct (split_lines bs2)|].
  rewrite IH. destruct (split_lines bs1) as [[|l ls] r]; simpl;
    destruct (decide (b = NL)) as [Hb|Hb]; simpl; try done.
  destruct (split_lines (r ++ bs2)) as [[|l' ls'] r']; by rewrite !(decide_False _ _ Hb).
Qed.

Lemma split_lines_rest bs : NL ∉ (split_lines bs).2.
Proof.
  induction bs as [|b bs IH]; simpl; [apply not_elem_of_nil|].
  destruct (split_lines bs) as [[|l ls] r]; case_decide; simpl in *; try done.
  apply not_elem_of_cons. by split.
Qed.

(** Text before the first newline stays at the front of a line or of the rest. *)
Lemma split_lines_bound (n : Z) r bs :
  NL ∉ r ->
  Forall (fun l => Z.of_nat (length l) <= n) (split_lines (r ++ bs)).1 ->
  Z.of_nat (length (split_lines (r ++ bs)).2) <= n ->
  Z.of_nat (length r) <= n.
Proof.
  intros Hr Hl He. destruct (split_at NL bs) as [[l r']|] eqn:E.
  - apply split_at_Some in E as [-> Hn]. rewrite (assoc_L (++)) in Hl.
    erewrite split_lines_Some in Hl by (apply split_at_app; by apply not_elem_of_app).
    apply Forall_cons in Hl as [Hl _]. rewrite length_app in Hl. lia.
  - rewrite split_lines_None in He.
    + cbn [snd] in He. rewrite length_app in He. lia.
    + apply split_at_None, not_elem_of_app. split; [done|]. by apply split_at_None.
Qed.

(** ** The reader over a whole stream *)

(** Handling the lines the buffer holds, [n] steps of the reader at most. *)
Fixpoint drain (n : nat) (buffer : bytes) (st : t) : option bytes * t :=
  match n with
  | O => (Some buffer, st)
  | S n =>
      match serve_connection SvLine buffer st with
      | (Some buffer', st') => drain n buffer' st'
      | (None, st') => (None, st')
      end
  end.

(** The reader given the chunks that [read] returns, one after the other: each
    chunk is read when no complete line is buffered. *)
Fixpoint serve_chunks (chunks : list bytes) (buffer : bytes) (st : t) : option bytes * t :=
  match chunks with
  | [] => (Some buffer, st)
  | bs :: chunks =>
      match serve_connection (SvRead (RdChunk bs)) buffer st with
      | (Some buffer', st') =>
          match drain (S (length buffer')) buffer' st' with
          | (Some buffer'', st'') => serve_chunks chunks buffer'' st''
          | (None, st'') => (None, st'')
          end
      | (None, st') => (None, st')
      end
  end.

(** The reference: the lines of the stream, handled in order. *)
Definition handle_lines (ls : list bytes) (st : t) : t :=
  foldl (fun st l => handle_nonempty (chomp l) st) st ls.

Lemma handle_line_stop line st : stopRequested_ (handle_line line st) = stopRequested_ st.
Proof.
  unfold handle_line, take_and_fire. destruct (parse_line line) as [[[id ok] payload]|]; [|done].
  by destruct (PendingRequestTable.take id (pending_ st)).
Qed.

Lemma handle_nonempty_stop line st : stopRequested_ (handle_nonempty line st) = stopRequested_ st.
Proof. unfold handle_nonempty. case_match; [done|apply handle_line_stop]. Qed.

Lemma handle_lines_stop ls st : stopRequested_ (handle_lines ls st) = stopRequested_ st.
Proof.
  revert st. induction ls as [|l ls IH]; intros st; [done|]. simpl.
  rewrite IH. apply handle_nonempty_stop.
Qed.

Lemma next_line_spec buffer :
  match next_line buffer with
  | Some (line, rest) =>
      exists l, line = chomp l /\ split_lines buffer = (l :: (split_lines rest).1, (split_lines rest).2) /\
        (length rest < length buffer)%nat
  | None => split_lines buffer = ([], buffer)
  end.
Proof.
  unfold next_line. destruct (split_at NL buffer) as [[l r]|] eqn:E.
  - exists l. split; [done|]. split; [by apply split_lines_Some|]. by eapply split_at_length.
  - by apply split_lines_None.
Qed.

Lemma drain_idle n buffer st :
  next_line buffer = None -> Z.of_nat (length buffer) <= max_line -> stopRequested_ st = false ->
  drain n buffer st = (Some buffer, st).
Proof.
  intros Hl Hr Hst. induction n as [|n IH]; [done|]. simpl. unfold serve_connection.
  by rewrite Hl, (proj2 (Z.ltb_ge _ _) Hr), Hst.
Qed.

(** Draining handles exactly the complete lines, in order, and keeps the rest. *)
Lemma drain_lines n buffer st :
  (length buffer < n)%nat -> stopRequested_ st = false ->
  Z.of_nat (length (split_lines buffer).2) <= max_line ->
  drain n buffer st = (Some (split_lines buffer).2, handle_lines (split_lines buffer).1 st).
Proof.
  revert buffer st. induction n as [|n IH]; intros buffer st Hn Hst Hr; [lia|]. simpl.
  unfold serve_connection. pose proof (next_line_spec buffer) as Hl.
  destruct (next_line buffer) as [[line rest]|] eqn:Enl.
  - destruct Hl as (l & -> & E & Hlen). rewrite E in *. simpl in *.
    apply IH; [lia| |done]. by rewrite handle_nonempty_stop.
  - rewrite Hl in Hr |- *. simpl in Hr. rewrite (proj2 (Z.ltb_ge _ _) Hr), Hst. simpl.
    by apply drain_idle.
Qed.

(** C25: the reader does not depend on how the stream is cut into reads:
    for every sequence of non-empty reads, the callbacks that run, their order
    and results, and the bytes kept for the next read are those of handling the
    complete lines of the whole stream one by one (lines up to the 4 MiB limit,
    empty lines skipped, a CR before the newline dropped). *)
Theorem serve_chunks_lines chunks buffer st :
  stopRequested_ st = false -> NL ∉ buffer ->
  Forall (fun bs => 0 < Z.of_nat (length bs) <= chunk_size) chunks ->
  let '(ls, rest) := split_lines (buffer ++ concat chunks) in
  Forall (fun l => Z.of_nat (length l) <= max_line) ls -> Z.of_nat (length rest) <= max_line ->
  serve_chunks chunks buffer st = (Some rest, handle_lines ls st).
Proof.
  intros Hst Hb HF. revert buffer st Hst Hb.
  induction HF as [|bs chunks [Hpos Hsz] HF IH]; intros buffer st Hst Hb.
  { simpl. rewrite app_nil_r, split_lines_None by by apply split_at_None. done. }
  pose proof (split_lines_app (buffer ++ bs) (concat chunks)) as Happ.
  rewrite <- (assoc_L (++)) in Happ. cbn [concat]. rewrite Happ. intros Hl Hr.
  pose proof (split_lines_bound max_line buffer (bs ++ concat chunks) Hb) as Hbuf.
  rewrite Happ in Hbuf. specialize (Hbuf Hl Hr).
  apply Forall_app in Hl as [_ Hl].
  assert (NL ∉ (split_lines (buffer ++ bs)).2) as Hnl by apply split_lines_rest.
  pose proof (split_lines_bound max_line _ _ Hnl Hl Hr) as Hkeep.
  specialize (IH (split_lines (buffer ++ bs)).2 (handle_lines (split_lines (buffer ++ bs)).1 st)).
  destruct (split_lines ((split_lines (buffer ++ bs)).2 ++ concat chunks)) as [ls rest].
  cbn [fst snd] in *. cbn [serve_chunks]. unfold serve_connection.
  pose proof (next_line_spec buffer) as Hnext.
  rewrite (split_lines_None buffer) in Hnext by by apply split_at_None.
  destruct (next_line buffer) as [[line r]|]; [by destruct Hnext as (? & _ & ? & _)|].
  rewrite (proj2 (Z.ltb_ge _ _) Hbuf), Hst. rewrite take_ge by lia.
  destruct (Nat.eqb_spec (length bs) 0) as [E|_]; [lia|].
  rewrite drain_lines by (done || lia). rewrite IH; [|by rewrite handle_lines_stop|done..].
  unfold handle_lines. by rewrite foldl_app.
Qed.

(** ** Concrete streams *)

(** Two outstanding requests, 5 and 7, on a published connection. *)
Definition demo_client : t :=
  set_thread (Some (GcServe 9 []))
    (set_conn {| clientFd_ := 9; wire := []; wire_failed := false; wire_shut := false |}
      (set_pending (PendingRequestTable.add 7 (Some 70) 1000 0
        (PendingRequestTable.add 5 (Some 50) 1000 0 [])) init)).

Definition demo_chunks : list bytes :=
  [bstr "5 o"; bstr "k hi" ++ [CR; NL] ++ bstr "7 e"; bstr "rr" ++ [NL] ++ bstr "x"].

Lemma response_roundtrip_witness :
  is_u64 5 /\ (NUL ∉ bstr "hi") /\
  fired (handle_line (bstr "5 ok hi") demo_client) =
    [{| r_callback := 50; r_ok := true; r_text := bstr "hi" |}].
Proof.
  assert (is_u64 5) as H5 by (unfold is_u64; lia).
  assert (NUL ∉ bstr "hi") as Hn by (apply split_at_None; reflexivity).
  split; [exact H5|]. split; [exact Hn|].
  exact (proj1 (response_roundtrip 5 true (bstr "hi") demo_client H5 Hn)).
Defined.

Lemma serve_chunks_lines_witness :
  stopRequested_ demo_client = false /\ (NL ∉ ([] : bytes)) /\
  serve_chunks demo_chunks [] demo_client =
    (Some (bstr "x"), handle_lines [bstr "5 ok hi" ++ [CR]; bstr "7 err"] demo_client).
Proof.
  assert (NL ∉ ([] : bytes)) as Hn by apply not_elem_of_nil.
  split; [reflexivity|]. split; [exact Hn|].
  apply (serve_chunks_lines demo_chunks [] demo_client eq_refl Hn).
  - repeat constructor; vm_compute; congruence.
  - repeat constructor; vm_compute; congruence.
  - vm_compute. congruence.
Defined.
