(* ===== verification/GuestControlSafety.v ===== *)
(** The guest control client under every interleaving of its threads: callbacks
    run exactly once, the wire carries whole messages, and a stopped client is
    never ready. *)
From S2P Require Import Prelude Text StdMap Posix PendingTable UnixListener GuestControl GuestControlLines.
Import GuestControlClient.

(** ** The account of callbacks *)

Definition call_callbacks (c : call) : list Z :=
  match c with Checked _ _ cb => option_list cb | _ => [] end.

Definition install_callbacks (pc : install_pc) : list Z :=
  match pc with InChecking _ cb | InAdding _ cb _ => option_list cb | _ => [] end.

(** Every callback that was passed in has been run, is registered, or belongs to
    a call that has not registered it yet. *)
Definition account (st : t) : Prop :=
  given st ≡ₚ map r_callback (fired st) ++ PendingRequestTable.callbacks (pending_ st) ++
    (calls st ≫= call_callbacks) ++ install_callbacks (install st).

(** Ids are below the next one, so registering never overwrites an entry. *)
Definition ids_ok (n : Z) (st : t) : Prop :=
  sorted (pending_ st) /\ Forall (fun k => k < nextRequestId_ st) (keys (pending_ st)) /\
  1 <= nextRequestId_ st <= n.

(** The calls that will still take their entry out of the table. *)
Definition call_id (c : call) : option Z :=
  match c with Added id _ | Failing id _ => Some id | Checked _ _ _ => None end.

Definition install_ids (pc : install_pc) : list Z :=
  match pc with
  | InPrepared id _ | InWriting id _ _ _ true | InRelease id true => [id]
  | _ => []
  end.

Definition in_flight (st : t) : list Z := omap call_id (calls st) ++ install_ids (install st).

(** Once the accept thread is gone, every registered request belongs to such a
    call. *)
Definition none_lost (st : t) : Prop :=
  acceptThread_ st = None -> Forall (fun k => k ∈ in_flight st) (keys (pending_ st)).

(** The published descriptor is the one the accept thread serves. *)
Definition thread_fd (pc : option accept_pc) : Z :=
  match pc with Some (GcServe fd _ | GcDisconnect fd) => fd | _ => -1 end.

Definition published (st : t) : Prop :=
  clientFd_ (conn st) = thread_fd (acceptThread_ st) /\
  match acceptThread_ st with
  | Some (GcHandshake fd | GcPublish fd | GcServe fd _ | GcDisconnect fd) => 0 <= fd
  | _ => True
  end.

Definition transfer_flag (st : t) : Prop :=
  fileTransferActive_ st = match install st with InNone => false | _ => true end.

Record inv (n : Z) (st : t) : Prop := {
  inv_account : account st;
  inv_ids : ids_ok n st;
  inv_lost : none_lost st;
  inv_published : published st;
  inv_transfer : transfer_flag st }.

Lemma control_inv_init : inv 1 init.
Proof. split; [unfold account; reflexivity| |intros _; constructor|done..]. split; [constructor|]. split; [constructor|done]. Qed.

Lemma inv_le n n' st : n <= n' -> inv n st -> inv n' st.
Proof. intros Hn [H1 (? & ? & ?) H3 H4 H5]. split; try done. split; [done|]. split; [done|lia]. Qed.

(** ** Pieces shared by the steps *)

Lemma fired_fire cbs ok text st :
  map r_callback (fired (fire cbs ok text st)) = map r_callback (fired st) ++ cbs.
Proof. simpl. rewrite map_app, map_map. simpl. by rewrite map_id. Qed.

(** Running callbacks that were moved out of the rest of the account. *)
Lemma account_fire cbs ok text st X :
  given st ≡ₚ map r_callback (fired st) ++ cbs ++ X ->
  given (fire cbs ok text st) ≡ₚ map r_callback (fired (fire cbs ok text st)) ++ X.
Proof. intros H. rewrite fired_fire, <- app_assoc. exact H. Qed.

Lemma take_and_fire_inv n id ok text st :
  inv n st -> acceptThread_ st <> None -> inv n (take_and_fire id ok text st).
Proof.
  intros [Ha (Hs & Hk & Hn) Hl Hp Ht] Hth. unfold take_and_fire.
  pose proof (PendingRequestTable.callbacks_take id _ Hs) as Hc.
  pose proof (PendingRequestTable.take_sorted id _ Hs) as Hs'.
  pose proof (PendingRequestTable.take_keys _ id _ Hk) as Hk'.
  destruct (PendingRequestTable.take id (pending_ st)) as [cb p]. simpl in *.
  split; [|done|by intros ?|done|done].
  apply account_fire. simpl. unfold account in Ha. rewrite Ha, Hc. solve_Permutation.
Qed.

Lemma fail_all_inv n message st : inv n st -> inv n (fail_all_pending message st).
Proof.
  intros [Ha (Hs & Hk & Hn) Hl Hp Ht]. unfold fail_all_pending. simpl.
  split; [|unfold ids_ok; simpl; split; [constructor|split; [constructor|done]]
         |intros _; simpl; constructor|done|done].
  apply account_fire. simpl. exact Ha.
Qed.

Lemma sweep_inv n now st :
  inv n st -> acceptThread_ st <> None -> inv n (sweep_timeouts now st).
Proof.
  intros [Ha (Hs & Hk & Hn) Hl Hp Ht] Hth. unfold sweep_timeouts.
  pose proof (PendingRequestTable.callbacks_sweep now (pending_ st)) as Hc.
  pose proof (PendingRequestTable.sweep_sorted now _ Hs) as Hs'.
  pose proof (PendingRequestTable.sweep_keys _ now _ Hk) as Hk'.
  destruct (PendingRequestTable.sweep_timeouts now (pending_ st)) as [cbs p]. simpl in *.
  split; [|done|by intros ?|done|done].
  apply account_fire. simpl. unfold account in Ha. rewrite Ha, Hc. solve_Permutation.
Qed.

(** Changing only the thread or the connection. *)
Lemma inv_thread n st st' :
  inv n st ->
  given st' = given st -> fired st' = fired st -> pending_ st' = pending_ st ->
  calls st' = calls st -> install st' = install st -> nextRequestId_ st' = nextRequestId_ st ->
  fileTransferActive_ st' = fileTransferActive_ st ->
  (acceptThread_ st' = None -> acceptThread_ st = None) -> published st' -> inv n st'.
Proof.
  intros [Ha (Hs & Hk & Hn) Hl Hp Ht] E1 E2 E3 E4 E5 E6 E7 E8 Hp'.
  split; unfold account, ids_ok, none_lost, in_flight, transfer_flag;
    rewrite ?E1, ?E2, ?E3, ?E4, ?E5, ?E6, ?E7; try done. intros H. apply Hl. auto.
Qed.

(** Registering a request, whose callback [cb] the caller held. *)
Lemma register_account n cb timeout now st X id st' :
  register cb timeout now st = (id, st') ->
  ids_ok n st -> n < 2 ^ 64 - 1 ->
  given st ≡ₚ map r_callback (fired st) ++ PendingRequestTable.callbacks (pending_ st) ++
    option_list cb ++ X ->
  (id = nextRequestId_ st /\ calls st' = calls st /\ install st' = install st /\ conn st' = conn st /\
  acceptThread_ st' = acceptThread_ st /\ fileTransferActive_ st' = fileTransferActive_ st) /\
  ids_ok (n + 1) st' /\
  given st' ≡ₚ map r_callback (fired st') ++ PendingRequestTable.callbacks (pending_ st') ++ X /\
  (forall k, k ∈ keys (pending_ st') -> k = id \/ k ∈ keys (pending_ st)).
Proof.
  intros [= <- <-] (Hs & Hk & Hn) Hlt Ha. split; [done|].
  assert (u64 (nextRequestId_ st + 1) = nextRequestId_ st + 1) as Hu
    by (apply u64_id; unfold is_u64; lia).
  assert (Forall (fun k => k < nextRequestId_ st + 1) (keys (pending_ st))) as Hk'
    by (eapply Forall_impl; [exact Hk|]; simpl; lia).
  assert (find (nextRequestId_ st) (pending_ st) = None) as Hf.
  { apply find_None. intros Hin. rewrite Forall_forall in Hk. specialize (Hk _ Hin). lia. }
  unfold ids_ok. simpl. rewrite Hu. destruct cb as [cb|]; simpl in *.
  - repeat split; try lia; try done.
    + by apply PendingRequestTable.add_sorted.
    + apply assign_keys_Forall; [lia|done].
    + rewrite Ha, PendingRequestTable.callbacks_add by done. simpl. solve_Permutation.
    + intros k. rewrite !elem_of_keys. rewrite PendingRequestTable.find_add.
      destruct (Z.eqb_spec k (nextRequestId_ st)); auto.
  - repeat split; try lia; try done. auto.
Qed.

(** ** Calls of [request] *)

Lemma bind_perm {A B} (f : A -> list B) l1 l2 : l1 ≡ₚ l2 -> (l1 ≫= f) ≡ₚ (l2 ≫= f).
Proof. intros H. by rewrite H. Qed.

Lemma calls_split st i c :
  calls st !! i = Some c -> calls st ≡ₚ c :: delete i (calls st).
Proof. apply delete_Permutation. Qed.

Lemma request_inv n command timeout cb st : inv n st -> inv n (request command timeout cb st).
Proof.
  intros [Ha Hi Hl Hp Ht]. unfold account in Ha. unfold request. simpl.
  destruct (clientFd_ (conn st) <? 0).
  - split; [|done..]. apply account_fire. simpl. rewrite Ha. solve_Permutation.
  - split; [|done| |done|done].
    + unfold account. simpl. rewrite Ha, bind_app. simpl. rewrite app_nil_r. solve_Permutation.
    + intros Hth. specialize (Hl Hth). unfold in_flight in *. simpl. rewrite omap_app. simpl.
      by rewrite app_nil_r.
Qed.

(** A call that ends by leaving [cs] in its place, without its callback. *)
Lemma account_calls st i c cs :
  calls st !! i = Some c -> call_callbacks c = [] -> (cs ≫= call_callbacks) = [] ->
  (calls st ≫= call_callbacks) ≡ₚ (delete i (calls st) ++ cs) ≫= call_callbacks.
Proof.
  intros Hc Hn Hcs. etrans; [apply bind_perm, (calls_split st i c Hc)|].
  rewrite bind_app, Hcs, app_nil_r. simpl. by rewrite Hn.
Qed.

(** ... keeps the requests in flight, as long as [cs] stands for its id. *)
Lemma in_flight_calls st i c cs k :
  calls st !! i = Some c ->
  (forall id, call_id c = Some id -> k = id -> id ∈ omap call_id cs) ->
  k ∈ in_flight st -> k ∈ in_flight (set_calls (delete i (calls st) ++ cs) st).
Proof.
  intros Hc Hcs. pose proof (calls_split st i c Hc) as Hperm. unfold in_flight. simpl.
  remember (delete i (calls st)) as rest eqn:E0. clear E0.
  rewrite omap_app, !elem_of_app, Hperm. intros [Hin|Hin]; [|by right]. left.
  simpl in Hin. destruct (call_id c) as [id|] eqn:E; [|by left].
  apply elem_of_cons in Hin as [->|Hin]; [right; by apply Hcs|by left].
Qed.

Lemma request_add_inv n now i command timeout cb st :
  n < 2 ^ 64 - 1 -> calls st !! i = Some (Checked command timeout cb) -> inv n st ->
  inv (n + 1) (request_add now command timeout cb (delete i (calls st)) st).
Proof.
  intros Hn Hc [Ha Hi Hl Hp Ht]. unfold request_add, account in *.
  destruct (register cb timeout now st) as [id st'] eqn:Er.
  pose proof (in_flight_calls st i (Checked command timeout cb) [Added id command]) as Hfl.
  destruct (register_account n cb timeout now st
    ((delete i (calls st) ≫= call_callbacks) ++ install_callbacks (install st)) id st' Er Hi Hn)
    as ((-> & Ec & Ei & En & Et & Ef) & Hi' & Ha' & Hk).
  { rewrite Ha. pose proof (bind_perm call_callbacks _ _ (calls_split st i _ Hc)) as Hb.
       simpl in Hb. rewrite Hb. solve_Permutation. }
  split; [|done| | |].
  - unfold account. simpl. rewrite bind_app, Ei. simpl. rewrite app_nil_r. exact Ha'.
  - intros Hth. simpl in Hth. rewrite Et in Hth. specialize (Hl Hth).
    rewrite Forall_forall in Hl |- *. intros k Hin.
    replace (in_flight (set_calls (delete i (calls st) ++ [Added (nextRequestId_ st) command]) st'))
      with (in_flight (set_calls (delete i (calls st) ++ [Added (nextRequestId_ st) command]) st))
      by (unfold in_flight; simpl; by rewrite Ei).
    destruct (Hk k Hin) as [->|Hold].
    + unfold in_flight. simpl. rewrite omap_app. simpl. set_solver.
    + apply (Hfl k Hc); [by intros ?|]. by apply Hl.
  - unfold published in *. simpl. by rewrite En, Et.
  - unfold transfer_flag in *. simpl. by rewrite Ef, Ei.
Qed.

Lemma published_dead st : published st -> acceptThread_ st = None -> clientFd_ (conn st) < 0.
Proof. intros [-> _] ->. simpl. lia. Qed.

Lemma send_loop_fd data env c : clientFd_ (send_loop data env c).2 = clientFd_ c.
Proof. unfold send_loop. by repeat case_match. Qed.

(** Leaving the write section: [cs] is empty after a success and the failing
    call otherwise. *)
Lemma leave_write_inv n i id command cs c st :
  calls st !! i = Some (Added id command) ->
  (cs = [] /\ 0 <= clientFd_ (conn st) \/ exists m, cs = [Failing id m]) ->
  clientFd_ c = clientFd_ (conn st) ->
  inv n st -> inv n (set_calls (delete i (calls st) ++ cs) (set_conn c st)).
Proof.
  intros Hc Hcs Hfd [Ha Hi Hl Hp Ht]. split; [|done| |by destruct Hp as [? ?]; split; simpl; [rewrite Hfd|]|done].
  - unfold account in *. simpl. rewrite Ha, (account_calls st i _ cs Hc); [done..|].
    destruct Hcs as [[-> _]|[m ->]]; done.
  - intros Hth. simpl in Hth. pose proof (published_dead st Hp Hth) as Hd.
    destruct Hcs as [[_ ?]|[m ->]]; [lia|]. specialize (Hl Hth).
    eapply Forall_impl; [exact Hl|]. intros k Hk.
    apply (in_flight_calls st i _ [Failing id m] k Hc); [|done].
    intros id' [= ->] _. by left.
Qed.

Lemma request_write_inv n env i id command st st' :
  calls st !! i = Some (Added id command) ->
  request_write env id command (delete i (calls st)) st = Some st' -> inv n st -> inv n st'.
Proof.
  intros Hc H Hinv. pose proof (fun cs => leave_write_inv n i id command cs (conn st) st Hc) as Hfail.
  replace (set_conn (conn st) st) with st in Hfail by by destruct st. unfold request_write in H.
  destruct (lock_held st && negb (fileTransferActive_ st)); [done|].
  destruct (fileTransferActive_ st); [simplify_eq; apply Hfail; eauto|].
  destruct (Z.ltb_spec (clientFd_ (conn st)) 0); [simplify_eq; apply Hfail; eauto|].
  pose proof (send_loop_fd (request_line id command) env (conn st)) as Hs.
  destruct (send_loop _ env (conn st)) as [ok c]. simplify_eq/=.
  apply leave_write_inv with id command; [done| |done..]. destruct ok; eauto.
Qed.

Lemma failing_inv n i id message st :
  calls st !! i = Some (Failing id message) -> inv n st ->
  inv n (take_and_fire id false message (set_calls (delete i (calls st)) st)).
Proof.
  intros Hc [Ha (Hs & Hk & Hn) Hl Hp Ht]. unfold take_and_fire. simpl.
  pose proof (PendingRequestTable.callbacks_take id _ Hs) as Hcb.
  pose proof (PendingRequestTable.take_sorted id _ Hs) as Hs'.
  pose proof (PendingRequestTable.take_gone id (pending_ st)) as Hg.
  pose proof (fun P => PendingRequestTable.take_keys P id (pending_ st)) as Hk'.
  destruct (PendingRequestTable.take id (pending_ st)) as [cb p]. simpl in *.
  split; [|by split; [|split; [apply Hk'|]]| |done|done].
  - apply account_fire. simpl. unfold account in Ha.
    rewrite Ha, Hcb, (account_calls st i _ [] Hc) by done. rewrite app_nil_r. solve_Permutation.
  - intros Hth. simpl in Hth. specialize (Hk' _ (Hl Hth)). simpl.
    apply find_None in Hg. rewrite Forall_forall in Hk' |- *. intros k Hin.
    pose proof (in_flight_calls st i _ [] k Hc) as Hfl. rewrite app_nil_r in Hfl.
    apply Hfl; [|by apply Hk']. intros id' [= ->] ->. done.
Qed.

Lemma call_step_inv n i now env st st' :
  n < 2 ^ 64 - 1 -> call_step i now env st = Some st' -> inv n st -> inv (n + 1) st'.
Proof.
  intros Hn H Hinv. unfold call_step in H. destruct (calls st !! i) as [c|] eqn:Hc; [|done].
  destruct c as [command timeout cb|id command|id message].
  - simplify_eq. by apply request_add_inv.
  - apply (inv_le n); [lia|]. by eapply request_write_inv.
  - simplify_eq. apply (inv_le n); [lia|]. by apply failing_inv.
Qed.

(** ** Calls of [install_apk] *)

(** A step of the transfer that moves no callback and keeps its id in flight. *)
Lemma set_install_inv n active pc c st :
  install_callbacks pc = install_callbacks (install st) ->
  (acceptThread_ st = None -> install_ids (install st) ⊆ install_ids pc) ->
  active = match pc with InNone => false | _ => true end ->
  clientFd_ c = clientFd_ (conn st) ->
  inv n st -> inv n (set_install active pc (set_conn c st)).
Proof.
  intros Hcb Hids -> Hfd [Ha Hi Hl Hp Ht].
  split; [by unfold account; simpl; rewrite Hcb|done| |by destruct Hp as [? ?]; split; simpl; [rewrite Hfd|]|done].
  intros Hth. simpl in Hth. eapply Forall_impl; [exact (Hl Hth)|]. intros k.
  unfold in_flight. simpl. specialize (Hids Hth). set_solver.
Qed.

Lemma set_conn_id st : set_conn (conn st) st = st.
Proof. by destruct st. Qed.

(** The transfer ends and gives its callback back, or never had it. *)
Lemma install_begin_inv n timeout cb st : inv n st -> inv n (install_begin timeout cb st).
Proof.
  intros [Ha Hi Hl Hp Ht]. unfold install_begin. simpl. unfold account, transfer_flag in *.
  destruct (fileTransferActive_ st) eqn:Ef.
  - split; [|done..|by unfold transfer_flag; simpl; rewrite Ef]. apply account_fire. simpl. rewrite Ha. solve_Permutation.
  - destruct (install st) eqn:E; try done. split; [|done| |done|done].
    + unfold account. simpl. rewrite Ha. simpl. solve_Permutation.
    + intros Hth. specialize (Hl Hth). unfold in_flight in *. by rewrite E in Hl.
Qed.

Lemma install_check_inv n file st st' :
  install_check file st = Some st' -> inv n st -> inv n st'.
Proof.
  unfold install_check. destruct (install st) as [|timeout cb| | | |] eqn:E; try done.
  intros H Hinv.
  assert (forall m, inv n (fire (option_list cb) false m (set_install false InNone st))) as Hfail.
  { intros m. destruct Hinv as [Ha Hi Hl Hp Ht]. unfold account in Ha. rewrite E in Ha.
    split; [|done| |done|done].
    - apply account_fire. simpl. rewrite Ha. simpl. solve_Permutation.
    - intros Hth. specialize (Hl Hth). unfold in_flight in *. by rewrite E in Hl. }
  destruct file as [error|ok regular size]; [by simplify_eq|].
  destruct (negb ok || negb regular || (size <=? 0)); [by simplify_eq|].
  destruct (kMaximumApkBytes <? size); [by simplify_eq|].
  destruct (clientFd_ (conn st) <? 0); [by simplify_eq|]. simplify_eq.
  rewrite <- (set_conn_id st) at 1. apply set_install_inv; try done; by rewrite E.
Qed.

Lemma install_add_inv n now st st' :
  n < 2 ^ 64 - 1 -> install_add now st = Some st' -> inv n st -> inv (n + 1) st'.
Proof.
  unfold install_add. intros Hn H [Ha Hi Hl Hp Ht].
  destruct (install st) as [| |timeout cb size| | |] eqn:E; try done.
  destruct (register cb timeout now st) as [id st1] eqn:Er. simplify_eq. unfold account in Ha.
  destruct (register_account n cb timeout now st (calls st ≫= call_callbacks) id st1 Er Hi Hn)
    as ((-> & Ec & Ei & En & Et & Ef) & Hi' & Ha' & Hk).
  { rewrite Ha, E. simpl. solve_Permutation. }
  split; [|done| | |done].
  - unfold account. simpl. by rewrite app_nil_r, Ec.
  - intros Hth. simpl in Hth. rewrite Et in Hth. specialize (Hl Hth).
    rewrite Forall_forall in Hl |- *. intros k Hin. unfold in_flight in *. simpl. rewrite Ec.
    destruct (Hk k Hin) as [->|Hold]; [set_solver|]. specialize (Hl k Hold).
    rewrite E in Hl. simpl in Hl. rewrite app_nil_r in Hl. set_solver.
  - unfold published in *. simpl. by rewrite En, Et.
Qed.

Lemma install_lock_inv n env st st' : install_lock env st = Some st' -> inv n st -> inv n st'.
Proof.
  unfold install_lock. intros H Hinv. destruct (install st) as [| | |id size| |] eqn:E; try done.
  destruct (Z.ltb_spec (clientFd_ (conn st)) 0) as [Hfd|Hfd].
  - simplify_eq. rewrite <- (set_conn_id st) at 1.
    apply set_install_inv; try done; rewrite E; simpl; set_solver.
  - pose proof (send_loop_fd (install_header id size) env (conn st)) as Hs.
    destruct (send_loop _ env (conn st)) as [ok c]. simplify_eq.
    apply set_install_inv; try done; rewrite E; [done|]. intros Hth.
    pose proof (published_dead st (inv_published n st Hinv) Hth). lia.
Qed.

Lemma install_copy_inv n a env st st' : install_copy a env st = Some st' -> inv n st -> inv n st'.
Proof.
  unfold install_copy. intros H Hinv.
  destruct (install st) as [| | | |id size data remaining failed|] eqn:E; try done.
  destruct failed; [done|]. destruct ((false || (remaining <=? 0)) || stopRequested_ st); [done|].
  assert (forall pc c, install_callbacks pc = [] -> clientFd_ c = clientFd_ (conn st) ->
    pc <> InNone -> inv n (set_install true pc (set_conn c st))) as Hgo.
  { intros pc c Hcb Hc Hpc. apply set_install_inv; [by rewrite E| |by destruct pc|done..].
    rewrite E. simpl. set_solver. }
  destruct a as [bs| |].
  - destruct (length _ =? 0)%nat.
    + simplify_eq. rewrite <- (set_conn_id st) at 1. by apply Hgo.
    + pose proof (send_loop_fd (firstn (Z.to_nat (Z.min remaining kApkTransferBufferBytes)) bs)
        env (conn st)) as Hs.
      destruct (send_loop _ env (conn st)) as [ok c]. simplify_eq. by apply Hgo.
  - by simplify_eq.
  - simplify_eq. rewrite <- (set_conn_id st) at 1. by apply Hgo.
Qed.

Lemma install_unlock_inv n st st' : install_unlock st = Some st' -> inv n st -> inv n st'.
Proof.
  unfold install_unlock. intros H Hinv.
  destruct (install st) as [| | | |id size data remaining failed|] eqn:E; try done.
  destruct (_ && negb (stopRequested_ st)); [done|]. simplify_eq.
  set (failed' := failed || negb (remaining =? 0)).
  assert (forall c, clientFd_ c = clientFd_ (conn st) ->
    inv n (set_install true (InRelease id failed') (set_conn c st))) as Hgo.
  { intros c Hc. apply set_install_inv; try done; rewrite E; [done|]. intros _. unfold failed'.
    destruct failed; simpl; set_solver. }
  destruct (failed' && _); [by apply Hgo|]. rewrite <- (set_conn_id st) at 1. by apply Hgo.
Qed.

Lemma install_release_inv n st st' : install_release st = Some st' -> inv n st -> inv n st'.
Proof.
  unfold install_release. intros H [Ha Hi Hl Hp Ht].
  destruct (install st) as [| | | | |id failed] eqn:E; try done. simplify_eq.
  unfold account in Ha. rewrite E in Ha. unfold none_lost, in_flight in Hl. rewrite E in Hl.
  destruct failed; (split; [|done| |done|done]); unfold account, none_lost, in_flight; simpl.
  - rewrite bind_app. simpl. by rewrite !app_nil_r in *.
  - intros Hth. by rewrite omap_app, app_nil_r; simpl; apply Hl.
  - done.
  - done.
Qed.

(** ** The accept thread, [start] and [stop] *)

(** Running and taking callbacks leaves the thread and the connection alone. *)
Lemma take_and_fire_frame id ok text st :
  let st' := take_and_fire id ok text st in
  acceptThread_ st' = acceptThread_ st /\ conn st' = conn st.
Proof. unfold take_and_fire. by destruct (PendingRequestTable.take id (pending_ st)). Qed.

Lemma serve_connection_inv n ev buffer st buffer' st' :
  serve_connection ev buffer st = (buffer', st') -> acceptThread_ st <> None -> inv n st ->
  inv n st' /\ acceptThread_ st' = acceptThread_ st /\ conn st' = conn st.
Proof.
  unfold serve_connection. intros H Hth Hinv.
  destruct (next_line buffer) as [[line rest]|].
  - simplify_eq. unfold handle_nonempty, handle_line. case_match; [done|].
    destruct (parse_line line) as [[[id ok] payload]|]; [|done].
    destruct (take_and_fire_frame id ok payload st) as [E1 E2].
    split; [|done]. by apply take_and_fire_inv.
  - destruct (max_line <? _); [by simplify_eq|]. destruct (stopRequested_ st); [by simplify_eq|].
    destruct ev as [|now| | |[bs| |]]; simplify_eq; try done.
    + split; [by apply sweep_inv|]. unfold sweep_timeouts.
      by destruct (PendingRequestTable.sweep_timeouts now (pending_ st)).
    + by destruct (length _ =? 0)%nat; simplify_eq.
Qed.

Lemma control_accept_thread_inv n ev st st' : accept_thread ev st = Some st' -> inv n st -> inv n st'.
Proof.
  unfold accept_thread. intros H Hinv. pose proof (inv_published n st Hinv) as [Hfd Hpos].
  destruct (acceptThread_ st) as [[| |fd|fd|fd buffer|fd|d|]|] eqn:Epc; destruct ev; try done;
    simpl in Hfd.
  - simplify_eq. eapply inv_thread; [done..|].
    destruct (stopRequested_ st); [|destruct (listenFd_ st <? 0)]; done.
  - simplify_eq. eapply inv_thread; [done..|].
    destruct (Z.ltb_spec fd 0); [done|]. by destruct (negb _).
  - simplify_eq. eapply inv_thread; [done..|]. by destruct (negb _).
  - destruct (lock_held st); [done|]. destruct (stopRequested_ st); simplify_eq;
      (eapply inv_thread; [done..|]); done.
  - destruct (serve_connection ev buffer st) as [buffer' st1] eqn:Es. simplify_eq.
    eapply serve_connection_inv in Es as (Hi & E1 & E2); [|by rewrite Epc|done].
    eapply inv_thread; [exact Hi|done..| |].
    + by destruct buffer'.
    + unfold published. simpl. rewrite E2. by destruct buffer'.
  - destruct (lock_held st); [done|]. simplify_eq.
    rewrite Z.eqb_refl. eapply inv_thread; [done..|]. done.
  - pose proof (fail_all_inv n (bstr "guest agent disconnected") st Hinv) as Hi. simplify_eq.
    eapply inv_thread; [exact Hi|try (by destruct d)..|].
    unfold published. by destruct d.
Qed.

Lemma control_stop_end_inv n st st' : stop_end st = Some st' -> inv n st -> inv n st'.
Proof.
  unfold stop_end. intros H [Ha (Hs & Hk & Hn) Hl [Hfd Hpos] Ht].
  assert (thread_fd (acceptThread_ st) = -1 -> inv n st') as Hgo.
  { intros Hdead. assert (st' = set_listen [] (listenFd_ st) (stopRequested_ st) false
      (set_thread None (fail_all_pending (bstr "guest control client stopped") st))) as ->.
    { destruct (acceptThread_ st) as [[]|]; by simplify_eq. }
    split; [| | |split; [|done]|done].
    - apply account_fire. simpl. exact Ha.
    - split; [constructor|]. by split; [constructor|].
    - intros _. constructor.
    - simpl. congruence. }
  destruct (acceptThread_ st) as [[]|]; try done; by apply Hgo.
Qed.

Lemma control_step_inv n o st st' :
  n < 2 ^ 64 - 1 -> step o st = Some st' -> inv n st -> inv (n + 1) st'.
Proof.
  intros Hn H Hinv. assert (forall st', inv n st' -> inv (n + 1) st') as Hle.
  { intros st1. apply inv_le. lia. }
  destruct o; simpl in H; simplify_eq.
  - by apply Hle, request_inv.
  - by eapply call_step_inv.
  - by apply Hle, install_begin_inv.
  - eapply Hle, install_check_inv; eauto.
  - by eapply install_add_inv.
  - eapply Hle, install_lock_inv; eauto.
  - eapply Hle, install_copy_inv; eauto.
  - eapply Hle, install_unlock_inv; eauto.
  - eapply Hle, install_release_inv; eauto.
  - eapply Hle, control_accept_thread_inv; eauto.
  - apply Hle. by eapply inv_thread; [done..|destruct Hinv].
  - unfold stop_shutdown in H. destruct (lock_held st); simplify_eq. apply Hle.
    destruct (0 <=? _); [|done]. by eapply inv_thread; [done..|destruct Hinv].
  - eapply Hle, control_stop_end_inv; eauto.
  - destruct (acceptThread_ st) eqn:E; simplify_eq. apply Hle. unfold start.
    destruct (_ <? 0); [done|]. pose proof (inv_published n st Hinv) as [Hfd _]. rewrite E in Hfd.
    by eapply inv_thread; [done..|split].
Qed.

Lemma control_run_inv ops n st st' :
  n + Z.of_nat (length ops) < 2 ^ 64 -> run ops st = Some st' -> inv n st ->
  inv (n + Z.of_nat (length ops)) st'.
Proof.
  revert n st. induction ops as [|o ops IH]; intros n st Hn H Hinv.
  { simplify_eq/=. by rewrite Z.add_0_r. }
  cbn [length] in *. rewrite Nat2Z.inj_succ in *. simpl in H.
  destruct (step o st) as [st1|] eqn:E; [|done].
  replace (n + Z.succ (Z.of_nat (length ops))) with (n + 1 + Z.of_nat (length ops)) by lia.
  apply IH with st1; [lia|done|]. eapply control_step_inv; [lia|done..].
Qed.

(** C2: under every interleaving of request and install calls with the
    reader, disconnects, [start] and [stop] (fewer than 2^64 - 1 steps, so that
    ids do not wrap): no callback runs twice and none is lost. Each callback
    passed in has run once, or is registered, or belongs to a call still on its
    way; and once the client is stopped and no call is in progress, every
    callback has run exactly once and the client is not ready. *)
Theorem guest_callbacks_exactly_once ops st :
  1 + Z.of_nat (length ops) < 2 ^ 64 -> run ops init = Some st ->
  given st ≡ₚ map r_callback (fired st) ++ PendingRequestTable.callbacks (pending_ st) ++
    (calls st ≫= call_callbacks) ++ install_callbacks (install st) /\
  (acceptThread_ st = None ->
     ready st = false /\
     (calls st = [] -> install st = InNone -> given st ≡ₚ map r_callback (fired st))).
Proof.
  intros Hn Hr. destruct (control_run_inv ops 1 init st Hn Hr control_inv_init) as [Ha _ Hl Hp _].
  split; [exact Ha|]. intros Hth. split.
  - unfold ready. pose proof (published_dead st Hp Hth). lia.
  - intros Hc Hi. unfold account in Ha. specialize (Hl Hth). unfold in_flight in Hl.
    rewrite Hc, Hi in *. simpl in *.
    assert (pending_ st = []) as E.
    { destruct (pending_ st) as [|[k p] l]; [done|]. apply Forall_cons in Hl as [Hk _].
      by apply not_elem_of_nil in Hk. }
    rewrite E in Ha. by rewrite !app_nil_r in Ha.
Qed.
