(* ===== verification/GuestControlWire.v ===== *)
(** What the guest control client puts on the wire: whole request lines and APK
    transfers whose payload is contiguous and complete. *)
From S2P Require Import Prelude Text StdMap Posix PendingTable UnixListener GuestControl GuestControlSafety.
Import GuestControlClient.

(** ** Messages *)

Inductive message :=
  | MsgRequest (id : Z) (command : bytes)
  | MsgInstall (id size : Z) (data : bytes).

Definition encode (m : message) : bytes :=
  match m with
  | MsgRequest id command => request_line id command
  | MsgInstall id size data => install_header id size ++ data
  end.

(** A transfer is whole when it carries the announced number of bytes. *)
Definition whole (m : message) : Prop :=
  match m with MsgRequest _ _ => True | MsgInstall _ size data => Z.of_nat (length data) = size end.

(** The end of a stream after a transfer that was broken off. *)
Definition broken_off (p : bytes) : Prop :=
  p = [] \/ exists id size data, p = install_header id size ++ data /\ Z.of_nat (length data) < size.

(** The bytes after the last whole message, by the state of the transfer. *)
Definition tail_ok (pc : install_pc) (shut : bool) (p : bytes) : Prop :=
  if shut then broken_off p else
  match pc with
  | InWriting id size data remaining false =>
      p = install_header id size ++ data /\ Z.of_nat (length data) + remaining = size
  | InWriting _ _ _ _ true => broken_off p
  | _ => p = []
  end.

Definition stream_ok (pc : install_pc) (c : connection) : Prop :=
  wire_failed c = false ->
  exists ms p, wire c = concat (map encode ms) ++ p /\ Forall whole ms /\ tail_ok pc (wire_shut c) p.

(** The transfer itself: a copy loop that has not failed runs on a connection
    that was not shut down, and never reads past the announced size. *)
Definition copying (pc : install_pc) (c : connection) : Prop :=
  match pc with
  | InWriting _ _ _ remaining false =>
      0 <= remaining /\ 0 <= clientFd_ c /\ (wire_failed c = false -> wire_shut c = false)
  | InAdding _ _ size | InPrepared _ size => 0 < size
  | _ => True
  end.

Definition wire_inv (st : t) : Prop :=
  stream_ok (install st) (conn st) /\ copying (install st) (conn st) /\
  (clientFd_ (conn st) < 0 -> wire (conn st) = []) /\ transfer_flag st.

Lemma wire_inv_init : wire_inv init.
Proof. split; [|done]. intros _. exists [], []. by repeat split; constructor. Qed.

Lemma wire_inv_frame st st' :
  install st' = install st -> conn st' = conn st ->
  fileTransferActive_ st' = fileTransferActive_ st -> wire_inv st -> wire_inv st'.
Proof. unfold wire_inv, transfer_flag. by intros -> -> ->. Qed.

(** ** Sending *)

(** Unless a [send] fails on an open connection, the loop sends everything or,
    on a connection that was shut down, nothing. *)
Lemma send_loop_cases data env c ok c' :
  send_loop data env c = (ok, c') -> data <> [] ->
  clientFd_ c' = clientFd_ c /\ wire_shut c' = wire_shut c /\
  (wire_failed c' = false ->
     wire_failed c = false /\
     if ok then wire_shut c = false /\ wire c' = wire c ++ data
     else wire_shut c = true /\ wire c' = wire c).
Proof.
  unfold send_loop. intros H Hne. destruct (wire_shut c) eqn:Es.
  - rewrite bool_decide_false in H by done. simplify_eq/=. do 2 (split; [done|]).
    simpl. rewrite orb_false_r. intros ->. by rewrite app_nil_r.
  - destruct (write_loop data env) as [[ok1 sent] env'] eqn:Ew. simplify_eq/=.
    do 2 (split; [done|]). rewrite andb_true_r. intros [Hf Ho]%orb_false_iff. split; [done|].
    destruct ok; [|done]. split; [done|].
    by rewrite (proj1 (write_loop_prefix _ _ _ _ _ Ew) eq_refl).
Qed.

Lemma request_line_ne id command : request_line id command <> [].
Proof. unfold request_line. by destruct (dec id). Qed.

(** A request that goes out is one more whole message. *)
Lemma stream_ok_request pc env c ok c' id command :
  (forall x y z r f, pc <> InWriting x y z r f) ->
  send_loop (request_line id command) env c = (ok, c') ->
  stream_ok pc c -> stream_ok pc c'.
Proof.
  intros Hpc Hs Hok Hf.
  apply send_loop_cases in Hs as (_ & Hsh & Hw); [|apply request_line_ne].
  destruct (Hw Hf) as [Hf0 Hcase]. destruct (Hok Hf0) as (ms & p & E & HF & Ht).
  rewrite Hsh. destruct ok; destruct Hcase as [Hsh0 ->]; rewrite Hsh0 in *.
  - exists (ms ++ [MsgRequest id command]), []. rewrite map_app, concat_app, E.
    assert (p = []) as -> by (destruct pc; try done; exfalso; by eapply Hpc). simpl.
    rewrite !app_nil_r. split; [done|]. split; [by apply Forall_app; split; [|constructor]|].
    by destruct pc; try (exfalso; by eapply Hpc).
  - by exists ms, p.
Qed.


(** ** Steps *)

Lemma request_write_wire env id command rest st st' :
  request_write env id command rest st = Some st' -> wire_inv st -> wire_inv st'.
Proof.
  unfold request_write. intros H Hw. pose proof Hw as (Hs & Hc & Hd & Ht).
  destruct (lock_held st && negb (fileTransferActive_ st)); [done|].
  destruct (fileTransferActive_ st) eqn:Ef; [by simplify_eq|].
  destruct (Z.ltb_spec (clientFd_ (conn st)) 0); [by simplify_eq|].
  destruct (send_loop _ env (conn st)) as [ok c] eqn:E. simplify_eq.
  unfold transfer_flag in Ht. rewrite Ef in Ht.
  destruct (install st) eqn:Ei; try done. unfold wire_inv. simpl. rewrite Ei.
  split; [by apply (stream_ok_request InNone env (conn st) ok c id command)|]. split; [done|].
  apply send_loop_cases in E as (Hfd & _ & _); [|apply request_line_ne].
  split; [lia|]. unfold transfer_flag. simpl. by rewrite Ef, Ei.
Qed.

Lemma install_header_ne id size : install_header id size <> [].
Proof. unfold install_header. by destruct (dec id). Qed.

Lemma install_lock_wire env st st' : install_lock env st = Some st' -> wire_inv st -> wire_inv st'.
Proof.
  unfold install_lock. intros H (Hs & Hc & Hd & Ht).
  destruct (install st) as [| | |id size| |] eqn:Ei; try done. simpl in Hc.
  destruct (Z.ltb_spec (clientFd_ (conn st)) 0) as [Hfd|Hfd].
  - simplify_eq. split; [|done]. intros Hf. destruct (Hs Hf) as (ms & p & E & HF & Htl).
    exists ms, p. split; [done|]. split; [done|]. unfold tail_ok in *. simpl.
    destruct (wire_shut (conn st)); [done|]. by left.
  - destruct (send_loop _ env (conn st)) as [ok c] eqn:E. simplify_eq.
    apply send_loop_cases in E as (Hfd' & Hsh & Hw); [|apply install_header_ne].
    split; [|split; [|split; [simpl; lia|done]]]; simpl.
    + intros Hf. destruct (Hw Hf) as [Hf0 Hcase]. destruct (Hs Hf0) as (ms & p & E & HF & Htl).
      unfold tail_ok in *. rewrite Hsh. destruct ok; destruct Hcase as [Hsh0 Hwire]; rewrite Hsh0 in *.
      * exists ms, (install_header id size). rewrite Hwire, E, Htl, app_nil_r.
        split; [done|]. split; [done|]. simpl. by rewrite app_nil_r.
      * exists ms, p. by rewrite Hwire.
    + destruct ok; [|done]. simpl. split; [lia|]. split; [lia|]. intros Hf. rewrite Hsh. by apply Hw.
Qed.

(** A copy loop that gives up leaves a payload that is too short. *)
Lemma give_up_wire id size data remaining st :
  install st = InWriting id size data remaining false -> 0 < remaining -> wire_inv st ->
  wire_inv (set_install true (InWriting id size data remaining true) st).
Proof.
  intros Ei Hr (Hs & Hc & Hd & Ht). split; [|done]. intros Hf. simpl in Hf |- *.
  destruct (Hs Hf) as (ms & p & E & HF & Htl). exists ms, p. split; [done|]. split; [done|].
  unfold tail_ok in *. rewrite Ei in Htl. simpl in Htl. destruct (wire_shut (conn st)); [done|].
  destruct Htl as [-> Hsz]. right. exists id, size, data. split; [done|]. lia.
Qed.

Lemma install_copy_wire a env st st' :
  install_copy a env st = Some st' -> wire_inv st -> wire_inv st'.
Proof.
  unfold install_copy. intros H Hw.
  destruct (install st) as [| | | |id size data remaining failed|] eqn:Ei; try done.
  destruct failed; [done|]. destruct (Z.leb_spec remaining 0); [done|].
  destruct (stopRequested_ st); [done|]. simpl in H.
  destruct a as [bs| |]; [|by simplify_eq|simplify_eq; by apply give_up_wire].
  set (buf := firstn _ bs) in H. destruct (Nat.eqb_spec (length buf) 0) as [Hb|Hb].
  { simplify_eq. by apply give_up_wire. }
  destruct (send_loop buf env (conn st)) as [ok c] eqn:E. simplify_eq.
  destruct Hw as (Hs & Hc & Hd & Ht). rewrite Ei in Hs, Hc. destruct Hc as (_ & Hpos & Hopen).
  apply send_loop_cases in E as (Hfd & Hsh & Hsend); [|by intros ->].
  assert (Z.of_nat (length buf) <= remaining) as Hle.
  { unfold buf. rewrite length_take. lia. }
  split; [|split; [|split; [|done]]]; simpl.
  - intros Hf. destruct (Hsend Hf) as [Hf0 Hcase]. specialize (Hopen Hf0).
    destruct (Hs Hf0) as (ms & p & E & HF & Htl). unfold tail_ok in *.
    rewrite Hsh, Hopen in *. destruct ok; destruct Hcase as [Hsh0 Hwire]; [|done]. simpl.
    destruct Htl as [-> Hsz]. exists ms, (install_header id size ++ data ++ buf).
    rewrite Hwire, E, <- !app_assoc. split; [done|]. split; [done|]. split; [done|].
    rewrite length_app. lia.
  - destruct ok; [|done]. simpl. split; [lia|]. split; [lia|]. intros Hf.
    rewrite Hsh. by apply Hopen, Hsend.
  - lia.
Qed.

Lemma install_unlock_wire st st' : install_unlock st = Some st' -> wire_inv st -> wire_inv st'.
Proof.
  unfold install_unlock. intros H (Hs & Hc & Hd & Ht).
  destruct (install st) as [| | | |id size data remaining failed|] eqn:Ei; try done.
  destruct (_ && negb (stopRequested_ st)); [done|].
  destruct (failed || negb (remaining =? 0)) eqn:Ef; simpl in H.
  - destruct (Z.leb_spec 0 (clientFd_ (conn st))) as [Hfd|Hfd]; simplify_eq/=;
      (split; [|done]); intros Hf; simpl in Hf; destruct (Hs Hf) as (ms & p & E & HF & Htl).
    + exists ms, p. split; [done|]. split; [done|]. simpl.
      unfold tail_ok in Htl. destruct (wire_shut (conn st)); [done|].
      destruct failed; [done|]. destruct Htl as [-> Hsz]. right. exists id, size, data.
      split; [done|]. simpl in Ef. apply negb_true_iff, Z.eqb_neq in Ef. simpl in Hc. lia.
    + exists ms, p. split; [done|]. split; [done|]. simpl. rewrite (Hd Hfd) in E.
      symmetry in E. apply app_eq_nil in E as [_ ->]. unfold tail_ok.
      destruct (wire_shut (conn st)); by try left.
  - simplify_eq. apply orb_false_iff in Ef as [-> Hrem%negb_false_iff%Z.eqb_eq]. subst.
    split; [|done]. intros Hf. simpl in Hf |- *. destruct (Hs Hf) as (ms & p & E & HF & Htl).
    destruct Hc as (_ & _ & Hopen). unfold tail_ok in *. rewrite (Hopen Hf) in *.
    destruct Htl as [-> Hsz]. exists (ms ++ [MsgInstall id size data]), [].
    rewrite map_app, concat_app, E. simpl. rewrite !app_nil_r. split; [done|]. split; [|done].
    apply Forall_app. split; [done|]. constructor; [simpl; lia|constructor].
Qed.

(** Steps of the transfer that neither write nor end a copy loop. *)
Lemma set_install_wire active pc st :
  (forall x y z r f, install st <> InWriting x y z r f) ->
  (forall x y z r f, pc <> InWriting x y z r f) ->
  copying pc (conn st) -> active = match pc with InNone => false | _ => true end ->
  wire_inv st -> wire_inv (set_install active pc st).
Proof.
  intros H1 H2 Hcp -> (Hs & Hc & Hd & Ht). split; [|done]. intros Hf. simpl in *.
  destruct (Hs Hf) as (ms & p & E & HF & Htl). exists ms, p. split; [done|]. split; [done|].
  unfold tail_ok in *. destruct (wire_shut (conn st)); [done|].
  assert (p = []) as -> by (destruct (install st); try done; by edestruct H1).
  destruct pc; try done. by edestruct H2.
Qed.

Lemma install_steps_wire o st st' :
  match o with OpInstall _ _ | OpInstallCheck _ | OpInstallAdd _ | OpInstallRelease => True | _ => False end ->
  step o st = Some st' -> wire_inv st -> wire_inv st'.
Proof.
  intros Ho H Hw. pose proof Hw as (_ & Hc & _ & Ht). unfold transfer_flag in Ht.
  destruct o as [| |timeout cb|file|now| | | | | | | | |]; try done; simpl in H.
  - simplify_eq. unfold install_begin. simpl. destruct (fileTransferActive_ st) eqn:Ef; [done|].
    destruct (install st) eqn:Ei; try done.
    apply (set_install_wire true (InChecking timeout cb) (add_given cb st)); try done;
      simpl; by rewrite Ei.
  - unfold install_check in H. destruct (install st) as [|timeout cb| | | |] eqn:Ei; try done.
    assert (wire_inv (set_install false InNone st)) as Hfail
      by (apply set_install_wire; try done; by rewrite Ei).
    destruct file as [error|ok regular size]; [by simplify_eq|].
    destruct (_ || (size <=? 0)) eqn:Eb; [by simplify_eq|].
    destruct (kMaximumApkBytes <? size); [by simplify_eq|].
    destruct (clientFd_ (conn st) <? 0); [by simplify_eq|]. simplify_eq.
    apply orb_false_iff in Eb as [_ Hsz%Z.leb_gt].
    apply set_install_wire; try done; by rewrite Ei.
  - unfold install_add in H. destruct (install st) as [| |timeout cb size| | |] eqn:Ei; try done.
    destruct (register cb timeout now st) as [id st1] eqn:Er. simplify_eq.
    assert (install st1 = install st /\ conn st1 = conn st /\
      fileTransferActive_ st1 = fileTransferActive_ st) as (E1 & E2 & E3)
      by (unfold register in Er; by simplify_eq).
    apply set_install_wire; try done; rewrite ?E1, ?E2, ?Ei; try done.
    by apply (wire_inv_frame st).
  - unfold install_release in H. destruct (install st) as [| | | | |id failed] eqn:Ei; try done.
    simplify_eq. assert (wire_inv (set_install false InNone st)) as Hr
      by (apply set_install_wire; try done; by rewrite Ei). by destruct failed.
Qed.

Lemma serve_connection_frame ev buffer st :
  let st' := (serve_connection ev buffer st).2 in
  install st' = install st /\ conn st' = conn st /\
  fileTransferActive_ st' = fileTransferActive_ st.
Proof.
  unfold serve_connection, handle_nonempty, handle_line, take_and_fire, sweep_timeouts.
  destruct (next_line buffer) as [[line rest]|]; simpl.
  - destruct (length line =? 0)%nat; [done|].
    destruct (parse_line line) as [[[id ok] payload]|]; [|done].
    by destruct (PendingRequestTable.take id (pending_ st)).
  - destruct (_ <? _); [done|]. destruct (stopRequested_ st); [done|].
    destruct ev as [|now| | |[bs| |]]; try done.
    + by destruct (PendingRequestTable.sweep_timeouts now (pending_ st)).
    + by destruct (length _ =? 0)%nat.
Qed.

(** A new or a closed connection has an empty stream; no transfer holds the
    writer at that point. *)
Lemma fresh_conn_wire fd st :
  lock_held st = false -> wire_inv st ->
  wire_inv (set_conn {| clientFd_ := fd; wire := []; wire_failed := false; wire_shut := false |} st).
Proof.
  unfold lock_held. intros Hl (Hs & Hc & Hd & Ht). split; [|split; [|done]]; simpl.
  - intros _. exists [], []. split; [done|]. split; [constructor|]. by destruct (install st).
  - by destruct (install st).
Qed.

Lemma accept_thread_wire ev st st' :
  accept_thread ev st = Some st' -> wire_inv st -> wire_inv st'.
Proof.
  unfold accept_thread. intros H Hw.
  destruct (acceptThread_ st) as [[| |fd|fd|fd buffer|fd|d|]|]; destruct ev; try done.
  1-3: by simplify_eq.
  - destruct (lock_held st) eqn:El; [done|]. destruct (stopRequested_ st); simplify_eq; [done|].
    by apply (fresh_conn_wire fd).
  - pose proof (serve_connection_frame ev buffer st) as (E1 & E2 & E3).
    destruct (serve_connection ev buffer st) as [b st1]. simplify_eq/=.
    by apply (wire_inv_frame st).
  - destruct (lock_held st) eqn:El; [done|]. simplify_eq.
    destruct (clientFd_ (conn st) =? fd); [|done]. by apply (fresh_conn_wire (-1)).
  - simplify_eq. by destruct d.
Qed.

Lemma step_wire o st st' : step o st = Some st' -> wire_inv st -> wire_inv st'.
Proof.
  intros H Hw. pose proof (install_steps_wire o st st') as Hi.
  destruct o; try (by apply Hi); clear Hi; simpl in H.
  - simplify_eq. unfold request. simpl. by destruct (clientFd_ (conn st) <? 0).
  - unfold call_step in H. destruct (calls st !! i) as [c|]; [|done].
    destruct c as [command timeout cb|id command|id message].
    + by simplify_eq.
    + by eapply request_write_wire.
    + simplify_eq. unfold take_and_fire. simpl.
      by destruct (PendingRequestTable.take id (pending_ st)).
  - by eapply install_lock_wire.
  - by eapply install_copy_wire.
  - by eapply install_unlock_wire.
  - by eapply accept_thread_wire.
  - by simplify_eq.
  - unfold stop_shutdown in H. destruct (lock_held st) eqn:El; [done|]. simplify_eq.
    destruct (0 <=? _); [|done]. destruct Hw as (Hs & Hc & Hd & Ht). unfold lock_held in El.
    split; [|split; [simpl; by destruct (install st)|done]]. intros Hf. simpl in *.
    destruct (Hs Hf) as (ms & p & E & HF & Htl). exists ms, p. split; [done|]. split; [done|].
    unfold tail_ok in *. destruct (wire_shut (conn st)); [done|]. left.
    by destruct (install st).
  - unfold stop_end in H. by destruct (acceptThread_ st) as [[]|]; simplify_eq.
  - destruct (acceptThread_ st); [done|]. simplify_eq. unfold start. by destruct (_ <? 0).
Qed.

Lemma run_wire ops st st' : run ops st = Some st' -> wire_inv st -> wire_inv st'.
Proof.
  revert st. induction ops as [|o ops IH]; intros st H Hw; [by simplify_eq/=|]. simpl in H.
  destruct (step o st) as [st1|] eqn:E; [|done]. apply (IH st1 H). by eapply step_wire.
Qed.

(** C5: under every interleaving of requests, APK transfers, the
    reader, [start] and [stop], and as long as no [send] has failed on the open
    connection, the agent's stream is a sequence of whole messages: request
    lines, and install headers each followed by exactly the announced number of
    payload bytes with nothing in between. Only a transfer that is still running,
    or one that was broken off (and then the connection has been shut down), may
    leave an incomplete payload, and it is the end of the stream. *)
Theorem guest_wire_contiguous ops st :
  run ops init = Some st -> wire_failed (conn st) = false ->
  exists ms p, wire (conn st) = concat (map encode ms) ++ p /\ Forall whole ms /\
    (p = [] \/
     exists id size data, p = install_header id size ++ data /\
       Z.of_nat (length data) <= size /\
       (wire_shut (conn st) = true \/ lock_held st = true)).
Proof.
  intros Hr Hf. destruct (run_wire ops init st Hr wire_inv_init) as (Hs & Hc & _).
  destruct (Hs Hf) as (ms & p & E & HF & Htl). exists ms, p. split; [done|]. split; [done|].
  unfold tail_ok in Htl. unfold lock_held. destruct (wire_shut (conn st)).
  { destruct Htl as [->|(id & size & data & -> & Hlt)]; [by left|].
    right. exists id, size, data. split; [done|]. split; [lia|by left]. }
  destruct (install st) as [| | | |id size data remaining [|]|]; try (by left).
  - destruct Htl as [->|(id' & size' & data' & -> & Hlt)]; [by left|]. right.
    exists id', size', data'. split; [done|]. split; [lia|by right].
  - right. destruct Htl as [-> Hsz]. destruct Hc as [Hrem _]. exists id, size, data.
    split; [done|]. split; [lia|by right].
Qed.

(** ** A concrete session *)

Definition demo_handshake : UnixListener.handshake_env := {|
  UnixListener.he_send := 2; UnixListener.he_poll := 1; UnixListener.he_pollin := true;
  UnixListener.he_read := Some (bstr "ok" ++ [NL]) |}.

(** The agent connects. *)
Definition demo_connect : list op :=
  [OpStart listener_env_ok (bstr "/tmp/macmu-control.sock") true; OpAccept EvHead;
   OpAccept (EvAccept 9 false (0, true)); OpAccept (EvHandshake demo_handshake);
   OpAccept EvPublish].

(** A request goes out; a three-byte APK is streamed in two reads while a second
    request arrives, which is refused; the first request and the transfer are
    answered in one read. *)
Definition demo_session : list op :=
  demo_connect ++
  [OpRequest (bstr "list-apps") 1000 (Some 50); OpCall 0 0 []; OpCall 0 0 [WrOk 5; WrIntr; WrOk 99];
   OpInstall 60000 (Some 51); OpInstallCheck (ApkOpened true true 3); OpInstallAdd 0;
   OpInstallLock [WrOk 99]; OpInstallCopy (RdChunk (bstr "ab")) [WrOk 1; WrOk 1];
   OpRequest (bstr "display-state 0") 1000 (Some 52); OpCall 0 0 []; OpCall 0 0 [];
   OpCall 0 0 []; OpInstallCopy (RdChunk (bstr "c")) [WrOk 1]; OpInstallUnlock; OpInstallRelease;
   OpAccept (EvServe (SvRead (RdChunk (bstr "1 ok []" ++ [NL] ++ bstr "2 ok" ++ [NL]))));
   OpAccept (EvServe SvLine); OpAccept (EvServe SvLine)].

(** ... and the client is stopped. *)
Definition demo_shutdown : list op :=
  [OpStopBegin; OpStopShutdown; OpAccept (EvServe SvLine); OpAccept EvDisconnect;
   OpAccept EvFailAll; OpAccept EvHead; OpStopEnd].

Lemma guest_wire_contiguous_witness :
  exists st, run demo_session init = Some st /\
    wire (conn st) = bstr "1 list-apps" ++ [NL] ++ bstr "2 install 3" ++ [NL] ++ bstr "abc" /\
    exists ms p, wire (conn st) = concat (map encode ms) ++ p /\ Forall whole ms.
Proof.
  destruct (run demo_session init) as [st|] eqn:E; [|by vm_compute in E].
  exists st. split; [reflexivity|]. assert (wire_failed (conn st) = false) as Hf.
  { vm_compute in E. by simplify_eq. }
  split; [vm_compute in E; by simplify_eq|].
  destruct (guest_wire_contiguous demo_session st E Hf) as (ms & p & H1 & H2 & _).
  exists ms, p. split; [exact H1|exact H2].
Defined.

Lemma guest_callbacks_exactly_once_witness :
  exists st, run (demo_session ++ demo_shutdown) init = Some st /\
    given st = [50; 51; 52] /\ [50; 51; 52] ≡ₚ map r_callback (fired st) /\ ready st = false.
Proof.
  destruct (run (demo_session ++ demo_shutdown) init) as [st|] eqn:E; [|by vm_compute in E].
  exists st. split; [reflexivity|].
  assert (given st = [50; 51; 52] /\ acceptThread_ st = None /\ calls st = [] /\
    install st = InNone) as (Hg & Ht & Hc & Hi) by (vm_compute in E; by simplify_eq).
  split; [exact Hg|]. rewrite <- Hg.
  destruct (guest_callbacks_exactly_once (demo_session ++ demo_shutdown) st) as [_ H];
    [vm_compute; reflexivity|exact E|].
  destruct (H Ht) as [Hr Hf]. split; [exact (Hf Hc Hi)|exact Hr].
Defined.
