(* ===== verification/ShellOptions.v ===== *)
(** [shell/core/shell_options.{h,cpp}] and [shell/protocol/shell_constants.h]:
    environment variables, executable-relative defaults and command-line flags
    resolved into the shell's options. The process environment, the working
    directory and the file system are the record [world]. *)
From S2P Require Import Prelude Text Posix.

Module ShellOptions.

(** ** [shell_constants.h] *)

Definition kQemuHeadlessRelativePath : bytes := bstr "qemu/darwin-aarch64/qemu-system-aarch64-headless".
Definition kDefaultAvdName : bytes := bstr "macmu_aosp16_arm64".

(** ** Data *)

Record t := {
  appDataDir : bytes; avdHome : bytes; launcherDir : bytes; qemuPath : bytes;
  dyldLibraryPath : bytes; inputSocketPath : bytes; systemPath : bytes;
  imageImportSource : bytes; autoImportDefaultImage : bool; guestRpcSocketPath : bytes;
  guestCtrlSocketPath : bytes; guestAgentImagePath : bytes; guestRamdiskOverlayPath : bytes;
  guestRamdiskPath : bytes; avdName : bytes; wipeData : bool }.

(** What the process can observe: [getenv], [access(path, F_OK) == 0], [getcwd]
    ([None] when it fails), [_NSGetExecutablePath] ([None] when it fails),
    [realpath] and [getpid]. *)
Record world := {
  getenv : string -> option bytes;
  access_ok : bytes -> bool;
  getcwd : option bytes;
  executable_path : option bytes;
  realpath : bytes -> option bytes;
  getpid : Z }.

Section options.
Context (w : world).

(** ** Environment *)

Definition env_or_default (name : string) (fallback : bytes) : bytes :=
  match getenv w name with
  | Some (b :: bs) => b :: bs
  | _ => fallback
  end.

Definition env_or_default2 (name legacy_name : string) (fallback : bytes) : bytes :=
  env_or_default name (env_or_default legacy_name fallback).

Definition tolower (b : Init.Byte.byte) : Init.Byte.byte :=
  let v := byte.unsigned b in
  if (65 <=? v) && (v <=? 90) then byte.of_Z (v + 32) else b.

Definition env_bool_or_default (name legacy_name : string) (fallback : bool) : bool :=
  let value := map tolower (env_or_default2 name legacy_name (bstr (if fallback then "1" else "0"))) in
  negb (bool_decide (value = bstr "0")) && negb (bool_decide (value = bstr "false")) &&
  negb (bool_decide (value = bstr "no")) && negb (bool_decide (value = bstr "off")).

(** [getenv(name) != nullptr || getenv(legacy) != nullptr]. *)
Definition is_set (name : string) : bool := bool_decide (is_Some (getenv w name)).

(** ** Paths *)

(** [path.rfind('/')]: what precedes and what follows the last slash. *)
Fixpoint rsplit_slash (path : bytes) : option (bytes * bytes) :=
  match path with
  | [] => None
  | b :: path' =>
      match rsplit_slash path' with
      | Some (l, r) => Some (b :: l, r)
      | None => if decide (b = SLASH) then Some ([], path') else None
      end
  end.

Definition directory_name (path : bytes) : bytes :=
  match rsplit_slash path with
  | None => bstr "."
  | Some ([], _) => bstr "/"
  | Some (l, _) => l
  end.

Definition base_name (path : bytes) : bytes :=
  match rsplit_slash path with None => path | Some (_, r) => r end.

Definition file_exists (path : bytes) : bool := access_ok w (c_str path).

Definition current_working_directory : bytes := default [] (getcwd w).

Definition default_app_data_dir : bytes :=
  match getenv w "HOME" with
  | Some (b :: bs) => path_join (path_join (b :: bs) (bstr "Library")) (bstr "MacMu")
  | _ => bstr "MacMuData"
  end.

Definition default_avd_home (app_data_dir : bytes) : bytes := path_join app_data_dir (bstr "avd").

Definition default_system_path (app_data_dir : bytes) : bytes :=
  path_join app_data_dir (bstr "images/aosp16-arm64").

Definition executable_directory : bytes :=
  match executable_path w with
  | None => []
  | Some path => directory_name (default path (realpath w path))
  end.

Definition has_qemu (dir : bytes) : bool := file_exists (path_join dir kQemuHeadlessRelativePath).

Definition is_empty (bs : bytes) : bool := match bs with [] => true | _ => false end.

Definition default_launcher_dir : bytes :=
  let executable_dir := executable_directory in
  if negb (is_empty executable_dir) && has_qemu executable_dir then executable_dir else
  let contents_dir := directory_name executable_dir in
  let bundled_dist := path_join contents_dir (bstr "Resources/emulator") in
  if bool_decide (base_name executable_dir = bstr "MacOS") &&
     bool_decide (base_name contents_dir = bstr "Contents") && has_qemu bundled_dist
  then bundled_dist else
  let sibling_dist := path_join (directory_name executable_dir) (bstr "distribution/emulator") in
  if negb (is_empty executable_dir) && has_qemu sibling_dist then sibling_dist else
  let cwd := current_working_directory in
  let repo_dist := path_join cwd (bstr "build/cmake/distribution/emulator") in
  if negb (is_empty cwd) && has_qemu repo_dist then repo_dist else
  if is_empty executable_dir then bstr "." else executable_dir.

Definition default_qemu_path (launcher_dir : bytes) : bytes :=
  path_join launcher_dir kQemuHeadlessRelativePath.

Definition COLON : Init.Byte.byte := Byte.x3a.

Definition default_dyld_library_path (launcher_dir : bytes) : bytes :=
  let lib64 := path_join launcher_dir (bstr "lib64") in
  lib64 ++ [COLON] ++ path_join lib64 (bstr "gles_angle") ++ [COLON] ++ path_join lib64 (bstr "vulkan").

Definition default_guest_ramdisk_overlay_path (launcher_dir : bytes) : bytes :=
  let path := path_join launcher_dir (bstr "lib/macmu-guest-overlay.img") in
  if file_exists path then path else [].

Definition default_guest_ramdisk_path (launcher_dir : bytes) : bytes := [].

Definition default_guest_agent_image_path (launcher_dir : bytes) : bytes :=
  let path := path_join launcher_dir (bstr "lib/macmu-agent.img") in
  if file_exists path then path else [].

Definition default_guest_rpc_socket_path : bytes :=
  bstr "/tmp/macmu.rpc." ++ dec (u32 (getpid w)) ++ bstr ".sock".

Definition default_guest_ctrl_socket_path : bytes :=
  bstr "/tmp/macmu.ctrl." ++ dec (u32 (getpid w)) ++ bstr ".sock".

(** ** The environment pass of [parse_options] *)

Definition env_options : t :=
  let appDataDir := env_or_default2 "MACMU_APP_DATA_DIR" "AEMU_SHELL_APP_DATA_DIR" default_app_data_dir in
  let launcherDir := env_or_default2 "MACMU_LAUNCHER_DIR" "AEMU_SHELL_LAUNCHER_DIR" default_launcher_dir in
  {| appDataDir := appDataDir;
     avdHome := env_or_default2 "MACMU_AVD_HOME" "AEMU_SHELL_AVD_HOME"
                  (env_or_default "ANDROID_AVD_HOME" (default_avd_home appDataDir));
     launcherDir := launcherDir;
     qemuPath := env_or_default2 "MACMU_QEMU_PATH" "AEMU_SHELL_QEMU_PATH"
                   (default_qemu_path launcherDir);
     dyldLibraryPath := env_or_default2 "MACMU_DYLD_LIBRARY_PATH" "AEMU_SHELL_DYLD_LIBRARY_PATH"
                          (default_dyld_library_path launcherDir);
     inputSocketPath := env_or_default "MACMU_INPUT_SOCKET_PATH" [];
     systemPath := env_or_default2 "MACMU_SYSTEM_PATH" "AEMU_SHELL_SYSTEM_PATH"
                     (default_system_path appDataDir);
     imageImportSource := env_or_default2 "MACMU_IMPORT_IMAGE" "AEMU_SHELL_IMPORT_IMAGE" [];
     autoImportDefaultImage :=
       env_bool_or_default "MACMU_AUTO_IMPORT_IMAGE" "AEMU_SHELL_AUTO_IMPORT_IMAGE" false;
     guestRpcSocketPath := env_or_default2 "MACMU_GUEST_RPC_SOCKET" "AEMU_SHELL_GUEST_RPC_SOCKET"
                             default_guest_rpc_socket_path;
     guestCtrlSocketPath := env_or_default2 "MACMU_GUEST_CTRL_SOCKET" "AEMU_SHELL_GUEST_CTRL_SOCKET"
                              default_guest_ctrl_socket_path;
     guestAgentImagePath := env_or_default2 "MACMU_GUEST_AGENT_IMAGE" "AEMU_SHELL_GUEST_AGENT_IMAGE"
                              (default_guest_agent_image_path launcherDir);
     guestRamdiskOverlayPath :=
       env_or_default2 "MACMU_GUEST_RAMDISK_OVERLAY" "AEMU_SHELL_GUEST_RAMDISK_OVERLAY"
         (default_guest_ramdisk_overlay_path launcherDir);
     guestRamdiskPath := env_or_default2 "MACMU_GUEST_RAMDISK" "AEMU_SHELL_GUEST_RAMDISK"
                           (default_guest_ramdisk_path launcherDir);
     avdName := env_or_default2 "MACMU_AVD_NAME" "AEMU_SHELL_AVD_NAME" kDefaultAvdName;
     wipeData := false |}.

(** The [*_overridden] variables. *)
Record overrides := {
  qemu_path_overridden : bool; avd_home_overridden : bool; system_path_overridden : bool;
  dyld_library_path_overridden : bool; guest_ramdisk_overlay_overridden : bool;
  guest_ramdisk_overridden : bool; guest_agent_image_overridden : bool }.

Definition env_overrides : overrides := {|
  qemu_path_overridden := is_set "MACMU_QEMU_PATH" || is_set "AEMU_SHELL_QEMU_PATH";
  avd_home_overridden := is_set "MACMU_AVD_HOME" || is_set "AEMU_SHELL_AVD_HOME" ||
                         is_set "ANDROID_AVD_HOME";
  system_path_overridden := is_set "MACMU_SYSTEM_PATH" || is_set "AEMU_SHELL_SYSTEM_PATH";
  dyld_library_path_overridden :=
    is_set "MACMU_DYLD_LIBRARY_PATH" || is_set "AEMU_SHELL_DYLD_LIBRARY_PATH";
  guest_ramdisk_overlay_overridden :=
    is_set "MACMU_GUEST_RAMDISK_OVERLAY" || is_set "AEMU_SHELL_GUEST_RAMDISK_OVERLAY";
  guest_ramdisk_overridden := is_set "MACMU_GUEST_RAMDISK" || is_set "AEMU_SHELL_GUEST_RAMDISK";
  guest_agent_image_overridden :=
    is_set "MACMU_GUEST_AGENT_IMAGE" || is_set "AEMU_SHELL_GUEST_AGENT_IMAGE" |}.

End options.

(** ** The command-line pass *)

(** The flags that take a value, and those that do not. *)
Inductive flag :=
  | FLauncherDir | FAppDataDir | FAvdHome | FQemu | FDyldLibraryPath | FInputSocket | FSystemPath
  | FImportImage | FGuestRpcSocket | FGuestCtrlSocket | FGuestAgentImage | FGuestRamdiskOverlay
  | FGuestRamdisk | FAvd.

Inductive switch := SAutoImageImport | SNoAutoImageImport | SWipeData.

#[export] Instance flag_eq_dec : EqDecision flag.
Proof. solve_decision. Defined.
#[export] Instance switch_eq_dec : EqDecision switch.
Proof. solve_decision. Defined.

(** The [if (arg == ...)] chain, in its order. *)
Definition arg_kind (arg : bytes) : option (flag + switch) :=
  if bool_decide (arg = bstr "--launcher-dir") then Some (inl FLauncherDir) else
  if bool_decide (arg = bstr "--app-data-dir") then Some (inl FAppDataDir) else
  if bool_decide (arg = bstr "--avd-home") then Some (inl FAvdHome) else
  if bool_decide (arg = bstr "--qemu") then Some (inl FQemu) else
  if bool_decide (arg = bstr "--dyld-library-path") then Some (inl FDyldLibraryPath) else
  if bool_decide (arg = bstr "--input-socket") then Some (inl FInputSocket) else
  if bool_decide (arg = bstr "--system-path") then Some (inl FSystemPath) else
  if bool_decide (arg = bstr "--import-image") then Some (inl FImportImage) else
  if bool_decide (arg = bstr "--auto-image-import") then Some (inr SAutoImageImport) else
  if bool_decide (arg = bstr "--no-auto-image-import") then Some (inr SNoAutoImageImport) else
  if bool_decide (arg = bstr "--guest-rpc-socket") then Some (inl FGuestRpcSocket) else
  if bool_decide (arg = bstr "--guest-ctrl-socket") then Some (inl FGuestCtrlSocket) else
  if bool_decide (arg = bstr "--guest-agent-image") then Some (inl FGuestAgentImage) else
  if bool_decide (arg = bstr "--guest-ramdisk-overlay") then Some (inl FGuestRamdiskOverlay) else
  if bool_decide (arg = bstr "--guest-ramdisk") then Some (inl FGuestRamdisk) else
  if bool_decide (arg = bstr "--avd") then Some (inl FAvd) else
  if bool_decide (arg = bstr "--wipe-data") then Some (inr SWipeData) else None.

Section command_line.
Context (w : world).

(** What a flag with its value does, listed by the field that changes:
    [--launcher-dir] and [--app-data-dir] derive again whatever was not
    overridden, every other flag stores its value. *)
Definition apply_flag (f : flag) (v : bytes) (o : t) (ov : overrides) : t := {|
  appDataDir := match f with FAppDataDir => v | _ => appDataDir o end;
  avdHome := match f with
             | FAvdHome => v
             | FAppDataDir => if avd_home_overridden ov then avdHome o else default_avd_home v
             | _ => avdHome o
             end;
  launcherDir := match f with FLauncherDir => v | _ => launcherDir o end;
  qemuPath := match f with
              | FQemu => v
              | FLauncherDir => if qemu_path_overridden ov then qemuPath o else default_qemu_path v
              | _ => qemuPath o
              end;
  dyldLibraryPath := match f with
                     | FDyldLibraryPath => v
                     | FLauncherDir => if dyld_library_path_overridden ov then dyldLibraryPath o
                                       else default_dyld_library_path v
                     | _ => dyldLibraryPath o
                     end;
  inputSocketPath := match f with FInputSocket => v | _ => inputSocketPath o end;
  systemPath := match f with
                | FSystemPath => v
                | FAppDataDir => if system_path_overridden ov then systemPath o
                                 else default_system_path v
                | _ => systemPath o
                end;
  imageImportSource := match f with FImportImage => v | _ => imageImportSource o end;
  autoImportDefaultImage := autoImportDefaultImage o;
  guestRpcSocketPath := match f with FGuestRpcSocket => v | _ => guestRpcSocketPath o end;
  guestCtrlSocketPath := match f with FGuestCtrlSocket => v | _ => guestCtrlSocketPath o end;
  guestAgentImagePath := match f with
                         | FGuestAgentImage => v
                         | FLauncherDir => if guest_agent_image_overridden ov
                                           then guestAgentImagePath o
                                           else default_guest_agent_image_path w v
                         | _ => guestAgentImagePath o
                         end;
  guestRamdiskOverlayPath := match f with
                             | FGuestRamdiskOverlay => v
                             | FLauncherDir => if guest_ramdisk_overlay_overridden ov
                                               then guestRamdiskOverlayPath o
                                               else default_guest_ramdisk_overlay_path w v
                             | _ => guestRamdiskOverlayPath o
                             end;
  guestRamdiskPath := match f with
                      | FGuestRamdisk => v
                      | FLauncherDir => if guest_ramdisk_overridden ov then guestRamdiskPath o
                                        else default_guest_ramdisk_path v
                      | _ => guestRamdiskPath o
                      end;
  avdName := match f with FAvd => v | _ => avdName o end;
  wipeData := wipeData o |}.

Definition mark_overridden (f : flag) (ov : overrides) : overrides := {|
  qemu_path_overridden := match f with FQemu => true | _ => qemu_path_overridden ov end;
  avd_home_overridden := match f with FAvdHome => true | _ => avd_home_overridden ov end;
  system_path_overridden := match f with FSystemPath => true | _ => system_path_overridden ov end;
  dyld_library_path_overridden :=
    match f with FDyldLibraryPath => true | _ => dyld_library_path_overridden ov end;
  guest_ramdisk_overlay_overridden :=
    match f with FGuestRamdiskOverlay => true | _ => guest_ramdisk_overlay_overridden ov end;
  guest_ramdisk_overridden := match f with FGuestRamdisk => true | _ => guest_ramdisk_overridden ov end;
  guest_agent_image_overridden :=
    match f with FGuestAgentImage => true | _ => guest_agent_image_overridden ov end |}.

Definition apply_switch (s : switch) (o : t) : t := {|
  appDataDir := appDataDir o; avdHome := avdHome o; launcherDir := launcherDir o;
  qemuPath := qemuPath o; dyldLibraryPath := dyldLibraryPath o;
  inputSocketPath := inputSocketPath o; systemPath := systemPath o;
  imageImportSource := imageImportSource o;
  autoImportDefaultImage := match s with
                            | SAutoImageImport => true | SNoAutoImageImport => false
                            | SWipeData => autoImportDefaultImage o
                            end;
  guestRpcSocketPath := guestRpcSocketPath o; guestCtrlSocketPath := guestCtrlSocketPath o;
  guestAgentImagePath := guestAgentImagePath o;
  guestRamdiskOverlayPath := guestRamdiskOverlayPath o; guestRamdiskPath := guestRamdiskPath o;
  avdName := avdName o;
  wipeData := match s with SWipeData => true | _ => wipeData o end |}.

(** The loop over [argv]; a flag takes the next argument whatever it is, and one
    at the end of the line is ignored with a message. *)
Fixpoint parse_args (args : list bytes) (o : t) (ov : overrides) : t :=
  match args with
  | [] => o
  | arg :: args' =>
      match arg_kind arg with
      | Some (inl f) =>
          match args' with
          | [] => o
          | v :: args'' => parse_args args'' (apply_flag f v o ov) (mark_overridden f ov)
          end
      | Some (inr s) => parse_args args' (apply_switch s o) ov
      | None => parse_args args' o ov
      end
  end.

(** [argv] without the program's name. *)
Definition parse_options (args : list bytes) : t := parse_args args (env_options w) (env_overrides w).

(** ** The reference: last flag, then environment, then derived default *)

(** The flags of a command line with their values, and its switches. *)
Fixpoint tokens (args : list bytes) : list ((flag * bytes) + switch) :=
  match args with
  | [] => []
  | arg :: args' =>
      match arg_kind arg with
      | Some (inl f) => match args' with [] => [] | v :: args'' => inl (f, v) :: tokens args'' end
      | Some (inr s) => inr s :: tokens args'
      | None => tokens args'
      end
  end.

(** The value of the last occurrence of a flag. *)
Fixpoint last_value (f : flag) (ts : list ((flag * bytes) + switch)) : option bytes :=
  match ts with
  | [] => None
  | tk :: ts' =>
      match last_value f ts' with
      | Some v => Some v
      | None => match tk with
                | inl (g, v) => if decide (g = f) then Some v else None
                | inr _ => None
                end
      end
  end.

(** A plain option: the flag, else what the environment gave. *)
Definition plain_value (f : flag) (from_env : bytes) (ts : list ((flag * bytes) + switch)) : bytes :=
  default from_env (last_value f ts).

(** An option derived from a directory: its flag, else the environment, else the
    default under the final value of the directory. *)
Definition derived_value (f : flag) (set_in_env : bool) (from_env : bytes) (derive : bytes -> bytes)
    (dir : option bytes) (ts : list ((flag * bytes) + switch)) : bytes :=
  match last_value f ts with
  | Some v => v
  | None => match dir with
            | Some d => if set_in_env then from_env else derive d
            | None => from_env
            end
  end.

Definition last_auto (from_env : bool) (ts : list ((flag * bytes) + switch)) : bool :=
  foldl (fun b tk => match tk with
                     | inr SAutoImageImport => true | inr SNoAutoImageImport => false | _ => b
                     end) from_env ts.

Definition apply_token (tk : (flag * bytes) + switch) (s : t * overrides) : t * overrides :=
  match tk with
  | inl (f, v) => (apply_flag f v s.1 s.2, mark_overridden f s.2)
  | inr sw => (apply_switch sw s.1, s.2)
  end.

Lemma parse_args_tokens args o ov :
  parse_args args o ov = (foldl (fun s tk => apply_token tk s) (o, ov) (tokens args)).1.
Proof.
  revert o ov. induction args as [args IH] using (induction_ltof1 _ (@length bytes)).
  intros o ov. destruct args as [|arg args]; [done|]. simpl.
  destruct (arg_kind arg) as [[f|s]|].
  - destruct args as [|v args]; [done|]. simpl. apply IH. unfold ltof. simpl. lia.
  - simpl. apply IH. unfold ltof. simpl. lia.
  - apply IH. unfold ltof. simpl. lia.
Qed.

Lemma last_value_snoc f ts tk :
  last_value f (ts ++ [tk]) =
    match tk with
    | inl (g, v) => if decide (g = f) then Some v else last_value f ts
    | inr _ => last_value f ts
    end.
Proof.
  induction ts as [|tk' ts IH]; simpl.
  - destruct tk as [[g v]|]; [|done]. by case_decide.
  - rewrite IH. destruct tk as [[g v]|]; [|done]. by case_decide.
Qed.

Definition apply_tokens (ts : list ((flag * bytes) + switch)) (s : t * overrides) : t * overrides :=
  foldl (fun s tk => apply_token tk s) s ts.

Lemma apply_tokens_snoc ts tk s :
  apply_tokens (ts ++ [tk]) s = apply_token tk (apply_tokens ts s).
Proof. unfold apply_tokens. by rewrite foldl_app. Qed.

(** A field that only its own flag changes. *)
Lemma plain_field (fld : t -> bytes) f :
  (forall g v o ov, fld (apply_flag g v o ov) = if decide (g = f) then v else fld o) ->
  (forall sw o, fld (apply_switch sw o) = fld o) ->
  forall ts s, fld (apply_tokens ts s).1 = plain_value f (fld s.1) ts.
Proof.
  intros Hf Hs ts s. unfold plain_value. induction ts as [|tk ts IH] using rev_ind; [done|].
  rewrite apply_tokens_snoc, last_value_snoc. destruct tk as [[g v]|sw]; simpl.
  - rewrite Hf. by case_decide.
  - by rewrite Hs.
Qed.

(** A field that its own flag overrides and the flag [d] of a directory derives. *)
Lemma derived_field (fld : t -> bytes) (ovf : overrides -> bool) f d derive :
  f <> d ->
  (forall g v o ov, fld (apply_flag g v o ov) =
     if decide (g = f) then v
     else if decide (g = d) then (if ovf ov then fld o else derive v) else fld o) ->
  (forall g ov, ovf (mark_overridden g ov) = if decide (g = f) then true else ovf ov) ->
  (forall sw o, fld (apply_switch sw o) = fld o) ->
  forall ts s,
    fld (apply_tokens ts s).1 = derived_value f (ovf s.2) (fld s.1) derive (last_value d ts) ts.
Proof.
  intros Hne Hf Ho Hs ts s.
  enough (fld (apply_tokens ts s).1 = derived_value f (ovf s.2) (fld s.1) derive (last_value d ts) ts /\
    ovf (apply_tokens ts s).2 = ovf s.2 || bool_decide (is_Some (last_value f ts))) by tauto.
  unfold derived_value. induction ts as [|tk ts [IH1 IH2]] using rev_ind.
  { simpl. by rewrite orb_false_r. }
  rewrite apply_tokens_snoc, !last_value_snoc. destruct tk as [[g v]|sw]; simpl; [|by rewrite Hs].
  rewrite Hf, Ho. destruct (decide (g = f)) as [->|Hg].
  { rewrite bool_decide_true by eauto. by rewrite orb_true_r. }
  split; [|done]. rewrite IH2. destruct (decide (g = d)) as [->|]; [|done].
  destruct (last_value f ts) as [vf|].
  - by rewrite orb_true_r.
  - rewrite orb_false_r, IH1. destruct (ovf s.2); [|done]. by destruct (last_value d ts).
Qed.

(** The two options without a value. *)
Lemma switch_fields ts s :
  autoImportDefaultImage (apply_tokens ts s).1 = last_auto (autoImportDefaultImage s.1) ts /\
  wipeData (apply_tokens ts s).1 = wipeData s.1 || bool_decide (inr SWipeData ∈ ts).
Proof.
  unfold last_auto. induction ts as [|tk ts [IH1 IH2]] using rev_ind.
  { simpl. by rewrite orb_false_r. }
  rewrite apply_tokens_snoc, foldl_app. simpl. rewrite <- IH1.
  destruct tk as [[g v]|sw]; simpl; [split; [done|]|split; [by destruct sw|]]; rewrite IH2.
  - f_equal. apply bool_decide_ext. set_solver.
  - destruct sw; [f_equal; apply bool_decide_ext; set_solver..|].
    rewrite (bool_decide_true (_ ∈ ts ++ _)) by set_solver. by rewrite orb_true_r.
Qed.

End command_line.

(** every command line, whatever the order of its flags, resolves to
    the same layering: a flag's last value wins; otherwise the value the
    environment gave; and the options that live under the launcher or the
    application data directory, unless given by a flag or set in the
    environment, are derived from the final value of that directory, also when a
    later flag moves it. *)
Theorem parse_options_layers w args :
  let o := parse_options w args in
  let e := env_options w in
  let ov := env_overrides w in
  let ts := tokens args in
  let l := last_value FLauncherDir ts in
  let a := last_value FAppDataDir ts in
  launcherDir o = default (launcherDir e) l /\
  appDataDir o = default (appDataDir e) a /\
  qemuPath o = derived_value FQemu (qemu_path_overridden ov) (qemuPath e) default_qemu_path l ts /\
  dyldLibraryPath o = derived_value FDyldLibraryPath (dyld_library_path_overridden ov)
                        (dyldLibraryPath e) default_dyld_library_path l ts /\
  guestAgentImagePath o = derived_value FGuestAgentImage (guest_agent_image_overridden ov)
                            (guestAgentImagePath e) (default_guest_agent_image_path w) l ts /\
  guestRamdiskOverlayPath o = derived_value FGuestRamdiskOverlay (guest_ramdisk_overlay_overridden ov)
                                (guestRamdiskOverlayPath e) (default_guest_ramdisk_overlay_path w) l ts /\
  guestRamdiskPath o = derived_value FGuestRamdisk (guest_ramdisk_overridden ov)
                         (guestRamdiskPath e) default_guest_ramdisk_path l ts /\
  avdHome o = derived_value FAvdHome (avd_home_overridden ov) (avdHome e) default_avd_home a ts /\
  systemPath o = derived_value FSystemPath (system_path_overridden ov) (systemPath e)
                   default_system_path a ts /\
  inputSocketPath o = plain_value FInputSocket (inputSocketPath e) ts /\
  imageImportSource o = plain_value FImportImage (imageImportSource e) ts /\
  guestRpcSocketPath o = plain_value FGuestRpcSocket (guestRpcSocketPath e) ts /\
  guestCtrlSocketPath o = plain_value FGuestCtrlSocket (guestCtrlSocketPath e) ts /\
  avdName o = plain_value FAvd (avdName e) ts /\
  autoImportDefaultImage o = last_auto (autoImportDefaultImage e) ts /\
  wipeData o = bool_decide (inr SWipeData ∈ ts).
Proof.
  cbv zeta. unfold parse_options. rewrite parse_args_tokens.
  change (foldl _ _ _) with (apply_tokens w (tokens args) (env_options w, env_overrides w)).
  set (s := (env_options w, env_overrides w)). set (ts := tokens args).
  destruct (switch_fields w ts s) as [Ha Hw].
  repeat apply conj;
    [ apply (plain_field w launcherDir FLauncherDir)
    | apply (plain_field w appDataDir FAppDataDir)
    | apply (derived_field w qemuPath qemu_path_overridden FQemu FLauncherDir)
    | apply (derived_field w dyldLibraryPath dyld_library_path_overridden FDyldLibraryPath FLauncherDir)
    | apply (derived_field w guestAgentImagePath guest_agent_image_overridden FGuestAgentImage FLauncherDir)
    | apply (derived_field w guestRamdiskOverlayPath guest_ramdisk_overlay_overridden
               FGuestRamdiskOverlay FLauncherDir)
    | apply (derived_field w guestRamdiskPath guest_ramdisk_overridden FGuestRamdisk FLauncherDir)
    | apply (derived_field w avdHome avd_home_overridden FAvdHome FAppDataDir)
    | apply (derived_field w systemPath system_path_overridden FSystemPath FAppDataDir)
    | apply (plain_field w inputSocketPath FInputSocket)
    | apply (plain_field w imageImportSource FImportImage)
    | apply (plain_field w guestRpcSocketPath FGuestRpcSocket)
    | apply (plain_field w guestCtrlSocketPath FGuestCtrlSocket)
    | apply (plain_field w avdName FAvd)
    | exact Ha | exact Hw]; done || by intros [].
Qed.

(** An option that is derived, was not given by a flag, and whose variable is
    set to the empty string: the variable contributes no value, yet it keeps a
    later [--launcher-dir] from moving the option. *)
Lemma empty_variable_pins_default w args dir :
  getenv w "MACMU_QEMU_PATH" = Some [] -> getenv w "AEMU_SHELL_QEMU_PATH" = None ->
  last_value FQemu (tokens args) = None -> last_value FLauncherDir (tokens args) = Some dir ->
  qemuPath (parse_options w args) = default_qemu_path (launcherDir (env_options w)).
Proof.
  intros H1 H2 H3 H4. unfold parse_options. rewrite parse_args_tokens.
  change (foldl _ _ _) with (apply_tokens w (tokens args) (env_options w, env_overrides w)).
  rewrite (derived_field w qemuPath qemu_path_overridden FQemu FLauncherDir default_qemu_path);
    [|done|by intros []..]. rewrite H4. unfold derived_value. rewrite H3. unfold env_overrides, is_set.
  simpl. rewrite H1, H2. simpl. unfold env_or_default2, env_or_default. by rewrite H1, H2.
Qed.

End ShellOptions.

(** ** A concrete environment *)
Import ShellOptions.

Definition demo_world : world := {|
  getenv := fun n => if bool_decide (n = "HOME") then Some (bstr "/Users/a") else
                     if bool_decide (n = "MACMU_AVD_NAME") then Some (bstr "phone") else None;
  access_ok := fun _ => false; getcwd := None;
  executable_path := Some (bstr "/opt/macmu/MacMu"); realpath := fun _ => None; getpid := 42 |}.

Example demo_options :
  let o := parse_options demo_world
    [bstr "--qemu"; bstr "/q"; bstr "--launcher-dir"; bstr "/l/"; bstr "--app-data-dir"; bstr "/d";
     bstr "--wipe-data"; bstr "--avd"] in
  (qemuPath o, avdHome o, systemPath o, avdName o, wipeData o, guestRpcSocketPath o) =
  (bstr "/q", bstr "/d/avd", bstr "/d/images/aosp16-arm64", bstr "phone", true,
   bstr "/tmp/macmu.rpc.42.sock").
Proof. vm_compute. reflexivity. Qed.
