(* ===== verification/QemuLauncher.v ===== *)
(** [shell/core/qemu_launcher.{h,cpp}]: the command line, the environment and
    the descriptors of the emulator process, and its signals. The system calls'
    answers are the record [launch_env]; the process that [posix_spawn] starts is
    described by the request it is given. *)
From S2P Require Import Prelude Text Posix ControlProtocol InputProtocol ShellOptions.

Module QemuLauncher.
Import ShellOptions.

(** ** Environment *)

Definition EQUALS : Init.Byte.byte := Byte.x3d.

Fixpoint has_key (overrides : list (bytes * bytes)) (key : bytes) : bool :=
  match overrides with
  | [] => false
  | (k, _) :: overrides' => if bool_decide (k = key) then true else has_key overrides' key
  end.

(** The key of an entry: what precedes its first '=', or all of it. *)
Definition entry_key (entry : bytes) : bytes :=
  match split_at EQUALS entry with Some (k, _) => k | None => entry end.

Fixpoint keep_entries (overrides : list (bytes * bytes)) (environ : list bytes) : list bytes :=
  match environ with
  | [] => []
  | entry :: environ' =>
      if negb (has_key overrides (entry_key entry)) then entry :: keep_entries overrides environ'
      else keep_entries overrides environ'
  end.

Definition entry_of (kv : bytes * bytes) : bytes := kv.1 ++ [EQUALS] ++ kv.2.

Definition make_environment (environ : list bytes) (overrides : list (bytes * bytes)) : list bytes :=
  keep_entries overrides environ ++ map entry_of overrides.

(** ** The request to [posix_spawn] *)

Definition kChildFrameDoorbellFd : Z := 198.
Definition kMinTemporarySpawnFd : Z := 256.
Definition kFrameDoorbellFdEnv : bytes := bstr "MACMU_FRAME_DOORBELL_FD".
Definition kLegacyFrameDoorbellFdEnv : bytes := bstr "AEMU_FRAME_DOORBELL_FD".

Definition qemu_args (options : ShellOptions.t) : list bytes :=
  [qemuPath options; bstr "-avd"; avdName options; bstr "-no-window"; bstr "-no-audio";
   bstr "-no-snapshot"; bstr "-no-boot-anim"; bstr "-gpu"; bstr "host"] ++
  (if negb (is_empty (systemPath options)) then [bstr "-sysdir"; systemPath options] else []) ++
  (if wipeData options then [bstr "-wipe-data"] else []) ++
  (if negb (is_empty (guestRpcSocketPath options))
   then [bstr "-unix-pipe"; guestRpcSocketPath options] else []) ++
  (if negb (is_empty (guestCtrlSocketPath options))
   then [bstr "-unix-pipe"; guestCtrlSocketPath options] else []).

(** The number of the child's descriptor when the channel exists. *)
Definition fd_value (parentFd childFd : Z) : bytes := if 0 <=? parentFd then dec childFd else [].

Definition qemu_overrides (options : ShellOptions.t) (pid frameDoorbellFd inputFd controlFd : Z)
    : list (bytes * bytes) :=
  [(bstr "MACMU_IOSURFACE_EXPORT", bstr "1");
   (bstr "AEMU_IOSURFACE_EXPORT", bstr "1");
   (bstr "ANDROID_EMULATOR_LAUNCHER_DIR", launcherDir options);
   (bstr "ANDROID_EMULATOR_WRAPPER_PID", dec_signed pid);
   (bstr "ANDROID_AVD_HOME", avdHome options);
   (bstr "MACMU_APP_DATA_DIR", appDataDir options);
   (bstr "MACMU_AVD_HOME", avdHome options);
   (bstr "MACMU_GUEST_RPC_SOCKET", guestRpcSocketPath options);
   (bstr "MACMU_GUEST_CTRL_SOCKET", guestCtrlSocketPath options);
   (bstr "MACMU_GUEST_AGENT_IMAGE", guestAgentImagePath options);
   (bstr "MACMU_GUEST_RAMDISK", guestRamdiskPath options);
   (bstr "MACMU_GUEST_RAMDISK_OVERLAY", guestRamdiskOverlayPath options);
   (bstr "DYLD_LIBRARY_PATH", dyldLibraryPath options);
   (kFrameDoorbellFdEnv, fd_value frameDoorbellFd kChildFrameDoorbellFd);
   (kLegacyFrameDoorbellFdEnv, fd_value frameDoorbellFd kChildFrameDoorbellFd);
   (bstr kInputFdEnv, fd_value inputFd kInputChildFd);
   (bstr kControlFdEnv, fd_value controlFd kControlChildFd);
   (bstr kInputSocketEnv, inputSocketPath options);
   (bstr "LC_ALL", bstr "C");
   (bstr "MESA_RGB_VISUAL", bstr "TrueColor 24");
   (bstr "SWIFT_BACKTRACE", bstr "enable=no")].

(** File actions, in the order they were added. *)
Inductive action := ADup2 (fd newFd : Z) | AClose (fd : Z) | AInherit (fd : Z).

(** The flags of [posix_spawnattr_setflags], with their values on macOS. *)
Definition POSIX_SPAWN_SETPGROUP : Z := 0x0002.
Definition POSIX_SPAWN_CLOEXEC_DEFAULT : Z := 0x4000.

(** A descriptor: the open file it refers to, and FD_CLOEXEC. *)
Record descriptor := { d_file : Z; d_cloexec : bool }.
Abbreviation fd_table := (gmap Z descriptor).

(** The shell's descriptors, and the answers of the system calls: whether the action
    list can be initialised, which stdio descriptors can be marked, the number that
    [F_DUPFD_CLOEXEC] takes for the doorbell (0), the input (1) and the control
    channel (2), [None] for an error, the results of adding the two actions of a
    channel, of the attribute calls, and of [posix_spawn] itself ([None] for an
    error). *)
Record launch_env := {
  le_table : fd_table; le_init : bool; le_inherit : Z -> bool;
  le_dup : nat -> option Z; le_adddup2 : nat -> bool; le_addclose : nat -> bool;
  le_attr_init : bool; le_attr_setflags : bool; le_attr_setpgroup : bool;
  le_spawn : option Z }.

(** [fcntl(parentFd, F_DUPFD_CLOEXEC, minimum)]: a free descriptor from [minimum] on
    that refers to the file of [parentFd] and is closed on exec. *)
Definition fcntl_dupfd_cloexec (choice : option Z) (parentFd minimum : Z) (tbl : fd_table) : Z * fd_table :=
  match tbl !! parentFd, choice with
  | Some d, Some fd =>
      if (minimum <=? fd) && bool_decide (tbl !! fd = None)
      then (fd, <[fd := {| d_file := d_file d; d_cloexec := true |}]> tbl) else (-1, tbl)
  | _, _ => (-1, tbl)
  end.

Record spawn_state := { fileActions : option (list action); temporarySpawnFds : list Z; table : fd_table }.

(** What [posix_spawn] is told besides the program, its arguments and its environment. *)
Record spawn_attributes := { sp_actions : list action; sp_flags : Z; sp_pgroup : Z }.

Definition close_temporary_spawn_fds (fds : list Z) (tbl : fd_table) : fd_table :=
  foldl (fun tbl fd => delete fd tbl) tbl fds.

Section launch.
Context (env : launch_env).

Definition ensure_file_actions (st : spawn_state) : bool * spawn_state :=
  match fileActions st with
  | Some _ => (true, st)
  | None => if le_init env then
              (true, {| fileActions := Some []; temporarySpawnFds := temporarySpawnFds st; table := table st |})
            else (false, st)
  end.

Definition add_action (a : action) (st : spawn_state) : spawn_state := {|
  fileActions := match fileActions st with Some acts => Some (acts ++ [a]) | None => None end;
  temporarySpawnFds := temporarySpawnFds st; table := table st |}.

Definition duplicate_for_spawn (channel : nat) (parentFd : Z) (st : spawn_state) : Z * spawn_state :=
  let '(dupFd, tbl) := fcntl_dupfd_cloexec (le_dup env channel) parentFd kMinTemporarySpawnFd (table st) in
  if dupFd <? 0 then (-1, st)
  else (dupFd, {| fileActions := fileActions st;
                  temporarySpawnFds := temporarySpawnFds st ++ [dupFd]; table := tbl |}).

Definition add_inherited_fd (channel : nat) (parentFd childFd : Z) (st : spawn_state)
    : bool * spawn_state :=
  if parentFd <? 0 then (true, st) else
  let '(ok, st) := ensure_file_actions st in
  if negb ok then (false, st) else
  let '(spawnFd, st) := duplicate_for_spawn channel parentFd st in
  if spawnFd <? 0 then (false, st) else
  if negb (le_adddup2 env channel) then (false, st) else
  let st := add_action (ADup2 spawnFd childFd) st in
  if negb (le_addclose env channel) then (false, st) else
  (true, add_action (AClose spawnFd) st).

(** The loop over the stdio descriptors; those that are not open are passed over. *)
Fixpoint preserve_stdio (fds : list Z) (st : spawn_state) : bool * spawn_state :=
  match fds with
  | [] => (true, st)
  | fd :: fds' =>
      if bool_decide (table st !! fd = None) then preserve_stdio fds' st else
      let '(ok, st) := ensure_file_actions st in
      if negb ok then (false, st) else
      if negb (le_inherit env fd) then (false, st) else
      preserve_stdio fds' (add_action (AInherit fd) st)
  end.

(** What [launch_qemu] did: its result, the request it handed to [posix_spawn] and
    the shell's descriptors at that time, its descriptors at the end, and whether the
    action list and the attributes that were initialised have been destroyed. *)
Record outcome := {
  o_pid : Z; o_spawned : option (list bytes * list bytes * spawn_attributes);
  o_spawn_table : fd_table; o_table : fd_table; o_actions_destroyed : bool; o_attributes_destroyed : bool }.

Definition abandon (st : spawn_state) (attributes : bool) : outcome := {|
  o_pid := -1; o_spawned := None; o_spawn_table := table st;
  o_table := close_temporary_spawn_fds (temporarySpawnFds st) (table st);
  o_actions_destroyed := match fileActions st with Some _ => true | None => false end;
  o_attributes_destroyed := attributes |}.

Definition launch_qemu (environ : list bytes) (pid : Z) (options : ShellOptions.t)
    (frameDoorbellFd inputFd controlFd : Z) : outcome :=
  let args := qemu_args options in
  let environment :=
    make_environment environ (qemu_overrides options pid frameDoorbellFd inputFd controlFd) in
  let st := {| fileActions := None; temporarySpawnFds := []; table := le_table env |} in
  let '(ok, st) := preserve_stdio [0; 1; 2] st in
  if negb ok then abandon st false else
  let '(ok, st) := add_inherited_fd 0 frameDoorbellFd kChildFrameDoorbellFd st in
  if negb ok then abandon st false else
  let '(ok, st) := add_inherited_fd 1 inputFd kInputChildFd st in
  if negb ok then abandon st false else
  let '(ok, st) := add_inherited_fd 2 controlFd kControlChildFd st in
  if negb ok then abandon st false else
  let spawnFlags := Z.lor POSIX_SPAWN_SETPGROUP POSIX_SPAWN_CLOEXEC_DEFAULT in
  if negb (le_attr_init env) then abandon st false else
  if negb (le_attr_setflags env) then abandon st true else
  if negb (le_attr_setpgroup env) then abandon st true else
  {| o_pid := match le_spawn env with Some p => p | None => -1 end;
     o_spawned := Some (args, environment,
       {| sp_actions := default [] (fileActions st); sp_flags := spawnFlags; sp_pgroup := 0 |});
     o_spawn_table := table st;
     o_table := close_temporary_spawn_fds (temporarySpawnFds st) (table st);
     o_actions_destroyed := match fileActions st with Some _ => true | None => false end;
     o_attributes_destroyed := true |}.
End launch.

(** ** Signals *)

Inductive kill_call := Kill (target signal : Z).
Definition SIGTERM : Z := 15.
Definition SIGKILL : Z := 9.

(** [group_ok]: whether the signal reached the process group. *)
Definition signal_qemu_process_group (group_ok : bool) (pid signal : Z) : list kill_call :=
  if pid <=? 0 then []
  else Kill (- pid) signal :: (if group_ok then [] else [Kill pid signal]).

Definition request_qemu_termination (group_ok : bool) (pid : Z) : list kill_call :=
  signal_qemu_process_group group_ok pid SIGTERM.

Definition force_kill_qemu (group_ok : bool) (pid : Z) : list kill_call :=
  signal_qemu_process_group group_ok pid SIGKILL.

(** ** The environment of the child *)

(** [getenv] in the child: the value of the first entry with the key. *)
Fixpoint env_lookup (key : bytes) (entries : list bytes) : option bytes :=
  match entries with
  | [] => None
  | e :: entries' =>
      match split_at EQUALS e with
      | Some (k, v) => if bool_decide (k = key) then Some v else env_lookup key entries'
      | None => env_lookup key entries'
      end
  end.

Lemma has_key_spec overrides key : has_key overrides key = true <-> key ∈ overrides.*1.
Proof.
  induction overrides as [|[k v] overrides IH]; simpl; [set_solver|].
  case_bool_decide; subst; [set_solver|]. rewrite IH, elem_of_cons. naive_solver.
Qed.

Lemma env_lookup_app key e1 e2 :
  env_lookup key (e1 ++ e2) = match env_lookup key e1 with Some v => Some v | None => env_lookup key e2 end.
Proof.
  induction e1 as [|e e1 IH]; simpl; [done|].
  destruct (split_at EQUALS e) as [[k v]|]; [|done]. by case_bool_decide.
Qed.

(** The entries that are kept: none with an overridden key, the others as they
    were. *)
Lemma env_lookup_keep overrides environ key :
  env_lookup key (keep_entries overrides environ) =
    if has_key overrides key then None else env_lookup key environ.
Proof.
  induction environ as [|e environ IH]; simpl; [by case_match|].
  unfold entry_key. destruct (split_at EQUALS e) as [[k v]|] eqn:E.
  - destruct (has_key overrides k) eqn:Hk; simpl; rewrite ?E, IH.
    + case_bool_decide; [|done]. subst. by rewrite Hk.
    + case_bool_decide; [|done]. subst. by rewrite Hk.
  - destruct (has_key overrides e); simpl; by rewrite ?E, IH.
Qed.

Lemma env_lookup_overrides overrides key value :
  NoDup overrides.*1 -> Forall (fun kv => EQUALS ∉ kv.1) overrides -> (key, value) ∈ overrides ->
  env_lookup key (map entry_of overrides) = Some value.
Proof.
  intros Hnd HF. induction HF as [|[k v] overrides Hk HF IH]; intros Hin; [set_solver|].
  apply NoDup_cons in Hnd as [Hnin Hnd]. simpl. unfold entry_of at 1. simpl.
  rewrite split_at_app by done. apply elem_of_cons in Hin as [[= -> ->]|Hin].
  - by rewrite bool_decide_true.
  - rewrite bool_decide_false; [by apply IH|]. intros ->. apply Hnin, list_elem_of_fmap.
    by exists (key, value).
Qed.

Lemma qemu_override_keys options pid f i c :
  NoDup (qemu_overrides options pid f i c).*1 /\
  Forall (fun kv => EQUALS ∉ kv.1) (qemu_overrides options pid f i c).
Proof.
  split.
  - change (qemu_overrides options pid f i c).*1 with (qemu_overrides options 0 0 0 0).*1.
    apply (bool_decide_unpack _). vm_compute. exact I.
  - repeat (apply Forall_cons; split; [apply split_at_None; reflexivity|]). apply Forall_nil_2.
Qed.

Lemma entry_key_of kv : EQUALS ∉ kv.1 -> entry_key (entry_of kv) = kv.1.
Proof. intros H. unfold entry_key, entry_of. simpl. by rewrite split_at_app. Qed.

Lemma env_lookup_absent overrides key :
  Forall (fun kv => EQUALS ∉ kv.1) overrides -> key ∉ overrides.*1 ->
  env_lookup key (map entry_of overrides) = None.
Proof.
  induction 1 as [|[k v] overrides Hk HF IH]; intros Hn; simpl; [done|].
  unfold entry_of at 1. simpl. rewrite split_at_app by done.
  rewrite bool_decide_false by set_solver. apply IH. set_solver.
Qed.

Definition with_key (key : bytes) (entries : list bytes) : list bytes :=
  List.filter (fun e => bool_decide (entry_key e = key)) entries.

Lemma with_key_keep overrides environ key :
  has_key overrides key = true -> with_key key (keep_entries overrides environ) = [].
Proof.
  intros Hk. induction environ as [|e environ IH]; simpl; [done|].
  destruct (has_key overrides (entry_key e)) eqn:E; simpl; [done|].
  rewrite bool_decide_false; [done|]. intros <-. congruence.
Qed.

Lemma with_key_none overrides key :
  Forall (fun kv => EQUALS ∉ kv.1) overrides -> key ∉ overrides.*1 ->
  with_key key (map entry_of overrides) = [].
Proof.
  induction 1 as [|kv overrides Hk HF IH]; intros Hn; simpl; [done|].
  rewrite entry_key_of, bool_decide_false by set_solver. apply IH. set_solver.
Qed.

Lemma with_key_once overrides key :
  NoDup overrides.*1 -> Forall (fun kv => EQUALS ∉ kv.1) overrides -> key ∈ overrides.*1 ->
  length (with_key key (map entry_of overrides)) = 1%nat.
Proof.
  intros Hnd HF. induction HF as [|kv overrides Hk HF IH]; intros Hin; [set_solver|].
  apply NoDup_cons in Hnd as [Hnin Hnd]. cbn [map with_key List.filter].
  rewrite entry_key_of by done. apply elem_of_cons in Hin as [->|Hin].
  - rewrite bool_decide_true by done. cbn [length]. f_equal.
    change (length (with_key kv.1 (map entry_of overrides)) = 0%nat).
    by rewrite with_key_none.
  - rewrite bool_decide_false; [by apply IH|]. by intros <-.
Qed.

(** The child's environment holds every variable the launcher sets
    with the launcher's value, whatever the parent's environment was (also when
    the parent had the variable already, several times or without '='), each
    such key once; and every other variable keeps the value it had. *)
Theorem make_environment_overrides environ options pid f i c :
  let overrides := qemu_overrides options pid f i c in
  let environment := make_environment environ overrides in
  (forall key value, (key, value) ∈ overrides ->
     env_lookup key environment = Some value /\ length (with_key key environment) = 1%nat) /\
  (forall key, key ∉ overrides.*1 -> env_lookup key environment = env_lookup key environ).
Proof.
  intros overrides environment. destruct (qemu_override_keys options pid f i c) as [Hnd HF].
  fold overrides in Hnd, HF. unfold environment, make_environment. split.
  - intros key value Hin. assert (key ∈ overrides.*1) as Hk
      by (apply list_elem_of_fmap; by exists (key, value)).
    split.
    + rewrite env_lookup_app, env_lookup_keep, (proj2 (has_key_spec _ _) Hk).
      by apply env_lookup_overrides.
    + unfold with_key. rewrite List.filter_app.
      change (length (with_key key (keep_entries overrides environ) ++
        with_key key (map entry_of overrides)) = 1%nat).
      rewrite with_key_keep by by apply has_key_spec. by apply with_key_once.
  - intros key Hk. rewrite env_lookup_app, env_lookup_keep.
    destruct (has_key overrides key) eqn:E; [by apply has_key_spec in E|].
    rewrite env_lookup_absent by done. by destruct (env_lookup key environ).
Qed.

(** ** The new process *)

Definition has_flag (flags flag : Z) : bool := negb (Z.land flags flag =? 0).

(** The process group of the child [pid] of a parent in [group]. *)
Definition process_group (attr : spawn_attributes) (pid group : Z) : Z :=
  if has_flag (sp_flags attr) POSIX_SPAWN_SETPGROUP
  then if sp_pgroup attr =? 0 then pid else sp_pgroup attr else group.

Definition keep_open (d : descriptor) : descriptor := {| d_file := d_file d; d_cloexec := false |}.

(** The actions in order, on a copy of the parent's table; [kept] are the descriptors
    that an action has named as a target. An action on a descriptor that is not open
    makes the spawn fail ([None]). *)
Fixpoint run_actions (acts : list action) (tbl : fd_table) (kept : gset Z) : option (fd_table * gset Z) :=
  match acts with
  | [] => Some (tbl, kept)
  | ADup2 fd newFd :: acts' =>
      match tbl !! fd with
      | Some x => run_actions acts' (<[newFd := keep_open x]> tbl) ({[newFd]} ∪ kept)
      | None => None
      end
  | AClose fd :: acts' =>
      match tbl !! fd with
      | Some _ => run_actions acts' (delete fd tbl) (kept ∖ {[fd]})
      | None => None
      end
  | AInherit fd :: acts' =>
      match tbl !! fd with
      | Some x => run_actions acts' (<[fd := keep_open x]> tbl) ({[fd]} ∪ kept)
      | None => None
      end
  end.

(** Whether a descriptor survives the exec: with [POSIX_SPAWN_CLOEXEC_DEFAULT] only
    what an action has named, without it everything that has no FD_CLOEXEC. *)
Definition survives (flags : Z) (kept : gset Z) (kv : Z * descriptor) : bool :=
  if has_flag flags POSIX_SPAWN_CLOEXEC_DEFAULT then bool_decide (kv.1 ∈ kept) else negb (d_cloexec kv.2).

(** The descriptors the new program sees. *)
Definition child_fds (attr : spawn_attributes) (tbl : fd_table) : option fd_table :=
  match run_actions (sp_actions attr) tbl ∅ with
  | Some (tbl', kept) => Some (filter (fun kv => survives (sp_flags attr) kept kv = true) tbl')
  | None => None
  end.

Lemma run_actions_app a1 a2 tbl kept :
  run_actions (a1 ++ a2) tbl kept =
    match run_actions a1 tbl kept with
    | Some (tbl', kept') => run_actions a2 tbl' kept'
    | None => None
    end.
Proof.
  revert tbl kept. induction a1 as [|a a1 IH]; intros tbl kept; simpl; [done|].
  destruct a; by destruct (tbl !! fd).
Qed.

(** The files of the kept part of a table, as a function. *)
Definition view (tbl : fd_table) (kept : gset Z) (g : Z -> option Z) : Prop :=
  forall fd, g fd = if decide (fd ∈ kept) then d_file <$> tbl !! fd else None.

Lemma child_fds_view attr tbl tbl' kept g :
  has_flag (sp_flags attr) POSIX_SPAWN_CLOEXEC_DEFAULT = true ->
  run_actions (sp_actions attr) tbl ∅ = Some (tbl', kept) -> view tbl' kept g ->
  exists child, child_fds attr tbl = Some child /\ forall fd, d_file <$> child !! fd = g fd.
Proof.
  intros Hf E Hv. unfold child_fds. rewrite E. eexists. split; [done|]. intros fd. rewrite (Hv fd).
  assert (forall x, survives (sp_flags attr) kept (fd, x) = bool_decide (fd ∈ kept)) as Hs
    by (intros x; unfold survives; by rewrite Hf).
  destruct (decide (fd ∈ kept)) as [Hin|Hin].
  - destruct (tbl' !! fd) as [x|] eqn:Ex.
    + rewrite (map_lookup_filter_Some_2 _ tbl' fd x); [done|done|]. rewrite Hs. by apply bool_decide_eq_true.
    + rewrite (map_lookup_filter_None_2 _ tbl' fd); [done|]. by left.
  - rewrite (map_lookup_filter_None_2 _ tbl' fd); [done|]. right. intros x _. rewrite Hs.
    by rewrite bool_decide_eq_false_2.
Qed.

(** Marking descriptors that are open. *)
Lemma run_inherit fds tbl kept g :
  Forall (fun fd => is_Some (tbl !! fd)) fds -> view tbl kept g ->
  exists tbl' kept', run_actions (map AInherit fds) tbl kept = Some (tbl', kept') /\
    view tbl' kept' (fun fd => if decide (fd ∈ fds) then d_file <$> tbl !! fd else g fd) /\
    forall k, k ∉ fds -> tbl' !! k = tbl !! k /\ (k ∈ kept' <-> k ∈ kept).
Proof.
  revert tbl kept g. induction fds as [|fd fds IH]; intros tbl kept g HF Hv; simpl.
  { exists tbl, kept. split; [done|]. split; [|done]. intros fd. by rewrite (Hv fd). }
  apply Forall_cons in HF as [[x Hx] HF]. rewrite Hx.
  assert (forall k, d_file <$> <[fd := keep_open x]> tbl !! k = d_file <$> tbl !! k) as Hsame.
  { intros k. destruct (decide (k = fd)) as [->|]; [by rewrite lookup_insert_eq, Hx|by rewrite lookup_insert_ne]. }
  destruct (IH (<[fd := keep_open x]> tbl) ({[fd]} ∪ kept) (fun k => if decide (k = fd) then d_file <$> tbl !! k else g k))
    as (tbl' & kept' & E & Hv' & Hk).
  { eapply Forall_impl; [exact HF|]. intros k [y Hy]. destruct (decide (k = fd)) as [->|].
    - rewrite lookup_insert_eq. by eexists.
    - rewrite lookup_insert_ne by done. by eexists. }
  { intros k. rewrite (Hv k), Hsame. repeat case_decide; set_solver. }
  exists tbl', kept'. split; [done|]. split.
  - intros k. rewrite <- Hv', Hsame. repeat case_decide; set_solver.
  - intros k Hn. apply not_elem_of_cons in Hn as [Hne Hn]. destruct (Hk k Hn) as [-> ->].
    rewrite lookup_insert_ne by done. set_solver.
Qed.

(** One channel: its duplicate is moved to the fixed number and closed. *)
Lemma run_channel d c x tbl kept g :
  tbl !! d = Some x -> d <> c -> d ∉ kept -> view tbl kept g ->
  exists tbl' kept', run_actions [ADup2 d c; AClose d] tbl kept = Some (tbl', kept') /\
    view tbl' kept' (fun fd => if decide (fd = c) then Some (d_file x) else g fd) /\
    forall k, k <> c -> k <> d -> tbl' !! k = tbl !! k /\ (k ∈ kept' <-> k ∈ kept).
Proof.
  intros Hd Hne Hnk Hv. simpl. rewrite Hd. rewrite lookup_insert_ne, Hd by done.
  eexists _, _. split; [done|]. split.
  - intros fd. rewrite (Hv fd). destruct (decide (fd = c)) as [->|Hc].
    + rewrite decide_True by set_solver. by rewrite lookup_delete_ne, lookup_insert_eq.
    + destruct (decide (fd = d)) as [->|Hfd].
      * rewrite decide_False by done. by rewrite decide_False by set_solver.
      * rewrite lookup_delete_ne, lookup_insert_ne by done.
        repeat case_decide; set_solver.
  - intros k Hk1 Hk2. rewrite lookup_delete_ne, lookup_insert_ne by done.
    split; [done|]. set_solver.
Qed.

(** ** The request of a launch *)

Definition actions_of (st : spawn_state) : list action := default [] (fileActions st).

(** Closing the temporary descriptors gives the shell its table back. *)
Definition clean (tbl : fd_table) (st : spawn_state) : Prop :=
  close_temporary_spawn_fds (temporarySpawnFds st) (table st) = tbl.

Lemma close_delete fds fd tbl :
  close_temporary_spawn_fds fds (delete fd tbl) = delete fd (close_temporary_spawn_fds fds tbl).
Proof.
  unfold close_temporary_spawn_fds. revert tbl. induction fds as [|x fds IH]; intros tbl; simpl; [done|].
  rewrite <- IH. f_equal. apply delete_delete.
Qed.

Lemma close_snoc fds fd x tbl :
  tbl !! fd = None ->
  close_temporary_spawn_fds (fds ++ [fd]) (<[fd := x]> tbl) = close_temporary_spawn_fds fds tbl.
Proof.
  intros Hn. unfold close_temporary_spawn_fds at 1. rewrite foldl_app. simpl.
  fold (close_temporary_spawn_fds fds (<[fd := x]> tbl)). rewrite <- close_delete. f_equal. by apply delete_insert_id.
Qed.

Lemma ensure_file_actions_spec env st ok st' :
  ensure_file_actions env st = (ok, st') ->
  actions_of st' = actions_of st /\ temporarySpawnFds st' = temporarySpawnFds st /\ table st' = table st /\
  (ok = true -> is_Some (fileActions st')).
Proof.
  unfold ensure_file_actions, actions_of. destruct (fileActions st) eqn:E.
  - intros [= <- <-]. rewrite E. eauto.
  - destruct (le_init env); intros [= <- <-]; simpl; rewrite ?E; eauto. by repeat split.
Qed.

Lemma add_action_spec a st :
  is_Some (fileActions st) -> actions_of (add_action a st) = actions_of st ++ [a] /\
  is_Some (fileActions (add_action a st)).
Proof. intros [acts E]. unfold actions_of, add_action. simpl. rewrite E. simpl. eauto. Qed.

(** What a channel adds: nothing when it does not exist; else a duplicate of its
    descriptor at a number that was free, moved and closed by the actions. *)
Definition channel_added (parentFd childFd : Z) (st st' : spawn_state) : Prop :=
  (parentFd < 0 /\ actions_of st' = actions_of st /\ table st' = table st) \/
  (0 <= parentFd /\ exists n x, table st !! parentFd = Some x /\ kMinTemporarySpawnFd <= n /\ table st !! n = None /\
     table st' = <[n := {| d_file := d_file x; d_cloexec := true |}]> (table st) /\
     actions_of st' = actions_of st ++ [ADup2 n childFd; AClose n]).

Lemma duplicate_spec env channel parentFd st n st' :
  duplicate_for_spawn env channel parentFd st = (n, st') ->
  (n = -1 /\ st' = st) \/
  (exists x, table st !! parentFd = Some x /\ kMinTemporarySpawnFd <= n /\ table st !! n = None /\
     fileActions st' = fileActions st /\ temporarySpawnFds st' = temporarySpawnFds st ++ [n] /\
     table st' = <[n := {| d_file := d_file x; d_cloexec := true |}]> (table st)).
Proof.
  unfold duplicate_for_spawn, fcntl_dupfd_cloexec. destruct (table st !! parentFd) as [x|] eqn:Ex; [|intros [= <- <-]; by left].
  destruct (le_dup env channel) as [fd|]; [|intros [= <- <-]; by left].
  destruct (_ && _) eqn:Ec; [|intros [= <- <-]; by left].
  apply andb_true_iff in Ec as [Ec%Z.leb_le Ef%bool_decide_eq_true]. unfold kMinTemporarySpawnFd in *.
  rewrite (proj2 (Z.ltb_ge fd 0)) by lia. intros [= <- <-]. right. exists x. by repeat split.
Qed.

Lemma add_inherited_fd_spec env tbl channel parentFd childFd st ok st' :
  add_inherited_fd env channel parentFd childFd st = (ok, st') -> clean tbl st ->
  clean tbl st' /\ (ok = true -> channel_added parentFd childFd st st').
Proof.
  unfold add_inherited_fd, channel_added, clean.
  destruct (Z.ltb_spec parentFd 0) as [Hn|Hp]; [intros [= <- <-] Hc; by repeat split; auto|].
  destruct (ensure_file_actions env st) as [ok1 st1] eqn:E1.
  apply ensure_file_actions_spec in E1 as (Ea & Et & Eb & Hs).
  destruct ok1; simpl; [|intros [= <- <-]; by rewrite Et, Eb].
  destruct (duplicate_for_spawn env channel parentFd st1) as [n st2] eqn:E2.
  apply duplicate_spec in E2 as [[-> ->]|(x & Hx & Hmin & Hfree & Ef2 & Et2 & Eb2)];
    [simpl; intros [= <- <-]; by rewrite Et, Eb|].
  unfold kMinTemporarySpawnFd in Hmin. rewrite (proj2 (Z.ltb_ge n 0)) by lia.
  assert (close_temporary_spawn_fds (temporarySpawnFds st2) (table st2) =
    close_temporary_spawn_fds (temporarySpawnFds st) (table st)) as Hcl by (by rewrite Et2, Eb2, close_snoc, Et, Eb).
  destruct (le_adddup2 env channel); simpl; [|intros [= <- <-] Hc; by rewrite Hcl].
  destruct (le_addclose env channel); simpl; intros [= <- <-] Hc; (split; [by rewrite <- Hc|]); [|done].
  intros _. right. split; [done|]. exists n, x. rewrite Eb in *. split_and!; try done.
  destruct (Hs eq_refl) as [acts E]. unfold actions_of in *. simpl. rewrite Ef2, E in *. simpl in *.
  rewrite <- Ea. by rewrite <- app_assoc.
Qed.

Lemma preserve_stdio_spec env tbl fds st ok st' :
  preserve_stdio env fds st = (ok, st') -> clean tbl st ->
  clean tbl st' /\ table st' = table st /\
  (ok = true -> actions_of st' = actions_of st ++
     map AInherit (List.filter (fun fd => bool_decide (is_Some (table st !! fd))) fds)).
Proof.
  revert st. induction fds as [|fd fds IH]; intros st; simpl.
  { intros [= <- <-] Hc. split_and!; try done. by rewrite app_nil_r. }
  destruct (table st !! fd) as [x|] eqn:Ex; simpl; [|apply IH].
  destruct (ensure_file_actions env st) as [ok1 st1] eqn:E1.
  apply ensure_file_actions_spec in E1 as (Ea & Et & Eb & Hs).
  destruct ok1; simpl; [|intros [= <- <-]; unfold clean; by rewrite Et, Eb].
  destruct (le_inherit env fd); simpl; [|intros [= <- <-]; unfold clean; by rewrite Et, Eb].
  intros H Hc. destruct (IH _ H) as (Hc' & Ht & Ha); [unfold clean; simpl; by rewrite Et, Eb|].
  split; [done|]. simpl in Ht. rewrite Ht, Eb. split; [done|]. intros Hok. rewrite (Ha Hok). simpl. rewrite Eb.
  destruct (add_action_spec (AInherit fd) st1 (Hs eq_refl)) as [-> _]. by rewrite Ea, <- app_assoc.
Qed.

Section inherited.
Context (env : launch_env).

(** The states of a launch, when all of the calls succeed. *)
Record launch_run (f i c : Z) (s0 s1 s2 s3 : spawn_state) : Prop := {
  lr_stdio : actions_of s0 =
    map AInherit (List.filter (fun fd => bool_decide (is_Some (le_table env !! fd))) [0; 1; 2]);
  lr_table : table s0 = le_table env;
  lr_doorbell : channel_added f kChildFrameDoorbellFd s0 s1;
  lr_input : channel_added i kInputChildFd s1 s2;
  lr_control : channel_added c kControlChildFd s2 s3 }.

Lemma launch_request environ pid options f i c :
  let o := launch_qemu env environ pid options f i c in
  o_table o = le_table env /\
  forall args envp attr, o_spawned o = Some (args, envp, attr) ->
    exists s0 s1 s2 s3, launch_run f i c s0 s1 s2 s3 /\ sp_actions attr = actions_of s3 /\
      sp_flags attr = Z.lor POSIX_SPAWN_SETPGROUP POSIX_SPAWN_CLOEXEC_DEFAULT /\ sp_pgroup attr = 0 /\
      o_spawn_table o = table s3.
Proof.
  unfold launch_qemu.
  destruct (preserve_stdio env [0; 1; 2] _) as [ok0 st0] eqn:E0.
  destruct (preserve_stdio_spec env (le_table env) _ _ _ _ E0 eq_refl) as (C0 & T0 & A0). cbn [table] in *.
  destruct ok0; cbn [negb]; [|by split].
  destruct (add_inherited_fd env 0 _ _ st0) as [ok1 st1] eqn:E1.
  destruct (add_inherited_fd_spec _ _ _ _ _ _ _ _ E1 C0) as [C1 A1]. destruct ok1; cbn [negb]; [|by split].
  destruct (add_inherited_fd env 1 _ _ st1) as [ok2 st2] eqn:E2.
  destruct (add_inherited_fd_spec _ _ _ _ _ _ _ _ E2 C1) as [C2 A2]. destruct ok2; cbn [negb]; [|by split].
  destruct (add_inherited_fd env 2 _ _ st2) as [ok3 st3] eqn:E3.
  destruct (add_inherited_fd_spec _ _ _ _ _ _ _ _ E3 C2) as [C3 A3]. destruct ok3; cbn [negb]; [|by split].
  destruct (le_attr_init env), (le_attr_setflags env), (le_attr_setpgroup env); cbn [negb]; try (by split).
  split; [exact C3|]. cbn [o_spawned o_spawn_table]. intros args envp attr [= <- <- <-].
  exists st0, st1, st2, st3. split; [|done]. split; auto.
Qed.

(** One channel, on a table that agrees with the shell's where it matters. *)
Lemma run_channel_added parentFd childFd (st st' st3 : spawn_state) T kept g :
  channel_added parentFd childFd st st' -> childFd < kMinTemporarySpawnFd -> view T kept g ->
  (forall k, kMinTemporarySpawnFd <= k -> k ∉ kept) ->
  (forall k, kMinTemporarySpawnFd <= k -> table st !! k = None -> T !! k = table st3 !! k) ->
  (forall k, is_Some (table st' !! k) -> table st3 !! k = table st' !! k) ->
  exists T' kept' acts, actions_of st' = actions_of st ++ acts /\ run_actions acts T kept = Some (T', kept') /\
    view T' kept' (fun fd => if decide (fd = childFd /\ 0 <= parentFd) then d_file <$> table st !! parentFd else g fd) /\
    (forall k, kMinTemporarySpawnFd <= k -> k ∉ kept') /\
    (forall k, kMinTemporarySpawnFd <= k -> table st' !! k = None -> T' !! k = table st3 !! k).
Proof.
  intros [(Hp & Ha & Ht)|(Hp & n & x & Hx & Hmin & Hfree & Ht & Ha)] Hc Hv Hk HT Hin.
  - exists T, kept, []. rewrite app_nil_r, Ht. split_and!; try done. intros fd. rewrite (Hv fd).
    by rewrite (decide_False (P := fd = childFd /\ 0 <= parentFd)) by lia.
  - set (y := {| d_file := d_file x; d_cloexec := true |}) in *.
    assert (T !! n = Some y) as Hn.
    { rewrite (HT n Hmin Hfree), (Hin n), Ht; [apply lookup_insert_eq|]. rewrite Ht, lookup_insert_eq. by eexists. }
    destruct (run_channel n childFd y T kept g Hn ltac:(lia) (Hk n Hmin) Hv) as (T' & kept' & E & Hv' & Hf).
    exists T', kept', [ADup2 n childFd; AClose n]. split_and!; [done|done| | |].
    + intros fd. rewrite <- (Hv' fd), Hx. destruct (decide (fd = childFd)).
      * by rewrite decide_True.
      * by rewrite decide_False by tauto.
    + intros k Hkm. destruct (decide (k = n)) as [->|Hne].
      * specialize (Hv' n). cbn in E. rewrite Hn in E. rewrite lookup_insert_ne, Hn in E by lia. injection E as _ <-. set_solver.
      * destruct (Hf k) as [_ ->]; [lia|done|by apply Hk].
    + intros k Hkm. rewrite Ht. destruct (decide (k = n)) as [->|Hne]; [by rewrite lookup_insert_eq|].
      rewrite lookup_insert_ne by done. intros Hkn. destruct (Hf k) as [-> _]; [lia|done|]. by apply HT.
Qed.

Lemma channel_keeps parentFd childFd st st' k :
  channel_added parentFd childFd st st' -> is_Some (table st !! k) -> table st' !! k = table st !! k.
Proof.
  intros [(_ & _ & ->)|(_ & n & x & _ & _ & Hfree & -> & _)] Hk; [done|].
  apply lookup_insert_ne. intros ->. rewrite Hfree in Hk. by destruct Hk.
Qed.

(** C24: the descriptors of the emulator. Whether the launch succeeds or fails at any
    call, the shell ends with the descriptors it began with. When the emulator is
    spawned it leads a process group of its own, and it sees exactly the stdio
    descriptors that are open in the shell and the channels that exist, each at its
    fixed number and referring to the shell's open file, whatever numbers the channels
    have in the shell (also when one already sits at another channel's fixed number)
    and whichever free numbers their duplicates get; nothing else of the shell is
    inherited, with or without FD_CLOEXEC. *)
Theorem launch_child_fds environ pid options f i c :
  let tbl := le_table env in
  (forall fd, fd ∈ [f; i; c] -> 0 <= fd -> is_Some (tbl !! fd)) ->
  let o := launch_qemu env environ pid options f i c in
  o_table o = tbl /\
  forall args envp attr, o_spawned o = Some (args, envp, attr) ->
  (forall child group, process_group attr child group = child) /\
  exists child, child_fds attr (o_spawn_table o) = Some child /\
    forall fd, d_file <$> child !! fd =
      if decide (fd = kControlChildFd /\ 0 <= c) then d_file <$> tbl !! c else
      if decide (fd = kInputChildFd /\ 0 <= i) then d_file <$> tbl !! i else
      if decide (fd = kChildFrameDoorbellFd /\ 0 <= f) then d_file <$> tbl !! f else
      if decide (fd ∈ [0; 1; 2]) then d_file <$> tbl !! fd else None.
Proof.
  intros tbl Hopen o. destruct (launch_request environ pid options f i c) as [Htbl Hsp]. fold o in Htbl, Hsp.
  split; [done|]. intros args envp attr Ho. destruct (Hsp _ _ _ Ho) as (s0 & s1 & s2 & s3 & [Ha0 Ht0 R1 R2 R3] & Hact & Hfl & Hpg & Hst).
  clear Hsp Ho. split; [intros child group; unfold process_group; by rewrite Hfl, Hpg|]. rewrite Hst.
  set (open := List.filter _ [0; 1; 2]) in Ha0. fold tbl in open, Ht0.
  assert (forall fd, fd ∈ open <-> fd ∈ [0; 1; 2] /\ is_Some (tbl !! fd)) as Hop.
  { intros fd. unfold open. rewrite list_elem_of_In, filter_In, <- list_elem_of_In. by rewrite bool_decide_eq_true. }
  assert (forall k, is_Some (table s0 !! k) -> table s1 !! k = table s0 !! k) as K1 by (intros; by eapply channel_keeps).
  assert (forall k, is_Some (table s1 !! k) -> table s2 !! k = table s1 !! k) as K2 by (intros; by eapply channel_keeps).
  assert (forall k, is_Some (table s2 !! k) -> table s3 !! k = table s2 !! k) as K3 by (intros; by eapply channel_keeps).
  assert (forall k, is_Some (table s1 !! k) -> table s3 !! k = table s1 !! k) as K31.
  { intros k Hk. rewrite K3, K2; [done|done|]. by rewrite K2. }
  assert (forall k, is_Some (tbl !! k) -> table s1 !! k = tbl !! k /\ table s2 !! k = tbl !! k /\ table s3 !! k = tbl !! k) as K0.
  { intros k Hk. rewrite <- Ht0 in *. rewrite K31, K2, K1 by (rewrite ?K1; done). done. }
  destruct (run_inherit open (table s3) ∅ (fun _ => None)) as (T0 & k0 & E0 & V0 & S0).
  { apply Forall_forall. intros fd [_ Hfd]%Hop. destruct (K0 fd Hfd) as (_ & _ & ->). done. }
  { intros fd. by rewrite decide_False by set_solver. }
  assert (forall k, kMinTemporarySpawnFd <= k -> k ∉ open) as Hbig.
  { intros k Hk [Hin _]%Hop. unfold kMinTemporarySpawnFd in Hk. set_unfold in Hin. lia. }
  destruct (run_channel_added f kChildFrameDoorbellFd s0 s1 s3 T0 k0 _ R1 eq_refl V0)
    as (T1 & k1 & a1 & A1 & E1 & V1 & F1 & G1); [| |exact K31|].
  { intros k Hk. destruct (S0 k (Hbig k Hk)) as [_ ->]. set_solver. }
  { intros k Hk _. by destruct (S0 k (Hbig k Hk)) as [-> _]. }
  destruct (run_channel_added i kInputChildFd s1 s2 s3 T1 k1 _ R2 eq_refl V1 F1 G1 K3)
    as (T2 & k2 & a2 & A2 & E2 & V2 & F2 & G2).
  destruct (run_channel_added c kControlChildFd s2 s3 s3 T2 k2 _ R3 eq_refl V2 F2 G2 ltac:(done))
    as (T3 & k3 & a3 & A3 & E3 & V3 & _ & _).
  assert (run_actions (sp_actions attr) (table s3) ∅ = Some (T3, k3)) as Hrun.
  { rewrite Hact, A3, A2, A1, Ha0. by rewrite !run_actions_app, E0, E1, E2. }
  destruct (child_fds_view attr _ _ _ _ ltac:(by rewrite Hfl) Hrun V3) as (child & Ec & Hc).
  exists child. split; [done|]. intros fd. rewrite Hc. cbv beta.
  assert (forall k, k ∈ [f; i; c] -> 0 <= k ->
    table s0 !! k = tbl !! k /\ table s1 !! k = tbl !! k /\ table s2 !! k = tbl !! k) as Hch.
  { intros k Hk Hk0. destruct (K0 k (Hopen k Hk Hk0)) as (H1 & H2 & _). by rewrite Ht0. }
  destruct (decide (fd = kControlChildFd /\ 0 <= c)) as [[_ ?]|]; [f_equal; apply Hch; [set_solver|done]|].
  destruct (decide (fd = kInputChildFd /\ 0 <= i)) as [[_ ?]|]; [f_equal; apply Hch; [set_solver|done]|].
  destruct (decide (fd = kChildFrameDoorbellFd /\ 0 <= f)) as [[_ ?]|]; [f_equal; apply Hch; [set_solver|done]|].
  destruct (decide (fd ∈ open)) as [Hin|Hin].
  - apply Hop in Hin as [Hin Hs]. rewrite decide_True by done. by destruct (K0 fd Hs) as (_ & _ & ->).
  - destruct (decide (fd ∈ [0; 1; 2])) as [Hin2|]; [|done].
    destruct (tbl !! fd) eqn:Et; [|done]. destruct Hin. apply Hop. split; [done|]. by rewrite Et.
Qed.
End inherited.
End QemuLauncher.

(** ** A concrete launch *)
Import QemuLauncher.

(** The input channel already sits at the control channel's fixed number, and
    the control channel at the doorbell's; descriptor 7 has no FD_CLOEXEC. The files
    are numbered: standard input 10, standard error 12, the doorbell 20, the input 21,
    the control channel 22. *)
Definition demo_parent : fd_table :=
  list_to_map [(0, {| d_file := 10; d_cloexec := false |}); (2, {| d_file := 12; d_cloexec := true |});
    (5, {| d_file := 20; d_cloexec := true |}); (197, {| d_file := 21; d_cloexec := true |});
    (198, {| d_file := 22; d_cloexec := true |}); (7, {| d_file := 99; d_cloexec := false |})].

Definition demo_launch : launch_env := {|
  le_table := demo_parent; le_init := true;
  le_inherit := fun _ => true; le_dup := fun ch => Some (256 + Z.of_nat ch);
  le_adddup2 := fun _ => true; le_addclose := fun _ => true;
  le_attr_init := true; le_attr_setflags := true; le_attr_setpgroup := true;
  le_spawn := Some 4242 |}.

Definition demo_shell_options : ShellOptions.t := ShellOptions.parse_options demo_world [].

Lemma launch_child_fds_witness :
  let o := launch_qemu demo_launch [] 1 demo_shell_options 5 197 198 in
  exists args envp attr child,
    o_spawned o = Some (args, envp, attr) /\ child_fds attr (o_spawn_table o) = Some child /\
    d_file <$> child !! 197 = Some 22 /\ d_file <$> child !! 198 = Some 20 /\ d_file <$> child !! 199 = Some 21 /\
    d_file <$> child !! 0 = Some 10 /\ d_file <$> child !! 1 = None /\ d_file <$> child !! 7 = None.
Proof.
  intros o. destruct (o_spawned o) as [[[args envp] attr]|] eqn:E; [|by vm_compute in E].
  exists args, envp, attr.
  destruct (launch_child_fds demo_launch [] 1 demo_shell_options 5 197 198) as (_ & H).
  - intros fd Hfd _. rewrite !elem_of_cons, elem_of_nil in Hfd. destruct Hfd as [->|[->|[->|[]]]]; vm_compute; by eexists.
  - destruct (H _ _ _ E) as (_ & child & Hc & Hl). exists child. split; [reflexivity|]. split; [exact Hc|].
    rewrite !Hl. repeat split; vm_compute; reflexivity.
Defined.
