(* ===== verification/MachineManager.v ===== *)
(** [shell/core/machine_manager.{h,cpp}]: validation of system images and of the
    metadata disk and creation of the default machine. The replacement of the
    managed system image is in [SystemImage]. The file system is a map from directories to their
    entries; every call takes the operating system's answer from an environment. *)
From S2P Require Import Prelude Text Posix ShellOptions.

Module MachineManager.
Import ShellOptions.

(** ** The file system *)

(** The contents of a file, by position. *)
Record content := { c_size : Z; c_byte : Z -> Init.Byte.byte }.

(** An entry is a regular file or a symbolic link to an entry of a directory. *)
Inductive node :=
  | NFile (c : content)
  | NLink (dir name : bytes).

Abbreviation directory := (gmap bytes node).

(** Directories by their path. *)
Abbreviation fs := (gmap bytes directory).

Definition entry (f : fs) (dir name : bytes) : option node :=
  match f !! dir with Some d => d !! name | None => None end.

(** Where a path leads: the entry after following at most [fuel] links; [None]
    for a chain that is longer ([ELOOP] after 32 links). *)
Fixpoint resolve (fuel : nat) (f : fs) (dir name : bytes) : option (bytes * bytes) :=
  match entry f dir name with
  | Some (NLink d n) => match fuel with O => None | S fuel' => resolve fuel' f d n end
  | _ => Some (dir, name)
  end.

Definition max_symlinks : nat := 32.

(** [fs::is_regular_file(path_join(dir, name))], which follows links, with the
    contents of the file. *)
Definition regular_file (f : fs) (dir name : bytes) : option content :=
  match resolve max_symlinks f dir name with
  | Some (d, n) => match entry f d n with Some (NFile c) => Some c | _ => None end
  | None => None
  end.

Definition file_exists (f : fs) (dir name : bytes) : bool :=
  bool_decide (is_Some (regular_file f dir name)).

(** ** The metadata disk *)

Definition kDiskSectorSize : Z := 512.
Definition kGptHeaderOffset : Z := kDiskSectorSize.
Definition kGptFirstEntryOffset : Z := 2 * kDiskSectorSize.
Definition kGptEntrySize : nat := 128.
Definition kGptFirstLbaOffset : nat := 32.
Definition kGptLastLbaOffset : nat := 40.
Definition kGptPartitionNameOffset : nat := 56.
Definition kExt4SuperblockOffset : Z := 1024.
Definition kExt4MagicOffset : Z := 56.
Definition kExt4VolumeNameOffset : Z := 120.

(** The loop of [read_little_endian_u64]: [value |= bytes[i] << (8 * i)]. *)
Fixpoint read_le_loop (n : nat) (i : nat) (bs : bytes) (value : Z) : Z :=
  match n with
  | O => value
  | S n' =>
      read_le_loop n' (S i) bs
        (u64 (Z.lor value (Z.shiftl (byte.unsigned (nth i bs Byte.x00)) (8 * Z.of_nat i))))
  end.

Definition read_little_endian_u64 (bs : bytes) : Z := read_le_loop 8 0 bs 0.

(** [seekg] and [read] of [size] bytes at [offset]; [None] when fewer are there. *)
Definition read_exact_at (c : content) (offset : Z) (size : nat) : option bytes :=
  if offset + Z.of_nat size <=? c_size c
  then Some (map (fun i => c_byte c (offset + Z.of_nat i)) (seq 0 size))
  else None.

Fixpoint utf16_loop (expected bs : bytes) : bool :=
  match expected, bs with
  | [], lo :: hi :: _ => bool_decide (lo = Byte.x00) && bool_decide (hi = Byte.x00)
  | e :: expected', lo :: hi :: bs' =>
      if negb (bool_decide (lo = e)) || negb (bool_decide (hi = Byte.x00)) then false
      else utf16_loop expected' bs'
  | _, _ => false
  end.

Definition has_utf16le_name (bs expected : bytes) : bool :=
  if (length bs <? (length expected + 1) * 2)%nat then false else utf16_loop expected bs.

(** [metadata_disk_exists] of the file found at the path. [file_size] answers
    with the size of the file. *)
Definition metadata_disk_ok (c : content) : bool :=
  let file_size := c_size c in
  if file_size <? 2 * 1024 * 1024 then false else
  match read_exact_at c kGptHeaderOffset 8 with
  | None => false
  | Some gpt_magic =>
      if negb (bool_decide (gpt_magic = bstr "EFI PART")) then false else
      match read_exact_at c kGptFirstEntryOffset kGptEntrySize with
      | None => false
      | Some entry =>
          let first_lba := read_little_endian_u64 (drop kGptFirstLbaOffset entry) in
          let last_lba := read_little_endian_u64 (drop kGptLastLbaOffset entry) in
          if (first_lba =? 0) || (last_lba <? first_lba) ||
             (file_size / kDiskSectorSize <=? first_lba) ||
             (file_size / kDiskSectorSize <=? last_lba) ||
             negb (has_utf16le_name (drop kGptPartitionNameOffset entry) (bstr "metadata"))
          then false else
          let partition_offset := u64 (first_lba * kDiskSectorSize) in
          let superblock_offset := u64 (partition_offset + kExt4SuperblockOffset) in
          if file_size <? u64 (superblock_offset + kExt4VolumeNameOffset + 16) then false else
          match read_exact_at c (u64 (superblock_offset + kExt4MagicOffset)) 2 with
          | None => false
          | Some ext4_magic =>
              if negb (bool_decide (ext4_magic = [Byte.x53; Byte.xef])) then false else
              match read_exact_at c (u64 (superblock_offset + kExt4VolumeNameOffset)) 16 with
              | None => false
              | Some volume_name =>
                  bool_decide (firstn 8 volume_name = bstr "metadata") &&
                  bool_decide (nth 8 volume_name Byte.xff = Byte.x00)
              end
          end
      end
  end.

Definition metadata_disk_exists (f : fs) (dir name : bytes) : bool :=
  match regular_file f dir name with Some c => metadata_disk_ok c | None => false end.

(** ** System images *)

Definition kRequiredFiles : list bytes :=
  map bstr ["advancedFeatures.ini"; "android-info.txt"; "VerifiedBootParams.textproto";
            "kernel-ranchu"; "ramdisk.img"; "system-qemu.img"; "userdata.img"; "vendor-qemu.img";
            "vendor_boot.img"].

Definition system_image_exists_at (f : fs) (path : bytes) : bool :=
  forallb (file_exists f path) kRequiredFiles &&
  metadata_disk_exists f path (bstr "encryptionkey.img").

(** *** What the validation of the metadata disk checks *)

(** The bytes [off, off + n) of a file. *)
Definition slice (c : content) (off : Z) (n : nat) : bytes :=
  map (fun i => c_byte c (off + Z.of_nat i)) (seq 0 n).

Lemma length_slice c off n : length (slice c off n) = n.
Proof. unfold slice. by rewrite length_map, length_seq. Qed.

Lemma read_exact_at_Some c off n bs :
  read_exact_at c off n = Some bs <-> off + Z.of_nat n <= c_size c /\ bs = slice c off n.
Proof.
  unfold read_exact_at. destruct (Z.leb_spec (off + Z.of_nat n) (c_size c)).
  - split; [by intros [= <-]|by intros [_ ->]].
  - split; [done|lia].
Qed.

Lemma lor_bound n a b : 0 <= n -> 0 <= a < 2 ^ n -> 0 <= b < 2 ^ n -> 0 <= Z.lor a b < 2 ^ n.
Proof.
  intros Hn Ha Hb. assert (Z.lor a b mod 2 ^ n = Z.lor a b) as <-.
  { rewrite <- Z.land_ones, Z.land_lor_distr_l, !Z.land_ones, !Z.mod_small by lia. done. }
  apply Z.mod_pos_bound. lia.
Qed.

(** The shift-and-or loop reads a little-endian integer. *)
Lemma read_le_loop_combine n i bs value :
  0 <= value < 2 ^ (8 * Z.of_nat i) -> (i + n <= 8)%nat -> (i + n <= length bs)%nat ->
  read_le_loop n i bs value =
    Z.lor value (Z.shiftl (le_combine (firstn n (skipn i bs))) (8 * Z.of_nat i)).
Proof.
  revert i value. induction n as [|n IH]; intros i value Hv Hi Hl.
  { simpl. rewrite Z.shiftl_0_l. by rewrite Z.lor_0_r. }
  destruct (skipn i bs) as [|b rest] eqn:E.
  { apply (f_equal length) in E. rewrite length_skipn in E. simpl in E. lia. }
  assert (nth i bs Byte.x00 = b) as Hb.
  { rewrite <- (firstn_skipn i bs), E, app_nth2; rewrite length_firstn, Nat.min_l by lia; [|lia].
    by rewrite Nat.sub_diag. }
  assert (skipn (S i) bs = rest) as Hr.
  { replace (S i) with (i + 1)%nat by lia. by rewrite <- drop_drop, E. }
  pose proof (byte.unsigned_range b) as Hbr.
  assert (0 <= Z.lor value (Z.shiftl (byte.unsigned b) (8 * Z.of_nat i)) < 2 ^ (8 * Z.of_nat (S i))) as Hlt.
  { assert (2 ^ (8 * Z.of_nat (S i)) = 256 * 2 ^ (8 * Z.of_nat i)) as Hpow.
    { rewrite <- (Z.pow_add_r 2 8) by lia. f_equal. lia. }
    apply lor_bound; [lia|nia|]. rewrite Z.shiftl_mul_pow2 by lia. nia. }
  assert (2 ^ (8 * Z.of_nat (S i)) <= 2 ^ 64) by (apply Z.pow_le_mono_r; lia).
  simpl read_le_loop. rewrite Hb, u64_id by (unfold is_u64; lia).
  rewrite IH by (done || lia). rewrite Hr. cbn [firstn].
  change (le_combine (b :: firstn n rest)) with
    (Z.lor (byte.unsigned b) (Z.shiftl (le_combine (firstn n rest)) 8)).
  rewrite Z.shiftl_lor, Z.shiftl_shiftl, Z.lor_assoc by lia. do 2 f_equal. lia.
Qed.

Lemma read_little_endian_u64_field bs :
  (8 <= length bs)%nat -> read_little_endian_u64 bs = field 0 8 bs.
Proof.
  intros H. unfold read_little_endian_u64, field.
  rewrite read_le_loop_combine by (done || lia). by rewrite Z.shiftl_0_r, Z.lor_0_l.
Qed.

(** A UTF-16 name as it is stored: each character followed by a zero byte. *)
Definition utf16 (s : bytes) : bytes := s ≫= fun b => [b; Byte.x00].

Lemma utf16_loop_spec expected bs :
  (length (utf16 expected) + 2 <= length bs)%nat ->
  utf16_loop expected bs = true <->
  firstn (length (utf16 expected) + 2) bs = utf16 expected ++ [Byte.x00; Byte.x00].
Proof.
  revert bs. induction expected as [|e expected IH]; intros bs Hl.
  - destruct bs as [|lo [|hi bs]]; simpl in Hl; [lia..|]. simpl.
    rewrite andb_true_iff, !bool_decide_eq_true. naive_solver.
  - change (utf16 (e :: expected)) with (e :: Byte.x00 :: utf16 expected) in *.
    destruct bs as [|lo [|hi bs]]; simpl in Hl; [lia..|]. simpl.
    destruct (bool_decide_reflect (lo = e)) as [->|]; simpl; [|split; [done|by intros [= ]]].
    destruct (bool_decide_reflect (hi = Byte.x00)) as [->|]; simpl; [|split; [done|by intros [= ]]].
    rewrite IH by lia. split; [by intros ->|by intros [= ->]].
Qed.

(** The layout the validation accepts, without machine arithmetic: a GPT header,
    a first partition named "metadata" inside the disk, and in it an ext4
    superblock whose volume is called "metadata". *)
Definition metadata_layout (c : content) : Prop :=
  let entry := slice c 1024 128 in
  let first_lba := field 32 8 entry in
  let last_lba := field 40 8 entry in
  let superblock := first_lba * 512 + 1024 in
  2 * 1024 * 1024 <= c_size c /\
  slice c 512 8 = bstr "EFI PART" /\
  0 < first_lba <= last_lba /\ last_lba < c_size c / 512 /\
  firstn 18 (skipn 56 entry) = utf16 (bstr "metadata") ++ [Byte.x00; Byte.x00] /\
  superblock + 120 + 16 <= c_size c /\
  slice c (superblock + 56) 2 = [Byte.x53; Byte.xef] /\
  firstn 9 (slice c (superblock + 120) 16) = bstr "metadata" ++ [Byte.x00].

Lemma field_skipn off n bs : field 0 n (skipn off bs) = field off n bs.
Proof. unfold field. by rewrite drop_0. Qed.

Lemma take_9 (bs name : bytes) :
  length name = 8%nat -> (9 <= length bs)%nat ->
  firstn 9 bs = name ++ [Byte.x00] <-> firstn 8 bs = name /\ nth 8 bs Byte.xff = Byte.x00.
Proof.
  intros Hn Hb.
  do 9 (destruct bs as [|? bs]; [simpl in Hb; lia|]).
  do 8 (destruct name as [|? name]; [done|]). destruct name; [|done]. simpl.
  split; [intros [= -> -> -> -> -> -> -> -> ->]; done|intros [[= -> -> -> -> -> -> -> ->] ->]; done].
Qed.

(** [metadata_disk_exists] accepts exactly the disks with that
    layout, for every file of less than 2^63 bytes: no offset it computes from
    the partition table wraps around, and no read leaves the file. *)
Theorem metadata_disk_layout c :
  0 <= c_size c < 2 ^ 63 -> metadata_disk_ok c = true <-> metadata_layout c.
Proof.
  intros Hsz. unfold metadata_disk_ok, metadata_layout.
  pose proof (length_slice c 1024 128) as Hlen.
  assert (forall off n, off + Z.of_nat n <= c_size c -> read_exact_at c off n = Some (slice c off n))
    as Hread by (intros; by apply read_exact_at_Some).
  destruct (Z.ltb_spec (c_size c) (2 * 1024 * 1024)); [split; [done|lia]|].
  unfold kGptHeaderOffset, kGptFirstEntryOffset, kGptEntrySize, kDiskSectorSize.
  rewrite (Hread 512 8%nat), (Hread (2 * 512) 128%nat) by lia. change (2 * 512) with 1024.
  destruct (bool_decide_reflect (slice c 512 8 = bstr "EFI PART")) as [|Hn]; cbn [negb];
    [|split; [done|by intros (_ & ? & _)]].
  set (entry := slice c 1024 128) in *. clearbody entry.
  unfold kGptFirstLbaOffset, kGptLastLbaOffset, kGptPartitionNameOffset.
  rewrite !read_little_endian_u64_field, !field_skipn by (rewrite length_skipn; lia).
  pose proof (field_range 32 8 entry) as Hf. set (first := field 32 8 entry) in *. clearbody first.
  pose proof (field_range 40 8 entry) as Hla. set (last := field 40 8 entry) in *. clearbody last.
  destruct (Z.eqb_spec first 0); [split; [done|lia]|].
  destruct (Z.ltb_spec last first); [split; [done|lia]|].
  destruct (Z.leb_spec (c_size c / 512) first); [split; [done|lia]|].
  destruct (Z.leb_spec (c_size c / 512) last); [split; [done|lia]|]. cbn [orb].
  assert (has_utf16le_name (skipn 56 entry) (bstr "metadata") = true <->
    firstn 18 (skipn 56 entry) = utf16 (bstr "metadata") ++ [Byte.x00; Byte.x00]) as Hname.
  { unfold has_utf16le_name. rewrite (proj2 (Nat.ltb_ge _ _)) by (rewrite length_skipn; simpl; lia).
    apply utf16_loop_spec. rewrite length_skipn. simpl. lia. }
  destruct (has_utf16le_name _ _); cbn [negb]; [|split; [done|intros (_ & _ & _ & _ & Hx & _); by apply Hname in Hx]].
  apply proj1 in Hname. specialize (Hname eq_refl).
  assert (first * 512 + 512 <= c_size c) by (pose proof (Z.mul_div_le (c_size c) 512); lia).
  unfold kExt4SuperblockOffset, kExt4MagicOffset, kExt4VolumeNameOffset.
  rewrite !(u64_id (first * 512)), !(u64_id (first * 512 + 1024)) by (unfold is_u64; lia).
  rewrite !u64_id by (unfold is_u64; lia). set (sb := first * 512 + 1024) in *.
  destruct (Z.ltb_spec (c_size c) (sb + 120 + 16)); [split; [done|lia]|].
  rewrite (Hread (sb + 56) 2%nat), (Hread (sb + 120) 16%nat) by lia.
  destruct (bool_decide_reflect (slice c (sb + 56) 2 = [Byte.x53; Byte.xef])) as [|Hn]; cbn [negb];
    [|split; [done|intros (_ & _ & _ & _ & _ & _ & ? & _); done]].
  rewrite andb_true_iff, !bool_decide_eq_true.
  rewrite (take_9 (slice c (sb + 120) 16) (bstr "metadata")) by (rewrite ?length_slice; done || lia).
  intuition lia.
Qed.

(** ** Operations on the file system *)

(** What the operating system answers during one call. Directories, opens,
    writes, links, removals and copies succeed or fail by path. A stream buffers:
    [os_write] is whether it is still good after the text was put in, [os_flush]
    whether the buffer reaches the disk when the stream is destroyed, and
    [os_short] how much of the text does otherwise. [os_partial] is what a failed
    copy leaves at its destination; [os_message] is the text of the error. *)
Record os := {
  os_mkdir : bytes -> bool;
  os_open : bytes -> bytes -> bool;
  os_write : bytes -> bytes -> bool;
  os_flush : bytes -> bytes -> bool;
  os_short : nat;
  os_remove : bytes -> bytes -> bool;
  os_symlink : bytes -> bytes -> bool;
  os_copy : bytes -> bytes -> bool;
  os_partial : option content;
  os_resize : bytes -> bytes -> bool;
  os_message : bytes }.

(** [bool f(..., std::string* error)]: the error text of a failure ([None] for
    [true]), with the file system it leaves. *)
Definition result : Type := option bytes * fs.

Definition and_then (m : result) (k : fs -> result) : result :=
  match m with (None, f) => k f | (Some e, f) => (Some e, f) end.

Notation "'let!' f := m 'in' k" := (and_then m (fun f => k))
  (at level 10, f name, m at level 100, k at level 200).

Definition set_entry (f : fs) (dir name : bytes) (n : node) : fs :=
  <[dir := <[name := n]> (default ∅ (f !! dir))]> f.

Definition remove_entry (f : fs) (dir name : bytes) : fs :=
  match f !! dir with Some d => <[dir := delete name d]> f | None => f end.

(** Writing to a path writes through links. *)
Definition write_entry (f : fs) (dir name : bytes) (c : content) : fs :=
  match resolve max_symlinks f dir name with
  | Some (d, n) => set_entry f d n (NFile c)
  | None => f
  end.

Definition content_of (text : bytes) : content :=
  {| c_size := Z.of_nat (length text); c_byte := fun i => nth (Z.to_nat i) text Byte.x00 |}.

(** The directories on the way to a path, the path itself last. *)
Fixpoint parents (front path : bytes) : list bytes :=
  match path with
  | [] => [front]
  | c :: path' =>
      (if bool_decide (c = SLASH) && negb (bool_decide (front = [])) then [front] else []) ++
      parents (front ++ [c]) path'
  end.

(** [fs::exists], which follows links. *)
Definition path_exists (f : fs) (dir name : bytes) : bool :=
  match resolve max_symlinks f dir name with
  | Some (d, n) => bool_decide (is_Some (entry f d n))
  | None => false
  end.

Section operations.
Context (env : os).

(** [fs::create_directories]: the missing directories on the way, outermost
    first, until one of them cannot be created. *)
Fixpoint mkdirs (paths : list bytes) (f : fs) : bool * fs :=
  match paths with
  | [] => (true, f)
  | p :: ps =>
      match f !! p with
      | Some _ => mkdirs ps f
      | None => if os_mkdir env p then mkdirs ps (<[p := ∅]> f) else (false, f)
      end
  end.

Definition create_directories (path : bytes) (f : fs) : bool * fs := mkdirs (parents [] path) f.

Definition ensure_directory (path : bytes) (f : fs) : result :=
  match f !! path with
  | Some _ => (None, f)
  | None =>
      let (_, f) := create_directories path f in
      match f !! path with
      | Some _ => (None, f)
      | None => (Some (bstr "failed to create directory: " ++ path ++ bstr " (" ++
                       os_message env ++ bstr ")"), f)
      end
  end.

Definition write_text_file (dir name text : bytes) (f : fs) : result :=
  if negb (os_open env dir name) then (Some (bstr "failed to write: " ++ path_join dir name), f) else
  if negb (os_write env dir name) then
    (Some (bstr "failed to finish writing: " ++ path_join dir name),
     write_entry f dir name (content_of (firstn (os_short env) text)))
  else
    (None, write_entry f dir name
       (content_of (if os_flush env dir name then text else firstn (os_short env) text))).

(** [fs::resize_file]: cut off or extended with zeros. *)
Definition resized (c : content) (size : Z) : content :=
  {| c_size := size; c_byte := fun i => if i <? c_size c then c_byte c i else Byte.x00 |}.

Definition has_size (f : fs) (dir name : bytes) (size : Z) : bool :=
  match regular_file f dir name with Some c => c_size c =? size | None => false end.

Definition ensure_sized_file (dir name : bytes) (size : Z) (f : fs) : result :=
  if has_size f dir name size then (None, f) else
  let created :=
    if path_exists f dir name then Some f
    else if os_open env dir name then Some (write_entry f dir name (content_of [])) else None in
  match created with
  | None => (Some (bstr "failed to create disk image: " ++ path_join dir name), f)
  | Some f =>
      let failed f := (Some (bstr "failed to create disk image: " ++ path_join dir name ++
                             bstr " (" ++ os_message env ++ bstr ")"), f) in
      match regular_file f dir name with
      | Some c =>
          if os_resize env dir name then
            let f := write_entry f dir name (resized c size) in
            if has_size f dir name size then (None, f) else failed f
          else failed f
      | None => failed f
      end
  end.

Definition replace_with_symlink (sdir sname dir name : bytes) (f : fs) : result :=
  let f := if os_remove env dir name then remove_entry f dir name else f in
  let linked := match entry f dir name with None => os_symlink env dir name | Some _ => false end in
  let f := if linked then set_entry f dir name (NLink sdir sname) else f in
  if linked && file_exists f dir name then (None, f)
  else (Some (bstr "failed to link system image: " ++ path_join dir name ++ bstr " (" ++
              os_message env ++ bstr ")"), f).

Definition ensure_metadata_disk (sdir sname dir name : bytes) (f : fs) : result :=
  if metadata_disk_exists f dir name then (None, f) else
  let f := if os_remove env dir name then remove_entry f dir name else f in
  let qcow := name ++ bstr ".qcow2" in
  let f := if os_remove env dir qcow then remove_entry f dir qcow else f in
  let failed f := (Some (bstr "failed to install metadata disk: " ++ path_join dir name ++
                         bstr " (" ++ os_message env ++ bstr ")"), f) in
  match regular_file f sdir sname with
  | None => failed f
  | Some c =>
      if os_copy env dir name then
        let f := write_entry f dir name c in
        if metadata_disk_exists f dir name then (None, f) else failed f
      else failed (match os_partial env with Some c => write_entry f dir name c | None => f end)
  end.

(** ** The machine *)

Definition macmu_machine_path (options : ShellOptions.t) : bytes :=
  path_join (avdHome options) (avdName options ++ bstr ".avd").

(** [macmu_machine_ini_path] is this entry of [avdHome]. *)
Definition ini_name (options : ShellOptions.t) : bytes := avdName options ++ bstr ".ini".

Definition macmu_ensure_runtime_directories (options : ShellOptions.t) (f : fs) : result :=
  let! f := ensure_directory (appDataDir options) f in
  let! f := ensure_directory (avdHome options) f in
  ensure_directory (path_join (appDataDir options) (bstr "images")) f.

Definition macmu_system_image_exists (options : ShellOptions.t) (f : fs) : bool :=
  system_image_exists_at f (systemPath options).

Definition macmu_machine_exists (options : ShellOptions.t) (f : fs) : bool :=
  file_exists f (avdHome options) (ini_name options) &&
  file_exists f (macmu_machine_path options) (bstr "config.ini") &&
  file_exists f (macmu_machine_path options) (bstr "system-qemu.img") &&
  file_exists f (macmu_machine_path options) (bstr "vendor-qemu.img") &&
  metadata_disk_exists f (macmu_machine_path options) (bstr "encryptionkey.img").

Definition line (s : string) : bytes := bstr s ++ [NL].

Definition config_ini_for (options : ShellOptions.t) : bytes :=
  let sysdir := systemPath options in
  let sysdir := match last sysdir with
                | Some c => if negb (bool_decide (c = SLASH)) then sysdir ++ [SLASH] else sysdir
                | None => sysdir
                end in
  concat
  [line "PlayStore.enabled=no";
   line "abi.type=arm64-v8a";
   (bstr "avd.id=" ++ avdName options ++ [NL]);
   line "avd.ini.encoding=UTF-8";
   (bstr "avd.name=" ++ avdName options ++ [NL]);
   line "disk.cachePartition=yes";
   line "disk.cachePartition.size=66MB";
   line "disk.dataPartition.path=<temp>";
   line "disk.dataPartition.size=6G";
   line "disk.systemPartition.size=0";
   line "disk.vendorPartition.size=0";
   line "fastboot.forceChosenSnapshotBoot=no";
   line "fastboot.forceColdBoot=yes";
   line "fastboot.forceFastBoot=no";
   line "firstboot.bootFromDownloadableSnapshot=no";
   line "firstboot.bootFromLocalSnapshot=no";
   line "firstboot.saveToLocalSnapshot=no";
   line "hw.accelerometer=yes";
   line "hw.arc=false";
   line "hw.audioInput=yes";
   line "hw.audioOutput=yes";
   line "hw.battery=yes";
   line "hw.camera.back=emulated";
   line "hw.camera.back.orientation=90";
   line "hw.camera.front=none";
   line "hw.cpu.arch=arm64";
   line "hw.cpu.ncore=4";
   line "hw.dPad=no";
   line "hw.device.manufacturer=Google";
   line "hw.device.name=pixel_6";
   line "hw.gltransport=pipe";
   line "hw.gpu.enabled=yes";
   line "hw.gpu.mode=host";
   line "hw.gsmModem=yes";
   line "hw.gyroscope=yes";
   line "hw.keyboard=no";
   line "hw.keyboard.charmap=qwerty2";
   line "hw.keyboard.lid=yes";
   line "hw.lcd.backlight=yes";
   line "hw.lcd.circular=false";
   line "hw.lcd.density=420";
   line "hw.lcd.depth=32";
   line "hw.lcd.height=2400";
   line "hw.lcd.transparent=false";
   line "hw.lcd.vsync=60";
   line "hw.lcd.width=1080";
   line "hw.mainKeys=no";
   line "hw.ramSize=2G";
   line "hw.screen=multi-touch";
   line "hw.sdCard=yes";
   line "hw.sensors.light=yes";
   line "hw.sensors.magnetic_field=yes";
   line "hw.sensors.orientation=yes";
   line "hw.sensors.pressure=yes";
   line "hw.sensors.proximity=yes";
   line "hw.trackBall=no";
   line "hw.useext4=yes";
   (bstr "image.sysdir.1=" ++ sysdir ++ [NL]);
   line "kernel.newDeviceNaming=autodetect";
   line "kernel.supportsYaffs2=autodetect";
   line "runtime.network.latency=none";
   line "runtime.network.speed=full";
   line "sdcard.size=512 MB";
   line "showDeviceFrame=yes";
   line "tag.display=Default Android System Image";
   line "tag.displaynames=Default Android System Image";
   line "tag.id=default";
   line "tag.ids=default";
   line "target=android-36";
   line "test.delayAdbTillBootComplete=0";
   line "test.monitorAdb=0";
   line "test.quitAfterBootTimeOut=-1";
   line "userdata.useQcow2=no";
   line "vm.heapSize=228M"].

Definition root_ini (options : ShellOptions.t) : bytes :=
  line "avd.ini.encoding=UTF-8" ++
  (bstr "path=" ++ macmu_machine_path options ++ [NL]) ++
  (bstr "path.rel=avd/" ++ avdName options ++ bstr ".avd" ++ [NL]) ++
  line "target=android-36".

Definition cache_size : Z := 66 * 1024 * 1024.

(** The second half of [macmu_create_default_machine]: the two .ini files, the
    links to the image, the metadata disk and the cache. *)
Definition fill_machine (options : ShellOptions.t) (f : fs) : result :=
  let machinePath := macmu_machine_path options in
  let! f := write_text_file (avdHome options) (ini_name options) (root_ini options) f in
  let! f := write_text_file machinePath (bstr "config.ini") (config_ini_for options) f in
  let! f := replace_with_symlink (systemPath options) (bstr "system-qemu.img")
              machinePath (bstr "system-qemu.img") f in
  let! f := replace_with_symlink (systemPath options) (bstr "vendor-qemu.img")
              machinePath (bstr "vendor-qemu.img") f in
  let! f := ensure_metadata_disk (systemPath options) (bstr "encryptionkey.img")
              machinePath (bstr "encryptionkey.img") f in
  ensure_sized_file machinePath (bstr "cache.img") cache_size f.

Definition macmu_create_default_machine (options : ShellOptions.t) (f : fs) : result :=
  let! f := macmu_ensure_runtime_directories options f in
  if negb (macmu_system_image_exists options f) then
    (Some (bstr "missing MacMu system image at: " ++ systemPath options), f)
  else
  let! f := ensure_directory (macmu_machine_path options) f in
  fill_machine options f.

End operations.

(** *** Entries under the operations *)

Lemma entry_set_entry f dir name n d m :
  entry (set_entry f dir name n) d m =
    if decide ((d, m) = (dir, name)) then Some n else entry f d m.
Proof.
  unfold entry, set_entry. destruct (decide (d = dir)) as [->|Hd].
  - rewrite lookup_insert_eq. destruct (decide (m = name)) as [->|Hm].
    + by rewrite lookup_insert_eq, decide_True.
    + rewrite lookup_insert_ne, decide_False by congruence. by destruct (f !! dir).
  - by rewrite lookup_insert_ne, decide_False by congruence.
Qed.

Lemma entry_remove_entry f dir name d m :
  entry (remove_entry f dir name) d m =
    if decide ((d, m) = (dir, name)) then None else entry f d m.
Proof.
  unfold entry, remove_entry. destruct (f !! dir) as [x|] eqn:E.
  - destruct (decide (d = dir)) as [->|Hd].
    + rewrite lookup_insert_eq, E. destruct (decide (m = name)) as [->|Hm].
      * by rewrite lookup_delete_eq, decide_True.
      * by rewrite lookup_delete_ne, decide_False by congruence.
    + by rewrite lookup_insert_ne, decide_False by congruence.
  - case_decide; [|done]. simplify_eq. by rewrite E.
Qed.

Definition is_link (n : option node) : Prop :=
  match n with Some (NLink _ _) => True | _ => False end.

(** An entry that is not a link is where its path leads. *)
Lemma resolve_plain k f dir name :
  ~ is_link (entry f dir name) -> resolve k f dir name = Some (dir, name).
Proof. unfold is_link. destruct k; simpl; destruct (entry f dir name) as [[]|]; tauto. Qed.

Lemma resolve_link k f dir name d n :
  entry f dir name = Some (NLink d n) -> resolve (S k) f dir name = resolve k f d n.
Proof. intros E. simpl. by rewrite E. Qed.

Lemma regular_file_plain f dir name :
  ~ is_link (entry f dir name) ->
  regular_file f dir name = match entry f dir name with Some (NFile c) => Some c | _ => None end.
Proof. intros H. unfold regular_file. by rewrite resolve_plain. Qed.

(** A link to an entry that is not a link. *)
Lemma regular_file_link f dir name d n :
  entry f dir name = Some (NLink d n) -> ~ is_link (entry f d n) ->
  regular_file f dir name = match entry f d n with Some (NFile c) => Some c | _ => None end.
Proof.
  intros E H. unfold regular_file, max_symlinks. rewrite (resolve_link _ _ _ _ _ _ E).
  by rewrite resolve_plain.
Qed.

Lemma write_entry_plain f dir name c :
  ~ is_link (entry f dir name) -> write_entry f dir name c = set_entry f dir name (NFile c).
Proof. intros H. unfold write_entry. by rewrite resolve_plain. Qed.

(** [f'] differs from [f] at most in the named entries of [dir]. *)
Definition changes_only (dir : bytes) (names : list bytes) (f f' : fs) : Prop :=
  forall d n, entry f' d n = entry f d n \/ d = dir /\ n ∈ names.

Section machine.
Context (env : os).

(** Creating directories keeps every directory there is. *)
Lemma mkdirs_spec paths f ok f' :
  mkdirs env paths f = (ok, f') ->
  f ⊆ f' /\ forall d n, entry f' d n = entry f d n.
Proof.
  revert f. induction paths as [|p ps IH]; intros f H; simpl in H; [by simplify_eq|].
  destruct (f !! p) eqn:E; [by apply IH|]. destruct (os_mkdir env p); [|by simplify_eq].
  apply IH in H as [Hs He]. split; [etrans; [by apply insert_subseteq|done]|].
  intros d n. rewrite He. unfold entry. destruct (decide (d = p)) as [->|].
  - by rewrite lookup_insert_eq, E.
  - by rewrite lookup_insert_ne.
Qed.

Lemma ensure_directory_spec path f r f' :
  ensure_directory env path f = (r, f') -> f ⊆ f' /\ forall d n, entry f' d n = entry f d n.
Proof.
  unfold ensure_directory, create_directories. destruct (f !! path); [by intros [= _ ->]|].
  destruct (mkdirs env _ f) as [ok f1] eqn:E. apply mkdirs_spec in E.
  destruct (f1 !! path); by intros [= _ <-].
Qed.

Lemma runtime_directories_spec options f r f' :
  macmu_ensure_runtime_directories env options f = (r, f') ->
  f ⊆ f' /\ forall d n, entry f' d n = entry f d n.
Proof.
  unfold macmu_ensure_runtime_directories, and_then.
  destruct (ensure_directory _ _ f) as [r1 f1] eqn:E1. apply ensure_directory_spec in E1 as [S1 E1].
  destruct r1; [by intros [= _ <-]|].
  destruct (ensure_directory _ _ f1) as [r2 f2] eqn:E2. apply ensure_directory_spec in E2 as [S2 E2].
  destruct r2; [intros [= _ <-]|intros [S3 E3]%ensure_directory_spec].
  - split; [by etrans|]. intros d n. by rewrite E2.
  - split; [by etrans; [|etrans]|]. intros d n. by rewrite E3, E2.
Qed.

(** What [write_text_file] puts on the disk when it succeeds. *)
Definition flushed (dir name text : bytes) : bytes :=
  if os_flush env dir name then text else firstn (os_short env) text.

Lemma write_text_file_spec dir name text f f' :
  write_text_file env dir name text f = (None, f') -> ~ is_link (entry f dir name) ->
  entry f' dir name = Some (NFile (content_of (flushed dir name text))) /\
  changes_only dir [name] f f'.
Proof.
  unfold write_text_file. intros H Hl. destruct (os_open env dir name); [|done].
  destruct (os_write env dir name); simplify_eq/=. rewrite write_entry_plain by done.
  split; [by rewrite entry_set_entry, decide_True|].
  intros d n. rewrite entry_set_entry. case_decide; [|by left]. right. set_solver.
Qed.

Lemma replace_with_symlink_spec sdir sname dir name f f' :
  replace_with_symlink env sdir sname dir name f = (None, f') ->
  entry f' dir name = Some (NLink sdir sname) /\ file_exists f' dir name = true /\
  changes_only dir [name] f f'.
Proof.
  unfold replace_with_symlink. set (f0 := if os_remove env dir name then _ else f).
  assert (changes_only dir [name] f f0) as H0.
  { unfold f0. intros d n. destruct (os_remove env dir name); [|by left].
    rewrite entry_remove_entry. case_decide; [|by left]. right. set_solver. }
  destruct (entry f0 dir name); [done|]. destruct (os_symlink env dir name); simpl; [|done].
  destruct (file_exists _ dir name) eqn:Ef; [|done]. intros [= <-].
  split; [by rewrite entry_set_entry, decide_True|]. split; [done|].
  intros d n. rewrite entry_set_entry. case_decide; [right; set_solver|apply H0].
Qed.

Lemma ensure_metadata_disk_spec sdir sname dir name f f' :
  ensure_metadata_disk env sdir sname dir name f = (None, f') -> ~ is_link (entry f dir name) ->
  metadata_disk_exists f' dir name = true /\ ~ is_link (entry f' dir name) /\
  changes_only dir [name; name ++ bstr ".qcow2"] f f'.
Proof.
  unfold ensure_metadata_disk. intros H Hl.
  destruct (metadata_disk_exists f dir name) eqn:E0; [simplify_eq; split; [done|]; split; [done|by left]|].
  set (f1 := if os_remove env dir name then _ else f) in H.
  set (f2 := if os_remove env dir _ then _ else f1) in H.
  assert (changes_only dir [name; name ++ bstr ".qcow2"] f f2 /\ ~ is_link (entry f2 dir name)) as [H2 Hl2].
  { unfold f2, f1. split.
    - intros d n. destruct (os_remove env dir name), (os_remove env dir (name ++ bstr ".qcow2"));
        rewrite ?entry_remove_entry; repeat case_decide; try (by left); right; set_solver.
    - destruct (os_remove env dir name), (os_remove env dir (name ++ bstr ".qcow2"));
        rewrite ?entry_remove_entry; repeat case_decide; naive_solver. }
  destruct (regular_file f2 sdir sname) as [c|]; [|done]. destruct (os_copy env dir name); [|done].
  rewrite write_entry_plain in H by done.
  destruct (metadata_disk_exists (set_entry f2 dir name (NFile c)) dir name) eqn:E; simplify_eq.
  split; [done|]. split; [by rewrite entry_set_entry, decide_True; simpl; tauto|].
  intros d n. rewrite entry_set_entry. case_decide; [right; set_solver|apply H2].
Qed.

Lemma ensure_sized_file_spec dir name size f f' :
  ensure_sized_file env dir name size f = (None, f') -> ~ is_link (entry f dir name) ->
  has_size f' dir name size = true /\ changes_only dir [name] f f'.
Proof.
  unfold ensure_sized_file. intros H Hl.
  destruct (has_size f dir name size) eqn:E0; [simplify_eq; split; [done|by left]|].
  set (created := if path_exists f dir name then Some f else _) in H.
  destruct created as [f1|] eqn:Ec; [|done].
  assert (changes_only dir [name] f f1 /\ ~ is_link (entry f1 dir name)) as [H1 Hl1].
  { unfold created in Ec. destruct (path_exists f dir name).
    - simplify_eq. split; [by left|done].
    - destruct (os_open env dir name); simplify_eq. rewrite write_entry_plain by done.
      split; [|by rewrite entry_set_entry, decide_True; simpl; tauto].
      intros d n. rewrite entry_set_entry. case_decide; [right; set_solver|by left]. }
  destruct (regular_file f1 dir name) as [c|]; [|done]. destruct (os_resize env dir name); [|done].
  rewrite write_entry_plain in H by done.
  destruct (has_size (set_entry f1 dir name _) dir name size) eqn:E; simplify_eq.
  split; [done|]. intros d n. rewrite entry_set_entry. case_decide; [right; set_solver|apply H1].
Qed.

Lemma changes_only_other dir names f f' d n :
  changes_only dir names f f' -> (d <> dir \/ n ∉ names) -> entry f' d n = entry f d n.
Proof. intros H Hne. destruct (H d n) as [E|[-> Hin]]; [done|]. by destruct Hne. Qed.

Lemma and_then_ok m k f' :
  and_then m k = (None, f') -> exists f1, m = (None, f1) /\ k f1 = (None, f').
Proof. destruct m as [[e|] f1]; [done|]. eauto. Qed.

Lemma machine_path_ne options : macmu_machine_path options <> avdHome options.
Proof.
  unfold macmu_machine_path, path_join. intros E%(f_equal length).
  destruct (last (avdHome options)) as [c|] eqn:El.
  - destruct (bool_decide (c = SLASH)); rewrite !length_app in E; simpl in E; lia.
  - apply last_None in El. rewrite El in E. rewrite length_app in E. simpl in E. lia.
Qed.

(** An image directory without links reads the same when its entries do. *)
Lemma system_image_same f f' path :
  (forall n, entry f' path n = entry f path n) -> (forall n, ~ is_link (entry f path n)) ->
  system_image_exists_at f' path = system_image_exists_at f path.
Proof.
  intros He Hl. assert (forall n, regular_file f' path n = regular_file f path n) as Hr.
  { intros n. rewrite !regular_file_plain; rewrite ?He; done. }
  unfold system_image_exists_at, metadata_disk_exists, file_exists. rewrite Hr. f_equal.
  induction kRequiredFiles as [|n ns IH]; simpl; [done|]. by rewrite Hr, IH.
Qed.

Definition linked_images : list bytes := [bstr "system-qemu.img"; bstr "vendor-qemu.img"].

(** Names are closed texts: two of them are compared by computation. *)
Lemma closed_notin (n : bytes) (ns : list bytes) : bool_decide (n ∈ ns) = false -> n ∉ ns.
Proof. by intros H%bool_decide_eq_false. Qed.

Lemma required_file f path n :
  system_image_exists_at f path = true -> n ∈ kRequiredFiles -> file_exists f path n = true.
Proof.
  intros [H _]%andb_true_iff Hin. rewrite forallb_forall in H. apply H. by apply list_elem_of_In.
Qed.

(** A link in the machine to a file of the image. *)
Lemma linked_file f dir path n :
  entry f dir n = Some (NLink path n) -> ~ is_link (entry f path n) ->
  file_exists f path n = true -> file_exists f dir n = true.
Proof.
  intros E Hl. unfold file_exists. by rewrite (regular_file_link _ _ _ _ _ E Hl), regular_file_plain.
Qed.

(** The entries the creation may change. *)
Definition machine_files (options : ShellOptions.t) : list (bytes * bytes) :=
  (avdHome options, ini_name options) ::
  (pair (macmu_machine_path options) <$>
     bstr "config.ini" :: linked_images ++
     [bstr "encryptionkey.img"; bstr "encryptionkey.img" ++ bstr ".qcow2"; bstr "cache.img"]).

(** What filling the machine leaves in each entry. *)
Lemma fill_machine_entries options f f' :
  let home := avdHome options in
  let machine := macmu_machine_path options in
  (forall name, ~ is_link (entry f home name)) ->
  (forall name, is_link (entry f machine name) -> name ∈ linked_images) ->
  fill_machine env options f = (None, f') ->
  entry f' home (ini_name options) =
    Some (NFile (content_of (flushed home (ini_name options) (root_ini options)))) /\
  entry f' machine (bstr "config.ini") =
    Some (NFile (content_of (flushed machine (bstr "config.ini") (config_ini_for options)))) /\
  (forall n, n ∈ linked_images -> entry f' machine n = Some (NLink (systemPath options) n)) /\
  metadata_disk_exists f' machine (bstr "encryptionkey.img") = true /\
  has_size f' machine (bstr "cache.img") cache_size = true /\
  (forall d n, (d, n) ∉ machine_files options -> entry f' d n = entry f d n).
Proof.
  intros home machine Hhome Hlink H.
  pose proof (machine_path_ne options) as Hmh. fold home machine in Hmh.
  unfold fill_machine in H. fold home machine in H.
  apply and_then_ok in H as (f1 & H1 & H). apply and_then_ok in H as (f2 & H2 & H).
  apply and_then_ok in H as (f3 & H3 & H). apply and_then_ok in H as (f4 & H4 & H).
  apply and_then_ok in H as (f5 & H5 & H6).
  apply write_text_file_spec in H1 as [E1 C1]; [|apply Hhome].
  pose proof (fun d n => changes_only_other _ _ _ _ d n C1) as O1.
  assert (forall n, n ∉ linked_images -> ~ is_link (entry f1 machine n)) as L1.
  { intros n Hn Hl. rewrite O1 in Hl by auto. by apply Hn, Hlink. }
  apply write_text_file_spec in H2 as [E2 C2]; [|by apply L1, closed_notin].
  pose proof (fun d n => changes_only_other _ _ _ _ d n C2) as O2.
  apply replace_with_symlink_spec in H3 as (E3 & _ & C3).
  pose proof (fun d n => changes_only_other _ _ _ _ d n C3) as O3.
  apply replace_with_symlink_spec in H4 as (E4 & _ & C4).
  pose proof (fun d n => changes_only_other _ _ _ _ d n C4) as O4.
  assert (forall n, n ∉ bstr "config.ini" :: linked_images -> entry f4 machine n = entry f1 machine n) as M4.
  { unfold linked_images. intros n Hn. rewrite O4, O3, O2 by (right; set_solver). done. }
  apply ensure_metadata_disk_spec in H5 as (E5 & L5 & C5);
    [|rewrite M4 by (by apply closed_notin); by apply L1, closed_notin].
  pose proof (fun d n => changes_only_other _ _ _ _ d n C5) as O5.
  apply ensure_sized_file_spec in H6 as [E6 C6];
    [|rewrite O5, M4 by (first [by apply closed_notin|right; by apply closed_notin]);
      by apply L1, closed_notin].
  pose proof (fun d n => changes_only_other _ _ _ _ d n C6) as O6.
  assert (forall n, n ∉ [bstr "encryptionkey.img"; bstr "encryptionkey.img" ++ bstr ".qcow2";
    bstr "cache.img"] -> entry f' machine n = entry f4 machine n) as M6.
  { intros n Hn. rewrite O6, O5 by (right; set_solver). done. }
  split; [by rewrite O6, O5, O4, O3, O2 by auto|].
  split; [rewrite M6, O4, O3 by (first [by apply closed_notin|right; by apply closed_notin]); done|].
  split; [|split; [|split; [done|]]].
  - intros n Hin. unfold linked_images in Hin. set_unfold in Hin.
    destruct Hin as [->|[->|[]]]; rewrite M6 by (by apply closed_notin); [|done].
    by rewrite O4 by (right; by apply closed_notin).
  - unfold metadata_disk_exists in *.
    rewrite regular_file_plain in E5 |- *; rewrite ?(O6 machine) by (right; by apply closed_notin); done.
  - unfold machine_files, linked_images. fold home machine. intros d n Hd. cbn [app fmap list_fmap] in Hd.
    rewrite !not_elem_of_cons in Hd. destruct Hd as (D1 & D2 & D3 & D4 & D5 & D6 & D7 & _).
    assert (forall d' (ns : list bytes), Forall (fun n' => (d, n) <> (d', n')) ns -> d <> d' \/ n ∉ ns) as Hd.
    { intros d' ns HF. destruct (decide (d = d')) as [->|]; [right|by left].
      intros Hin. rewrite Forall_forall in HF. by apply (HF n Hin). }
    by rewrite O6, O5, O4, O3, O2, O1 by (apply Hd; auto).
Qed.

(** C38: when [macmu_create_default_machine] returns true, whatever the
    machine directory held before, the machine it promised exists: the check the
    shell makes before starting it succeeds, its system and vendor images are links to
    those of the system image, and the cache image has its size. Nothing else is
    changed: every entry of every directory other than the files of the machine listed
    in [machine_files] is as it was, so all files of the system image and the user data
    of an old machine of that name are untouched. The two .ini files hold the texts generated for
    these options as far as the streams' buffers reached the disk, all of them
    when no flush failed. (The directories hold no links other than the two the
    function itself creates, and the image lies outside of them.) *)
Theorem create_default_machine_ready options f f' :
  let home := avdHome options in
  let machine := macmu_machine_path options in
  let image := systemPath options in
  image <> machine -> image <> home ->
  (forall dir name, dir ∈ [home; machine; image] -> is_link (entry f dir name) ->
     dir = machine /\ name ∈ linked_images) ->
  macmu_create_default_machine env options f = (None, f') ->
  macmu_machine_exists options f' = true /\ macmu_system_image_exists options f' = true /\
  (forall name, entry f' image name = entry f image name) /\
  (forall dir name, (dir, name) ∉ machine_files options -> entry f' dir name = entry f dir name) /\
  (forall name, name ∈ linked_images -> entry f' machine name = Some (NLink image name)) /\
  has_size f' machine (bstr "cache.img") cache_size = true /\
  ((forall dir name, os_flush env dir name = true) ->
   entry f' home (ini_name options) = Some (NFile (content_of (root_ini options))) /\
   entry f' machine (bstr "config.ini") = Some (NFile (content_of (config_ini_for options)))).
Proof.
  intros home machine image Him Hih Hlinks H.
  unfold macmu_create_default_machine in H. fold machine in H. apply and_then_ok in H as (f0 & H0 & H).
  destruct (macmu_system_image_exists options f0) eqn:Eimg; [|done]. cbn [negb] in H.
  apply and_then_ok in H as (f1 & H1 & H).
  apply runtime_directories_spec in H0 as [_ E0]. apply ensure_directory_spec in H1 as [_ E1].
  assert (forall d n, entry f1 d n = entry f d n) as Hsame.
  { intros d n. by rewrite E1, E0. }
  assert (forall n, ~ is_link (entry f1 image n)) as Himg.
  { intros n Hl. rewrite Hsame in Hl. apply Hlinks in Hl as [? _]; [done|set_solver]. }
  destruct (fill_machine_entries options f1 f') as (Hini & Hcfg & Hln & Hmeta & Hcache & Hother);
    [| |done|].
  { intros n Hl. rewrite Hsame in Hl. apply Hlinks in Hl as [E _]; [|set_solver].
    by apply (machine_path_ne options). }
  { intros n Hl. rewrite Hsame in Hl. apply Hlinks in Hl as [_ ?]; [done|set_solver]. }
  assert (forall n, entry f' image n = entry f1 image n) as Hkeep.
  { intros n. apply Hother. unfold machine_files. fold home machine.
    intros [[= ? _]|(x & [= ? _] & _)%list_elem_of_fmap]%elem_of_cons; congruence. }
  assert (system_image_exists_at f1 image = true) as Hi1.
  { rewrite <- Eimg. unfold macmu_system_image_exists. apply system_image_same; [apply E1|].
    intros n. rewrite <- E1. apply Himg. }
  assert (system_image_exists_at f' image = true) as Hi'.
  { rewrite <- Hi1. apply system_image_same; [|done]. apply Hkeep. }
  assert (forall n, n ∈ linked_images -> n ∈ kRequiredFiles -> file_exists f' machine n = true) as Hf.
  { intros n Hn Hreq. apply (linked_file f' machine image n); [by apply Hln| |].
    - rewrite Hkeep. apply Himg.
    - by apply required_file. }
  fold home machine in Hini, Hcfg, Hmeta. split_and!; [|done| | |done|done|intros Hfl].
  2: { intros n. by rewrite Hkeep, Hsame. }
  2: { intros d n Hd. by rewrite Hother, Hsame. }
  2: { unfold flushed in Hini, Hcfg. by rewrite Hfl in Hini, Hcfg. }
  unfold macmu_machine_exists. fold home machine.
  rewrite (Hf (bstr "system-qemu.img")), (Hf (bstr "vendor-qemu.img"))
    by (apply (bool_decide_unpack _); vm_compute; exact I).
  rewrite Hmeta, !andb_true_r. unfold file_exists.
  rewrite !regular_file_plain by (rewrite ?Hini, ?Hcfg; simpl; tauto). by rewrite Hini, Hcfg.
Qed.
End machine.

(** A failed flush goes unnoticed: the text was still in the stream's buffer when
    [out.good()] was asked, so the function reports success for a file that is
    cut short. *)
Lemma unflushed_text_reported_written (env : os) dir name text f :
  os_open env dir name = true -> os_write env dir name = true ->
  os_flush env dir name = false -> os_short env = 0%nat -> ~ is_link (entry f dir name) ->
  exists f', write_text_file env dir name text f = (None, f') /\
    entry f' dir name = Some (NFile (content_of [])).
Proof.
  intros Ho Hw Hf Hs Hl. unfold write_text_file. rewrite Ho, Hw, Hf, Hs. eexists. split; [done|].
  by rewrite write_entry_plain, entry_set_entry, decide_True.
Qed.

End MachineManager.

(** ** A concrete machine *)
Import MachineManager.

(** A file given by the texts at some offsets, zero elsewhere. *)
Fixpoint patched (patches : list (Z * bytes)) (i : Z) : Init.Byte.byte :=
  match patches with
  | [] => Byte.x00
  | (off, bs) :: rest =>
      if (off <=? i) && (i <? off + Z.of_nat (length bs)) then nth (Z.to_nat (i - off)) bs Byte.x00
      else patched rest i
  end.

(** A metadata disk of two megabytes with its partition in sectors 64 to 2111. *)
Definition demo_disk : content := {|
  c_size := 2 * 1024 * 1024;
  c_byte := patched [(512, bstr "EFI PART"); (1024 + 32, [Byte.x40]); (1024 + 40, [Byte.x3f; Byte.x08]);
                     (1024 + 56, utf16 (bstr "metadata")); (64 * 512 + 1024 + 56, [Byte.x53; Byte.xef]);
                     (64 * 512 + 1024 + 120, bstr "metadata")] |}.

Lemma metadata_disk_layout_witness : metadata_layout demo_disk.
Proof.
  apply (metadata_disk_layout demo_disk).
  - split; vm_compute; congruence.
  - vm_compute. reflexivity.
Defined.

Definition demo_machine_options : ShellOptions.t :=
  ShellOptions.parse_options demo_world [bstr "--app-data-dir"; bstr "/d"].

Definition demo_image : directory :=
  <[bstr "encryptionkey.img" := NFile demo_disk]>
    (list_to_map (map (fun n => (n, NFile (content_of n))) kRequiredFiles)).

Definition demo_fs : fs := {[ bstr "/d/images/aosp16-arm64" := demo_image ]}.

Definition demo_os : os := {|
  os_mkdir := fun _ => true; os_open := fun _ _ => true; os_write := fun _ _ => true;
  os_flush := fun _ _ => true; os_short := 0; os_remove := fun _ _ => true;
  os_symlink := fun _ _ => true; os_copy := fun _ _ => true; os_partial := None;
  os_resize := fun _ _ => true; os_message := [] |}.

Lemma entry_inv f dir name n :
  entry f dir name = Some n -> exists d, f !! dir = Some d /\ d !! name = Some n.
Proof. unfold entry. destruct (f !! dir) as [d|] eqn:E; [|done]. eauto. Qed.

(** No entry of a file system is a link, decided on its contents. *)
Definition no_links (f : fs) : bool :=
  forallb (fun '(_, d) =>
    forallb (fun '(_, n) => match n with NLink _ _ => false | NFile _ => true end)
      (map_to_list (d : directory))) (map_to_list f).

Lemma no_links_spec f dir name : no_links f = true -> ~ is_link (entry f dir name).
Proof.
  intros H. destruct (entry f dir name) as [[c|? ?]|] eqn:E; simpl; [tauto| |tauto].
  apply entry_inv in E as (d & Ed & En). unfold no_links in H. rewrite forallb_forall in H.
  specialize (H (dir, d)). rewrite forallb_forall in H.
  intros _. refine (diff_false_true (H _ (name, NLink _ _) _)).
  - by apply list_elem_of_In, elem_of_map_to_list.
  - by apply list_elem_of_In, elem_of_map_to_list.
Qed.

Lemma create_default_machine_ready_witness :
  exists f', macmu_create_default_machine demo_os demo_machine_options demo_fs = (None, f') /\
    macmu_machine_exists demo_machine_options f' = true /\
    entry f' (bstr "/d/avd/phone.avd") (bstr "config.ini") =
      Some (NFile (content_of (config_ini_for demo_machine_options))).
Proof.
  destruct (macmu_create_default_machine demo_os demo_machine_options demo_fs) as [[e|] f'] eqn:E.
  { exfalso. apply (f_equal fst) in E. vm_compute in E. discriminate E. }
  exists f'. split; [reflexivity|].
  destruct (create_default_machine_ready demo_os demo_machine_options demo_fs f')
    as (H1 & _ & _ & _ & _ & _ & H2).
  - vm_compute. discriminate.
  - vm_compute. discriminate.
  - intros dir name _ Hl. exfalso. revert Hl. apply no_links_spec. vm_compute. reflexivity.
  - exact E.
  - split; [exact H1|]. apply H2. reflexivity.
Defined.
