(* ===== verification/SystemImage.v ===== *)
(** [shell/core/machine_manager.cpp], the import of a system image: finding the
    image in an unpacked archive, staging it beside the managed image and swapping
    the two. Directories move as trees, and every system call of the swap has its
    own answer from the environment. *)
From S2P Require Import Prelude Text Posix ShellOptions MachineManager.

Module SystemImage.
Import ShellOptions MachineManager.

(** ** Trees *)

Fixpoint strip (root k : bytes) : option bytes :=
  match root, k with
  | [], _ => Some k
  | a :: root', b :: k' => if bool_decide (a = b) then strip root' k' else None
  | _ :: _, [] => None
  end.

(** The rest of a path at or below [root]: empty, or from a slash on. *)
Definition rel (root k : bytes) : option bytes :=
  match strip root k with
  | Some [] => Some []
  | Some (c :: r) => if bool_decide (c = SLASH) then Some (c :: r) else None
  | None => None
  end.

(** The directories below a path, and the others. *)
Definition tree_of (p : bytes) (f : fs) : fs := filter (fun kd => rel p kd.1 <> None) f.
Definition remove_tree (p : bytes) (f : fs) : fs := filter (fun kd => rel p kd.1 = None) f.

(** The tree at [src] with [dst] as its path. *)
Definition graft (src dst : bytes) (f : fs) : fs :=
  list_to_map (map (fun kd => (dst ++ default [] (rel src kd.1), kd.2))
                 (map_to_list (tree_of src f))).

Definition move_tree (src dst : bytes) (f : fs) : fs :=
  graft src dst f ∪ remove_tree src (remove_tree dst f).

(** A recursive copy merges into what is there, its own entries first. *)
Definition copy_tree (src dst : bytes) (f : fs) : fs :=
  union_with (fun new old => Some (new ∪ old)) (graft src dst f) f.

(** ** System calls *)

Inductive call :=
  | ClearImporting | ClearPrevious | Stage | StageCopy | StageCleanup | DropImporting
  | SetAside | Activate | Restore | DropPrevious.

Inductive rename_answer := Renamed | CrossDevice | RenameFailed.

#[export] Instance rename_answer_eq_dec : EqDecision rename_answer.
Proof. solve_decision. Defined.

(** A failed [remove_all] leaves something below the path, a failed copy
    something at its destination; the texts are those of the error codes. *)
Record import_os := {
  io_os : os;
  io_rename : call -> rename_answer;
  io_remove_all : call -> bool;
  io_copy : bool;
  io_remainder : call -> fs;
  io_message : call -> bytes }.

Section operations.
Context (env : import_os).

Definition leave_remainder (c : call) (p : bytes) (f : fs) : fs :=
  tree_of p (io_remainder env c) ∪ remove_tree p f.

Definition remove_all (c : call) (p : bytes) (f : fs) : fs :=
  if io_remove_all env c then remove_tree p f else leave_remainder c p f.

(** At most an empty directory. *)
Definition nothing_at (p : bytes) (f : fs) : bool :=
  forallb (fun '(k, d) => bool_decide (k = p) && match map_to_list (d : directory) with [] => true | _ => false end)
    (map_to_list (tree_of p f)).

(** [fs::rename] of a directory: it must exist, its new path must not lie below
    it, and what is there can only be an empty directory. *)
Definition rename (c : call) (src dst : bytes) (f : fs) : rename_answer * fs :=
  match io_rename env c with
  | Renamed =>
      if bool_decide (is_Some (f !! src)) && bool_decide (rel src dst = None) &&
         nothing_at dst f
      then (Renamed, move_tree src dst f) else (RenameFailed, f)
  | a => (a, f)
  end.

Definition stage_system_image_directory (source importing : bytes) (f : fs) : result :=
  match rename Stage source importing f with
  | (Renamed, f) => (None, f)
  | (RenameFailed, f) =>
      (Some (bstr "failed to move system image into place: " ++ io_message env Stage), f)
  | (CrossDevice, f) =>
      if io_copy env then (None, copy_tree source importing f)
      else
        (Some (bstr "failed to copy system image after cross-volume move failed: " ++
               io_message env StageCopy),
         remove_all StageCleanup importing (leave_remainder StageCopy importing f))
  end.

Fixpoint drop_while (P : Init.Byte.byte -> bool) (bs : bytes) : bytes :=
  match bs with b :: bs' => if P b then drop_while P bs' else bs | [] => [] end.

(** [destination.parent_path()]: up to the last slash; the root is its own parent. *)
Definition parent_path (p : bytes) : bytes :=
  let is_slash b := bool_decide (b = SLASH) in
  match drop_while (fun b => negb (is_slash b)) (rev p) with
  | [] => []
  | front => match drop_while is_slash front with [] => [SLASH] | q => rev q end
  end.

(** The swap, once the new image is staged and valid. *)
Definition activate_system_image (destination importing previous : bytes) (f : fs) : result :=
  let activate f :=
    match rename Activate importing destination f with
    | (Renamed, f) => (None, remove_all DropPrevious previous f)
    | (_, f) =>
        let f := if bool_decide (is_Some (f !! previous))
                 then (rename Restore previous destination f).2 else f in
        (Some (bstr "failed to activate imported system image: " ++ io_message env Activate),
         remove_all DropImporting importing f)
    end in
  if bool_decide (is_Some (f !! destination)) then
    match rename SetAside destination previous f with
    | (Renamed, f) => activate f
    | (_, f) =>
        (* [remove_all(importing, ec)] has overwritten [ec]. *)
        (Some (bstr "failed to replace existing system image: " ++ io_message env DropImporting),
         remove_all DropImporting importing f)
    end
  else activate f.

Definition macmu_replace_system_image_from_directory
    (options : ShellOptions.t) (source_dir : bytes) (f : fs) : result :=
  if negb (system_image_exists_at f source_dir) then
    (Some (bstr "missing required image files in: " ++ source_dir), f) else
  let! f := macmu_ensure_runtime_directories (io_os env) options f in
  let destination := systemPath options in
  let parent := parent_path destination in
  let importing := destination ++ bstr ".importing" in
  let previous := destination ++ bstr ".previous" in
  let f := remove_all ClearImporting importing f in
  let f := remove_all ClearPrevious previous f in
  let (made, f) := create_directories (io_os env) parent f in
  if negb made then
    (Some (bstr "failed to create image parent directory: " ++ parent ++ bstr " (" ++
           os_message (io_os env) ++ bstr ")"), f) else
  match stage_system_image_directory source_dir importing f with
  | (Some e, f) => (Some e, remove_all DropImporting importing f)
  | (None, f) =>
      if negb (system_image_exists_at f importing) then
        (Some (bstr "copied image did not pass validation"), remove_all DropImporting importing f)
      else activate_system_image destination importing previous f
  end.

End operations.

(** [macmu_find_system_image_directory]: [visited] is what the recursive iterator
    yields before it ends or fails, [root] excluded. *)
Definition macmu_find_system_image_directory (f : fs) (root : bytes) (visited : list bytes)
    : bytes + bytes :=
  if system_image_exists_at f root then inr root else
  if negb (bool_decide (is_Some (f !! root))) then inl (bstr "not a directory: " ++ root) else
  match filter (fun p => is_Some (f !! p) /\ system_image_exists_at f p = true) visited with
  | candidate :: _ => inr candidate
  | [] => inl (bstr "archive does not contain a MacMu AOSP16 arm64 system image")
  end.

(** ** Lookups in trees *)

Lemma strip_Some root k r : strip root k = Some r <-> k = root ++ r.
Proof.
  revert k. induction root as [|a root IH]; intros k; simpl; [naive_solver|].
  destruct k as [|b k]; [naive_solver|]. case_bool_decide as E; [rewrite IH|]; naive_solver.
Qed.

Lemma rel_Some root k r :
  rel root k = Some r <-> k = root ++ r /\ (r = [] \/ head r = Some SLASH).
Proof.
  unfold rel. destruct (strip root k) as [[|c r']|] eqn:E.
  - apply strip_Some in E as ->. split; [intros [= <-]; by auto|].
    intros [H%(inj (app root)) _]. by rewrite <- H.
  - apply strip_Some in E as ->. case_bool_decide as Ec.
    + split; [intros [= <-]; simpl; naive_solver|]. intros [H%(inj (app root)) _]. by rewrite <- H.
    + split; [done|]. intros [H%(inj (app root)) Hr]. rewrite <- H in Hr. naive_solver.
  - split; [done|]. intros [H%strip_Some _]. by rewrite E in H.
Qed.

Lemma rel_graft src k r dst : rel src k = Some r -> rel dst (dst ++ r) = Some r.
Proof. intros [_ Hr]%rel_Some. by apply rel_Some. Qed.

Lemma rel_self p : rel p p = Some [].
Proof. apply rel_Some. rewrite app_nil_r. auto. Qed.

(** Neither path is at or below the other. *)
Definition apart (p q : bytes) : Prop := rel p q = None /\ rel q p = None.

Lemma apart_sym p q : apart p q -> apart q p.
Proof. by intros []. Qed.

Lemma apart_rel p q k r : apart p q -> rel p k = Some r -> rel q k = None.
Proof.
  intros [Hpq Hqp] [-> Hr]%rel_Some. destruct (rel q (p ++ r)) as [s|] eqn:E; [|done]. exfalso.
  apply rel_Some in E as [E Hs]. apply app_eq_inv in E as [(x & -> & ->)|(x & -> & ->)].
  - enough (rel q (q ++ x) = Some x) by congruence. apply rel_Some. split; [done|].
    destruct x; [by left|]. destruct Hs as [[=]|Hs]; by right.
  - enough (rel p (p ++ x) = Some x) by congruence. apply rel_Some. split; [done|].
    destruct x; [by left|]. destruct Hr as [[=]|Hr]; by right.
Qed.

(** Two siblings whose names extend the same path by texts without a slash. *)
Lemma apart_extended p a s : a <> SLASH -> apart p (p ++ a :: s).
Proof.
  intros Ha. unfold apart. split.
  - destruct (rel p _) as [r|] eqn:E; [|done]. apply rel_Some in E as [E Hr].
    apply (inj (app p)) in E as <-. naive_solver.
  - destruct (rel (p ++ a :: s) p) as [r|] eqn:E; [|done]. apply rel_Some in E as [E _].
    apply (f_equal length) in E. rewrite !length_app in E. simpl in E. lia.
Qed.

Lemma lookup_tree_of p f k : tree_of p f !! k = if decide (rel p k = None) then None else f !! k.
Proof.
  apply option_eq. intros d. unfold tree_of. rewrite map_lookup_filter_Some. simpl.
  case_decide; naive_solver.
Qed.

Lemma lookup_remove_tree p f k : remove_tree p f !! k = if decide (rel p k = None) then f !! k else None.
Proof.
  apply option_eq. intros d. unfold remove_tree. rewrite map_lookup_filter_Some. simpl.
  case_decide; naive_solver.
Qed.

Lemma lookup_graft src dst f k r d :
  rel src k = Some r -> f !! k = Some d -> graft src dst f !! (dst ++ r) = Some d.
Proof.
  intros Hr Hd. apply elem_of_list_to_map.
  - rewrite <- list_fmap_compose. apply NoDup_fmap_2_strong; [|apply NoDup_map_to_list].
    intros [k1 d1] [k2 d2] H1%elem_of_map_to_list H2%elem_of_map_to_list. simpl.
    rewrite lookup_tree_of in H1, H2. repeat case_decide; [done..|].
    destruct (rel src k1) as [r1|] eqn:E1; [|done]. destruct (rel src k2) as [r2|] eqn:E2; [|done].
    simpl. intros ->%(inj (app dst)). apply rel_Some in E1 as [-> _]. apply rel_Some in E2 as [-> _].
    congruence.
  - apply list_elem_of_fmap. exists (k, d). simpl. rewrite Hr. split; [done|].
    apply elem_of_map_to_list. rewrite lookup_tree_of, decide_False by congruence. done.
Qed.

Lemma lookup_graft_other src dst f k : rel dst k = None -> graft src dst f !! k = None.
Proof.
  intros Hk. apply not_elem_of_list_to_map. rewrite <- list_fmap_compose, list_elem_of_fmap.
  intros ([k' d] & -> & H%elem_of_map_to_list). simpl in Hk. rewrite lookup_tree_of in H.
  case_decide; [done|]. destruct (rel src k') as [r|] eqn:E; [|done].
  simpl in Hk. by rewrite (rel_graft _ _ _ _ E) in Hk.
Qed.

(** ** What survives a step *)

(** Every directory at or below [p] is at the same place below [q] afterwards,
    with at least its entries. *)
Definition keeps (p : bytes) (f : fs) (q : bytes) (f' : fs) : Prop :=
  forall k r d, rel p k = Some r -> f !! k = Some d -> exists d', d ⊆ d' /\ f' !! (q ++ r) = Some d'.

Lemma keeps_trans p f q f' s f'' : keeps p f q f' -> keeps q f' s f'' -> keeps p f s f''.
Proof.
  intros H1 H2 k r d Hr Hd. destruct (H1 k r d Hr Hd) as (d' & Hs & Hd').
  destruct (H2 _ r d' (rel_graft _ _ _ _ Hr) Hd') as (d'' & Hs' & Hd'').
  exists d''. split; [by etrans|done].
Qed.

(** Nothing below [p] was lost. *)
Lemma keeps_lookup p f f' :
  (forall k r d, rel p k = Some r -> f !! k = Some d -> f' !! k = Some d) -> keeps p f p f'.
Proof.
  intros H k r d Hr Hd. exists d. split; [done|]. pose proof (H k r d Hr Hd) as E.
  by apply rel_Some in Hr as [-> _].
Qed.

Lemma keeps_subseteq p f f' : f ⊆ f' -> keeps p f p f'.
Proof. intros H. apply keeps_lookup. intros k r d _ Hd. by eapply lookup_weaken. Qed.

Section steps.
Context (env : import_os).

Lemma keeps_leave_remainder c p q f : apart p q -> keeps p f p (leave_remainder env c q f).
Proof.
  intros Ha. apply keeps_lookup. intros k r d Hr Hd. pose proof (apart_rel _ _ _ _ Ha Hr) as Hq.
  apply lookup_union_Some_raw. right. rewrite lookup_tree_of, lookup_remove_tree.
  by rewrite !decide_True by done.
Qed.

Lemma keeps_remove_all c p q f : apart p q -> keeps p f p (remove_all env c q f).
Proof.
  intros Ha. unfold remove_all. destruct (io_remove_all env c); [|by apply keeps_leave_remainder].
  apply keeps_lookup. intros k r d Hr Hd. pose proof (apart_rel _ _ _ _ Ha Hr) as Hq.
  by rewrite lookup_remove_tree, decide_True.
Qed.

(** A rename takes its tree along and leaves the others. *)
Lemma rename_keeps c src dst f a f' :
  rename env c src dst f = (a, f') ->
  (a = Renamed -> keeps src f dst f') /\ (a <> Renamed -> f' = f) /\
  (forall p, apart p src -> apart p dst -> keeps p f p f').
Proof.
  unfold rename. intros H.
  assert (a = Renamed /\ f' = move_tree src dst f \/ a <> Renamed /\ f' = f) as [[-> ->]|[Ha ->]].
  { destruct (io_rename env c); [destruct (_ && _)|..]; simplify_eq; auto. }
  - split; [intros _|split; [done|]].
    + intros k r d Hr Hd. exists d. split; [done|]. apply lookup_union_Some_raw. left.
      by eapply lookup_graft.
    + intros p H1 H2. apply keeps_lookup. intros k r d Hr Hd. apply lookup_union_Some_raw. right.
      pose proof (apart_rel _ _ _ _ H1 Hr) as Hs. pose proof (apart_rel _ _ _ _ H2 Hr) as Ht.
      rewrite lookup_graft_other, !lookup_remove_tree, !decide_True by done. done.
  - split; [done|]. split; [done|]. intros p _ _. by apply keeps_subseteq.
Qed.

Lemma copy_tree_keeps src dst f :
  keeps src f dst (copy_tree src dst f) /\
  (forall p, apart p dst -> keeps p f p (copy_tree src dst f)).
Proof.
  split.
  - intros k r d Hr Hd. unfold copy_tree. rewrite lookup_union_with.
    rewrite (lookup_graft _ _ _ _ _ _ Hr Hd). destruct (f !! (dst ++ r)) as [old|]; simpl.
    + exists (d ∪ old). split; [apply map_union_subseteq_l|done].
    + by exists d.
  - intros p H. apply keeps_lookup. intros k r d Hr Hd. unfold copy_tree.
    by rewrite lookup_union_with, lookup_graft_other, Hd by by eapply apart_rel.
Qed.

(** Staging. *)
Lemma stage_keeps source importing f r f' :
  stage_system_image_directory env source importing f = (r, f') ->
  (r = None -> keeps source f importing f') /\
  (forall p, apart p source -> apart p importing -> keeps p f p f').
Proof.
  unfold stage_system_image_directory. destruct (rename env Stage source importing f) as [a f1] eqn:E.
  apply rename_keeps in E as (H1 & H2 & H3). destruct a; [|rewrite H2 by done|]; [intros [= <- <-]; auto| |].
  - destruct (io_copy env); intros [= <- <-].
    + destruct (copy_tree_keeps source importing f). auto.
    + split; [done|]. intros p _ Hp. eapply keeps_trans; [by apply keeps_leave_remainder|].
      by apply keeps_remove_all.
  - intros [= <- <-]. split; [done|]. done.
Qed.

(** What a rename replaced was at most an empty directory. *)
Lemma rename_keeps_target c src dst f a f' :
  rename env c src dst f = (a, f') -> keeps dst f dst f'.
Proof.
  unfold rename. intros H. destruct (io_rename env c); [|injection H as _ <-; by apply keeps_subseteq..].
  destruct (bool_decide_reflect (is_Some (f !! src))) as [[d Hd]|]; [|injection H as _ <-; by apply keeps_subseteq].
  destruct (bool_decide (rel src dst = None)); [|injection H as _ <-; by apply keeps_subseteq].
  destruct (nothing_at dst f) eqn:En; [|injection H as _ <-; by apply keeps_subseteq]. simplify_eq/=.
  intros k r d0 Hr Hd0. unfold nothing_at in En. rewrite forallb_forall in En.
  specialize (En (k, d0)). cbv beta iota in En. destruct (map_to_list d0) eqn:Em; [|rewrite andb_false_r in En].
  - apply map_to_list_empty_iff in Em as ->. rewrite andb_true_r, bool_decide_eq_true in En.
    rewrite En in Hr.
    + rewrite rel_self in Hr. simplify_eq. exists d. split; [apply map_empty_subseteq|].
      apply lookup_union_Some_raw. left. eapply lookup_graft; [apply rel_self|done].
    + apply list_elem_of_In, elem_of_map_to_list. by rewrite lookup_tree_of, decide_False by congruence.
  - discriminate En. apply list_elem_of_In, elem_of_map_to_list.
    by rewrite lookup_tree_of, decide_False by congruence.
Qed.

(** Nothing is left where the tree was. *)
Lemma renamed_away c src dst f f' :
  rename env c src dst f = (Renamed, f') -> apart src dst -> nothing_at src f' = true.
Proof.
  unfold rename. intros H Ha.
  assert (f' = move_tree src dst f) as ->.
  { destruct (io_rename env c); [|done..]. destruct (_ && _); by simplify_eq. }
  unfold nothing_at. apply forallb_forall. intros [k d] Hin%list_elem_of_In%elem_of_map_to_list.
  exfalso. rewrite lookup_tree_of in Hin. case_decide as Hk; [done|].
  destruct (rel src k) as [r|] eqn:Er; [|done].
  apply lookup_union_Some_raw in Hin as [Hin|[_ Hin]].
  - by rewrite lookup_graft_other in Hin by by eapply apart_rel.
  - by rewrite lookup_remove_tree, decide_False in Hin by congruence.
Qed.

Lemma rename_back c src dst f d :
  io_rename env c = Renamed -> f !! src = Some d -> apart src dst -> nothing_at dst f = true ->
  (rename env c src dst f).1 = Renamed.
Proof.
  intros Hc Hd [Ha _] Hn. unfold rename. rewrite Hc, Hn, Hd.
  by rewrite !bool_decide_eq_true_2 by done.
Qed.

(** Putting the old image back works unless the system refuses it. *)
Lemma restore_outcomes D I P f d :
  apart D I -> apart D P -> apart I P -> f !! P = Some d -> nothing_at D f = true ->
  let f' := remove_all env DropImporting I (rename env Restore P D f).2 in
  keeps P f D f' \/ io_rename env Restore <> Renamed /\ keeps P f P f'.
Proof.
  intros HDI HDP HIP Hd Hn f'. destruct (decide (io_rename env Restore = Renamed)) as [Hr|Hr].
  - left. pose proof (rename_back _ _ _ _ _ Hr Hd (apart_sym _ _ HDP) Hn) as Ha.
    unfold f'. destruct (rename env Restore P D f) as [a f3] eqn:E. simpl in *.
    apply rename_keeps in E as (Hback & _). eapply keeps_trans; [by apply Hback|].
    by apply keeps_remove_all.
  - right. split; [done|]. assert ((rename env Restore P D f).2 = f) as E.
    { unfold rename. by destruct (io_rename env Restore). }
    unfold f'. rewrite E. by apply keeps_remove_all, apart_sym.
Qed.

(** The swap, on every branch. *)
Lemma activate_outcomes D I P f r f' :
  apart D I -> apart D P -> apart I P ->
  activate_system_image env D I P f = (r, f') ->
  match r with
  | None => keeps I f D f'
  | Some _ => keeps D f D f' \/ io_rename env Restore <> Renamed /\ keeps D f P f'
  end.
Proof.
  intros HDI HDP HIP H. unfold activate_system_image in H.
  assert (forall c, keeps D f D (remove_all env c I f)) as HI by (intros; by apply keeps_remove_all).
  destruct (bool_decide_reflect (is_Some (f !! D))) as [[d Hd]|_].
  - destruct (rename env SetAside D P f) as [a f1] eqn:E1.
    pose proof (rename_keeps _ _ _ _ _ _ E1) as (Haway & Hsame & Hother).
    destruct a; [|rewrite Hsame in H by done; simplify_eq; by left..].
    specialize (Haway eq_refl). destruct (Haway D [] d (rel_self D) Hd) as (d' & _ & Hd').
    rewrite app_nil_r in Hd'.
    destruct (rename env Activate I D f1) as [a2 f2] eqn:E2.
    apply rename_keeps in E2 as (Hin & Hsame2 & _). destruct a2; simplify_eq.
    { eapply keeps_trans; [by apply Hother; [apply apart_sym|]|].
      eapply keeps_trans; [by apply Hin|]. by apply keeps_remove_all. }
    all: rewrite Hsame2 by done; rewrite bool_decide_eq_true_2 by (rewrite Hd'; done).
    all: destruct (restore_outcomes D I P f1 d') as [Hk|[Hr Hk]];
      try done; [by eapply renamed_away|..].
    all: pose proof (keeps_trans _ _ _ _ _ _ Haway Hk); auto.
  - destruct (rename env Activate I D f) as [a2 f2] eqn:E2.
    apply rename_keeps in E2 as (Hin & Hsame2 & _). destruct a2; simplify_eq.
    { eapply keeps_trans; [by apply Hin|]. by apply keeps_remove_all. }
    all: rewrite Hsame2 by done; left; destruct (bool_decide _); [|done].
    all: destruct (rename env Restore P D f) as [a3 f3] eqn:E3; simpl.
    all: eapply keeps_trans; [by eapply rename_keeps_target|by apply keeps_remove_all].
Qed.

(** An image without links stays valid when its directory is kept. *)
Lemma kept_image_valid p f q f' :
  keeps p f q f' -> (forall n, ~ is_link (entry f p n)) ->
  system_image_exists_at f p = true -> system_image_exists_at f' q = true.
Proof.
  intros Hk Hl H.
  assert (forall n c, regular_file f p n = Some c -> regular_file f' q n = Some c) as Hr.
  { intros n c. rewrite regular_file_plain by done.
    destruct (entry f p n) as [[c0|]|] eqn:E; [|done..]. intros [= <-].
    apply entry_inv in E as (d & Ed & En). destruct (Hk p [] d (rel_self p) Ed) as (d' & Hs & Ed').
    rewrite app_nil_r in Ed'. assert (entry f' q n = Some (NFile c0)) as E'.
    { unfold entry. rewrite Ed'. by eapply lookup_weaken. }
    rewrite regular_file_plain; rewrite E'; [done|]. simpl. tauto. }
  unfold system_image_exists_at, metadata_disk_exists in *. apply andb_true_iff in H as [H1 H2].
  apply andb_true_iff. split.
  - rewrite forallb_forall in H1 |- *. intros n Hn. specialize (H1 n Hn). unfold file_exists in *.
    apply bool_decide_eq_true in H1 as [c Hc]. apply bool_decide_eq_true. eauto.
  - destruct (regular_file f p _) as [c|] eqn:E; [|done]. by rewrite (Hr _ _ E).
Qed.

End steps.

(** The three places of a replacement. *)
Definition importing_path (D : bytes) : bytes := D ++ bstr ".importing".
Definition previous_path (D : bytes) : bytes := D ++ bstr ".previous".

Lemma places_apart D :
  apart D (importing_path D) /\ apart D (previous_path D) /\
  apart (importing_path D) (previous_path D).
Proof.
  split; [by apply apart_extended|]. split; [by apply apart_extended|].
  unfold importing_path, previous_path. split.
  - destruct (rel _ _) as [r|] eqn:E; [|done]. apply rel_Some in E as [E _].
    rewrite <- app_assoc in E. by apply (inj (app D)) in E.
  - destruct (rel _ _) as [r|] eqn:E; [|done]. apply rel_Some in E as [E _].
    rewrite <- app_assoc in E. by apply (inj (app D)) in E.
Qed.

(** C21: importing an image that lies apart from the managed one. When it
    succeeds, every directory of the source is at its place in the managed image,
    which is valid. When it fails, at whatever step and whatever the failed calls
    left behind, the old image is still there in full; the only exception is a
    failed rename back, and then it is kept at ".previous". *)
Theorem replace_system_image_outcomes (env : import_os) options S f r f' :
  let D := systemPath options in
  apart S D -> apart S (importing_path D) -> apart S (previous_path D) ->
  macmu_replace_system_image_from_directory env options S f = (r, f') ->
  match r with
  | None => keeps S f D f' /\
      ((forall name, ~ is_link (entry f S name)) -> system_image_exists_at f' D = true)
  | Some _ => keeps D f D f' \/
      io_rename env Restore <> Renamed /\ keeps D f (previous_path D) f'
  end.
Proof.
  intros D HSD HSI HSP H. destruct (places_apart D) as (HDI & HDP & HIP).
  unfold macmu_replace_system_image_from_directory in H.
  fold D in H. fold (importing_path D) (previous_path D) in H.
  destruct (system_image_exists_at f S) eqn:Ev; cbn [negb] in H;
    [|simplify_eq; left; by apply keeps_subseteq].
  destruct (macmu_ensure_runtime_directories _ options f) as [r0 f0] eqn:E0.
  apply runtime_directories_spec in E0 as [Hf0 _].
  destruct r0; cbn [and_then] in H; [simplify_eq; left; by apply keeps_subseteq|].
  destruct (create_directories _ _ _) as [made f3] eqn:E3. apply mkdirs_spec in E3 as [Hf3 _].
  assert (forall p, apart p (importing_path D) -> apart p (previous_path D) -> keeps p f p f3) as Hpre.
  { intros p H1 H2. eapply keeps_trans; [apply keeps_subseteq, Hf0|].
    eapply keeps_trans; [by apply (keeps_remove_all env ClearImporting), H1|].
    eapply keeps_trans; [by apply (keeps_remove_all env ClearPrevious), H2|].
    apply keeps_subseteq, Hf3. }
  destruct made; cbn [negb] in H; [|simplify_eq; left; by apply Hpre].
  destruct (stage_system_image_directory env S _ f3) as [e f4] eqn:E4.
  apply stage_keeps in E4 as [Hst Hoth].
  assert (keeps D f D f4) as HD.
  { eapply keeps_trans; [by apply Hpre|]. by apply Hoth; [apply apart_sym|]. }
  assert (keeps D f D (remove_all env DropImporting (importing_path D) f4)) as HD'.
  { eapply keeps_trans; [exact HD|]. by apply keeps_remove_all. }
  destruct e; [simplify_eq; by left|].
  destruct (system_image_exists_at f4 (importing_path D)); cbn [negb] in H; [|simplify_eq; by left].
  apply activate_outcomes in H; [|done..]. destruct r.
  - destruct H as [H|[Hr H]]; [left|right; split; [done|]]; exact (keeps_trans _ _ _ _ _ _ HD H).
  - assert (keeps S f D f') as Hk.
    { eapply keeps_trans; [exact (Hpre S HSI HSP)|].
      exact (keeps_trans _ _ _ _ _ _ (Hst eq_refl) H). }
    split; [done|]. intros Hl. by eapply kept_image_valid.
Qed.

(** The search finds an image exactly when the directories it visited, the root
    first, hold one; and what it finds is one. *)
Lemma find_system_image_spec f root visited :
  is_Some (f !! root) -> (forall p, p ∈ visited -> is_Some (f !! p)) ->
  match macmu_find_system_image_directory f root visited with
  | inr p => p ∈ root :: visited /\ system_image_exists_at f p = true
  | inl _ => forall p, p ∈ root :: visited -> system_image_exists_at f p = false
  end.
Proof.
  intros Hr Hv. unfold macmu_find_system_image_directory.
  destruct (system_image_exists_at f root) eqn:Er; [split; [set_solver|done]|].
  rewrite bool_decide_eq_true_2 by done. cbn [negb].
  destruct (filter _ visited) as [|p ps] eqn:Ef.
  - intros p Hp%elem_of_cons. destruct Hp as [->|Hp]; [done|].
    destruct (system_image_exists_at f p) eqn:E; [|done]. exfalso.
    assert (p ∈ @nil bytes) as Hin; [|by apply elem_of_nil in Hin].
    rewrite <- Ef. apply list_elem_of_filter. auto.
  - assert (p ∈ p :: ps) as Hin by set_solver. rewrite <- Ef in Hin.
    apply list_elem_of_filter in Hin as [[_ ?] ?]. split; [set_solver|done].
Qed.

End SystemImage.

(** ** Concrete imports *)
Import MachineManager SystemImage.

Definition demo_import : import_os := {|
  io_os := demo_os; io_rename := fun _ => Renamed; io_remove_all := fun _ => true;
  io_copy := true; io_remainder := fun _ => ∅; io_message := fun _ => [] |}.

(** The new image was unpacked into /t; the managed one is already there. *)
Definition demo_unpacked : fs := <[bstr "/t/img" := demo_image]> demo_fs.


Lemma replace_system_image_outcomes_witness :
  exists f', macmu_replace_system_image_from_directory demo_import demo_machine_options
      (bstr "/t/img") demo_unpacked = (None, f') /\
    system_image_exists_at f' (bstr "/d/images/aosp16-arm64") = true.
Proof.
  destruct (macmu_replace_system_image_from_directory demo_import demo_machine_options
    (bstr "/t/img") demo_unpacked) as [[e|] f'] eqn:E.
  { exfalso. apply (f_equal fst) in E. vm_compute in E. discriminate E. }
  exists f'. split; [reflexivity|].
  apply (replace_system_image_outcomes demo_import demo_machine_options (bstr "/t/img")
    demo_unpacked None f'); [vm_compute; split; reflexivity..|exact E|].
  intros name. apply no_links_spec. vm_compute. reflexivity.
Defined.

(** A second attempt after a failed rename back starts by deleting the only copy
    of the old image: here its own staging fails too, and no image is left. *)
Definition stranded : fs :=
  {[ bstr "/d/images/aosp16-arm64.previous" := demo_image; bstr "/t/img" := demo_image ]}.

Definition refusing : import_os := {|
  io_os := demo_os; io_rename := fun _ => RenameFailed; io_remove_all := fun _ => true;
  io_copy := true; io_remainder := fun _ => ∅; io_message := fun _ => [] |}.

Example retry_deletes_stranded_image :
  let (r, f') := macmu_replace_system_image_from_directory refusing demo_machine_options
                   (bstr "/t/img") stranded in
  (r, bool_decide (is_Some (f' !! bstr "/d/images/aosp16-arm64")),
   bool_decide (is_Some (f' !! bstr "/d/images/aosp16-arm64.previous"))) =
  (Some (bstr "failed to move system image into place: "), false, false).
Proof. vm_compute. reflexivity. Qed.
