(* ===== verification/MultiDisplayConfig.v ===== *)
(** [MultiDisplay.cpp], the parts that read and write the display table as data:
    the command line ([parseConfig]), the start-up configuration ([loadConfig])
    and snapshots ([onSave], [onLoad], over the big-endian primitives of
    [android-emu-base/android/base/files/Stream.cpp]).

    [StreamSerializing.h] and [host-common/MultiDisplay.h] are not in the
    repository: how a collection is framed and what the constructors of
    [MultiDisplayInfo] do with their arguments are parameters. *)
From S2P Require Import Prelude Text StdMap DisplayAgent MultiDisplay MultiDisplaySafety EmulatorDisplays.

Module MultiDisplayConfig.
Import MultiDisplay.

Definition COMMA : Init.Byte.byte := Byte.x2c.

(** [MultiDisplayInfo(x, y, w, h, dpi, flag, enabled)] and the same with [cb]. *)
Record constructors := {
  new_info : Z -> Z -> Z -> Z -> Z -> Z -> bool -> MultiDisplayInfo;
  restored_info : Z -> Z -> Z -> Z -> Z -> Z -> bool -> Z -> MultiDisplayInfo }.

(** [base::saveCollection] and [base::loadCollection], with the function for one
    element. *)
Record serializer := {
  saveCollection : forall {A}, (A -> bytes) -> list A -> bytes;
  loadCollection : forall {B}, (bytes -> B * bytes) -> bytes -> list B * bytes }.

(** ** The command line *)

(** [std::stoi]: [None] where it throws. *)
Definition stoi (s : bytes) : option Z :=
  match strtol s with
  | Some (v, _) => if (- 2 ^ 31 <=? v) && (v <? 2 ^ 31) then Some v else None
  | None => None
  end.

(** The pieces between commas; [cur] is the piece so far. *)
Fixpoint pieces (cur s : bytes) : list bytes :=
  match s with
  | [] => [cur]
  | c :: s' => if decide (c = COMMA) then cur :: pieces [] s' else pieces (cur ++ [c]) s'
  end.

Fixpoint to_params (ps : list bytes) : option (list Z) :=
  match ps with
  | [] => Some []
  | p :: ps' =>
      match stoi p with
      | None => None
      | Some v => match to_params ps' with Some vs => Some (u32 v :: vs) | None => None end
      end
  end.

Section config.
Context (K : limits) (H : host) (C : constructors) (S : serializer).

Fixpoint parse_loop (params : list Z) (ret : list (Z * MultiDisplayInfo))
    : list (Z * MultiDisplayInfo) * list effect :=
  match params with
  | id :: w :: h :: dp :: fl :: rest =>
      if (id =? 0) || (3 <? id) then ([], []) else
      let '(ok, o) := multiDisplayParamValidate K id w h dp in
      if negb ok then ([], o) else
      parse_loop rest (emplace id (new_info C (-1) (-1) w h dp fl true) ret)
  | _ => (ret, [])
  end.

(** [None] when an exception of [std::stoi] leaves the function. *)
Definition parseConfig (multidisplay : option bytes)
    : option (list (Z * MultiDisplayInfo) * list effect) :=
  match multidisplay with
  | None => Some ([], [])
  | Some s =>
      match to_params (pieces [] s) with
      | None => None
      | Some params =>
          if (length params <? 5)%nat || negb (Nat.modulo (length params) 5 =? 0)%nat
          then Some ([], []) else Some (parse_loop params [])
      end
  end.

(** ** Start-up *)

(** The [hw_display<k>_*] settings of config.ini. *)
Record hw_display := {
  hd_xOffset : Z; hd_yOffset : Z; hd_width : Z; hd_height : Z; hd_density : Z; hd_flag : Z }.

(** The calls of [setMultiDisplay]: id, x, y, w, h, dpi, flag. *)
Definition request : Type := Z * (Z * Z * Z * Z * Z * Z).

Fixpoint apply_requests (rs : list request) (st : t) : t * list effect :=
  match rs with
  | [] => (st, [])
  | (id, (x, y, w, h, dp, fl)) :: rs' =>
      let '(_, st, o) := setMultiDisplay K H id x y w h dp fl true st in
      let '(st, o') := apply_requests rs' st in
      (st, o ++ [UpdateUIPage id] ++ o')
  end.

Definition ini_request (hw : Z -> hw_display) (k : Z) : list request :=
  let d := hw k in
  if negb (hd_width d =? 0) && negb (hd_height d =? 0)
  then [(k, (s32 (hd_xOffset d), s32 (hd_yOffset d), u32 (hd_width d), u32 (hd_height d),
             u32 (hd_density d), u32 (hd_flag d)))]
  else [].

Definition config_requests (info : list (Z * MultiDisplayInfo)) (hw : Z -> hw_display) : list request :=
  match info with
  | _ :: _ => map (fun kv => (kv.1, (-1, -1, width kv.2, height kv.2, dpi kv.2, flag kv.2))) info
  | [] => ini_request hw 1 ++ ini_request hw 2 ++ ini_request hw 3
  end.

Definition loadConfig (multidisplay : option bytes) (hw : Z -> hw_display) (st : t)
    : option (t * list effect) :=
  if negb (h_feature H) then Some (st, []) else
  if h_folded_area H then Some (st, []) else
  if mGuestMode st then Some (st, []) else
  match parseConfig multidisplay with
  | None => None
  | Some (info, o) =>
      let '(st, o') := apply_requests (config_requests info hw) st in Some (st, o ++ o')
  end.

(** ** Snapshots *)

Definition putByte (v : Z) : bytes := [byte.of_Z v].
Definition putBe32 (v : Z) : bytes :=
  map (fun s => byte.of_Z (Z.shiftr (u32 v) s)) [24; 16; 8; 0].

(** A short read leaves the rest of the buffer zero. *)
Definition byte_at (i : nat) (s : bytes) : Z := byte.unsigned (nth i s Byte.x00).

Definition getByte (s : bytes) : Z * bytes := (byte_at 0 s, drop 1 s).
Definition getBe32 (s : bytes) : Z * bytes :=
  (Z.lor (Z.shiftl (byte_at 0 s) 24)
     (Z.lor (Z.shiftl (byte_at 1 s) 16) (Z.lor (Z.shiftl (byte_at 2 s) 8) (byte_at 3 s))), drop 4 s).

Definition save_display (kv : Z * MultiDisplayInfo) : bytes :=
  let i := kv.2 in
  putBe32 kv.1 ++ putBe32 (pos_x i) ++ putBe32 (pos_y i) ++ putBe32 (width i) ++
  putBe32 (height i) ++ putBe32 (dpi i) ++ putBe32 (flag i) ++ putBe32 (cb i) ++
  putByte (if enabled i then 1 else 0).

Definition load_display (s : bytes) : (Z * MultiDisplayInfo) * bytes :=
  let '(idx, s) := getBe32 s in
  let '(x, s) := getBe32 s in
  let '(y, s) := getBe32 s in
  let '(w, s) := getBe32 s in
  let '(h, s) := getBe32 s in
  let '(dp, s) := getBe32 s in
  let '(fl, s) := getBe32 s in
  let '(c, s) := getBe32 s in
  let '(e, s) := getByte s in
  ((idx, restored_info C (s32 x) (s32 y) w h dp fl (negb (e =? 0)) c), s).

Definition onSave (st : t) : bytes := saveCollection S save_display (mMultiDisplay st).

(** [std::set<uint32_t>], in its iteration order. *)
Definition id_set (ids : list Z) : list Z := keys (foldl (fun m k => emplace k tt m) [] ids).

Definition show_windows (add : bool) (m : list (Z * MultiDisplayInfo)) : list effect :=
  map (fun kv => AddMultiDisplayWindow kv.1 add (if add then width kv.2 else 0)
                                         (if add then height kv.2 else 0))
    (List.filter (fun kv => 0 <? cb kv.2) m).

(** State, effects and the rest of the stream. *)
Definition onLoad (s : bytes) (st : t) : t * list effect * bytes :=
  let '(loaded, s) := loadCollection S load_display s in
  let displaysOnLoad := foldl (fun m kv => emplace kv.1 kv.2 m) [] loaded in
  let ids := id_set (keys (mMultiDisplay st) ++ keys displaysOnLoad) in
  let activeBeforeLoad := 1 <? getNumberActiveMultiDisplaysLocked (mMultiDisplay st) in
  let o1 := if activeBeforeLoad && h_window H then show_windows false (mMultiDisplay st) else [] in
  let st := with_map st displaysOnLoad in
  let activeAfterLoad := 1 <? getNumberActiveMultiDisplaysLocked displaysOnLoad in
  let o2 := if activeAfterLoad && h_window H then show_windows true displaysOnLoad else [] in
  let '(w, h) := getCombinedDisplaySizeLocked K H displaysOnLoad in
  let o3 :=
    if negb (h_window H) && negb (h_pixel_fold H) then
      if activeAfterLoad then
        (if activeBeforeLoad then [] else [SetNoSkin]) ++ [SetUIDisplayRegion w h]
      else if activeBeforeLoad then [SetUIDisplayRegion w h; RestoreSkin] else []
    else [] in
  let o4 := flat_map (fun k => [UpdateUIPage k; FireEvent DisplayChanged k]) ids in
  let o5 := match ids with [] => [] | _ => [FireEvent DisplayTransactionCompleted 0] end in
  (st, o1 ++ o2 ++ o3 ++ o4 ++ o5, s).

End config.

(** ** The stream *)

Lemma byte_of_unsigned_Z z : byte.unsigned (byte.of_Z z) = z mod 2 ^ 8.
Proof. by rewrite byte.unsigned_of_Z. Qed.

Lemma getBe32_put v rest : getBe32 (putBe32 v ++ rest) = (u32 v, rest).
Proof.
  unfold getBe32, putBe32, byte_at. cbn [map app nth drop]. f_equal.
  pose proof (u32_range v) as [H0 H1]. set (w := u32 v) in *. clearbody w.
  rewrite !byte_of_unsigned_Z, <- !Z.land_ones, Z.shiftr_0_r by lia.
  apply Z.bits_inj'. intros n Hn.
  assert (forall i, 32 <= i -> Z.testbit w i = false) as Hhigh.
  { intros i Hi. destruct (decide (w = 0)) as [->|]; [by apply Z.bits_0|].
    apply Z.bits_above_log2; [done|]. assert (Z.log2 w < 32); [|lia]. by apply Z.log2_lt_pow2; lia. }
  assert (forall i, Z.testbit (Z.ones 8) i = bool_decide (0 <= i < 8)) as Hones.
  { intros i. rewrite Z.testbit_ones by lia. case_bool_decide; lia. }
  rewrite !Z.lor_spec, !Z.shiftl_spec, !Z.land_spec, !Hones by lia.
  destruct (decide (n < 8)); [|destruct (decide (n < 16)); [|destruct (decide (n < 24)); [|
    destruct (decide (n < 32))]]].
  all: repeat (first [rewrite bool_decide_eq_true_2 by lia|rewrite bool_decide_eq_false_2 by lia]).
  all: rewrite ?andb_true_r, ?andb_false_r, ?orb_false_r, ?orb_false_l.
  all: rewrite ?Z.shiftr_spec by lia; try (by rewrite Hhigh by lia); f_equal; lia.
Qed.

Lemma getByte_put v rest : 0 <= v < 2 ^ 8 -> getByte (putByte v ++ rest) = (v, rest).
Proof.
  intros Hv. unfold getByte, putByte, byte_at. cbn [app nth drop].
  by rewrite byte_of_unsigned_Z, Z.mod_small.
Qed.

(** ** Snapshots restore the table *)

(** What a snapshot records about a display. *)
Definition saved (i : MultiDisplayInfo) : Z * Z * Z * Z * Z * Z * bool * Z :=
  (pos_x i, pos_y i, width i, height i, dpi i, flag i, enabled i, cb i).

(** The fields have the widths of their C types. *)
Definition info_ok (i : MultiDisplayInfo) : Prop :=
  is_s32 (pos_x i) /\ is_s32 (pos_y i) /\ is_u32 (width i) /\ is_u32 (height i) /\
  is_u32 (dpi i) /\ is_u32 (flag i) /\ is_u32 (cb i).

(** The constructors store the arguments they are given. *)
Class ConstructorsOk (C : constructors) : Prop := {
  restored_saved : forall x y w h dp fl e c,
    saved (restored_info C x y w h dp fl e c) = (x, y, w, h, dp, fl, e, c);
  new_saved : forall x y w h dp fl e, (saved (new_info C x y w h dp fl e)).1 = (x, y, w, h, dp, fl, e) }.

(** A collection is loaded element by element, as it was saved. *)
Class SerializerOk (S : serializer) : Prop :=
  load_save : forall A B (put : A -> bytes) (get : bytes -> B * bytes) (view : A -> B) xs rest,
    Z.of_nat (length xs) < 2 ^ 32 ->
    (forall x rest, x ∈ xs -> get (put x ++ rest) = (view x, rest)) ->
    loadCollection S get (saveCollection S put xs ++ rest) = (map view xs, rest).

Section snapshot.
Context (K : limits) (H : host) (C : constructors) (S : serializer).
Context `{!ConstructorsOk C, !SerializerOk S}.

(** A display as it comes back. *)
Definition restored (i : MultiDisplayInfo) : MultiDisplayInfo :=
  restored_info C (pos_x i) (pos_y i) (width i) (height i) (dpi i) (flag i) (enabled i) (cb i).

Lemma load_display_save k i rest :
  is_u32 k -> info_ok i -> load_display C (save_display (k, i) ++ rest) = ((k, restored i), rest).
Proof.
  intros Hk (Hx & Hy & Hw & Hh & Hd & Hf & Hc). unfold load_display, save_display. cbn [fst snd].
  rewrite <- !app_assoc. rewrite !getBe32_put, getByte_put by (by destruct (enabled i)).
  rewrite !s32_u32, !u32_id by done. unfold restored. by destruct (enabled i).
Qed.

(** Inserting the entries of a map in order gives the map. *)
Lemma emplace_all_sorted {V} (m acc : list (Z * V)) :
  sorted (acc ++ m) -> foldl (fun m kv => emplace kv.1 kv.2 m) acc m = acc ++ m.
Proof.
  revert acc. induction m as [|[k v] m IH]; intros acc Hs; simpl; [by rewrite app_nil_r|].
  assert (forall j, j ∈ keys acc -> j < k) as Hlt.
  { intros j Hj. unfold sorted, keys in Hs. rewrite map_app in Hs. simpl in Hs.
    clear -Hs Hj. unfold keys in Hj. induction (map fst acc) as [|a l IH]; [by apply elem_of_nil in Hj|].
    simpl in Hs. apply StronglySorted_inv in Hs as [Hs Ha].
    apply elem_of_cons in Hj as [->|Hj]; [|by apply IH].
    rewrite Forall_forall in Ha. apply Ha. set_solver. }
  assert (emplace k v acc = acc ++ [(k, v)]) as ->.
  { unfold emplace. rewrite (proj2 (find_None k acc)) by (intros Hin%Hlt; lia).
    clear -Hlt. induction acc as [|[j u] acc IH]; simpl; [done|].
    assert (j < k) by (apply Hlt; simpl; set_solver).
    destruct (Z.ltb_spec k j); [lia|]. destruct (Z.eqb_spec k j); [lia|].
    rewrite IH; [done|]. intros l Hl. apply Hlt. simpl. set_solver. }
  rewrite IH by by rewrite <- app_assoc. by rewrite <- app_assoc.
Qed.

Lemma id_set_spec ids k : k ∈ id_set ids <-> k ∈ ids.
Proof.
  unfold id_set. assert (forall m, k ∈ keys (foldl (fun m k => emplace k tt m) m ids) <->
    k ∈ ids \/ k ∈ keys m) as E.
  { induction ids as [|j ids IH]; intros m; simpl; [set_solver|].
    rewrite IH, emplace_keys. set_solver. }
  rewrite E. simpl. set_solver.
Qed.

Lemma id_set_sorted ids : StronglySorted Z.lt (id_set ids).
Proof.
  unfold id_set. assert (forall m : list (Z * unit), sorted m -> sorted (foldl (fun m k => emplace k tt m) m ids)) as E.
  { induction ids as [|j ids IH]; intros m Hm; simpl; [done|]. by apply IH, emplace_sorted. }
  apply E. constructor.
Qed.

(** The displays a run of effects announces as changed. *)
Definition announced (o : list effect) : list Z :=
  flat_map (fun e => match e with FireEvent DisplayChanged k => [k] | _ => [] end) o.

Lemma announced_app o1 o2 : announced (o1 ++ o2) = announced o1 ++ announced o2.
Proof. apply flat_map_app. Qed.

Lemma announced_none o :
  Forall (fun e => match e with FireEvent _ _ => False | _ => True end) o -> announced o = [].
Proof. induction 1 as [|e o He _ IH]; [done|]. unfold announced in *. cbn [flat_map]. rewrite IH. by destruct e. Qed.

(** C22: loading what was saved. Into whatever table the emulator has at
    that moment, a snapshot brings back the saved displays, each with its place,
    size, density, flags, state and color buffer; nothing after the table is read
    from the stream; and every display that was or is now in the table is
    announced as changed, once and in order. *)
Theorem snapshot_roundtrip (st st0 : t) rest :
  table_ok st -> Z.of_nat (length (mMultiDisplay st)) < 2 ^ 32 ->
  Forall (fun kv => info_ok kv.2) (mMultiDisplay st) ->
  exists st' o, onLoad K H C S (onSave S st ++ rest) st0 = (st', o, rest) /\
    map (fun kv => (kv.1, saved kv.2)) (mMultiDisplay st') =
      map (fun kv => (kv.1, saved kv.2)) (mMultiDisplay st) /\
    table_ok st' /\ mGuestMode st' = mGuestMode st0 /\
    StronglySorted Z.lt (announced o) /\
    forall k, k ∈ announced o <-> k ∈ keys (mMultiDisplay st0) \/ k ∈ keys (mMultiDisplay st).
Proof.
  intros [Hs Hk] Hlen Hi. set (view := fun kv : Z * MultiDisplayInfo => (kv.1, restored kv.2)).
  assert (loadCollection S (load_display C) (onSave S st ++ rest) = (map view (mMultiDisplay st), rest)) as Hl.
  { apply load_save; [done|]. intros [k i] r Hin. rewrite Forall_forall in Hi.
    apply load_display_save; [|by apply (Hi (k, i))].
    rewrite Forall_forall in Hk. unfold is_u32. enough (0 <= k < 2 ^ 31 - 1) by lia.
    apply Hk. apply list_elem_of_In, in_map_iff. exists (k, i). split; [done|]. by apply list_elem_of_In. }
  assert (keys (map view (mMultiDisplay st)) = keys (mMultiDisplay st)) as Hkeys
    by (unfold keys; by rewrite map_map).
  unfold onLoad. rewrite Hl.
  rewrite (emplace_all_sorted (map view (mMultiDisplay st)) []) by (unfold sorted; cbn [app]; by rewrite Hkeys).
  cbn [app]. set (m := map view (mMultiDisplay st)) in *.
  destruct (getCombinedDisplaySizeLocked K H m) as [w h].
  set (ids := id_set _). eexists _, _. split; [reflexivity|].
  split; [unfold m; simpl; rewrite map_map; apply map_ext; intros [k i]; simpl; unfold restored;
    by rewrite restored_saved|].
  split; [split; simpl; [unfold sorted|]; by rewrite Hkeys|]. split; [done|].
  match goal with |- StronglySorted _ (announced ?o) /\ _ => assert (announced o = ids) as -> end.
  { rewrite !announced_app.
    rewrite (announced_none (if _ && h_window H then show_windows false _ else _)), 
      (announced_none (if _ && h_window H then show_windows true _ else _)), 
      (announced_none (if negb (h_window H) && _ then _ else _)).
    - cbn [app]. assert (announced (flat_map (fun k => [UpdateUIPage k; FireEvent DisplayChanged k]) ids) = ids) as ->.
      { clear. generalize ids as l. intros l. induction l as [|k l IH]; [done|].
        change (announced ([UpdateUIPage k; FireEvent DisplayChanged k] ++
          flat_map (fun k => [UpdateUIPage k; FireEvent DisplayChanged k]) l) = k :: l).
        rewrite announced_app, IH. done. }
      destruct ids; simpl; by rewrite ?app_nil_r.
    - repeat case_match; repeat constructor.
    - case_match; [|constructor]. apply Forall_map, Forall_true. done.
    - case_match; [|constructor]. apply Forall_map, Forall_true. done. }
  split; [apply id_set_sorted|]. intros k. unfold ids. rewrite id_set_spec, elem_of_app, Hkeys. done.
Qed.
End snapshot.

(** ** The command line reads back *)

(** Numbers separated by commas. *)
Fixpoint join (ns : list Z) : bytes :=
  match ns with
  | [] => []
  | [n] => dec n
  | n :: ns' => dec n ++ COMMA :: join ns'
  end.

Lemma pieces_one cur p : COMMA ∉ p -> pieces cur p = [cur ++ p].
Proof.
  revert cur. induction p as [|c p IH]; intros cur Hp; simpl; [by rewrite app_nil_r|].
  apply not_elem_of_cons in Hp as [Hc Hp]. rewrite decide_False by done.
  by rewrite IH, <- app_assoc by done.
Qed.

Lemma pieces_cons cur p rest :
  COMMA ∉ p -> pieces cur (p ++ COMMA :: rest) = (cur ++ p) :: pieces [] rest.
Proof.
  revert cur. induction p as [|c p IH]; intros cur Hp; simpl.
  { by rewrite app_nil_r. }
  apply not_elem_of_cons in Hp as [Hc Hp]. rewrite decide_False by done.
  by rewrite IH, <- app_assoc by done.
Qed.

Lemma pieces_join ns :
  ns <> [] -> Forall (fun n => 0 <= n < 2 ^ 31) ns -> pieces [] (join ns) = map dec ns.
Proof.
  induction ns as [|n ns IH]; intros Hne HF; [done|]. apply Forall_cons in HF as [Hn HF].
  assert (COMMA ∉ dec n) as Hc by (apply dec_not_in; [lia|left; vm_compute; done]).
  destruct ns as [|n' ns].
  - apply (pieces_one [] (dec n) Hc).
  - change (join (n :: n' :: ns)) with (dec n ++ COMMA :: join (n' :: ns)).
    rewrite (pieces_cons [] (dec n) _ Hc), IH by done. done.
Qed.

Lemma stoi_dec n : 0 <= n < 2 ^ 31 -> stoi (dec n) = Some n.
Proof.
  intros Hn. unfold stoi. rewrite <- (app_nil_r (dec n)), strtol_dec by (done || lia).
  destruct (Z.leb_spec (- 2 ^ 31) n); [|lia]. destruct (Z.ltb_spec n (2 ^ 31)); [done|lia].
Qed.

Lemma to_params_dec ns : Forall (fun n => 0 <= n < 2 ^ 31) ns -> to_params (map dec ns) = Some ns.
Proof.
  induction 1 as [|n ns Hn _ IH]; simpl; [done|].
  by rewrite stoi_dec, IH, u32_id by (done || unfold is_u32; lia).
Qed.

(** A display of the command line. *)
Record display_args := { da_id : Z; da_w : Z; da_h : Z; da_dpi : Z; da_flag : Z }.

Definition numbers (d : display_args) : list Z := [da_id d; da_w d; da_h d; da_dpi d; da_flag d].

Section command_line.
Context (K : limits) (H : host) (C : constructors).

Definition args_ok (d : display_args) : Prop :=
  1 <= da_id d <= 3 /\ Forall (fun n => 0 <= n < 2 ^ 31) (numbers d) /\
  param_error K (da_id d) (da_w d) (da_h d) (da_dpi d) = None.

Definition args_entry (d : display_args) : Z * MultiDisplayInfo :=
  (da_id d, new_info C (-1) (-1) (da_w d) (da_h d) (da_dpi d) (da_flag d) true).

Lemma parse_loop_args ds acc :
  Forall args_ok ds ->
  parse_loop K C (flat_map numbers ds) acc =
    (foldl (fun m kv => emplace kv.1 kv.2 m) acc (map args_entry ds), []).
Proof.
  intros HF. revert acc. induction HF as [|d ds (Hid & Hn & Hp) _ IH]; intros acc; [done|].
  cbn [flat_map numbers app parse_loop]. destruct (Z.eqb_spec (da_id d) 0); [lia|].
  destruct (Z.ltb_spec 3 (da_id d)); [lia|]. cbn [orb].
  unfold multiDisplayParamValidate. rewrite Hp. cbn [negb]. apply IH.
Qed.

Lemma find_emplace_all {V} (l : list (Z * V)) k acc :
  find k (foldl (fun m kv => emplace kv.1 kv.2 m) acc l) =
    match find k acc with Some v => Some v | None => find k l end.
Proof.
  revert acc. induction l as [|[j v] l IH]; intros acc; simpl; [by destruct (find k acc)|].
  rewrite IH, find_emplace. destruct (find k acc); [done|]. by destruct (k =? j).
Qed.

(** A display [parseConfig] accepts. *)
Definition accepted (kv : Z * MultiDisplayInfo) : Prop :=
  1 <= kv.1 <= 3 /\ param_error K kv.1 (width kv.2) (height kv.2) (dpi kv.2) = None.

Lemma parse_loop_sound `{!ConstructorsOk C} params acc m o :
  parse_loop K C params acc = (m, o) -> Forall is_u32 params -> sorted acc -> Forall accepted acc ->
  sorted m /\ Forall accepted m.
Proof.
  remember (length params) as n eqn:En. revert params acc En.
  induction n as [n IH] using lt_wf_ind. intros params acc -> Hl Hp Hs HF.
  destruct params as [|id [|w [|h [|dp [|fl rest]]]]]; [by simplify_eq/=..|].
  cbn [parse_loop] in Hl. destruct ((id =? 0) || (3 <? id)) eqn:Eid; [by simplify_eq/=; repeat constructor|].
  unfold multiDisplayParamValidate in Hl.
  destruct (param_error K id w h dp) eqn:Ep; cbn [negb] in Hl; [by simplify_eq/=; repeat constructor|].
  apply orb_false_iff in Eid as [E0 E3]. apply Z.eqb_neq in E0. apply Z.ltb_ge in E3.
  pose proof (new_saved (-1) (-1) w h dp fl true) as Hnew. set (i := new_info C _ _ _ _ _ _ _) in *.
  injection Hnew as _ _ Hw Hh Hd _ _.
  do 5 (apply Forall_cons in Hp as [? Hp]).
  refine (IH (length rest) _ rest _ eq_refl Hl Hp _ _); [simpl; lia|by apply emplace_sorted|].
  unfold emplace. destruct (find id acc); [done|].
  assert (accepted (id, i)) as Hacc.
  { unfold accepted. cbn [fst snd]. rewrite Hw, Hh, Hd. unfold is_u32 in *. split; [lia|done]. }
  clear -HF Hacc. induction acc as [|[k v] acc IH]; simpl; [by apply Forall_singleton|].
  apply Forall_cons in HF as [Hv HF]. destruct (id <? k); [by apply Forall_cons_2; [|apply Forall_cons_2]|].
  destruct (id =? k); apply Forall_cons_2; auto.
Qed.

Lemma to_params_u32 ps vs : to_params ps = Some vs -> Forall is_u32 vs.
Proof.
  revert vs. induction ps as [|p ps IH]; intros vs E; simpl in E; [by simplify_eq|].
  destruct (stoi p); [|done]. destruct (to_params ps); [|done]. simplify_eq.
  constructor; [apply u32_range|by apply IH].
Qed.

Lemma parseConfig_sound `{!ConstructorsOk C} text m o :
  parseConfig K C text = Some (m, o) -> sorted m /\ Forall accepted m.
Proof.
  unfold parseConfig. destruct text as [s|]; [|by intros [= <- <-]; repeat constructor].
  destruct (to_params (pieces [] s)) as [ps|] eqn:E; [|done]. apply to_params_u32 in E.
  destruct (_ || _); [by intros [= <- <-]; repeat constructor|].
  intros [= Hl]. eapply parse_loop_sound; [exact Hl|done|constructor|constructor].
Qed.

(** Applying requests for displays 1 to 3. *)
Lemma apply_requests_table rs st st' o :
  limits_ok K -> host_ok H -> Forall (fun r => 1 <= r.1 <= 3) rs -> table_ok st ->
  apply_requests K H rs st = (st', o) ->
  table_ok st' /\ forall k, ~ 1 <= k <= 3 -> k ∈ keys (mMultiDisplay st') <-> k ∈ keys (mMultiDisplay st).
Proof.
  intros HK HH HF. revert st st' o.
  induction HF as [|[id [[[[[x y] w] h] dp] fl]] rs Hid _ IH]; intros st st' o Hok E;
    [by simplify_eq/=|]. simpl in E, Hid.
  destruct (setMultiDisplay K H id x y w h dp fl true st) as [[r st1] o1] eqn:E1.
  apply setMultiDisplay_table in E1 as [Hok1 Hoc]; [|done..|lia].
  destruct (apply_requests K H rs st1) as [st2 o2] eqn:E2. injection E as <- <-.
  apply IH in E2 as [Hok2 Hk]; [|done]. split; [done|]. intros k Hkn.
  rewrite Hk by done. apply Hoc. lia.
Qed.

(** the start-up configuration. A command line that lists valid
    displays is read back as exactly these (the first one of a repeated id);
    and whatever the command line and config.ini say, loading them either fails
    with the exception of an unreadable number or leaves a well-formed table in
    which no display other than 1, 2 and 3 came or went. *)
Theorem startup_config `{!ConstructorsOk C} :
  limits_ok K -> host_ok H ->
  (forall ds, ds <> [] -> Forall args_ok ds ->
     exists m, parseConfig K C (Some (join (flat_map numbers ds))) = Some (m, []) /\
       sorted m /\ forall k, find k m = find k (map args_entry ds)) /\
  (forall text hw st st' o, table_ok st -> loadConfig K H C text hw st = Some (st', o) ->
     table_ok st' /\
     forall k, ~ 1 <= k <= 3 -> k ∈ keys (mMultiDisplay st') <-> k ∈ keys (mMultiDisplay st)).
Proof.
  intros HK HH. split.
  - intros ds Hne HF.
    assert (Forall (fun n => 0 <= n < 2 ^ 31) (flat_map numbers ds)) as Hn.
    { clear Hne. induction HF as [|d ds (_ & Hd & _) _ IH]; [constructor|].
      cbn [flat_map]. by apply Forall_app. }
    assert (length (flat_map numbers ds) = length ds * 5)%nat as Hlen.
    { clear. induction ds as [|d ds IH]; [done|]. cbn [flat_map]. rewrite length_app, IH. simpl. lia. }
    assert (flat_map numbers ds <> []) as Hne' by (destruct ds; [done|by simpl]).
    unfold parseConfig. rewrite pieces_join, to_params_dec by done. rewrite Hlen.
    rewrite Nat.Div0.mod_mul. destruct (Nat.ltb_spec (length ds * 5) 5).
    { destruct ds; [done|simpl in *; lia]. }
    cbn [orb negb Nat.eqb]. rewrite parse_loop_args by done. eexists. split; [done|]. split.
    + assert (forall acc : list (Z * MultiDisplayInfo), sorted acc ->
        sorted (foldl (fun m kv => emplace kv.1 kv.2 m) acc (map args_entry ds))) as Hs.
      { clear. induction ds as [|d ds IH]; intros acc Ha; [done|]. apply IH. by apply emplace_sorted. }
      apply Hs. constructor.
    + intros k. by rewrite find_emplace_all.
  - intros text hw st st' o Hok. unfold loadConfig.
    destruct (negb (h_feature H)); [by intros [= <- <-]|].
    destruct (h_folded_area H); [by intros [= <- <-]|].
    destruct (mGuestMode st); [by intros [= <- <-]|].
    destruct (parseConfig K C text) as [[info o1]|] eqn:E; [|done].
    apply parseConfig_sound in E as [_ Hacc].
    destruct (apply_requests K H (config_requests info hw) st) as [st1 o2] eqn:E1.
    intros [= <- <-]. eapply apply_requests_table; [done..| |exact Hok|exact E1].
    unfold config_requests. destruct info as [|kv info].
    + assert (forall k, 1 <= k <= 3 -> Forall (fun r : request => 1 <= r.1 <= 3) (ini_request hw k)) as Hini.
      { intros k Hk. unfold ini_request. destruct (_ && _); repeat constructor; simpl; lia. }
      rewrite !Forall_app. split; [apply Hini; lia|]. split; apply Hini; lia.
    + apply Forall_map. eapply Forall_impl; [exact Hacc|]. by intros ? [? _].
Qed.
End command_line.
End MultiDisplayConfig.

(** ** Concrete runs *)
Import MultiDisplay MultiDisplayConfig.

Definition demo_constructors : constructors := {|
  new_info := fun x y w h dp fl e => {|
    pos_x := x; pos_y := y; width := w; height := h; originalWidth := w; originalHeight := h;
    dpi := dp; flag := fl; enabled := e; cb := 0; rotation := 0; colorTransform := [] |};
  restored_info := fun x y w h dp fl e c => {|
    pos_x := x; pos_y := y; width := w; height := h; originalWidth := w; originalHeight := h;
    dpi := dp; flag := fl; enabled := e; cb := c; rotation := 0; colorTransform := [] |} |}.

#[export] Instance demo_constructors_ok : ConstructorsOk demo_constructors.
Proof. by split. Qed.

(** The number of elements, then the elements. *)
Fixpoint load_elements {B} (get : bytes -> B * bytes) (n : nat) (s : bytes) : list B * bytes :=
  match n with
  | O => ([], s)
  | S n' => let '(x, s) := get s in let '(xs, s) := load_elements get n' s in (x :: xs, s)
  end.

Definition demo_serializer : serializer := {|
  saveCollection := fun A put xs => putBe32 (Z.of_nat (length xs)) ++ concat (map put xs);
  loadCollection := fun B get s =>
    let '(n, s) := getBe32 s in load_elements get (Z.to_nat n) s |}.

#[export] Instance demo_serializer_ok : SerializerOk demo_serializer.
Proof.
  intros A B put get view xs rest Hlen Hget. unfold demo_serializer. cbn [saveCollection loadCollection]. rewrite <- app_assoc, getBe32_put.
  rewrite u32_id by (unfold is_u32; lia). rewrite Nat2Z.id. clear Hlen.
  induction xs as [|x xs IH]; simpl; [done|]. rewrite <- app_assoc, Hget by set_solver.
  rewrite IH; [done|]. intros y r Hy. apply Hget. set_solver.
Qed.

Lemma snapshot_roundtrip_witness :
  exists st' o,
    onLoad demo_limits (demo_host true) demo_constructors demo_serializer
      (onSave demo_serializer demo_table ++ bstr "next") (with_map demo_table [(7, demo_info)]) =
      (st', o, bstr "next") /\
    map (fun kv => (kv.1, saved kv.2)) (mMultiDisplay st') = [(0, saved primary)] /\
    7 ∈ announced o.
Proof.
  destruct (snapshot_roundtrip demo_limits (demo_host true) demo_constructors demo_serializer
    demo_table (with_map demo_table [(7, demo_info)]) (bstr "next"))
    as (st' & o & Hl & Hm & _ & _ & _ & Hk).
  - apply demo_table_ok.
  - reflexivity.
  - repeat constructor; vm_compute; congruence.
  - exists st', o. split; [exact Hl|]. split; [exact Hm|]. apply Hk. left. simpl. by left.
Defined.

Lemma startup_config_witness :
  exists m, parseConfig demo_limits demo_constructors
      (Some (bstr "1,1080,1920,320,0,2,1280,720,160,1")) = Some (m, []) /\
    find 2 m = Some (new_info demo_constructors (-1) (-1) 1280 720 160 1 true).
Proof.
  destruct (startup_config demo_limits (demo_host true) demo_constructors demo_limits_ok
    (demo_host_ok true)) as [Hp _].
  destruct (Hp [{| da_id := 1; da_w := 1080; da_h := 1920; da_dpi := 320; da_flag := 0 |};
                {| da_id := 2; da_w := 1280; da_h := 720; da_dpi := 160; da_flag := 1 |}])
    as (m & Hm & _ & Hf).
  - discriminate.
  - repeat constructor; vm_compute; congruence.
  - exists m. split; [exact Hm|]. rewrite Hf. reflexivity.
Defined.

(** A word that is not a number ends the emulator: the exception is not caught. *)
Example unreadable_command_line :
  parseConfig demo_limits demo_constructors (Some (bstr "1,1080,1920,high,0")) = None.
Proof. reflexivity. Qed.
