(* ===== verification/ImageManifest.v ===== *)
(** [shell/core/image_importer.mm], the chunk manifest: the fields the importer
    asks of the parsed JSON, the checks on names, digests and chunk coverage, and
    [parse_manifest]. Foundation's JSON values are modelled by what the source asks
    of them: the class of an object, the UTF-8 text of a string and, of a number,
    [longLongValue] and whether [doubleValue] equals it. *)
From S2P Require Import Prelude Text Posix ShellOptions MachineManager.

Module ImageManifest.
Import ShellOptions.

(** ** Values *)

Record number := { longLongValue : Z; double_equal : bool }.

Inductive json :=
  | JString (utf8 : bytes)
  | JNumber (n : number)
  | JObject (fields : list (bytes * json))
  | JArray (elements : list json)
  | JNull.

Abbreviation dictionary := (list (bytes * json)).

(** [dictionary[key]]. *)
Fixpoint dict_get (d : dictionary) (key : bytes) : option json :=
  match d with
  | [] => None
  | (k, v) :: d' => if decide (k = key) then Some v else dict_get d' key
  end.

(** [bool f(..., T* value, std::string* error)]: the error text or the value. *)
Definition result (A : Type) : Type := bytes + A.

Definition bind {A B} (m : result A) (k : A -> result B) : result B :=
  match m with inl e => inl e | inr a => k a end.

Notation "'let*' x := m 'in' k" := (bind m (fun x => k))
  (at level 10, x name, m at level 100, k at level 200).

Definition require (b : bool) (message : bytes) : result unit :=
  if b then inr tt else inl message.

(** [json_string]: [ns_string_value] copies a C string, which ends at a NUL. *)
Definition json_string (d : dictionary) (key : string) (required : bool) : result bytes :=
  match dict_get d (bstr key) with
  | None => if required then inl (bstr "manifest field is not a string: " ++ bstr key) else inr []
  | Some (JString s) => inr (c_str s)
  | Some _ => inl (bstr "manifest field is not a string: " ++ bstr key)
  end.

Definition json_u64 (d : dictionary) (key : string) : result Z :=
  match dict_get d (bstr key) with
  | Some (JNumber n) =>
      if (longLongValue n <? 0) || negb (double_equal n) then
        inl (bstr "manifest field is not a non-negative integer: " ++ bstr key)
      else inr (longLongValue n)
  | _ => inl (bstr "manifest field is not an integer: " ++ bstr key)
  end.

(** ** Names and digests *)

Definition starts_with (value : bytes) (prefix : string) : bool :=
  bool_decide (firstn (length (bstr prefix)) value = bstr prefix).

Definition ends_with_case_insensitive (value : bytes) (suffix : string) : bool :=
  let n := length (bstr suffix) in
  if (length value <? n)%nat then false
  else bool_decide (map tolower (skipn (length value - n) value) = map tolower (bstr suffix)).

Definition isxdigit (b : Init.Byte.byte) : bool :=
  let v := byte.unsigned b in
  ((48 <=? v) && (v <=? 57)) || ((65 <=? v) && (v <=? 70)) || ((97 <=? v) && (v <=? 102)).

Definition CC_SHA256_DIGEST_LENGTH : nat := 32.

Definition is_sha256 (value : bytes) : bool :=
  (length value =? CC_SHA256_DIGEST_LENGTH * 2)%nat && forallb isxdigit value.

(** The pieces between slashes. *)
Fixpoint slash_pieces (cur s : bytes) : list bytes :=
  match s with
  | [] => [cur]
  | c :: s' => if decide (c = SLASH) then cur :: slash_pieces [] s' else slash_pieces (cur ++ [c]) s'
  end.

(** The components of a relative [fs::path]: adjacent slashes count as one, and a
    path that ends in a slash has an empty last component. *)
Fixpoint components_of (pieces : list bytes) : list bytes :=
  match pieces with
  | [] => []
  | [p] => [p]
  | p :: ps => match p with [] => components_of ps | _ => p :: components_of ps end
  end.

Definition path_components (value : bytes) : list bytes := components_of (slash_pieces [] value).

Definition DOT : bytes := bstr ".".
Definition DOTDOT : bytes := bstr "..".

Definition plain_component (c : bytes) : bool :=
  negb (bool_decide (c = [])) && negb (bool_decide (c = DOT)) && negb (bool_decide (c = DOTDOT)).

Definition safe_relative_path (value : bytes) (singleComponent : bool) : bool :=
  match value with
  | [] => false
  | c :: _ =>
      if bool_decide (c = SLASH) || (singleComponent && bool_decide (SLASH ∈ value)) then false
      else forallb plain_component (path_components value)
  end.

(** ** The manifest *)

Definition kManifestFormat : bytes := bstr "macmu-system-image".
Definition kManifestVersion : Z := 2.

Record ObjectSpec := {
  o_relativePath : bytes; o_size : Z; o_sha256 : bytes; o_source : bytes; o_localPath : bytes }.

Record ChunkSpec := {
  c_offset : Z; c_size : Z; c_sha256 : bytes; c_objectIndex : nat; c_entry : bytes }.

Record FileSpec := {
  f_relativePath : bytes; f_size : Z; f_sha256 : bytes; f_chunks : list ChunkSpec }.

Record ChunkManifest := {
  m_root : bytes; m_baseUrl : bytes; m_baseObjectIndex : nat;
  m_objects : list ObjectSpec; m_files : list FileSpec }.

(** [manifest->objects] with [objectIndexes]. *)
Record objects := { objs : list ObjectSpec; indexes : gmap bytes nat }.

Definition add_object (d : dictionary) (os : objects) : result (nat * objects) :=
  let* path := json_string d "object" true in
  let* size := json_u64 d "object_size" in
  let* sha := json_string d "object_sha256" true in
  let* ok := require (safe_relative_path path false && negb (size =? 0) && is_sha256 sha)
    (bstr "manifest contains an invalid object descriptor") in
  match indexes os !! sha with
  | Some i =>
      match objs os !! i with
      | Some previous =>
          let* ok := require (bool_decide (o_relativePath previous = path) && (o_size previous =? size))
            (bstr "manifest reuses an object hash with conflicting metadata") in
          inr (i, os)
      | None => inr (i, os)   (* not reached: the index is in range *)
      end
  | None =>
      let i := length (objs os) in
      inr (i, {| objs := objs os ++ [{| o_relativePath := path; o_size := size; o_sha256 := sha;
                                        o_source := []; o_localPath := [] |}];
                 indexes := <[sha := i]> (indexes os) |})
  end.

(** The loop over the chunks of a file; the subtraction and the sum are [uint64_t]. *)
Fixpoint parse_chunks (path : bytes) (chunkSize fileSize expectedOffset : Z) (values : list json)
    (os : objects) : result (list ChunkSpec * Z * objects) :=
  match values with
  | [] => inr ([], expectedOffset, os)
  | JObject d :: values' =>
      let* offset := json_u64 d "offset" in
      let* size := json_u64 d "size" in
      let* sha := json_string d "sha256" true in
      let* entry := json_string d "entry" true in
      let* p := add_object d os in
      let '(index, os) := p in
      let* ok := require
        ((offset =? expectedOffset) && negb (size =? 0) && (size <=? chunkSize) &&
         (size <=? u64 (fileSize - expectedOffset)) && is_sha256 sha &&
         bool_decide (entry = bstr "payload"))
        (bstr "manifest contains invalid chunk coverage for " ++ path) in
      let* p :=
        parse_chunks path chunkSize fileSize (u64 (expectedOffset + size)) values' os in
      let '(chunks, last, os) := p in
      inr ({| c_offset := offset; c_size := size; c_sha256 := sha; c_objectIndex := index;
              c_entry := entry |} :: chunks, last, os)
  | _ => inl (bstr "manifest chunk record is not an object")
  end.

Fixpoint parse_files (chunkSize : Z) (filePaths : gset bytes) (values : list json) (os : objects)
    : result (list FileSpec * objects) :=
  match values with
  | [] => inr ([], os)
  | JObject d :: values' =>
      let* path := json_string d "path" true in
      let* size := json_u64 d "size" in
      let* sha := json_string d "sha256" true in
      let* ok := require
        (safe_relative_path path false && negb (size =? 0) && is_sha256 sha &&
         negb (bool_decide (path ∈ filePaths)))
        (bstr "manifest contains an invalid or duplicate file record") in
      match dict_get d (bstr "chunks") with
      | Some (JArray ((_ :: _) as cs)) =>
          let* p := parse_chunks path chunkSize size 0 cs os in
          let '(chunks, last, os) := p in
          let* ok := require (last =? size)
            (bstr "manifest chunks do not cover the complete file: " ++ path) in
          let* p := parse_files chunkSize ({[path]} ∪ filePaths) values' os in
          let '(files, os) := p in
          inr ({| f_relativePath := path; f_size := size; f_sha256 := sha; f_chunks := chunks |}
               :: files, os)
      | _ => inl (bstr "manifest file has no chunks: " ++ path)
      end
  | _ => inl (bstr "manifest file record is not an object")
  end.

(** [parse_manifest] on the value [NSJSONSerialization] returned; [inl] is its
    error, or the text for a root that is no object. *)
Definition parse_manifest (root : result json) : result ChunkManifest :=
  let* root := root in
  match root with
  | JObject d =>
      let* format := json_string d "format" true in
      let* version := json_u64 d "version" in
      let* product := json_string d "product" true in
      let* device := json_string d "device" true in
      let* variant := json_string d "variant" true in
      let* api := json_u64 d "api" in
      let* chunkSize := json_u64 d "chunk_size" in
      let* root := json_string d "root" true in
      let* baseUrl := json_string d "base_url" false in
      let* ok := require
        (bool_decide (format = kManifestFormat) && (version =? kManifestVersion) &&
         bool_decide (product = bstr "macmu_sdk_phone64_arm64") && bool_decide (device = bstr "emu64a") &&
         bool_decide (variant = bstr "user") && (api =? 36) && negb (chunkSize =? 0))
        (bstr "unsupported MacMu image manifest identity, format, or version") in
      let* ok := require (safe_relative_path root true)
        (bstr "manifest root must be one safe directory name") in
      match dict_get d (bstr "base"), dict_get d (bstr "files") with
      | Some (JObject base), Some (JArray files) =>
          let* p := add_object base {| objs := []; indexes := ∅ |} in
          let '(baseIndex, os) := p in
          let* p := parse_files chunkSize ∅ files os in
          let '(files, os) := p in
          let* ok := require (negb (length files =? 0)%nat) (bstr "manifest has no chunked files") in
          inr {| m_root := root; m_baseUrl := baseUrl; m_baseObjectIndex := baseIndex;
                 m_objects := objs os; m_files := files |}
      | _, _ => inl (bstr "manifest base or files field has the wrong type")
      end
  | _ => inl (bstr "image manifest root is not an object")
  end.

(** ** What an accepted manifest guarantees *)

(** An object descriptor that passed its checks. *)
Definition object_ok (o : ObjectSpec) : Prop :=
  safe_relative_path (o_relativePath o) false = true /\ 0 < o_size o /\ is_sha256 (o_sha256 o) = true.

(** The chunks cover [from, from + sum of their sizes) without gap or overlap. *)
Inductive covers (n : nat) (chunkSize : Z) : Z -> list ChunkSpec -> Z -> Prop :=
  | covers_nil off : covers n chunkSize off [] off
  | covers_cons off c cs last :
      c_offset c = off -> 0 < c_size c <= chunkSize -> is_sha256 (c_sha256 c) = true ->
      c_entry c = bstr "payload" -> (c_objectIndex c < n)%nat ->
      covers n chunkSize (off + c_size c) cs last -> covers n chunkSize off (c :: cs) last.

Definition file_ok (n : nat) (chunkSize : Z) (f : FileSpec) : Prop :=
  safe_relative_path (f_relativePath f) false = true /\ 0 < f_size f < 2 ^ 63 /\
  is_sha256 (f_sha256 f) = true /\ f_chunks f <> [] /\ covers n chunkSize 0 (f_chunks f) (f_size f).

Record manifest_ok (m : ChunkManifest) : Prop := {
  ok_root : safe_relative_path (m_root m) true = true;
  ok_objects : Forall object_ok (m_objects m);
  ok_distinct : NoDup (map o_sha256 (m_objects m));
  ok_base : (m_baseObjectIndex m < length (m_objects m))%nat;
  ok_files_some : m_files m <> [];
  ok_paths : NoDup (map f_relativePath (m_files m));
  ok_files : exists chunkSize, Forall (file_ok (length (m_objects m)) chunkSize) (m_files m) }.

(** [longLongValue] returns a [long long]. *)
Fixpoint json_ok (j : json) : Prop :=
  match j with
  | JNumber n => - 2 ^ 63 <= longLongValue n < 2 ^ 63
  | JObject d => fold_right (fun kv acc => json_ok kv.2 /\ acc) True d
  | JArray l => fold_right (fun v acc => json_ok v /\ acc) True l
  | _ => True
  end.

Lemma dict_get_ok d key v : json_ok (JObject d) -> dict_get d key = Some v -> json_ok v.
Proof.
  simpl. induction d as [|[k w] d IH]; simpl; [done|]. intros [Hw Hd].
  case_decide; [by intros [= <-]|by apply IH].
Qed.

Lemma bind_inr {A B} (m : result A) (k : A -> result B) b :
  bind m k = inr b -> exists a, m = inr a /\ k a = inr b.
Proof. destruct m; [done|]. simpl. eauto. Qed.

Lemma require_inr b msg u : require b msg = inr u -> b = true.
Proof. by destruct b. Qed.

Lemma json_u64_range d key z :
  json_ok (JObject d) -> json_u64 d key = inr z -> 0 <= z < 2 ^ 63.
Proof.
  intros Hd. unfold json_u64. destruct (dict_get d (bstr key)) as [[]|] eqn:E; try done.
  apply (dict_get_ok _ _ _ Hd) in E. simpl in E.
  destruct (Z.ltb_spec (longLongValue n) 0); simpl; [done|]. destruct (double_equal n); simpl; [|done].
  intros [= <-]. lia.
Qed.

(** The object table: one entry per digest, found through its index. *)
Record objects_ok (os : objects) : Prop := {
  oo_each : Forall object_ok (objs os);
  oo_distinct : NoDup (map o_sha256 (objs os));
  oo_index : forall sha i, indexes os !! sha = Some i -> exists o, objs os !! i = Some o /\ o_sha256 o = sha;
  oo_all : forall o, o ∈ objs os -> is_Some (indexes os !! o_sha256 o) }.

(** Split the chain of steps of a parser that succeeded. *)
Ltac steps H :=
  repeat match type of H with
  | bind _ _ = inr _ => let a := fresh "a" in let E := fresh "E" in
      apply bind_inr in H as (a & E & H); cbv beta in H
  end.

Lemma add_object_ok d os i os' :
  json_ok (JObject d) -> objects_ok os -> add_object d os = inr (i, os') ->
  objects_ok os' /\ (i < length (objs os'))%nat /\ objs os `prefix_of` objs os'.
Proof.
  intros Hj Hok H. unfold add_object in H. steps H.
  apply require_inr in E2. apply andb_true_iff in E2 as [E2 Hsha]. apply andb_true_iff in E2 as [Hp Hs].
  pose proof (json_u64_range _ _ _ Hj E0) as Hr. apply negb_true_iff, Z.eqb_neq in Hs.
  destruct (indexes os !! a1) as [j|] eqn:Ei.
  - destruct (oo_index _ Hok _ _ Ei) as (o & Ho & _). rewrite Ho in H. steps H. simplify_eq.
    split; [done|]. split; [by eapply lookup_lt_Some|done].
  - injection H as <- <-. cbn [objs]. split; [|split; [rewrite length_app; simpl; lia|by apply prefix_app_r]].
    assert (a1 ∉ map o_sha256 (objs os)) as Hnew.
    { intros Hin. apply list_elem_of_In, in_map_iff in Hin as (o & <- & Ho).
      apply list_elem_of_In, (oo_all _ Hok) in Ho as [j Hj']. congruence. }
    split; cbn [objs indexes].
    + apply Forall_app. split; [apply (oo_each _ Hok)|]. apply Forall_singleton. split; [done|]. simpl. split; [lia|done].
    + rewrite map_app. apply NoDup_app. split; [apply (oo_distinct _ Hok)|]. simpl.
      split; [|apply NoDup_singleton]. intros x Hx ->%list_elem_of_singleton. done.
    + intros sha k. destruct (decide (sha = a1)) as [->|].
      * rewrite lookup_insert_eq. intros [= <-]. rewrite list_lookup_middle by done. by eexists.
      * rewrite lookup_insert_ne by done. intros (o & Ho & Hsh)%(oo_index _ Hok).
        exists o. split; [|done]. by apply lookup_app_l_Some.
    + intros o [Ho| ->%list_elem_of_singleton]%elem_of_app; cbn [o_sha256].
      * destruct (decide (o_sha256 o = a1)) as [->|]; [by rewrite lookup_insert_eq|].
        rewrite lookup_insert_ne by done. by apply (oo_all _ Hok).
      * by rewrite lookup_insert_eq.
Qed.

Lemma covers_mono n n' chunkSize off cs last :
  (n <= n')%nat -> covers n chunkSize off cs last -> covers n' chunkSize off cs last.
Proof. intros Hn. induction 1; econstructor; eauto; lia. Qed.

Lemma parse_chunks_ok path chunkSize fileSize off values os cs last os' :
  json_ok (JArray values) -> objects_ok os -> 0 <= off <= fileSize -> fileSize < 2 ^ 63 ->
  parse_chunks path chunkSize fileSize off values os = inr (cs, last, os') ->
  objects_ok os' /\ objs os `prefix_of` objs os' /\
  covers (length (objs os')) chunkSize off cs last /\ (cs = [] -> values = []).
Proof.
  revert off os cs last. induction values as [|v values IH]; intros off os cs last Hj Hok Hoff Hsz H.
  { simpl in H. simplify_eq. split; [done|]. split; [done|]. split; [constructor|done]. }
  destruct Hj as [Hv Hj]. destruct v as [| |d| |]; try done. cbn [parse_chunks] in H. steps H.
  destruct a3 as [index os1]. steps H. destruct a4 as [[cs1 last1] os2]. injection H as <- <- <-.
  apply require_inr in E4. repeat (apply andb_true_iff in E4 as [E4 ?]).
  apply (add_object_ok _ _ _ _ Hv Hok) in E3 as (Hok1 & Hidx & Hpre).
  pose proof (json_u64_range _ _ _ Hv E0) as Hr. bool_to_prop.
  rewrite u64_id in * by (unfold is_u64; lia).
  apply IH in E5 as (Hok2 & Hpre2 & Hcov & _); [|done..|lia|done].
  split; [done|]. split; [by etrans|]. split; [|done].
  apply prefix_length in Hpre2.
  constructor; cbn; [done|lia|done| |lia|done]. by apply bool_decide_eq_true in H.
Qed.

Lemma parse_files_ok chunkSize filePaths values os fs os' :
  json_ok (JArray values) -> objects_ok os ->
  parse_files chunkSize filePaths values os = inr (fs, os') ->
  objects_ok os' /\ objs os `prefix_of` objs os' /\
  Forall (file_ok (length (objs os')) chunkSize) fs /\
  NoDup (map f_relativePath fs) /\ (forall p, p ∈ map f_relativePath fs -> p ∉ filePaths).
Proof.
  revert filePaths os fs. induction values as [|v values IH]; intros paths os fs Hj Hok H.
  { simpl in H. simplify_eq. split; [done|]. split; [done|]. split; [done|]. split; [constructor|].
    intros p Hp. by apply elem_of_nil in Hp. }
  destruct Hj as [Hv Hj]. destruct v as [| |d| |]; try done. cbn [parse_files] in H. steps H.
  apply require_inr in E2. repeat (apply andb_true_iff in E2 as [E2 ?]). bool_to_prop.
  pose proof (json_u64_range _ _ _ Hv E0) as Hr.
  destruct (dict_get d (bstr "chunks")) as [[| | |[|c0 cs]|]|] eqn:Ec; try done.
  pose proof (dict_get_ok _ _ _ Hv Ec) as Hcs.
  steps H. destruct a3 as [[chunks last] os1]. steps H. destruct a4 as [files os2]. injection H as <- <-.
  apply require_inr, Z.eqb_eq in E4. subst last.
  apply (parse_chunks_ok _ _ _ _ _ _ _ _ _ Hcs Hok) in E3 as (Hok1 & Hp1 & Hcov & Hne); [|lia..].
  apply IH in E5 as (Hok2 & Hp2 & HF & Hnd & Hout); [|done..].
  split; [done|]. split; [by etrans|]. apply prefix_length in Hp2. split; [|split].
  - constructor; [|done]. split; [done|]. cbn. split; [lia|]. split; [done|].
    split; [by intros Hnil%Hne|]. by eapply covers_mono.
  - cbn. constructor; [|done]. intros Hin%Hout. set_solver.
  - cbn. intros p [->|Hin]%elem_of_cons; [by apply bool_decide_eq_false in H0|].
    apply Hout in Hin. set_solver.
Qed.

Lemma parse_manifest_sound root m :
  (forall j, root = inr j -> json_ok j) -> parse_manifest root = inr m -> manifest_ok m.
Proof.
  intros Hj H. unfold parse_manifest in H. apply bind_inr in H as (j & Ej & H).
  specialize (Hj j Ej). destruct j as [| |d| |]; try done. steps H.
  destruct (dict_get d (bstr "base")) as [[| |base| |]|] eqn:Eb; try done.
  destruct (dict_get d (bstr "files")) as [[| | |files|]|] eqn:Ef; try done.
  pose proof (dict_get_ok _ _ _ Hj Eb) as Hb. pose proof (dict_get_ok _ _ _ Hj Ef) as Hf.
  steps H. destruct a10 as [bi os]. steps H. destruct a10 as [fs os1]. steps H. injection H as <-.
  assert (objects_ok {| objs := []; indexes := ∅ |}) as Hnil.
  { split; cbn; [constructor|constructor|by intros ? ? Hx; rewrite lookup_empty in Hx|].
    intros o Ho. by apply elem_of_nil in Ho. }
  apply (add_object_ok _ _ _ _ Hb Hnil) in E10 as (Hok & Hi & _).
  apply (parse_files_ok _ _ _ _ _ _ Hf Hok) in E11 as (Hok1 & Hp%prefix_length & HF & Hnd & _).
  apply require_inr in E9. apply require_inr, negb_true_iff, Nat.eqb_neq in E12.
  split; cbn; [done|apply (oo_each _ Hok1)|apply (oo_distinct _ Hok1)|lia|by intros ->|done|].
  by eexists.
Qed.

(** C37: a manifest that is accepted is well formed. Its root is one plain
    directory name; every digest belongs to one object; the base and every chunk
    refer to objects that exist; file paths are distinct and relative; and the
    chunks of each file cover it from the first byte to the last without gap,
    overlap or wrap-around of the 64-bit sums. *)
Theorem parse_manifest_ok root m :
  (forall j, root = inr j -> json_ok j) -> parse_manifest root = inr m -> manifest_ok m.
Proof. apply parse_manifest_sound. Qed.

(** Following a relative path component by component, lexically. *)
Fixpoint walk (at_ : list bytes) (components : list bytes) : list bytes :=
  match components with
  | [] => at_
  | c :: cs =>
      if decide (c = [] \/ c = DOT) then walk at_ cs
      else if decide (c = DOTDOT) then walk (removelast at_) cs
      else walk (at_ ++ [c]) cs
  end.

(** A safe path leads below the directory it starts from. *)
Lemma safe_path_inside value single root :
  safe_relative_path value single = true ->
  walk root (path_components value) = root ++ path_components value.
Proof.
  unfold safe_relative_path. destruct value as [|c value]; [done|]. destruct (_ || _); [done|].
  generalize (path_components (c :: value)) as cs. intros cs. revert root.
  induction cs as [|p cs IH]; intros root H; simpl in *; [by rewrite app_nil_r|].
  apply andb_true_iff in H as [Hp H]. unfold plain_component in Hp. bool_to_prop.
  repeat match goal with E : bool_decide _ = false |- _ => apply bool_decide_eq_false in E end.
  rewrite decide_False, decide_False, IH, <- app_assoc by tauto. done.
Qed.
End ImageManifest.

(** ** A concrete manifest *)
Import ImageManifest.

Definition jstr (k v : string) : bytes * json := (bstr k, JString (bstr v)).
Definition jnum (k : string) (n : Z) : bytes * json :=
  (bstr k, JNumber {| longLongValue := n; double_equal := true |}).

Definition demo_sha (c : string) : string := String.concat "" (repeat c 64).

Definition demo_object (name c : string) (size : Z) : dictionary :=
  [jstr "object" name; jnum "object_size" size; jstr "object_sha256" (demo_sha c)].

Definition demo_chunk (off size : Z) (name c : string) : json :=
  JObject ([jnum "offset" off; jnum "size" size; jstr "sha256" (demo_sha "d"); jstr "entry" "payload"] ++
           demo_object name c 3).

(** Two chunks of one file share an object. *)
Definition demo_manifest : json := JObject
  [jstr "format" "macmu-system-image"; jnum "version" 2; jstr "product" "macmu_sdk_phone64_arm64";
   jstr "device" "emu64a"; jstr "variant" "user"; jnum "api" 36; jnum "chunk_size" 4; jstr "root" "img";
   (bstr "base", JObject (demo_object "objects/base.zip" "a" 9));
   (bstr "files", JArray [JObject
      [jstr "path" "system-qemu.img"; jnum "size" 10; jstr "sha256" (demo_sha "e");
       (bstr "chunks", JArray [demo_chunk 0 4 "objects/1.zip" "b"; demo_chunk 4 4 "objects/1.zip" "b";
                               demo_chunk 8 2 "objects/2.zip" "c"])]])].

Lemma parse_manifest_ok_witness :
  exists m, parse_manifest (inr demo_manifest) = inr m /\ manifest_ok m /\
    length (m_objects m) = 3%nat.
Proof.
  destruct (parse_manifest (inr demo_manifest)) as [e|m] eqn:E; [vm_compute in E; discriminate E|].
  exists m. split; [reflexivity|]. split.
  - apply (parse_manifest_ok (inr demo_manifest) m); [|exact E].
    intros j [= <-]. vm_compute. repeat split; congruence.
  - vm_compute in E. injection E as <-. reflexivity.
Defined.

(** A hole between two chunks is refused. *)
Example gap_refused :
  parse_chunks (bstr "f") 4 10 0 [demo_chunk 0 4 "o" "b"; demo_chunk 5 4 "o" "b"]
    {| objs := []; indexes := ∅ |} = inl (bstr "manifest contains invalid chunk coverage for f").
Proof. vm_compute. reflexivity. Qed.
