(* ===== verification/ImageObjects.v ===== *)
(** [shell/core/image_importer.mm], acquiring the objects of a manifest: digests,
    the download cache and the pool of worker threads of [materialize_objects] with
    its progress reports. The files are a map from paths to contents; what curl and
    the file system answer is an environment per object. The digest function
    (CommonCrypto) is a parameter. *)
From stdpp Require Import relations.
From S2P Require Import Prelude Text Posix ShellOptions MachineManager ImageManifest.

Module ImageObjects.
Import ImageManifest.

Abbreviation store := (gmap bytes bytes).

(** ** Digests *)

Definition hex_digit (v : Z) : Init.Byte.byte := byte.of_Z (if v <? 10 then 48 + v else 87 + v).
Definition hex (digest : bytes) : bytes :=
  flat_map (fun b => [hex_digit (byte.unsigned b / 16); hex_digit (byte.unsigned b mod 16)]) digest.

Inductive read_answer := ReadOk | OpenFails | ReadFails.

Record TaskResult := { launched : bool; status : Z; standardError : bytes }.

(** What the system answers while one object is handled: reading, creating the
    cache directory, removing, renaming, and two runs of curl with what each leaves
    in its output file. *)
Record io := {
  io_read : bytes -> read_answer;
  io_mkdir : bool;
  io_remove : bytes -> bool;
  io_rename : bool;
  io_curl : bool -> TaskResult * option bytes;   (* the run: [true] for the second one *)
  io_message : bytes }.

(** The end of an [fs::path] built with [/]. *)
Definition append_path (p q : bytes) : bytes :=
  match last p with
  | None => q
  | Some c => if decide (c = SLASH) then p ++ q else p ++ SLASH :: q
  end.

Section objects.
Context (sha256 : bytes -> bytes).

Definition file_size_matches (f : store) (path : bytes) (expected : Z) : bool :=
  match f !! path with Some c => Z.of_nat (length c) =? expected | None => false end.

(** The loop hashes the whole file block by block. *)
Definition sha256_file (env : io) (f : store) (path : bytes) : result bytes :=
  match io_read env path, f !! path with
  | OpenFails, _ | _, None => inl (bstr "failed to open for SHA-256: " ++ path)
  | ReadFails, _ => inl (bstr "failed while hashing: " ++ path)
  | ReadOk, Some c => inr (hex (sha256 c))
  end.

Definition verify_file (env : io) (f : store) (path : bytes) (size : Z) (sha : bytes) : result unit :=
  let* ok := require (file_size_matches f path size) (bstr "size mismatch for " ++ path) in
  let* actual := sha256_file env f path in
  require (bool_decide (actual = sha)) (bstr "SHA-256 mismatch for " ++ path).

(** ** The cache *)

Definition is_https (source : bytes) : bool := starts_with source "https://".

Definition cache_dir (options : ShellOptions.t) : bytes :=
  append_path (append_path (ShellOptions.appDataDir options) (bstr "cache")) (bstr "image-objects").

Definition cached_path (options : ShellOptions.t) (sha : bytes) : bytes :=
  append_path (cache_dir options) (sha ++ bstr ".zip").
Definition partial_path (options : ShellOptions.t) (sha : bytes) : bytes :=
  append_path (cache_dir options) (sha ++ bstr ".zip.partial").

(** [fs::remove(path, ec)]. *)
Definition remove_file (env : io) (path : bytes) (f : store) : store :=
  if io_remove env path then delete path f else f.

(** A run of curl that writes to [path]. *)
Definition download_url (env : io) (second : bool) (path : bytes) (f : store) : TaskResult * store :=
  let '(r, c) := io_curl env second in
  (r, match c with Some c => <[path := c]> f | None => delete path f end).

Definition succeeded (r : TaskResult) : bool := launched r && (status r =? 0).

Definition download_error (r : TaskResult) : bytes :=
  match standardError r with [] => bstr "failed to download image object" | e => e end.

(** The download into the partial file, with one restart when the server refuses
    to resume (curl's status 33). *)
Definition fetch_partial (env : io) (partial : bytes) (f : store) : result unit * store :=
  let resume := match f !! partial with Some c => negb (length c =? 0)%nat | None => false end in
  let '(r, f) := download_url env false partial f in
  if succeeded r then (inr tt, f)
  else if resume && launched r && (status r =? 33) then
    let f := remove_file env partial f in
    let '(r, f) := download_url env true partial f in
    if succeeded r then (inr tt, f) else (inl (download_error r), f)
  else (inl (download_error r), f).

Definition commit_partial (env : io) (cached partial : bytes) (size : Z) (sha : bytes) (f : store)
    : result bytes * store :=
  match verify_file env f partial size sha with
  | inl e => (inl e, remove_file env partial f)
  | inr _ =>
      match io_rename env, f !! partial with
      | true, Some c => (inr cached, <[cached := c]> (delete partial f))
      | _, _ =>
          match f !! cached, verify_file env f cached size sha with
          | Some _, inr _ => (inr cached, remove_file env partial f)
          | _, _ => (inl (bstr "failed to commit image object to cache: " ++ io_message env), f)
          end
      end
  end.

Definition materialize_object (env : io) (options : ShellOptions.t) (o : ObjectSpec) (f : store)
    : result bytes * store :=
  if negb (is_https (o_source o)) then
    (let* ok := verify_file env f (o_source o) (o_size o) (o_sha256 o) in inr (o_source o), f)
  else if negb (io_mkdir env) then
    (inl (bstr "failed to create image object cache: " ++ io_message env), f)
  else
    let cached := cached_path options (o_sha256 o) in
    let partial := partial_path options (o_sha256 o) in
    let download f :=
      match fetch_partial env partial f with
      | (inl e, f) => (inl e, f)
      | (inr _, f) => commit_partial env cached partial (o_size o) (o_sha256 o) f
      end in
    match f !! cached with
    | Some _ =>
        match verify_file env f cached (o_size o) (o_sha256 o) with
        | inr _ => (inr cached, f)
        | inl _ => download (remove_file env cached f)
        end
    | None => download f
    end.

(** ** The worker pool *)

(** Where a worker is in its loop: at the loop condition, in [materialize_object],
    about to store the path and flag, about to count, about to report or to raise
    an error, or returned. *)
Inductive worker :=
  | Looping | Materializing (i : nat) | Storing (i : nat) (path : bytes) | Counting (i : nat)
  | Reporting (e : bytes) | Raising | Exited.

#[export] Instance worker_eq_dec : EqDecision worker.
Proof. solve_decision. Defined.

Record pool := {
  files : store; next : nat; completed : nat; failed : bool; firstError : bytes;
  specs : list ObjectSpec; complete : list bool }.

Definition set_local (o : ObjectSpec) (path : bytes) : ObjectSpec := {|
  o_relativePath := o_relativePath o; o_size := o_size o; o_sha256 := o_sha256 o;
  o_source := o_source o; o_localPath := path |}.

Definition kDownloadWorkers : nat := 8.

Context (env : nat -> io) (options : ShellOptions.t).

(** One step of a worker; [None] when it has returned. *)
Definition worker_step (w : worker) (p : pool) : option (worker * pool) :=
  match w with
  | Looping =>
      if failed p then Some (Exited, p) else
      let i := next p in
      let p := {| files := files p; next := S i; completed := completed p; failed := failed p;
                  firstError := firstError p; specs := specs p; complete := complete p |} in
      Some (if (length (specs p) <=? i)%nat then Exited else Materializing i, p)
  | Materializing i =>
      match specs p !! i with
      | None => None
      | Some o =>
          let '(r, f) := materialize_object (env i) options o (files p) in
          let p := {| files := f; next := next p; completed := completed p; failed := failed p;
                      firstError := firstError p; specs := specs p; complete := complete p |} in
          Some (match r with inl e => Reporting e | inr path => Storing i path end, p)
      end
  | Storing i path =>
      match specs p !! i with
      | None => None
      | Some o =>
          Some (Counting i,
            {| files := files p; next := next p; completed := completed p; failed := failed p;
               firstError := firstError p; specs := <[i := set_local o path]> (specs p);
               complete := <[i := true]> (complete p) |})
      end
  | Counting i =>
      Some (Looping,
        {| files := files p; next := next p; completed := S (completed p); failed := failed p;
           firstError := firstError p; specs := specs p; complete := complete p |})
  | Reporting e =>
      Some (Raising,
        {| files := files p; next := next p; completed := completed p; failed := failed p;
           firstError := match firstError p with [] => e | e0 => e0 end;
           specs := specs p; complete := complete p |})
  | Raising =>
      Some (Exited,
        {| files := files p; next := next p; completed := completed p; failed := true;
           firstError := firstError p; specs := specs p; complete := complete p |})
  | Exited => None
  end.

Definition state : Type := list worker * pool.

(** A step of any worker. *)
Definition step (s s' : state) : Prop :=
  exists j w w' p', s.1 !! j = Some w /\ worker_step w s.2 = Some (w', p') /\
    s' = (<[j := w']> s.1, p').

Definition pool_init (objects : list ObjectSpec) (f : store) : pool := {|
  files := f; next := 0; completed := 0; failed := false; firstError := []; specs := objects;
  complete := repeat false (length objects) |}.

(** The threads [materialize_objects] starts, and its result after joining them. *)
Definition pool_start (objects : list ObjectSpec) (f : store) : state :=
  (repeat Looping (Nat.min kDownloadWorkers (length objects)), pool_init objects f).

(** The text of the error, which may be empty. *)
Definition error_text (e : bytes) : bytes :=
  match e with [] => bstr "failed to acquire image objects" | e => e end.

Definition pool_result (p : pool) : result (list ObjectSpec) :=
  if failed p then inl (error_text (firstError p)) else inr (specs p).

(** ** Progress *)

Definition regular_file_size_at_most (f : store) (path : bytes) (maximum : Z) : Z :=
  match f !! path with Some c => Z.min (Z.of_nat (length c)) maximum | None => 0 end.

Definition available_bytes (f : store) (o : ObjectSpec) : Z :=
  Z.max (regular_file_size_at_most f (cached_path options (o_sha256 o)) (o_size o))
        (regular_file_size_at_most f (partial_path options (o_sha256 o)) (o_size o)).

(** The loop over the objects; the files and flags are sampled one object at a time. *)
Fixpoint acquired_object_bytes (samples : list (ObjectSpec * bool * store)) (acquired : Z) : Z :=
  match samples with
  | [] => acquired
  | (o, done, f) :: rest =>
      acquired_object_bytes rest
        (if (done : bool) then u64 (acquired + o_size o)
         else if negb (is_https (o_source o)) then acquired
         else u64 (acquired + available_bytes f o))
  end.

(** The progress thread over what it samples in each round (bytes, items): the
    reports it makes. The first round always reports: its counters start at the
    maximal values. *)
Fixpoint progress_loop (monotonic lastBytes : Z) (lastItems : Z) (rounds : list (Z * Z))
    : list (Z * Z) :=
  match rounds with
  | [] => []
  | (current, items) :: rest =>
      let monotonic := Z.max monotonic current in
      if negb (monotonic =? lastBytes) || negb (items =? lastItems)
      then (monotonic, items) :: progress_loop monotonic monotonic items rest
      else progress_loop monotonic lastBytes lastItems rest
  end.

Definition progress_reports (rounds : list (Z * Z)) : list (Z * Z) :=
  progress_loop 0 (2 ^ 64 - 1) (2 ^ 64 - 1) rounds.

End objects.

(** ** One object *)

Section acquire.
Context (sha256 : bytes -> bytes) (env : nat -> io) (options : ShellOptions.t).

(** The file has the size and digest the manifest declares. *)
Definition verified (f : store) (path : bytes) (o : ObjectSpec) : Prop :=
  exists c, f !! path = Some c /\ Z.of_nat (length c) = o_size o /\ hex (sha256 c) = o_sha256 o.

Lemma verify_file_ok e f path o u :
  verify_file sha256 e f path (o_size o) (o_sha256 o) = inr u -> verified f path o.
Proof.
  unfold verify_file, file_size_matches, sha256_file. intros H.
  apply bind_inr in H as (x & H1 & H). apply require_inr in H1.
  destruct (f !! path) as [c|] eqn:Ec; [|done]. apply Z.eqb_eq in H1.
  destruct (io_read e path); cbn [bind] in H; [|done..].
  apply require_inr, bool_decide_eq_true in H. by exists c.
Qed.

(** [f'] differs from [f] at most in the two cache files of the object. *)
Definition only_cache (o : ObjectSpec) (f f' : store) : Prop :=
  forall q, q <> cached_path options (o_sha256 o) -> q <> partial_path options (o_sha256 o) ->
    f' !! q = f !! q.

Lemma only_cache_refl o f : only_cache o f f.
Proof. done. Qed.

Lemma only_cache_trans o f1 f2 f3 : only_cache o f1 f2 -> only_cache o f2 f3 -> only_cache o f1 f3.
Proof. intros H1 H2 q Hc Hp. by rewrite H2, H1. Qed.

Lemma remove_file_cache e o path f :
  path = cached_path options (o_sha256 o) \/ path = partial_path options (o_sha256 o) ->
  only_cache o f (remove_file e path f).
Proof.
  intros Hp q Hc Hq. unfold remove_file. destruct (io_remove e path); [|done].
  apply lookup_delete_ne. by destruct Hp as [->| ->].
Qed.

Lemma fetch_partial_cache e o f r f' :
  fetch_partial e (partial_path options (o_sha256 o)) f = (r, f') -> only_cache o f f'.
Proof.
  unfold fetch_partial, download_url.
  assert (forall c f, only_cache o f
    (match c : option bytes with
     | Some c => <[partial_path options (o_sha256 o) := c]> f
     | None => delete (partial_path options (o_sha256 o)) f
     end)) as Hw.
  { intros [c|] g q Hc Hp; [by apply lookup_insert_ne|by apply lookup_delete_ne]. }
  destruct (io_curl e false) as [r1 c1]. destruct (succeeded r1); [intros [= _ <-]; apply Hw|].
  destruct (_ && _ && _); [|intros [= _ <-]; apply Hw].
  destruct (io_curl e true) as [r2 c2]. destruct (succeeded r2); intros [= _ <-].
  all: eapply only_cache_trans; [apply Hw|]; eapply only_cache_trans;
    [apply remove_file_cache; by right|apply Hw].
Qed.

Lemma commit_partial_spec e o f r f' :
  commit_partial sha256 e (cached_path options (o_sha256 o)) (partial_path options (o_sha256 o))
    (o_size o) (o_sha256 o) f = (r, f') ->
  cached_path options (o_sha256 o) <> partial_path options (o_sha256 o) ->
  only_cache o f f' /\
  (forall path, r = inr path -> path = cached_path options (o_sha256 o) /\ verified f' path o).
Proof.
  set (c := cached_path _ _). set (p := partial_path _ _). unfold commit_partial. intros H Hne.
  assert (only_cache o f (remove_file e p f)) as Hrm by (apply remove_file_cache; by right).
  destruct (verify_file sha256 e f p (o_size o) (o_sha256 o)) as [err|u] eqn:Ev.
  { injection H as <- <-. split; [done|]. done. }
  apply verify_file_ok in Ev as (x & Ex & Hx). rewrite Ex in H.
  destruct (io_rename e).
  - injection H as <- <-. split.
    + intros q Hc Hp. by rewrite lookup_insert_ne, lookup_delete_ne.
    + intros path [= <-]. split; [done|]. exists x. by rewrite lookup_insert_eq.
  - destruct (f !! c) eqn:Ec; [|injection H as <- <-; split; [apply only_cache_refl|done]].
    destruct (verify_file sha256 e f c _ _) eqn:Ev2; injection H as <- <-; [split; [apply only_cache_refl|done]|].
    split; [done|]. intros path [= <-]. split; [done|]. apply verify_file_ok in Ev2 as (y & Ey & Hy).
    exists y. split; [|done]. unfold remove_file. destruct (io_remove e p); [|done].
    by rewrite lookup_delete_ne.
Qed.

(** The path an object is served from. *)
Definition local_path (o : ObjectSpec) : bytes :=
  if is_https (o_source o) then cached_path options (o_sha256 o) else o_source o.

Lemma append_path_inj p q1 q2 : append_path p q1 = append_path p q2 -> q1 = q2.
Proof.
  unfold append_path. destruct (last p); [|done]. case_decide; intros E%(inj (app p)); [done|].
  by injection E.
Qed.

Lemma cached_ne_partial sha sha' :
  length sha = length sha' -> cached_path options sha <> partial_path options sha'.
Proof.
  intros Hl H%append_path_inj. apply (f_equal length) in H. rewrite !length_app in H. simpl in H. lia.
Qed.

Lemma materialize_object_spec e o f r f' :
  materialize_object sha256 e options o f = (r, f') ->
  only_cache o f f' /\ (is_https (o_source o) = false -> f' = f) /\
  (forall path, r = inr path -> path = local_path o /\ verified f' path o).
Proof.
  unfold materialize_object, local_path. destruct (is_https (o_source o)) eqn:Eh; cbn [negb].
  2: { destruct (verify_file sha256 e f (o_source o) _ _) eqn:Ev; cbn [bind]; intros [= <- <-];
       (split; [apply only_cache_refl|]; split; [done|]); [done|].
       intros path [= <-]. split; [done|]. by eapply verify_file_ok. }
  destruct (io_mkdir e); cbn [negb]; [|intros [= <- <-]; by split; [apply only_cache_refl|]].
  set (c := cached_path _ _). set (p := partial_path _ _).
  assert (c <> p) as Hcp by by apply cached_ne_partial.
  assert (forall g r f', match fetch_partial e p g with
    | (inl x, f) => (inl x, f) | (inr _, f) => commit_partial sha256 e c p (o_size o) (o_sha256 o) f end
    = (r, f') -> only_cache o g f' /\ (forall path, r = inr path -> path = c /\ verified f' path o)) as Hd.
  { intros g r0 g' H. destruct (fetch_partial e p g) as [[x|u] g1] eqn:Ef; apply fetch_partial_cache in Ef.
    - by injection H as <- <-.
    - apply commit_partial_spec in H as [H1 H2]; [|done]. split; [by eapply only_cache_trans|done]. }
  destruct (f !! c) eqn:Ec.
  - destruct (verify_file sha256 e f c _ _) as [x|u] eqn:Ev.
    + intros [H1 H2]%Hd. split; [|done]. eapply only_cache_trans; [|exact H1].
      apply remove_file_cache. by left.
    + intros [= <- <-]. split; [apply only_cache_refl|]. split; [done|]. intros path [= <-].
      split; [done|]. by eapply verify_file_ok.
  - by intros [H1 H2]%Hd.
Qed.

(** ** The pool *)

Context (objects : list ObjectSpec).

(** The manifest's promises about the objects ([manifest_ok]), and no local source
    is one of the cache's own files. *)
Context (Hdistinct : NoDup (map o_sha256 objects))
        (Hsha : Forall (fun o => is_sha256 (o_sha256 o) = true) objects)
        (Hsource : forall o o', o ∈ objects -> o' ∈ objects -> is_https (o_source o) = false ->
           o_source o <> cached_path options (o_sha256 o') /\
           o_source o <> partial_path options (o_sha256 o')).

(** The object a worker is responsible for. *)
Definition holds (w : worker) : option nat :=
  match w with Materializing i | Storing i _ => Some i | _ => None end.

Definition failing (w : worker) : Prop :=
  match w with Reporting _ | Raising => True | _ => False end.

(** Only the local path of an object changes. *)
Definition same_object (o o' : ObjectSpec) : Prop := o' = set_local o (o_localPath o').

Record pool_inv (ws : list worker) (p : pool) : Prop := {
  inv_specs : Forall2 same_object objects (specs p);
  inv_flags : length (complete p) = length objects;
  inv_complete : forall i, complete p !! i = Some true ->
    (i < next p)%nat /\ exists o, specs p !! i = Some o /\ o_localPath o = local_path o /\
      verified (files p) (local_path o) o;
  inv_holds : forall j w i, ws !! j = Some w -> holds w = Some i ->
    (i < next p)%nat /\ complete p !! i = Some false;
  inv_unique : forall j j' w w' i, ws !! j = Some w -> ws !! j' = Some w' ->
    holds w = Some i -> holds w' = Some i -> j = j';
  inv_storing : forall j i path o, ws !! j = Some (Storing i path) -> specs p !! i = Some o ->
    path = local_path o /\ verified (files p) path o;
  inv_taken : forall i, (i < next p)%nat -> (i < length objects)%nat ->
    complete p !! i = Some true \/ (exists j w, ws !! j = Some w /\ holds w = Some i) \/
    (exists j w, ws !! j = Some w /\ failing w) \/ failed p = true;
  inv_exited : forall j, ws !! j = Some Exited -> failed p = true \/ (length objects <= next p)%nat }.

Lemma spec_of p i o :
  Forall2 same_object objects (specs p) -> specs p !! i = Some o ->
  exists o0 path, objects !! i = Some o0 /\ o = set_local o0 path.
Proof. intros HF Ho. destruct (Forall2_lookup_r _ _ _ _ _ HF Ho) as (o0 & H0 & Hs). eauto. Qed.

(** Handling one object leaves the files of the others alone. *)
Lemma verified_frame p i j oi oj f' :
  Forall2 same_object objects (specs p) -> specs p !! i = Some oi -> specs p !! j = Some oj -> i <> j ->
  only_cache oj (files p) f' -> verified (files p) (local_path oi) oi -> verified f' (local_path oi) oi.
Proof.
  intros HF Hi Hj Hij Ho (c & Hc & Hv). exists c. split; [|done]. rewrite <- Hc. clear Hc Hv c.
  destruct (spec_of _ _ _ HF Hi) as (o1 & p1 & H1 & ->). destruct (spec_of _ _ _ HF Hj) as (o2 & p2 & H2 & ->).
  assert (o_sha256 o1 <> o_sha256 o2) as Hne.
  { intros E. apply Hij. eapply (NoDup_lookup (map o_sha256 objects)); [done|..];
      rewrite list_lookup_fmap, ?H1, ?H2; simpl; [done|by rewrite E]. }
  assert (forall k o, objects !! k = Some o -> length (o_sha256 o) = 64%nat) as Hlen.
  { intros k o Hk. rewrite Forall_lookup in Hsha. pose proof (Hsha _ _ Hk) as E.
    unfold is_sha256 in E. apply andb_true_iff in E as [E _]. by apply Nat.eqb_eq in E. }
  apply list_elem_of_lookup_2 in H1 as Hin1. apply list_elem_of_lookup_2 in H2 as Hin2.
  unfold local_path in *. cbn [o_source o_sha256 set_local] in *.
  destruct (is_https (o_source o1)) eqn:Eh.
  - apply Ho; cbn [o_sha256 set_local].
    + intros E%append_path_inj. apply Hne. by apply (inj (fun x => x ++ bstr ".zip")) in E.
    + apply cached_ne_partial. by rewrite (Hlen _ _ H1), (Hlen _ _ H2).
  - destruct (Hsource _ _ Hin1 Hin2 Eh) as [Ha Hb]. by apply Ho.
Qed.

Lemma ws_update {A} (ws : list A) j w w' k v :
  ws !! j = Some w -> <[j := w']> ws !! k = Some v -> (k = j /\ v = w') \/ (k <> j /\ ws !! k = Some v).
Proof.
  intros Hj H. destruct (decide (k = j)) as [->|Hne].
  - rewrite list_lookup_insert_eq in H by by eapply lookup_lt_Some. left. by simplify_eq.
  - rewrite list_lookup_insert_ne in H by done. by right.
Qed.

Lemma inv_start f :
  pool_inv (pool_start objects f).1 (pool_start objects f).2.
Proof.
  assert (forall j w, repeat Looping (Nat.min kDownloadWorkers (length objects)) !! j = Some w -> w = Looping) as Hw.
  { intros j w H%list_elem_of_lookup_2. rewrite list_elem_of_In in H. by apply repeat_spec in H. }
  split; simpl.
  - apply Forall2_same_length_lookup_2; [done|]. intros i x y Hx Hy. simplify_eq. by destruct x.
  - apply repeat_length.
  - intros i H%list_elem_of_lookup_2. rewrite list_elem_of_In in H. by apply repeat_spec in H.
  - intros j w i Hj%Hw. by subst.
  - intros j j' w w' i Hj%Hw. by subst.
  - intros j i path o Hj%Hw. done.
  - intros i Hi. lia.
  - intros j Hj%Hw. done.
Qed.

(** Which worker an entry of the updated list is. *)
Ltac upd Hj H :=
  let E := fresh in apply (ws_update _ _ _ _ _ _ Hj) in H as [[-> E]|[? H]]; [try subst|].

(** A worker that holds nothing before and after, on unchanged data. *)
Lemma inv_idle_step ws p j w w' err cnt :
  pool_inv ws p -> ws !! j = Some w -> holds w = None -> holds w' = None ->
  (failing w -> failing w' \/ failed p = true) ->
  (w' = Exited -> failed p = true \/ (length objects <= next p)%nat) ->
  pool_inv (<[j := w']> ws)
    {| files := files p; next := next p; completed := cnt; failed := failed p; firstError := err;
       specs := specs p; complete := complete p |}.
Proof.
  intros I Hj Hh Hh' Hf Hx. split; cbn; [apply I..| | | | |].
  - intros k v i Hk Hi. upd Hj Hk; [congruence|]. by apply (inv_holds _ _ I k v).
  - intros k k' v v' i Hk Hk' Hi Hi'. upd Hj Hk; [congruence|]. upd Hj Hk'; [congruence|].
    by eapply (inv_unique _ _ I).
  - intros k i path o Hk Ho. upd Hj Hk; [done|]. by eapply (inv_storing _ _ I).
  - intros i Hi Hl. destruct (inv_taken _ _ I i Hi Hl) as [?|[(k & v & Hk & Hv)|[(k & v & Hk & Hv)|?]]]; auto.
    + right; left. exists k, v. rewrite list_lookup_insert_ne; [done|]. intros ->. congruence.
    + destruct (decide (k = j)) as [->|].
      * assert (v = w) as -> by congruence. destruct (Hf Hv) as [Hf'|]; [|auto].
        right; right; left. exists j, w'. by rewrite list_lookup_insert_eq by by eapply lookup_lt_Some.
      * right; right; left. exists k, v. by rewrite list_lookup_insert_ne.
  - intros k Hk. upd Hj Hk; [by apply Hx|]. by eapply (inv_exited _ _ I).
Qed.

Lemma inv_fetch_step ws p j :
  pool_inv ws p -> ws !! j = Some Looping -> (next p < length objects)%nat ->
  pool_inv (<[j := Materializing (next p)]> ws)
    {| files := files p; next := S (next p); completed := completed p; failed := failed p;
       firstError := firstError p; specs := specs p; complete := complete p |}.
Proof.
  intros I Hj Hn. pose proof (lookup_lt_Some _ _ _ Hj) as Hlen.
  assert (complete p !! next p = Some false) as Hc.
  { destruct (complete p !! next p) as [[|]|] eqn:E; [|done|].
    - apply (inv_complete _ _ I) in E as [? _]. lia.
    - apply lookup_ge_None in E. rewrite (inv_flags _ _ I) in E. lia. }
  split; cbn; [apply I|apply I| | | | | |].
  - intros i Hi. destruct (inv_complete _ _ I i Hi). split; [lia|done].
  - intros k v i Hk Hi. upd Hj Hk; [simpl in Hi; simplify_eq; split; [lia|done]|].
    destruct (inv_holds _ _ I k v i Hk Hi). split; [lia|done].
  - intros k k' v v' i Hk Hk' Hi Hi'. upd Hj Hk; upd Hj Hk'; simpl in *; simplify_eq; [done|..].
    + destruct (inv_holds _ _ I _ _ _ Hk' Hi'). lia.
    + destruct (inv_holds _ _ I _ _ _ Hk Hi). lia.
    + by eapply (inv_unique _ _ I).
  - intros k i path o Hk Ho. upd Hj Hk; [done|]. by eapply (inv_storing _ _ I).
  - intros i Hi Hl. destruct (decide (i = next p)) as [->|].
    { right; left. exists j, (Materializing (next p)). by rewrite list_lookup_insert_eq. }
    destruct (inv_taken _ _ I i) as [?|[(k & v & Hk & Hv)|[(k & v & Hk & Hv)|?]]]; [lia|done|auto|..|auto].
    + right; left. exists k, v. rewrite list_lookup_insert_ne; [done|]. intros ->. by simplify_eq.
    + right; right; left. exists k, v. rewrite list_lookup_insert_ne; [done|]. intros ->. by simplify_eq.
  - intros k Hk. upd Hj Hk; [done|]. destruct (inv_exited _ _ I k Hk); [by left|right; lia].
Qed.

Lemma inv_materialize_step ws p j i o r f' :
  pool_inv ws p -> ws !! j = Some (Materializing i) -> specs p !! i = Some o ->
  materialize_object sha256 (env i) options o (files p) = (r, f') ->
  pool_inv (<[j := match r with inl e => Reporting e | inr path => Storing i path end]> ws)
    {| files := f'; next := next p; completed := completed p; failed := failed p;
       firstError := firstError p; specs := specs p; complete := complete p |}.
Proof.
  intros I Hj Ho H. pose proof (lookup_lt_Some _ _ _ Hj) as Hlen.
  apply materialize_object_spec in H as (Hcache & _ & Hr).
  destruct (inv_holds _ _ I _ _ i Hj eq_refl) as [Hin Hic].
  assert (forall k oi, k <> i -> specs p !! k = Some oi -> verified (files p) (local_path oi) oi ->
    verified f' (local_path oi) oi) as Hframe.
  { intros k oi Hk Hoi Hv. eapply verified_frame; [apply I|exact Hoi|exact Ho|done..]. }
  split; cbn; [apply I|apply I| | | | | |].
  - intros k Hk. destruct (inv_complete _ _ I k Hk) as (Hn & oi & Hoi & Hl & Hv). split; [done|].
    exists oi. split; [done|]. split; [done|]. apply (Hframe k); [congruence|done..].
  - intros k v i' Hk Hi'. upd Hj Hk; [|by apply (inv_holds _ _ I k v)].
    destruct r; simpl in Hi'; [done|]. by simplify_eq.
  - intros k k' v v' i' Hk Hk' Hi Hi'.
    assert (forall k v, ws !! k = Some v -> k <> j -> holds v <> Some i) as Hno.
    { intros k0 v0 H0 Hne E. apply Hne. by eapply (inv_unique _ _ I). }
    upd Hj Hk; upd Hj Hk'; [done|..|by eapply (inv_unique _ _ I)].
    + destruct r; simpl in Hi; [done|]. simplify_eq. by apply Hno in Hk'.
    + destruct r; simpl in Hi'; [done|]. simplify_eq. by apply Hno in Hk.
  - intros k i' path oi Hk Hoi. apply (ws_update _ _ _ _ _ _ Hj) in Hk as [[-> Hk]|[Hne Hk]].
    + destruct r; [done|]. simplify_eq. by apply Hr.
    + destruct (inv_storing _ _ I k i' path oi Hk Hoi) as [-> Hv]. split; [done|].
      apply (Hframe i'); [|done..]. intros ->. apply Hne. by eapply (inv_unique _ _ I).
  - intros i' Hi' Hl. destruct (inv_taken _ _ I i' Hi' Hl) as [?|[(k & v & Hk & Hv)|[(k & v & Hk & Hv)|?]]]; auto.
    + destruct (decide (k = j)) as [->|].
      * rewrite Hj in Hk. simplify_eq/=. destruct r as [e|path].
        -- right; right; left. exists j, (Reporting e). by rewrite list_lookup_insert_eq.
        -- right; left. exists j, (Storing i' path). by rewrite list_lookup_insert_eq.
      * right; left. exists k, v. by rewrite list_lookup_insert_ne.
    + right; right; left. exists k, v. rewrite list_lookup_insert_ne; [done|]. intros ->. by simplify_eq.
  - intros k Hk. apply (ws_update _ _ _ _ _ _ Hj) in Hk as [[-> Hk]|[Hne Hk]]; [by destruct r|].
    by eapply (inv_exited _ _ I).
Qed.

Lemma inv_store_step ws p j i path o :
  pool_inv ws p -> ws !! j = Some (Storing i path) -> specs p !! i = Some o ->
  pool_inv (<[j := Counting i]> ws)
    {| files := files p; next := next p; completed := completed p; failed := failed p;
       firstError := firstError p; specs := <[i := set_local o path]> (specs p);
       complete := <[i := true]> (complete p) |}.
Proof.
  intros I Hj Ho. pose proof (lookup_lt_Some _ _ _ Hj) as Hlen.
  pose proof (lookup_lt_Some _ _ _ Ho) as Hlo.
  destruct (inv_holds _ _ I _ _ i Hj eq_refl) as [Hin Hic].
  destruct (inv_storing _ _ I _ _ _ _ Hj Ho) as [-> Hv].
  assert (forall k v, ws !! k = Some v -> k <> j -> holds v <> Some i) as Hno.
  { intros k v Hk Hne E. apply Hne. by eapply (inv_unique _ _ I). }
  split; cbn.
  - destruct (Forall2_lookup_r _ _ _ _ _ (inv_specs _ _ I) Ho) as (o0 & H0 & Hs).
    rewrite <- (list_insert_id objects i o0) by done. apply Forall2_insert; [apply I|].
    unfold same_object in *. by rewrite Hs.
  - rewrite length_insert. apply I.
  - intros k Hk. destruct (decide (k = i)) as [->|].
    + split; [done|]. exists (set_local o (local_path o)). rewrite list_lookup_insert_eq by done.
      by split.
    + rewrite list_lookup_insert_ne in Hk by done.
      destruct (inv_complete _ _ I k Hk) as (Hn & oi & Hoi & Hr). split; [done|]. exists oi.
      by rewrite list_lookup_insert_ne.
  - intros k v i' Hk Hi'. upd Hj Hk; [done|]. destruct (inv_holds _ _ I k v i' Hk Hi') as [Hn Hc].
    split; [done|]. rewrite list_lookup_insert_ne; [done|]. intros <-. by apply Hno in Hk.
  - intros k k' v v' i' Hk Hk' Hi Hi'. upd Hj Hk; [done|]. upd Hj Hk'; [done|]. by eapply (inv_unique _ _ I).
  - intros k i' path' o' Hk Ho'. upd Hj Hk; [done|]. assert (i' <> i) by (intros ->; by apply Hno in Hk).
    rewrite list_lookup_insert_ne in Ho' by done. by eapply (inv_storing _ _ I).
  - intros i' Hi' Hl. destruct (decide (i' = i)) as [->|].
    { left. rewrite list_lookup_insert_eq; [done|]. by eapply lookup_lt_Some. }
    rewrite list_lookup_insert_ne by done.
    destruct (inv_taken _ _ I i' Hi' Hl) as [?|[(k & v & Hk & Hv')|[(k & v & Hk & Hv')|?]]]; auto.
    + right; left. exists k, v. rewrite list_lookup_insert_ne; [done|]. intros ->. by simplify_eq/=.
    + right; right; left. exists k, v. rewrite list_lookup_insert_ne; [done|]. intros ->. by simplify_eq/=.
  - intros k Hk. upd Hj Hk; [done|]. by eapply (inv_exited _ _ I).
Qed.

Lemma pool_inv_step s s' : step sha256 env options s s' -> pool_inv s.1 s.2 -> pool_inv s'.1 s'.2.
Proof.
  intros (j & w & w' & p' & Hj & Hs & ->) I. destruct s as [ws p]. cbn [fst snd] in *.
  pose proof (lookup_lt_Some _ _ _ Hj) as Hlen.
  assert (length (specs p) = length objects) as Hl by (symmetry; apply (Forall2_length _ _ _ (inv_specs _ _ I))).
  destruct w; cbn [worker_step] in Hs.
  - destruct (failed p) eqn:Ef.
    { injection Hs as <- <-. destruct p. apply (inv_idle_step ws _ j Looping Exited _ _ I); auto; done. }
    injection Hs as <- <-. cbn [specs]. rewrite Hl. destruct (Nat.leb_spec (length objects) (next p)).
    + eapply (inv_idle_step ws _ j Looping Exited (firstError p) (completed p)) in I; [|done..|auto].
      destruct I as [I1 I2 I3 I4 I5 I6 I7 I8]. rewrite <- Ef. cbn in *. split; cbn; auto.
      * intros i Hi. destruct (I3 i Hi). split; [lia|done].
      * intros k v i Hk Hi. destruct (I4 k v i Hk Hi). split; [lia|done].
      * intros i Hi Hli. apply I7; lia.
    + rewrite <- Ef. by apply inv_fetch_step.
  - destruct (specs p !! i) as [o|] eqn:Eo; [|done].
    destruct (materialize_object sha256 (env i) options o (files p)) as [r f] eqn:Em.
    injection Hs as <- <-. by eapply inv_materialize_step.
  - destruct (specs p !! i) as [o|] eqn:Eo; [|done]. injection Hs as <- <-. by apply inv_store_step.
  - injection Hs as <- <-. eapply inv_idle_step; [done..|done|done].
  - injection Hs as <- <-. eapply inv_idle_step; [done..|by left|done].
  - injection Hs as <- <-.
    destruct I as [I1 I2 I3 I4 I5 I6 I7 I8]. split; cbn; auto.
    + intros k v i Hk Hi. upd Hj Hk; [done|]. by eapply I4.
    + intros k k' v v' i Hk Hk' Hi Hi'. upd Hj Hk; [done|]. upd Hj Hk'; [done|]. by eapply I5.
    + intros k i path o Hk Ho. upd Hj Hk; [done|]. by eapply I6.
  - done.
Qed.

(** ** Termination *)

(** How many steps a worker can still make without fetching another object. *)
Definition rank (w : worker) : nat :=
  match w with
  | Looping => 1 | Materializing _ => 4 | Storing _ _ => 3 | Counting _ => 2 | Reporting _ => 2
  | Raising => 1 | Exited => 0
  end.

(** The objects that were not fetched yet, and what the workers have left to do. *)
Definition fuel (s : state) : nat :=
  4 * (length objects - next s.2) + sum_list_with rank s.1.

Lemma sum_rank_insert ws j w w' :
  ws !! j = Some w -> (sum_list_with rank (<[j := w']> ws) + rank w = sum_list_with rank ws + rank w')%nat.
Proof.
  revert j. induction ws as [|v ws IH]; intros [|j] H; simpl in *; simplify_eq; [lia|].
  apply IH in H. lia.
Qed.

Lemma step_fuel s s' :
  Forall2 same_object objects (specs s.2) -> step sha256 env options s s' -> (fuel s' < fuel s)%nat.
Proof.
  intros HF (j & w & w' & p' & Hj & Hs & ->). apply Forall2_length in HF as Hl. symmetry in Hl.
  destruct s as [ws p]. unfold fuel. cbn [fst snd] in *. pose proof (sum_rank_insert ws j w w' Hj).
  destruct w; cbn [worker_step] in Hs.
  - destruct (failed p); [simplify_eq/=; lia|]. injection Hs as Hw <-. cbn [next specs] in *. rewrite Hl in Hw.
    destruct (Nat.leb_spec (length objects) (next p)); subst w'; simpl in *; lia.
  - destruct (specs p !! i) as [o|]; [|done].
    destruct (materialize_object sha256 (env i) options o (files p)) as [[e|path] f]; simplify_eq/=; lia.
  - destruct (specs p !! i); simplify_eq/=; lia.
  - simplify_eq/=. lia.
  - simplify_eq/=. lia.
  - simplify_eq/=. lia.
  - done.
Qed.

(** A worker that has not returned can go on. *)
Lemma worker_progress ws p j w :
  pool_inv ws p -> ws !! j = Some w -> w <> Exited -> exists s', step sha256 env options (ws, p) s'.
Proof.
  intros I Hj Hw. assert (is_Some (worker_step sha256 env options w p)) as [[w' p'] E].
  { assert (forall i, holds w = Some i -> is_Some (specs p !! i)) as Hspec.
    { intros i Hi. apply lookup_lt_is_Some_2. rewrite <- (Forall2_length _ _ _ (inv_specs _ _ I)).
      destruct (inv_holds _ _ I _ _ _ Hj Hi) as [_ Hc]. apply lookup_lt_Some in Hc.
      by rewrite (inv_flags _ _ I) in Hc. }
    destruct w; cbn [worker_step]; try done.
    - by destruct (failed p).
    - destruct (Hspec _ eq_refl) as [o ->]. by destruct (materialize_object _ _ _ _ _).
    - by destruct (Hspec _ eq_refl) as [o ->]. }
  eexists. exists j, w, w', p'. done.
Qed.

Lemma inv_run s s' : rtc (step sha256 env options) s s' -> pool_inv s.1 s.2 -> pool_inv s'.1 s'.2.
Proof. induction 1; [done|]. intros I. by apply IHrtc, (pool_inv_step x y). Qed.

(** When all workers have returned: the objects are there, or the pool failed. *)
Lemma pool_outcome f s :
  rtc (step sha256 env options) (pool_start objects f) s -> Forall (eq Exited) s.1 ->
  match pool_result s.2 with
  | inl _ => failed s.2 = true
  | inr result => Forall2 (fun o o' => o' = set_local o (local_path o) /\
                                       verified (files s.2) (o_localPath o') o') objects result
  end.
Proof.
  intros Hr Hex. pose proof (inv_run _ _ Hr (inv_start f)) as I. unfold pool_result. destruct (failed s.2) eqn:Ef; [done|].
  assert (s.1 = [] \/ exists j, s.1 !! j = Some Exited) as Hone.
  { destruct (s.1) as [|w ws] eqn:E; [by left|]. right. exists 0%nat. simpl.
    apply Forall_cons in Hex as [<- _]. done. }
  assert (length s.1 = Nat.min kDownloadWorkers (length objects)) as Hws.
  { clear -Hr. assert (length s.1 = length (pool_start objects f).1) as ->.
    { induction Hr as [|x y z (j & w & w' & p' & _ & _ & ->) _ IH]; [done|].
      rewrite IH. cbn. by rewrite length_insert. }
    cbn. by rewrite repeat_length. }
  apply Forall2_same_length_lookup. split; [apply (Forall2_length _ _ _ (inv_specs _ _ I))|].
  intros i o o' Ho Ho'. pose proof (lookup_lt_Some _ _ _ Ho) as Hi.
  assert (length objects <= next s.2)%nat as Hnext.
  { destruct Hone as [E|(j & Hj)].
    - rewrite E in Hws. cbn [length] in Hws. unfold kDownloadWorkers in Hws. lia.
    - destruct (inv_exited _ _ I j Hj); [congruence|done]. }
  rewrite Forall_lookup in Hex.
  destruct (inv_taken _ _ I i) as [Hc|[(j & w & Hj & Hh)|[(j & w & Hj & Hh)|?]]]; [lia|done|..|congruence].
  + destruct (inv_complete _ _ I i Hc) as (_ & o1 & Ho1 & Hl & Hv). simplify_eq.
    pose proof (Forall2_lookup_lr _ _ _ _ _ _ (inv_specs _ _ I) Ho Ho') as Hs.
    rewrite Hl. split; [|done]. rewrite Hs, Hl, Hs. unfold local_path. by destruct o.
  + by rewrite <- (Hex _ _ Hj) in Hh.
  + by rewrite <- (Hex _ _ Hj) in Hh.
Qed.

(** On the way to [s] a worker's [materialize_object] failed with the error [e]. *)
Definition occurred (f : store) (s : state) (e : bytes) : Prop := exists s0 s1 j i o,
  rtc (step sha256 env options) (pool_start objects f) s0 /\ step sha256 env options s0 s1 /\
  rtc (step sha256 env options) s1 s /\
  s0.1 !! j = Some (Materializing i) /\ specs s0.2 !! i = Some o /\
  (materialize_object sha256 (env i) options o (files s0.2)).1 = inl e /\ s1.1 !! j = Some (Reporting e).

Lemma occurred_step f s s' e : step sha256 env options s s' -> occurred f s e -> occurred f s' e.
Proof.
  intros Hs (s0 & s1 & j & i & o & H1 & H2 & H3 & H4). exists s0, s1, j, i, o.
  split; [done|]. split; [done|]. split; [|done]. by eapply rtc_r.
Qed.

(** Every error that is reported, or kept, is one that occurred. *)
Record errors_real (f : store) (s : state) : Prop := {
  er_reporting : forall j e, s.1 !! j = Some (Reporting e) -> occurred f s e;
  er_first : firstError s.2 <> [] -> occurred f s (firstError s.2);
  er_raised : (exists j, s.1 !! j = Some Raising) \/ failed s.2 = true -> occurred f s (firstError s.2) }.

(** A step that neither reports nor raises an error. *)
Lemma errors_other f s j w w' p' :
  errors_real f s -> step sha256 env options s (<[j := w']> s.1, p') -> s.1 !! j = Some w ->
  ~ failing w' -> firstError p' = firstError s.2 -> failed p' = failed s.2 ->
  errors_real f (<[j := w']> s.1, p').
Proof.
  intros [E1 E2 E3] Hs Hj Hn Hf Hd. split; cbn [fst snd].
  - intros k e Hk. upd Hj Hk; [by destruct Hn|]. eapply occurred_step; [done|by eapply E1].
  - rewrite Hf. intros Hne. eapply occurred_step; [done|by apply E2].
  - rewrite Hf, Hd. intros [[k Hk]|Hfa]; (eapply occurred_step; [done|]); apply E3; [|by right].
    upd Hj Hk; [by destruct Hn|]. left. by exists k.
Qed.

Lemma errors_step f s s' :
  rtc (step sha256 env options) (pool_start objects f) s ->
  step sha256 env options s s' -> errors_real f s -> errors_real f s'.
Proof.
  intros Hrun Hs E. pose proof Hs as (j & w & w' & p' & Hj & Hw & ->).
  pose proof (lookup_lt_Some _ _ _ Hj) as Hlen.
  destruct w; cbn [worker_step] in Hw.
  - destruct (failed s.2) eqn:Ef; injection Hw as <- <-; (eapply errors_other; [done..| | |]); cbn; auto.
    destruct (_ <=? _)%nat; cbn; tauto.
  - destruct (specs s.2 !! i) as [o|] eqn:Eo; [|done].
    destruct (materialize_object sha256 (env i) options o (files s.2)) as [[e|path] g] eqn:Em;
      injection Hw as <- <-; [|eapply errors_other; [done..|by intros []|done|done]].
    destruct E as [E1 E2 E3].
    split; cbn [fst snd failed firstError] in *.
    + intros k e' Hk. upd Hj Hk; [|eapply occurred_step; [done|by eapply E1]]. simplify_eq.
      exists s, (<[j := Reporting e]> s.1, {| files := g; next := next s.2; completed := completed s.2;
        failed := failed s.2; firstError := firstError s.2; specs := specs s.2; complete := complete s.2 |}), j, i, o.
      rewrite Em. cbn. rewrite list_lookup_insert_eq by done. by repeat split.
    + intros Hne. eapply occurred_step; [done|by apply E2].
    + intros [[k Hk]|Hfa]; (eapply occurred_step; [done|]); apply E3; [|by right].
      upd Hj Hk; [done|]. left. by exists k.
  - destruct (specs s.2 !! i) as [o|]; [|done]. injection Hw as <- <-.
    eapply errors_other; [done..|by intros []|done|done].
  - injection Hw as <- <-. eapply errors_other; [done..|by intros []|done|done].
  - injection Hw as <- <-. destruct E as [E1 E2 E3].
    assert (occurred f s (match firstError s.2 with [] => e | e0 => e0 end)) as Ho.
    { destruct (firstError s.2) eqn:Ee; [by eapply E1|]. by apply E2. }
    split; cbn [fst snd failed firstError] in *; [|intros _; by eapply occurred_step..].
    intros k e' Hk. upd Hj Hk; [done|]. eapply occurred_step; [done|by eapply E1].
  - injection Hw as <- <-. destruct E as [E1 E2 E3].
    split; cbn [fst snd failed firstError] in *.
    + intros k e' Hk. upd Hj Hk; [done|]. eapply occurred_step; [done|by eapply E1].
    + intros Hne. eapply occurred_step; [done|by apply E2].
    + intros _. eapply occurred_step; [done|]. apply E3. left. by exists j.
  - done.
Qed.

Lemma errors_run f s : rtc (step sha256 env options) (pool_start objects f) s -> errors_real f s.
Proof.
  revert s. apply rtc_ind_r; [|by eauto using errors_step].
  assert (forall j w, (pool_start objects f).1 !! j = Some w -> w = Looping) as Hw.
  { intros j w H%list_elem_of_lookup_2. rewrite list_elem_of_In in H. by apply repeat_spec in H. }
  split; cbn [pool_start snd pool_init firstError failed]; [by intros j e Hj%Hw|done|].
  by intros [[j Hj%Hw]|?].
Qed.

(** A failure is not forgotten. *)
Lemma failing_step s s' : step sha256 env options s s' ->
  Exists failing s.1 \/ failed s.2 = true -> Exists failing s'.1 \/ failed s'.2 = true.
Proof.
  intros (j & w & w' & p' & Hj & Hw & ->) [He|Hf]; cbn [fst snd].
  - apply Exists_exists in He as (v & Hin & Hv). apply list_elem_of_lookup in Hin as [k Hk].
    destruct (decide (k = j)) as [->|Hne].
    + simplify_eq. destruct w; try done; cbn in Hw; injection Hw as <- <-; [left|by right].
      apply Exists_exists. exists Raising. split; [|done]. apply list_elem_of_lookup. exists j.
      by rewrite list_lookup_insert_eq by by eapply lookup_lt_Some.
    + left. apply Exists_exists. exists v. split; [|done]. apply list_elem_of_lookup. exists k.
      by rewrite list_lookup_insert_ne.
  - right. destruct w; cbn [worker_step] in Hw; rewrite ?Hf in Hw; repeat case_match; by simplify_eq.
Qed.

Lemma occurred_failed f s e : occurred f s e -> Forall (eq Exited) s.1 -> failed s.2 = true.
Proof.
  intros (s0 & s1 & j & i & o & _ & _ & Hr & _ & _ & _ & Hj) Hex.
  assert (Exists failing s1.1 \/ failed s1.2 = true) as Hf.
  { left. apply Exists_exists. exists (Reporting e). split; [|done]. apply list_elem_of_lookup. by exists j. }
  clear Hj. induction Hr as [s|s1 s2 s3 Hs _ IH]; [|by eauto using failing_step].
  destruct Hf as [He|?]; [|done]. apply Exists_exists in He as (w & Hin & Hw).
  rewrite Forall_forall in Hex. by rewrite <- (Hex w Hin) in Hw.
Qed.

(** C10: the pool of download workers. However its threads interleave, it
    terminates: from every state it reaches, each step brings it closer to the end
    and some step is possible until all workers have returned. And when they have,
    either the acquisition of some object failed, and [materialize_objects] reports
    the error of one that did; or none failed, and then it succeeds and every object
    of the manifest has a local file whose size and SHA-256 digest are the declared
    ones, whatever curl and the file system did in between. *)
Theorem acquire_objects f s :
  rtc (step sha256 env options) (pool_start objects f) s ->
  (forall s', step sha256 env options s s' -> (fuel s' < fuel s)%nat) /\
  (Forall (eq Exited) s.1 \/ exists s', step sha256 env options s s') /\
  (Forall (eq Exited) s.1 ->
   match pool_result s.2 with
   | inl message => exists e, occurred f s e /\ message = error_text e
   | inr result => (forall e, ~ occurred f s e) /\
       Forall2 (fun o o' => o' = set_local o (local_path o) /\
                            verified (files s.2) (o_localPath o') o') objects result
   end).
Proof.
  intros Hr. pose proof (inv_run _ _ Hr (inv_start f)) as I. split; [|split].
  - intros s' Hs. apply step_fuel; [apply I|done].
  - destruct (decide (Exists (fun w => w <> Exited) s.1)) as [He|Hn].
    + right. apply Exists_exists in He as (w & Hin & Hw). apply list_elem_of_lookup in Hin as [j Hj].
      destruct s as [ws p]. by eapply worker_progress.
    + left. apply Forall_forall. intros w Hin. destruct (decide (w = Exited)); [done|].
      destruct Hn. apply Exists_exists. eauto.
  - intros Hex. pose proof (pool_outcome f s Hr Hex) as Ho. pose proof (errors_run f s Hr) as [_ _ E].
    unfold pool_result in *. destruct (failed s.2) eqn:Ef; [eauto|]. split; [|done].
    intros e He. apply occurred_failed in He; [congruence|done].
Qed.
End acquire.

(** ** Progress reports *)

Definition total_bytes (os : list ObjectSpec) : Z := foldr (fun o n => o_size o + n) 0 os.

(** What counts as acquired never exceeds the sum of the sizes. *)
Lemma acquired_bound options samples acquired :
  Forall (fun s => 0 <= o_size s.1.1) samples -> 0 <= acquired ->
  acquired + total_bytes (map (fun s => s.1.1) samples) < 2 ^ 64 ->
  acquired <= acquired_object_bytes options samples acquired <=
    acquired + total_bytes (map (fun s => s.1.1) samples).
Proof.
  revert acquired. induction samples as [|[[o d] f] rest IH]; intros acq HF Ha Hb; [simpl; lia|].
  apply Forall_cons in HF as [Ho HF]. cbn [map total_bytes foldr fst snd] in *.
  assert (0 <= total_bytes (map (fun s => s.1.1) rest)) as Hr.
  { clear -HF. induction HF; simpl; [lia|]. unfold total_bytes in *. lia. }
  fold (total_bytes (map (fun s : ObjectSpec * bool * store => s.1.1) rest)) in *.
  assert (0 <= available_bytes options f o <= o_size o) as Hav.
  { unfold available_bytes, regular_file_size_at_most.
    destruct (f !! cached_path _ _), (f !! partial_path _ _); lia. }
  cbn [acquired_object_bytes].
  set (acq' := if d then _ else _).
  assert (acq <= acq' <= acq + o_size o) as Hacq.
  { unfold acq'. destruct d; [rewrite u64_id by (unfold is_u64; lia); lia|].
    destruct (negb _); [lia|]. rewrite u64_id by (unfold is_u64; lia). lia. }
  specialize (IH acq' HF ltac:(lia) ltac:(lia)). lia.
Qed.

(** Reports never go back, stay within the total and differ from the one before. *)
Lemma progress_loop_sorted total monotonic lastBytes lastItems rounds :
  0 <= monotonic <= total -> Forall (fun r => r.1 <= total) rounds ->
  let reports := progress_loop monotonic lastBytes lastItems rounds in
  StronglySorted Z.le (map fst reports) /\ Forall (fun r => monotonic <= r.1 <= total) reports.
Proof.
  revert monotonic lastBytes lastItems. induction rounds as [|[b n] rest IH]; intros mono lb li Hm HF;
    [by repeat constructor|].
  apply Forall_cons in HF as [Hb HF]. cbn [progress_loop fst] in *.
  destruct (IH (Z.max mono b) (Z.max mono b) n ltac:(lia) HF) as [Hs Hall].
  destruct (_ || _).
  - split; [|constructor; [simpl; lia|eapply Forall_impl; [exact Hall|]; simpl; lia]].
    cbn [map fst]. constructor; [done|]. apply Forall_map. eapply Forall_impl; [exact Hall|]. simpl. lia.
  - destruct (IH (Z.max mono b) lb li ltac:(lia) HF) as [Hs' Hall']. split; [done|].
    eapply Forall_impl; [exact Hall'|]. simpl. lia.
Qed.
End ImageObjects.

(** ** A concrete acquisition *)
Import ImageManifest ImageObjects.

(** A digest function for the examples: the bytes padded to 32. *)
Definition demo_sha256 (c : bytes) : bytes := firstn 32 (c ++ repeat Byte.x00 32).

Definition demo_objects : list ObjectSpec :=
  [{| o_relativePath := bstr "a.zip"; o_size := 3; o_sha256 := hex (demo_sha256 (bstr "abc"));
      o_source := bstr "https://h/a.zip"; o_localPath := [] |};
   {| o_relativePath := bstr "b.zip"; o_size := 2; o_sha256 := hex (demo_sha256 (bstr "xy"));
      o_source := bstr "/m/b.zip"; o_localPath := [] |}].

Definition demo_io (i : nat) : io := {|
  io_read := fun _ => ReadOk; io_mkdir := true; io_remove := fun _ => true; io_rename := true;
  io_curl := fun _ => ({| launched := true; status := 0; standardError := [] |}, Some (bstr "abc"));
  io_message := [] |}.

Definition demo_store : store := {[ bstr "/m/b.zip" := bstr "xy" ]}.

(** Let worker [j] make a step. *)
Definition run_worker (j : nat) (s : state) : state :=
  match s.1 !! j with
  | Some w =>
      match worker_step demo_sha256 demo_io demo_machine_options w s.2 with
      | Some (w', p') => (<[j := w']> s.1, p')
      | None => s
      end
  | None => s
  end.

Lemma run_worker_step j s :
  rtc (step demo_sha256 demo_io demo_machine_options) s (run_worker j s).
Proof.
  unfold run_worker. destruct (s.1 !! j) as [w|] eqn:Ew; [|done].
  destruct (worker_step _ _ _ w s.2) as [[w' p']|] eqn:E; [|done].
  apply rtc_once. by exists j, w, w', p'.
Qed.

(** The two workers alternate until both have returned. *)
Definition demo_schedule : list nat := [0; 1; 0; 1; 1; 0; 1; 0; 1; 0]%nat.

Definition demo_final : state := foldl (fun s j => run_worker j s) (pool_start demo_objects demo_store) demo_schedule.

Lemma acquire_objects_witness :
  Forall (eq Exited) demo_final.1 /\ failed demo_final.2 = false /\
  match pool_result demo_final.2 with
  | inr result => Forall2 (fun o o' => o' = set_local o (local_path demo_machine_options o) /\
      verified demo_sha256 (files demo_final.2) (o_localPath o') o') demo_objects result
  | inl _ => False
  end.
Proof.
  assert (Forall (eq Exited) demo_final.1) as Hex by (vm_compute; repeat constructor).
  split; [exact Hex|]. split; [vm_compute; reflexivity|].
  destruct (acquire_objects demo_sha256 demo_io demo_machine_options demo_objects)
    with (f := demo_store) (s := demo_final) as (_ & _ & H).
  - apply (bool_decide_unpack _). vm_compute. exact I.
  - repeat constructor.
  - intros o o' [->|[->|Hx%elem_of_nil]%elem_of_cons]%elem_of_cons Ho'; [vm_compute; discriminate| |done].
    intros _. apply elem_of_cons in Ho' as [->|[->|Hx%elem_of_nil]%elem_of_cons]; [| |done];
      split; vm_compute; discriminate.
  - unfold demo_final. generalize (pool_start demo_objects demo_store) as s.
    induction demo_schedule as [|j js IH]; intros s; [done|]. cbn [foldl].
    etransitivity; [apply run_worker_step|apply IH].
  - specialize (H Hex). destruct (pool_result demo_final.2) eqn:E; [|exact (proj2 H)].
    vm_compute in E. discriminate E.
Defined.
