(* ===== verification/ImageImport.v ===== *)
(** [shell/core/image_importer.mm], from objects to an image: where the objects come
    from, the reconstruction of files from chunks, and the entry point
    [macmu_extract_system_image_source]. URLs are Foundation's and are represented by
    the answers the source asks for; ditto, unzip and curl are processes whose
    results and outputs come from the environment. *)
From stdpp Require Import relations.
From S2P Require Import Prelude Text Posix ShellOptions MachineManager ImageManifest ImageObjects.

Module ImageImport.
Import ImageManifest ImageObjects.

(** ** Where objects come from *)

(** An absolute [NSURL]. *)
Record url := { u_isFile : bool; u_path : bytes; u_scheme : bytes; u_text : bytes }.

Record url_library := {
  URLWithString : bytes -> option url;
  URLRelativeTo : bytes -> url -> option url;   (* URLWithString:relativeToURL: *)
  fileURLWithPath : bytes -> url;
  deletingLastPathComponent : url -> url }.

Definition set_source (o : ObjectSpec) (s : bytes) : ObjectSpec := {|
  o_relativePath := o_relativePath o; o_size := o_size o; o_sha256 := o_sha256 o;
  o_source := s; o_localPath := o_localPath o |}.

Section sources.
Context (L : url_library).

(** The loop over the objects. *)
Fixpoint resolve_each (remoteManifest : bool) (base : url) (os : list ObjectSpec)
    : result (list ObjectSpec) :=
  match os with
  | [] => inr []
  | o :: os' =>
      match URLRelativeTo L (o_relativePath o) base with
      | None => inl (bstr "failed to resolve image object: " ++ o_relativePath o)
      | Some u =>
          let* s :=
            if u_isFile u then
              if remoteManifest then
                inl (bstr "an HTTPS manifest cannot reference local image objects")
              else inr (u_path u)
            else if bool_decide (map ShellOptions.tolower (u_scheme u) = bstr "https") then inr (u_text u)
            else inl (bstr "image objects must use local files or HTTPS") in
          let* rest := resolve_each remoteManifest base os' in
          inr (set_source o s :: rest)
      end
  end.

(** [absolute] is [fs::absolute(manifestSource)], or the text of its error. *)
Definition resolve_object_sources (manifestSource : bytes) (absolute : result bytes)
    (m : ChunkManifest) : result (list ObjectSpec) :=
  let remoteManifest := starts_with manifestSource "https://" in
  let* manifestUrl :=
    if remoteManifest || starts_with manifestSource "file://" then
      match URLWithString L manifestSource with
      | Some u => inr u
      | None => inl (bstr "invalid manifest source: " ++ manifestSource)
      end
    else
      match absolute with
      | inl message => inl (bstr "failed to resolve manifest path: " ++ message)
      | inr p => inr (fileURLWithPath L p)
      end in
  let directoryUrl := deletingLastPathComponent L manifestUrl in
  let* baseUrl :=
    match m_baseUrl m with
    | [] => inr directoryUrl
    | b => match URLRelativeTo L b directoryUrl with
           | Some u => inr u
           | None => inl (bstr "manifest contains an invalid base_url")
           end
    end in
  resolve_each remoteManifest baseUrl (m_objects m).

End sources.

(** ** Reconstructing files *)

(** The file a safe relative path names: adjacent slashes do not matter. *)
Definition normal_path (relative : bytes) : bytes :=
  match path_components relative with
  | [] => []
  | c :: cs => c ++ flat_map (fun d => SLASH :: d) cs
  end.

(** Answers while one file is reconstructed. [re_unzip] is unzip of an entry of an
    archive (its contents): the result and what it wrote to the descriptor; by the
    number of the chunk, since a process can fail at any time. *)
Record reconstruct_io := {
  re_io : io;
  re_mkdir : bool; re_open : bool; re_close : bool; re_permissions : bool; re_rename : bool;
  re_unzip : nat -> bytes -> bytes -> TaskResult * bytes;
  re_seek : nat -> bool;
  re_message : bytes }.

(** [run_checked_task]'s error text. *)
Definition task_error (executable : string) (r : TaskResult) : bytes :=
  match standardError r with
  | [] => bstr executable ++ bstr " failed with status " ++ dec_signed (status r)
  | e => e
  end.

(** Completed bytes and chunks, as reported. *)
Definition counters : Type := Z * nat.

(** The contents of the archive a chunk is in. *)
Definition archive_of (objects : list ObjectSpec) (f : store) (chunk : ChunkSpec) : bytes :=
  match objects !! c_objectIndex chunk with
  | Some o => match f !! o_localPath o with Some a => a | None => [] end
  | None => []
  end.

Section reconstruct.
Context (sha256 : bytes -> bytes).

(** The loop over the chunks: what was written, the counters and their reports. *)
Fixpoint chunk_loop (e : reconstruct_io) (objects : list ObjectSpec) (f : store) (name : bytes)
    (k : nat) (chunks : list ChunkSpec) (out : bytes) (c : counters)
    : result unit * bytes * counters * list counters :=
  match chunks with
  | [] => (inr tt, out, c, [])
  | chunk :: chunks' =>
      let '(r, written) := re_unzip e k (archive_of objects f chunk) (c_entry chunk) in
      let out := out ++ written in
      if negb (succeeded r) then (inl (task_error "/usr/bin/unzip" r), out, c, []) else
      let expectedOffset := u64 (c_offset chunk + c_size chunk) in
      if negb (re_seek e k) || negb (Z.of_nat (length out) =? expectedOffset) then
        (inl (bstr "chunk size mismatch while reconstructing " ++ name), out, c, []) else
      let c := (u64 (c.1 + c_size chunk), S c.2) in
      let '(res, out, c', reports) := chunk_loop e objects f name (S k) chunks' out c in
      (res, out, c', c :: reports)
  end.

Definition reconstruct_file (e : reconstruct_io) (objects : list ObjectSpec) (imageRoot : bytes)
    (file : FileSpec) (c : counters) (f : store) : result unit * store * counters * list counters :=
  let destination := append_path imageRoot (normal_path (f_relativePath file)) in
  let partial := destination ++ bstr ".partial" in
  let fail err f c rep := (inl err, f, c, rep) in
  if negb (re_mkdir e) then fail (bstr "failed to create image directory: " ++ re_message e) f c [] else
  let f := remove_file (re_io e) partial f in
  if negb (re_open e) then
    fail (bstr "failed to create reconstructed image file: " ++ re_message e) f c [] else
  let '(res, out, c, reports) := chunk_loop e objects f (f_relativePath file) 0 (f_chunks file) [] c in
  let f := <[partial := out]> f in
  let discard f := remove_file (re_io e) partial f in
  match res with
  | inl err => fail err (discard f) c reports
  | inr _ =>
      if negb (re_close e) then
        fail (bstr "failed to close reconstructed image file: " ++ re_message e) (discard f) c reports
      else
      match verify_file sha256 (re_io e) f partial (f_size file) (f_sha256 file) with
      | inl err => fail err (discard f) c reports
      | inr _ =>
          if negb (re_permissions e) then
            fail (bstr "failed to set image file permissions: " ++ re_message e) (discard f) c reports
          else
          let f := remove_file (re_io e) destination f in
          if negb (re_rename e) then
            fail (bstr "failed to finish reconstructed image file: " ++ re_message e) (discard f) c reports
          else (inr tt, <[destination := out]> (delete partial f), c, reports)
      end
  end.

(** The loop over the files of the manifest. *)
Fixpoint reconstruct_files (e : nat -> reconstruct_io) (k : nat) (objects : list ObjectSpec)
    (imageRoot : bytes) (fs : list FileSpec) (c : counters) (f : store)
    : result unit * store * list counters :=
  match fs with
  | [] => (inr tt, f, [])
  | file :: fs' =>
      match reconstruct_file (e k) objects imageRoot file c f with
      | (inl err, f, _, rep) => (inl err, f, rep)
      | (inr _, f, c, rep) =>
          let '(r, f, rep') := reconstruct_files e (S k) objects imageRoot fs' c f in (r, f, rep ++ rep')
      end
  end.

(** ** The whole import *)

Record import_io := {
  im_read_manifest : bytes -> option (result json);   (* read and parse; [None] when it cannot be read *)
  im_absolute : bytes -> result bytes;
  im_ditto : bytes -> bytes -> store -> TaskResult * store;
  im_image_root : bytes -> bool;       (* is a directory and not a link *)
  im_is_directory : bytes -> bool;
  im_file_url : bytes -> option bytes; (* the path of a file URL *)
  im_mkdir : bool;
  im_curl_manifest : TaskResult * option bytes;
  im_files : nat -> reconstruct_io;
  im_message : bytes }.

Context (L : url_library) (I : import_io).
(** [materialize_objects], the worker pool. *)
Context (materialize_objects : list ObjectSpec -> store -> result (list ObjectSpec) * store).

Definition extract_base_object (m : ChunkManifest) (objects : list ObjectSpec) (destinationRoot : bytes)
    (f : store) : result unit * store :=
  let base := match objects !! m_baseObjectIndex m with Some o => o_localPath o | None => [] end in
  let '(r, f) := im_ditto I base destinationRoot f in
  if negb (succeeded r) then (inl (task_error "/usr/bin/ditto" r), f) else
  if negb (im_image_root I (append_path destinationRoot (m_root m))) then
    (inl (bstr "base image object did not create the declared root directory"), f)
  else (inr tt, f).

Definition extract_chunk_manifest (manifestPath manifestSource destinationRoot : bytes) (f : store)
    : result unit * store * list counters :=
  match im_read_manifest I manifestPath with
  | None => (inl (bstr "failed to read image manifest: " ++ manifestPath), f, [])
  | Some root =>
      match (let* m := parse_manifest root in
             let* os := resolve_object_sources L manifestSource (im_absolute I manifestSource) m in
             inr (m, os)) with
      | inl e => (inl e, f, [])
      | inr (m, os) =>
          match materialize_objects os f with
          | (inl e, f) => (inl e, f, [])
          | (inr os, f) =>
              match extract_base_object m os destinationRoot f with
              | (inl e, f) => (inl e, f, [(0, 0%nat)])
              | (inr _, f) =>
                  let '(r, f, rep) := reconstruct_files (im_files I) 0 os
                    (append_path destinationRoot (m_root m)) (m_files m) (0, 0%nat) f in
                  (r, f, (0, 0%nat) :: rep)
              end
          end
      end
  end.

Definition download_remote_manifest (path : bytes) (f : store) : result unit * store :=
  let '(r, c) := im_curl_manifest I in
  let f := match c with Some c => <[path := c]> f | None => f end in
  if succeeded r then (inr tt, f)
  else (inl (match standardError r with [] => bstr "failed to download image manifest" | e => e end), f).

Definition is_regular (f : store) (path : bytes) : bool := bool_decide (is_Some (f !! path)).

Definition macmu_extract_system_image_source (source destination_root : bytes) (f : store)
    : result unit * store * list counters :=
  match source with
  | [] => (inl (bstr "empty image source"), f, [])
  | _ =>
  if negb (im_mkdir I) then
    (inl (bstr "failed to create image extraction directory: " ++ im_message I), f, []) else
  if starts_with source "https://" then
    if ends_with_case_insensitive source ".zip" then
      (inl (bstr "remote complete ZIP imports are not supported; use a chunk manifest"), f, []) else
    let manifestPath := append_path destination_root (bstr ".macmu-image-manifest.json") in
    match download_remote_manifest manifestPath f with
    | (inl e, f) => (inl e, f, [])
    | (inr _, f) => extract_chunk_manifest manifestPath source destination_root f
    end
  else
    match (if starts_with source "file://" then im_file_url I source else Some source) with
    | None => (inl (bstr "invalid file URL: " ++ source), f, [])
    | Some localPath =>
        match im_absolute I localPath with
        | inl _ => (inl (bstr "image source does not exist: "), f, [])
        | inr localPath =>
            let directory := im_is_directory I localPath in
            let manifest := append_path localPath (bstr "manifest.json") in
            if directory && negb (is_regular f manifest) then
              (inl (bstr "image source directory does not contain manifest.json: " ++ localPath), f, [])
            else
            let localPath := if directory then manifest else localPath in
            if negb (is_regular f localPath) then
              (inl (bstr "image source does not exist: " ++ localPath), f, [])
            else if ends_with_case_insensitive localPath ".zip" then
              let '(r, f) := im_ditto I localPath destination_root f in
              (if succeeded r then inr tt else inl (task_error "/usr/bin/ditto" r), f, [])
            else extract_chunk_manifest localPath localPath destination_root f
        end
    end
  end.

End reconstruct.

(** ** What a successful import has put in place *)

(** What unzip prints for the chunks of a file, in order. *)
Fixpoint payloads (e : reconstruct_io) (objects : list ObjectSpec) (f : store) (k : nat)
    (chunks : list ChunkSpec) : list bytes :=
  match chunks with
  | [] => []
  | c :: cs => (re_unzip e k (archive_of objects f c) (c_entry c)).2 :: payloads e objects f (S k) cs
  end.

Definition chunk_sized (c : ChunkSpec) (part : bytes) : Prop := Z.of_nat (length part) = c_size c.

Lemma covers_le n chunkSize off cs last : covers n chunkSize off cs last -> off <= last.
Proof. induction 1; lia. Qed.

Lemma chunk_loop_spec e objects f name n chunkSize k chunks out c size out' c' rep :
  covers n chunkSize (Z.of_nat (length out)) chunks size -> size < 2 ^ 63 ->
  chunk_loop e objects f name k chunks out c = (inr tt, out', c', rep) ->
  out' = out ++ concat (payloads e objects f k chunks) /\
  Forall2 chunk_sized chunks (payloads e objects f k chunks).
Proof.
  revert k out c rep. induction chunks as [|ch chunks IH]; intros k out c rep Hcov Hsz H; simpl in H.
  { simplify_eq. by rewrite app_nil_r. }
  inversion Hcov as [|off ch' cs last Ho [Hpos Hmax] _ _ _ Hrest]; subst.
  pose proof (covers_le _ _ _ _ _ Hrest) as Hend. cbn [payloads concat].
  destruct (re_unzip e k (archive_of objects f ch) (c_entry ch)) as [r w]. cbn [snd].
  destruct (succeeded r); cbn [negb] in H; [|done].
  destruct (negb (re_seek e k) || _) eqn:Es; [done|]. bool_to_prop.
  rewrite u64_id in * by (unfold is_u64; lia). rewrite Ho in *.
  destruct (chunk_loop e objects f name (S k) chunks (out ++ w) _) as [[[res o2] c2] r2] eqn:El.
  injection H as -> -> -> <-. rewrite length_app, Nat2Z.inj_add in *.
  assert (Z.of_nat (length w) = c_size ch) as Hw by lia.
  apply IH in El as [-> HF]; [|rewrite length_app, Nat2Z.inj_add, Hw; done|done].
  rewrite <- app_assoc. split; [done|]. by constructor.
Qed.

(** The place of a file, and its temporary name. *)
Definition file_key (imageRoot : bytes) (file : FileSpec) : bytes :=
  append_path imageRoot (normal_path (f_relativePath file)).
Definition partial_key (imageRoot : bytes) (file : FileSpec) : bytes :=
  file_key imageRoot file ++ bstr ".partial".

Section import.
Context (sha256 : bytes -> bytes).

(** The file is there: assembled from what unzip printed for its chunks, each of
    its declared size, with the declared size and digest of the whole. *)
Definition reconstructed (e : reconstruct_io) (objects : list ObjectSpec) (imageRoot : bytes)
    (f : store) (file : FileSpec) : Prop :=
  exists content f0, f !! file_key imageRoot file = Some content /\
    content = concat (payloads e objects f0 0 (f_chunks file)) /\
    Forall2 chunk_sized (f_chunks file) (payloads e objects f0 0 (f_chunks file)) /\
    Z.of_nat (length content) = f_size file /\ hex (sha256 content) = f_sha256 file.

Lemma key_ne_partial imageRoot file : file_key imageRoot file <> partial_key imageRoot file.
Proof. unfold partial_key. intros E%(f_equal length). rewrite length_app in E. simpl in E. lia. Qed.

Lemma remove_file_ne (e : io) (path q : bytes) (f : store) : q <> path -> remove_file e path f !! q = f !! q.
Proof. intros H. unfold remove_file. destruct (io_remove e path); [by apply lookup_delete_ne|done]. Qed.

(** Whether it succeeds or not, a file touches only its two names. *)
Lemma reconstruct_file_frame e objects imageRoot file c f r f' c' rep q :
  reconstruct_file sha256 e objects imageRoot file c f = (r, f', c', rep) ->
  q <> file_key imageRoot file -> q <> partial_key imageRoot file -> f' !! q = f !! q.
Proof.
  unfold reconstruct_file. fold (file_key imageRoot file). fold (partial_key imageRoot file).
  intros H Hk Hp.
  destruct (negb (re_mkdir e)); [by simplify_eq|].
  destruct (negb (re_open e)); [simplify_eq; by apply remove_file_ne|].
  destruct (chunk_loop _ _ _ _ _ _ _ _) as [[[res out] c1] rep1].
  destruct res; [simplify_eq; by rewrite remove_file_ne, lookup_insert_ne, remove_file_ne by done|].
  destruct (negb (re_close e)); [simplify_eq; by rewrite remove_file_ne, lookup_insert_ne, remove_file_ne by done|].
  destruct (verify_file _ _ _ _ _ _); [simplify_eq; by rewrite remove_file_ne, lookup_insert_ne, remove_file_ne by done|].
  destruct (negb (re_permissions e)); [simplify_eq; by rewrite remove_file_ne, lookup_insert_ne, remove_file_ne by done|].
  destruct (negb (re_rename e)); simplify_eq.
  - by rewrite remove_file_ne, remove_file_ne, lookup_insert_ne, remove_file_ne by done.
  - by rewrite lookup_insert_ne, lookup_delete_ne, remove_file_ne, lookup_insert_ne, remove_file_ne by done.
Qed.

Lemma reconstruct_file_spec n chunkSize e objects imageRoot file c f u f' c' rep :
  file_ok n chunkSize file ->
  reconstruct_file sha256 e objects imageRoot file c f = (inr u, f', c', rep) ->
  reconstructed e objects imageRoot f' file.
Proof.
  intros (_ & Hsz & _ & _ & Hcov). unfold reconstruct_file.
  fold (file_key imageRoot file). fold (partial_key imageRoot file). intros H.
  destruct (negb (re_mkdir e)); [done|]. destruct (negb (re_open e)); [done|].
  set (f0 := remove_file (re_io e) (partial_key imageRoot file) f) in H.
  destruct (chunk_loop e objects f0 (f_relativePath file) 0 (f_chunks file) [] c)
    as [[[res out] c1] rep1] eqn:El.
  destruct res as [|[]]; [done|]. destruct (negb (re_close e)); [done|].
  destruct (verify_file sha256 (re_io e) _ _ _ _) eqn:Ev; [done|].
  destruct (negb (re_permissions e)); [done|]. destruct (negb (re_rename e)); [done|]. simplify_eq.
  apply (chunk_loop_spec _ _ _ _ n chunkSize _ _ _ _ (f_size file)) in El as [-> HF]; [|done|lia].
  apply (verify_file_ok sha256 (re_io e) _ _
    {| o_relativePath := []; o_size := f_size file; o_sha256 := f_sha256 file; o_source := [];
       o_localPath := [] |}) in Ev as (x & Ex & Hlen & Hh).
  rewrite lookup_insert_eq in Ex. injection Ex as <-.
  exists (concat (payloads e objects f0 0 (f_chunks file))), f0.
  rewrite lookup_insert_eq. done.
Qed.

(** No file has the place or the temporary name of another one. *)
Definition no_clash (imageRoot : bytes) (fs : list FileSpec) : Prop :=
  NoDup (map (file_key imageRoot) fs) /\
  forall a b, a ∈ fs -> b ∈ fs -> file_key imageRoot a <> partial_key imageRoot b.

Lemma reconstruct_files_frame e k objects imageRoot fs c f r f' rep q :
  reconstruct_files sha256 e k objects imageRoot fs c f = (r, f', rep) ->
  (forall b, b ∈ fs -> q <> file_key imageRoot b /\ q <> partial_key imageRoot b) -> f' !! q = f !! q.
Proof.
  revert k c f f' rep. induction fs as [|file fs IH]; intros k c f f' rep H Hq; simpl in H; [by simplify_eq|].
  destruct (Hq file) as [Hk Hp]; [set_solver|].
  destruct (reconstruct_file sha256 (e k) objects imageRoot file c f) as [[[[err|[]] f1] c1] rep1] eqn:E1.
  - simplify_eq. by eapply reconstruct_file_frame.
  - destruct (reconstruct_files sha256 e (S k) objects imageRoot fs c1 f1) as [[r2 f2] rep2] eqn:E2.
    simplify_eq. rewrite (IH _ _ _ _ _ E2) by set_solver. by eapply reconstruct_file_frame.
Qed.

Lemma reconstruct_files_spec n chunkSize e k objects imageRoot fs c f u f' rep :
  Forall (file_ok n chunkSize) fs -> no_clash imageRoot fs ->
  reconstruct_files sha256 e k objects imageRoot fs c f = (inr u, f', rep) ->
  forall i file, fs !! i = Some file -> reconstructed (e (k + i)%nat) objects imageRoot f' file.
Proof.
  revert k c f f' rep. induction fs as [|file0 fs IH]; intros k c f f' rep HF [Hnd Hcl] H i file Hi; [done|].
  simpl in H. apply Forall_cons in HF as [Hf0 HF].
  destruct (reconstruct_file sha256 (e k) objects imageRoot file0 c f) as [[[[err|[]] f1] c1] rep1] eqn:E1; [done|].
  destruct (reconstruct_files sha256 e (S k) objects imageRoot fs c1 f1) as [[r2 f2] rep2] eqn:E2. simplify_eq.
  cbn [map] in Hnd. apply NoDup_cons in Hnd as [Hnin Hnd].
  destruct i as [|i]; simpl in Hi.
  - simplify_eq. rewrite Nat.add_0_r.
    destruct (reconstruct_file_spec _ _ _ _ _ _ _ _ _ _ _ _ Hf0 E1) as (content & g & Hc & Hrest).
    exists content, g. split; [|done]. rewrite <- Hc. eapply reconstruct_files_frame; [exact E2|].
    intros b Hb. split; [|apply Hcl; set_solver].
    intros Heq. apply Hnin. rewrite Heq. apply list_elem_of_In, in_map, list_elem_of_In, Hb.
  - replace (k + S i)%nat with (S k + i)%nat by lia. eapply IH; [done| |exact E2|done].
    split; [done|]. intros a b Ha Hb. apply Hcl; set_solver.
Qed.
End import.

(** ** The import as a whole *)

Lemma resolve_each_spec L remote base os os' :
  resolve_each L remote base os = inr os' ->
  Forall2 (fun o o' => o' = set_source o (o_source o')) os os' /\
  (remote = true -> Forall (fun o' => exists u, u_isFile u = false /\ o_source o' = u_text u /\
      map ShellOptions.tolower (u_scheme u) = bstr "https") os').
Proof.
  revert os'. induction os as [|o os IH]; intros os' H; simpl in H.
  { simplify_eq. split; [constructor|]. intros _. constructor. }
  destruct (URLRelativeTo L (o_relativePath o) base) as [u|]; [|done].
  apply bind_inr in H as (s & Es & H). apply bind_inr in H as (rest & Er & H). injection H as <-.
  destruct (IH rest Er) as [HF Hr]. split; [by constructor|].
  intros ->. constructor; [|by apply Hr]. destruct (u_isFile u) eqn:Ef; [done|].
  case_bool_decide; [|done]. injection Es as <-. by exists u.
Qed.

(** An HTTPS manifest never reads a local file: every object is fetched from an
    HTTPS URL. *)
Lemma remote_objects_remote L source absolute m os :
  starts_with source "https://" = true -> resolve_object_sources L source absolute m = inr os ->
  Forall (fun o => exists u, u_isFile u = false /\ o_source o = u_text u /\
    map ShellOptions.tolower (u_scheme u) = bstr "https") os.
Proof.
  unfold resolve_object_sources. intros -> H. cbn [orb] in H.
  apply bind_inr in H as (mu & _ & H). apply bind_inr in H as (bu & _ & H).
  by apply resolve_each_spec in H as [_ H]; apply H.
Qed.

Lemma resolve_sources_same L source absolute m os :
  resolve_object_sources L source absolute m = inr os ->
  Forall2 (fun o o' => o' = set_source o (o_source o')) (m_objects m) os.
Proof.
  unfold resolve_object_sources. intros H. apply bind_inr in H as (mu & _ & H).
  apply bind_inr in H as (bu & _ & H). by apply resolve_each_spec in H as [H _].
Qed.

Section whole.
Context (sha256 : bytes -> bytes) (env : nat -> io) (options : ShellOptions.t).
Context (L : url_library) (I : import_io).
Context (materialize_objects : list ObjectSpec -> store -> result (list ObjectSpec) * store).

(** [materialize_objects] was a run of the worker pool. *)
Definition pool_run (os : list ObjectSpec) (f : store) : Prop :=
  exists s, rtc (step sha256 env options) (pool_start os f) s /\ Forall (eq Exited) s.1 /\
    materialize_objects os f = (pool_result s.2, files s.2).

(** No local source is a file of the cache. *)
Definition sources_apart (os : list ObjectSpec) : Prop :=
  forall o o', o ∈ os -> o' ∈ os -> is_https (o_source o) = false ->
    o_source o <> cached_path options (o_sha256 o') /\ o_source o <> partial_path options (o_sha256 o').

Lemma resolved_objects_ok os os' :
  Forall object_ok os -> NoDup (map o_sha256 os) ->
  Forall2 (fun o o' => o' = set_source o (o_source o')) os os' ->
  NoDup (map o_sha256 os') /\ Forall (fun o => is_sha256 (o_sha256 o) = true) os'.
Proof.
  intros Hok Hnd HF. assert (map o_sha256 os' = map o_sha256 os) as E.
  { clear -HF. induction HF as [|o o' os os' E _ IH]; simpl; [done|]. rewrite IH, E. done. }
  split; [by rewrite E|]. apply Forall_forall. intros o Ho.
  assert (o_sha256 o ∈ map o_sha256 os) as Hin.
  { rewrite <- E. apply list_elem_of_In, in_map, list_elem_of_In, Ho. }
  apply list_elem_of_In, in_map_iff in Hin as (o0 & <- & Hin). rewrite Forall_forall in Hok.
  by apply Hok, list_elem_of_In.
Qed.

(** C11: an import from a chunk manifest that reports success. The manifest
    was well formed; every object was acquired with its declared size and digest
    (when the pool ran and no local source lies in the cache); and every file of
    the manifest is in the image, assembled from what unzip printed for its chunks,
    with its declared size and digest, provided no file of the manifest has the
    place or the temporary name of another one. *)
Theorem import_reconstructs path source root f u f' rep :
  (forall p j, im_read_manifest I p = Some (inr j) -> json_ok j) ->
  extract_chunk_manifest sha256 L I materialize_objects path source root f = (inr u, f', rep) ->
  exists j m os acquired f1,
    im_read_manifest I path = Some j /\ parse_manifest j = inr m /\ manifest_ok m /\
    resolve_object_sources L source (im_absolute I source) m = inr os /\
    materialize_objects os f = (inr acquired, f1) /\
    (pool_run os f -> sources_apart os ->
     Forall (fun o => verified sha256 f1 (o_localPath o) o) acquired) /\
    (no_clash (append_path root (m_root m)) (m_files m) ->
     forall i file, m_files m !! i = Some file ->
       reconstructed sha256 (im_files I i) acquired (append_path root (m_root m)) f' file).
Proof.
  intros Hj. unfold extract_chunk_manifest.
  destruct (im_read_manifest I path) as [j|] eqn:Ej; [|done].
  destruct (bind (parse_manifest j) _) as [e|[m os]] eqn:E; [done|].
  apply bind_inr in E as (m0 & Em & E). apply bind_inr in E as (os0 & Eos & E). injection E as -> ->.
  assert (manifest_ok m) as Hm.
  { apply (parse_manifest_sound j m); [|done]. intros v ->. by apply (Hj path). }
  apply resolve_sources_same in Eos as Hsame.
  destruct (materialize_objects os f) as [[e|acq] f1] eqn:Emat; [done|].
  destruct (extract_base_object I m acq root f1) as [[e|u1] f2]; [done|].
  destruct (reconstruct_files sha256 (im_files I) 0 acq _ (m_files m) _ f2) as [[r f3] rep3] eqn:Er.
  intros [= -> -> <-]. exists j, m, os, acq, f1. do 5 (split; [done|]).
  destruct (ok_files _ Hm) as [chunkSize HF]. split.
  - intros (s & Hrun & Hex & Hmat) Hap. rewrite Emat in Hmat. injection Hmat as Hres ->.
    destruct (resolved_objects_ok _ _ (ok_objects _ Hm) (ok_distinct _ Hm) Hsame) as [Hnd Hsh].
    pose proof (pool_outcome sha256 env options os Hnd Hsh Hap f s Hrun Hex) as Ho.
    rewrite <- Hres in Ho. clear -Ho. induction Ho as [|o o' os acq [_ Hv] _ IH]; constructor; done.
  - intros Hcl i file Hi. exact (reconstruct_files_spec _ _ _ _ 0 _ _ _ _ _ _ _ _ HF Hcl Er i file Hi).
Qed.
End whole.

(** ** What the checks let through *)

(** Two names of one file: they are different in the set of names. *)
Example same_file_twice :
  normal_path (bstr "a//b") = normal_path (bstr "a/b") /\ bstr "a//b" <> bstr "a/b" /\
  safe_relative_path (bstr "a//b") false = true /\ safe_relative_path (bstr "a/b") false = true.
Proof. vm_compute. by repeat split. Qed.

(** An object URL whose scheme is in capitals passes the check for HTTPS and is
    then taken for a local path. *)
Example capital_scheme (L : url_library) (base u : url) (o : ObjectSpec) :
  URLRelativeTo L (o_relativePath o) base = Some u ->
  u_isFile u = false -> u_scheme u = bstr "HTTPS" -> u_text u = bstr "HTTPS://h/o.zip" ->
  exists o', resolve_each L true base [o] = inr [o'] /\ is_https (o_source o') = false.
Proof.
  intros Hu Hf Hs Ht. exists (set_source o (u_text u)). cbn [resolve_each].
  rewrite Hu, Hf, Hs, Ht. by vm_compute.
Qed.
End ImageImport.

(** ** A concrete import *)
Import ImageManifest ImageObjects ImageImport.

Definition demo_digest (s : string) : bytes * json :=
  (bstr "sha256", JString (hex (demo_sha256 (bstr s)))).

Definition demo_archive (name contents : string) : dictionary :=
  [jstr "object" name; jnum "object_size" (Z.of_nat (String.length contents));
   (bstr "object_sha256", JString (hex (demo_sha256 (bstr contents))))].

(** A file of one chunk. *)
Definition demo_file (path archive payload : string) : json :=
  let size := jnum "size" (Z.of_nat (String.length payload)) in
  JObject [jstr "path" path; size; demo_digest payload;
    (bstr "chunks", JArray [JObject ([jnum "offset" 0; size; demo_digest payload; jstr "entry" "payload"] ++
       demo_archive archive payload)])].

Definition demo_import_manifest (files : list json) : json := JObject
  [jstr "format" "macmu-system-image"; jnum "version" 2; jstr "product" "macmu_sdk_phone64_arm64";
   jstr "device" "emu64a"; jstr "variant" "user"; jnum "api" 36; jnum "chunk_size" 4; jstr "root" "img";
   (bstr "base", JObject (demo_archive "base" "base")); (bstr "files", JArray files)].

(** File URLs only; a relative reference is appended to the directory. *)
Definition demo_urls : url_library := {|
  URLWithString := fun _ => None;
  URLRelativeTo := fun rel base => Some {| u_isFile := true; u_path := append_path (u_path base) rel;
    u_scheme := bstr "file"; u_text := [] |};
  fileURLWithPath := fun p => {| u_isFile := true; u_path := p; u_scheme := bstr "file"; u_text := [] |};
  deletingLastPathComponent := fun u => {| u_isFile := true; u_path := bstr "/m/";
    u_scheme := bstr "file"; u_text := [] |} |}.

Definition task_ok : TaskResult := {| launched := true; status := 0; standardError := [] |}.

(** unzip prints the contents of the archive. *)
Definition demo_reconstruct (i : nat) : reconstruct_io := {|
  re_io := demo_io i; re_mkdir := true; re_open := true; re_close := true; re_permissions := true;
  re_rename := true; re_unzip := fun _ archive _ => (task_ok, archive); re_seek := fun _ => true;
  re_message := [] |}.

Definition demo_import (manifest : json) : import_io := {|
  im_read_manifest := fun _ => Some (inr manifest); im_absolute := fun p => inr p;
  im_ditto := fun _ _ f => (task_ok, f); im_image_root := fun _ => true; im_is_directory := fun _ => false;
  im_file_url := fun _ => None; im_mkdir := true; im_curl_manifest := (task_ok, None);
  im_files := demo_reconstruct; im_message := [] |}.

(** The workers in turn. *)
Definition demo_pool (os : list ObjectSpec) (f : store) : state :=
  foldl (fun s j => run_worker j s) (pool_start os f) (concat (repeat [0; 1; 2]%nat 6)).
Definition demo_materialize (os : list ObjectSpec) (f : store) : result (list ObjectSpec) * store :=
  (pool_result (demo_pool os f).2, files (demo_pool os f).2).

Definition demo_sources : store :=
  <[bstr "/m/base" := bstr "base"]> (<[bstr "/m/one" := bstr "abc"]> {[ bstr "/m/two" := bstr "xyz" ]}).

Definition run_import (manifest : json) : result unit * store * list counters :=
  extract_chunk_manifest demo_sha256 demo_urls (demo_import manifest) demo_materialize
    (bstr "/m/manifest.json") (bstr "/m/manifest.json") (bstr "/t") demo_sources.

(** A file whose name is the temporary name of a later one is lost, and the import
    succeeds. *)
Example partial_name_lost :
  let '(r, f, _) := run_import (demo_import_manifest [demo_file "a.partial" "one" "abc"; demo_file "a" "two" "xyz"]) in
  r = inr tt /\ f !! bstr "/t/img/a" = Some (bstr "xyz") /\ f !! bstr "/t/img/a.partial" = None.
Proof. vm_compute. by repeat split. Qed.

Definition demo_two_files : json :=
  demo_import_manifest [demo_file "a" "one" "abc"; demo_file "b/c" "two" "xyz"].

Abbreviation demo_result := (extract_chunk_manifest demo_sha256 demo_urls (demo_import demo_two_files)
  demo_materialize (bstr "/m/manifest.json") (bstr "/m/manifest.json") (bstr "/t") demo_sources).

Lemma demo_pool_runs os f :
  rtc (step demo_sha256 demo_io demo_machine_options) (pool_start os f) (demo_pool os f).
Proof.
  unfold demo_pool. generalize (concat (repeat [0; 1; 2]%nat 6)), (pool_start os f). intros js.
  induction js as [|j js IH]; intros s; [done|]. cbn [foldl].
  etransitivity; [apply run_worker_step|apply IH].
Qed.

Lemma demo_pool_run os f :
  Forall (eq Exited) (demo_pool os f).1 ->
  pool_run demo_sha256 demo_io demo_machine_options demo_materialize os f.
Proof.
  intros H. exists (demo_pool os f). split; [apply demo_pool_runs|]. split; [exact H|reflexivity].
Qed.

Lemma demo_materialized os f r g :
  demo_materialize os f = (r, g) -> pool_result (demo_pool os f).2 = r.
Proof. unfold demo_materialize. generalize (demo_pool os f). by intros s [= <- _]. Qed.

Definition demo_parsed : ChunkManifest := Eval vm_compute in
  match parse_manifest (inr demo_two_files) with
  | inr m => m
  | inl _ => {| m_root := []; m_baseUrl := []; m_baseObjectIndex := 0; m_objects := []; m_files := [] |}
  end.
Definition demo_resolved : list ObjectSpec := Eval vm_compute in
  match resolve_object_sources demo_urls (bstr "/m/manifest.json") (inr (bstr "/m/manifest.json")) demo_parsed with
  | inr os => os
  | inl _ => []
  end.

Lemma demo_parses : parse_manifest (inr demo_two_files) = inr demo_parsed.
Proof. vm_compute. reflexivity. Qed.

Lemma demo_resolves :
  resolve_object_sources demo_urls (bstr "/m/manifest.json")
    (im_absolute (demo_import demo_two_files) (bstr "/m/manifest.json")) demo_parsed = inr demo_resolved.
Proof. vm_compute. reflexivity. Qed.

Lemma demo_succeeds : demo_result.1.1 = inr tt.
Proof. vm_compute. reflexivity. Qed.

Lemma demo_exited : Forall (eq Exited) (demo_pool demo_resolved demo_sources).1.
Proof. vm_compute. repeat constructor. Qed.

Lemma demo_acquired :
  match pool_result (demo_pool demo_resolved demo_sources).2 with
  | inr acquired => map o_localPath acquired = [bstr "/m/base"; bstr "/m/one"; bstr "/m/two"]
  | inl _ => False
  end.
Proof. vm_compute. reflexivity. Qed.

Lemma demo_apart : sources_apart demo_machine_options demo_resolved.
Proof.
  intros o o' Ho Ho' _. revert o' Ho'. apply Forall_forall. revert o Ho. apply Forall_forall.
  repeat (constructor; [repeat (constructor; [split; vm_compute; discriminate|]); constructor|]). constructor.
Qed.

Lemma demo_no_clash : no_clash (append_path (bstr "/t") (m_root demo_parsed)) (m_files demo_parsed).
Proof.
  split; [apply (bool_decide_unpack _); vm_compute; exact Logic.I|].
  intros a b Ha Hb. revert b Hb. apply Forall_forall. revert a Ha. apply Forall_forall.
  repeat (constructor; [repeat (constructor; [vm_compute; discriminate|]); constructor|]). constructor.
Qed.

Lemma import_reconstructs_witness :
  exists acquired f1, demo_result.1.1 = inr tt /\
    map o_localPath acquired = [bstr "/m/base"; bstr "/m/one"; bstr "/m/two"] /\
    Forall (fun o => verified demo_sha256 f1 (o_localPath o) o) acquired /\
    forall i file, m_files demo_parsed !! i = Some file ->
      reconstructed demo_sha256 (demo_reconstruct i) acquired (append_path (bstr "/t") (m_root demo_parsed))
        demo_result.1.2 file.
Proof.
  destruct (import_reconstructs demo_sha256 demo_io demo_machine_options demo_urls
    (demo_import demo_two_files) demo_materialize (bstr "/m/manifest.json") (bstr "/m/manifest.json")
    (bstr "/t") demo_sources tt demo_result.1.2 demo_result.2)
    as (j & m & os & acq & f1 & Hj & Hm & _ & Hos & Hmat & Hv & Hr).
  { intros p j [= <-]. vm_compute. repeat split; congruence. }
  { generalize demo_succeeds. destruct demo_result as [[r g] l]. cbn [fst snd]. intros ->. reflexivity. }
  injection Hj as <-. rewrite demo_parses in Hm. injection Hm as <-.
  rewrite demo_resolves in Hos. injection Hos as <-.
  exists acq, f1. split; [exact demo_succeeds|]. split; [|split].
  - pose proof demo_acquired as Ha. rewrite (demo_materialized _ _ _ _ Hmat) in Ha. exact Ha.
  - exact (Hv (demo_pool_run _ _ demo_exited) demo_apart).
  - exact (Hr demo_no_clash).
Defined.
