(* ===== verification/ImageCancel.v ===== *)
(** [shell/core/image_importer.mm], [run_task] and [macmu_cancel_system_image_import]:
    the flag [gImportCancelled] and the set [gTaskPids] under its mutex, as
    interleavings of the threads that run tasks, the threads that cancel, and the
    processes of the machine, whose identifiers are used again. *)
From stdpp Require Import relations gmap sets.
From S2P Require Import Prelude.

Module ImageCancel.

Abbreviation pid := Z.

(** Where a call of [run_task] is: at its first test of the flag, before the launch,
    before the first locked section, in [waitUntilExit], before the second locked
    section, or returned. *)
Inductive task :=
  | Checking | Launching | Publishing (p : pid) | Waiting (p : pid) | Erasing (p : pid)
  | Returned (launched : bool).

(** A call of [macmu_cancel_system_image_import]: before the store, before the copy
    of the set, with identifiers left to signal, or returned. *)
Inductive canceller := Storing | Copying | Killing (ps : list pid) | Finished.

(** The processes by identifier: the task a process was launched for, or [None] for
    a process of another program. [signalled] and [strays] record who got SIGTERM. *)
Record state := {
  gImportCancelled : bool; gTaskPids : gset pid;
  processes : gmap pid (option nat);
  signalled : gset nat; strays : gset pid;
  tasks : list task; cancellers : list canceller }.

(** [kill(p, SIGTERM)]. *)
Definition kill (p : pid) (s : state) : state :=
  match processes s !! p with
  | None => s
  | Some owner => {|
      gImportCancelled := gImportCancelled s; gTaskPids := gTaskPids s; processes := processes s;
      signalled := match owner with Some i => {[i]} ∪ signalled s | None => signalled s end;
      strays := match owner with Some _ => strays s | None => {[p]} ∪ strays s end;
      tasks := tasks s; cancellers := cancellers s |}
  end.

Definition set_task (i : nat) (t : task) (s : state) : state := {|
  gImportCancelled := gImportCancelled s; gTaskPids := gTaskPids s; processes := processes s;
  signalled := signalled s; strays := strays s; tasks := <[i := t]> (tasks s);
  cancellers := cancellers s |}.

Definition set_canceller (k : nat) (c : canceller) (s : state) : state := {|
  gImportCancelled := gImportCancelled s; gTaskPids := gTaskPids s; processes := processes s;
  signalled := signalled s; strays := strays s; tasks := tasks s;
  cancellers := <[k := c]> (cancellers s) |}.

Definition set_flag (b : bool) (s : state) : state := {|
  gImportCancelled := b; gTaskPids := gTaskPids s; processes := processes s;
  signalled := signalled s; strays := strays s; tasks := tasks s; cancellers := cancellers s |}.

Definition set_pids (ps : gset pid) (s : state) : state := {|
  gImportCancelled := gImportCancelled s; gTaskPids := ps; processes := processes s;
  signalled := signalled s; strays := strays s; tasks := tasks s; cancellers := cancellers s |}.

Definition set_processes (m : gmap pid (option nat)) (s : state) : state := {|
  gImportCancelled := gImportCancelled s; gTaskPids := gTaskPids s; processes := m;
  signalled := signalled s; strays := strays s; tasks := tasks s; cancellers := cancellers s |}.

(** What happens next: a step of a task, where the launch succeeds with a process
    identifier or fails; a step of a canceller; a process that ends or a program
    that starts; or the start of an import. *)
Inductive event :=
  | Task (i : nat) (outcome : option pid) | Cancel (k : nat)
  | Exit (p : pid) | Start (p : pid) | Import.

Definition task_step (i : nat) (outcome : option pid) (s : state) : option state :=
  t ← tasks s !! i;
  match t with
  | Checking => Some (set_task i (if gImportCancelled s then Returned false else Launching) s)
  | Launching =>
      match outcome with
      | None => Some (set_task i (Returned false) s)
      | Some p =>
          if (0 <? p) && bool_decide (processes s !! p = None)
          then Some (set_task i (Publishing p) (set_processes (<[p := Some i]> (processes s)) s))
          else None
      end
  | Publishing p =>
      Some (set_task i (Waiting p)
        (if gImportCancelled s then kill p s else set_pids ({[p]} ∪ gTaskPids s) s))
  | Waiting p =>
      if bool_decide (processes s !! p = Some (Some i)) then None
      else Some (set_task i (Erasing p) s)
  | Erasing p => Some (set_task i (Returned true) (set_pids (gTaskPids s ∖ {[p]}) s))
  | Returned _ => None
  end.

Definition cancel_step (k : nat) (s : state) : option state :=
  c ← cancellers s !! k;
  match c with
  | Storing => Some (set_canceller k Copying (set_flag true s))
  | Copying => Some (set_canceller k (Killing (elements (gTaskPids s))) s)
  | Killing (p :: ps) => Some (set_canceller k (Killing ps) (if 0 <? p then kill p s else s))
  | Killing [] => Some (set_canceller k Finished s)
  | Finished => None
  end.

Definition exec (e : event) (s : state) : option state :=
  match e with
  | Task i outcome => task_step i outcome s
  | Cancel k => cancel_step k s
  | Exit p =>
      match processes s !! p with
      | Some _ => Some (set_processes (delete p (processes s)) s)
      | None => None
      end
  | Start p =>
      if (0 <? p) && bool_decide (processes s !! p = None)
      then Some (set_processes (<[p := None]> (processes s)) s) else None
  | Import => Some (set_flag false s)
  end.

(** [n] calls of [run_task] and [m] cancellations beside the programs [others]. *)
Definition start (n m : nat) (others : gset pid) : state := {|
  gImportCancelled := false; gTaskPids := ∅; processes := gset_to_gmap None others;
  signalled := ∅; strays := ∅; tasks := replicate n Checking; cancellers := replicate m Storing |}.

(** ** Identifiers in use *)

Definition pid_of (t : task) : option pid :=
  match t with Publishing p | Waiting p | Erasing p => Some p | _ => None end.

Definition pending (c : canceller) : list pid :=
  match c with Killing ps => ps | _ => [] end.

(** The importer still has the identifier: in the set, in a task, or in a copy. *)
Definition held (s : state) (p : pid) : Prop :=
  p ∈ gTaskPids s \/ (exists i t, tasks s !! i = Some t /\ pid_of t = Some p) \/
  (exists k c, cancellers s !! k = Some c /\ p ∈ pending c).

(** The system does not give out an identifier the importer still has. *)
Definition no_reuse (e : event) (s : state) : Prop :=
  match e with Task _ (Some p) | Start p => ~ held s p | _ => True end.

(** A step within one import. *)
Definition step (s s' : state) : Prop :=
  exists e, exec e s = Some s' /\ no_reuse e s /\ e <> Import.

Record inv (s : state) : Prop := {
  inv_flag : forall k c, cancellers s !! k = Some c -> c <> Storing -> gImportCancelled s = true;
  inv_pid : forall p i, processes s !! p = Some (Some i) ->
    0 < p /\ exists t, tasks s !! i = Some t /\ pid_of t = Some p;
  inv_distinct : forall i j t u p, tasks s !! i = Some t -> tasks s !! j = Some u ->
    pid_of t = Some p -> pid_of u = Some p -> i = j;
  inv_erasing : forall i p, tasks s !! i = Some (Erasing p) -> processes s !! p <> Some (Some i);
  inv_held : forall p, held s p -> forall o, processes s !! p = Some o -> exists i, o = Some i;
  inv_copy : forall i p, tasks s !! i = Some (Waiting p) -> processes s !! p = Some (Some i) ->
    i ∈ signalled s \/
    (p ∈ gTaskPids s /\ forall k c, cancellers s !! k = Some c ->
       match c with Killing ps => p ∈ ps | Finished => False | _ => True end);
  inv_strays : strays s = ∅ }.

Lemma insert_lookup {A} (l : list A) (i j : nat) (x y : A) :
  <[i := x]> l !! j = Some y -> (j = i /\ y = x /\ is_Some (l !! i)) \/ (j <> i /\ l !! j = Some y).
Proof.
  intros H. destruct (decide (i = j)) as [<-|Hne].
  - left. apply list_lookup_insert_Some in H as [(? & -> & Hl)|[? ?]]; [|done].
    repeat split. by apply lookup_lt_is_Some.
  - right. rewrite list_lookup_insert_ne in H by done. split; [congruence|done].
Qed.

Lemma cancel_inv_start n m others : inv (start n m others).
Proof.
  split; cbn; try done.
  - intros k c H Hc. apply lookup_replicate_1 in H as [-> _]. done.
  - intros p i H. apply lookup_gset_to_gmap_Some in H as [_ H]. done.
  - intros i j t u p H _ Ht. apply lookup_replicate_1 in H as [-> _]. done.
  - intros i p H. apply lookup_replicate_1 in H as [? _]. done.
  - intros p [H|[(i & t & H & Ht)|(k & c & H & Hc)]] o.
    + set_solver.
    + apply lookup_replicate_1 in H as [-> _]. done.
    + apply lookup_replicate_1 in H as [-> _]. set_solver.
  - intros i p H. apply lookup_replicate_1 in H as [? _]. done.
Qed.

(** Signalling an identifier the importer has reaches tasks of the import only. *)
Lemma kill_held p s : inv s -> held s p ->
  strays (kill p s) = ∅ /\ processes (kill p s) = processes s /\ tasks (kill p s) = tasks s /\
  gTaskPids (kill p s) = gTaskPids s /\ cancellers (kill p s) = cancellers s /\
  gImportCancelled (kill p s) = gImportCancelled s /\ signalled s ⊆ signalled (kill p s) /\
  forall i, processes s !! p = Some (Some i) -> i ∈ signalled (kill p s).
Proof.
  intros Hi Hh. unfold kill. destruct (processes s !! p) as [o|] eqn:Ep.
  - destruct (inv_held s Hi p Hh o Ep) as [i ->]. cbn. rewrite (inv_strays s Hi).
    repeat (split; [set_solver|]). intros j [= <-]. set_solver.
  - rewrite (inv_strays s Hi). repeat (split; [done|]). done.
Qed.

(** The invariant does not depend on how a state was built. *)
Lemma inv_agree s s' :
  inv s -> gImportCancelled s' = gImportCancelled s -> gTaskPids s' = gTaskPids s ->
  processes s' = processes s -> tasks s' = tasks s -> cancellers s' = cancellers s ->
  signalled s ⊆ signalled s' -> strays s' = ∅ -> inv s'.
Proof.
  intros [H1 H2 H3 HE H4 H5 H6] Ef Eg Ep Et Ec Es Ew.
  split; unfold held; rewrite ?Ef, ?Eg, ?Ep, ?Et, ?Ec; try done.
  intros i p Ht Hp. destruct (H5 i p Ht Hp) as [?|?]; [left; set_solver|by right].
Qed.

Lemma inv_kill p s : inv s -> held s p -> inv (kill p s).
Proof.
  intros Hi Hh. destruct (kill_held p s Hi Hh) as (? & ? & ? & ? & ? & ? & ? & _).
  by apply (inv_agree s).
Qed.

(** A task that changes its place and keeps its identifier, or has none before and after. *)
Lemma inv_set_task i t t' s :
  inv s -> tasks s !! i = Some t -> (pid_of t' = pid_of t \/ (pid_of t' = None /\ forall p, processes s !! p <> Some (Some i))) ->
  (forall p, t' = Erasing p -> processes s !! p <> Some (Some i)) ->
  (forall p, t' = Waiting p -> processes s !! p = Some (Some i) -> i ∈ signalled s \/
    (p ∈ gTaskPids s /\ forall k c, cancellers s !! k = Some c ->
       match c with Killing ps => p ∈ ps | Finished => False | _ => True end)) ->
  inv (set_task i t' s).
Proof.
  intros [H1 H2 H3 HE H4 H5 H6] Ht Hpid He Hw. split; cbn; try done.
  - intros p j Hp. destruct (H2 p j Hp) as (Hpos & u & Hu & Hpu). split; [done|].
    destruct (decide (j = i)) as [->|Hne].
    + exists t'. rewrite list_lookup_insert_eq by (by apply lookup_lt_is_Some; eexists).
      split; [done|]. destruct Hpid as [->|[_ Hn]]; [congruence|by destruct (Hn p)].
    + exists u. by rewrite list_lookup_insert_ne.
  - intros j j' u u' p Hj Hj' Hu Hu'.
    destruct Hpid as [Hpid|[Hnone _]];
    apply insert_lookup in Hj as [(-> & -> & _)|[Hne Hj]];
    apply insert_lookup in Hj' as [(-> & -> & _)|[Hne' Hj']]; try congruence;
    try (rewrite Hpid in Hu); try (rewrite Hpid in Hu'); eauto.
  - intros j p Hj. apply insert_lookup in Hj as [(-> & <- & _)|[_ Hj]]; [by apply He|by apply HE].
  - intros p Hh. apply H4. destruct Hh as [Hh|[(j & u & Hj & Hu)|Hh]]; [by left| |by right; right].
    right; left. apply insert_lookup in Hj as [(-> & -> & _)|[_ Hj]]; [|by eauto].
    destruct Hpid as [E|[E _]]; rewrite E in Hu; [eauto|done].
  - intros j p Hj Hp. apply insert_lookup in Hj as [(-> & <- & _)|[_ Hj]]; [by apply Hw|by apply H5].
Qed.

(** A task that is launched. *)
Lemma inv_launch i p s :
  inv s -> ~ held s p -> 0 < p -> processes s !! p = None -> tasks s !! i = Some Launching ->
  inv (set_task i (Publishing p) (set_processes (<[p := Some i]> (processes s)) s)).
Proof.
  intros [H1 H2 H3 HE H4 H5 H6] Hh Hpos Hp Ht.
  assert (forall j t, tasks s !! j = Some t -> pid_of t <> Some p) as Hno.
  { intros j t Hj E. apply Hh. right; left. eauto. }
  split; cbn; try done.
  - intros q j Hq. apply lookup_insert_Some in Hq as [[<- [= <-]]|[Hne Hq]].
    + split; [done|]. exists (Publishing p).
      by rewrite list_lookup_insert_eq by (by apply lookup_lt_is_Some; eexists).
    + destruct (H2 q j Hq) as (? & u & Hu & Hpu). split; [done|]. exists u.
      rewrite list_lookup_insert_ne; [done|]. intros <-. by simplify_eq.
  - intros j j' u u' q Hj Hj' Hu Hu'.
    apply insert_lookup in Hj as [(-> & -> & _)|[Hne Hj]];
    apply insert_lookup in Hj' as [(-> & -> & _)|[Hne' Hj']]; cbn in *; simplify_eq; try done;
      [by destruct (Hno _ _ Hj')|by destruct (Hno _ _ Hj)|eauto].
  - intros j q Hj. apply insert_lookup in Hj as [(-> & ? & _)|[Hne Hj]]; [done|].
    rewrite lookup_insert_ne; [by apply HE|]. intros <-. by destruct (Hno _ _ Hj).
  - intros q Hq o Ho. apply lookup_insert_Some in Ho as [[<- <-]|[Hne Ho]]; [by eauto|].
    apply (H4 q); [|done]. destruct Hq as [Hq|[(j & u & Hj & Hu)|Hq]]; [by left| |by right; right].
    right; left. apply insert_lookup in Hj as [(-> & -> & _)|[_ Hj]]; [|by eauto]. cbn in Hu. congruence.
  - intros j q Hj Hq. apply insert_lookup in Hj as [(-> & ? & _)|[Hne Hj]]; [done|].
    rewrite lookup_insert_ne in Hq by (intros <-; by destruct (Hno _ _ Hj)). by apply H5.
Qed.

(** The set of identifiers changes; a task that waits keeps its own. *)
Lemma inv_set_pids ps s :
  inv s -> (forall p, p ∈ ps -> held s p) ->
  (forall i p, tasks s !! i = Some (Waiting p) -> p ∈ gTaskPids s -> p ∈ ps) ->
  inv (set_pids ps s).
Proof.
  intros [H1 H2 H3 HE H4 H5 H6] Hps Hw. split; cbn; try done.
  - intros p Hp. apply H4. destruct Hp as [Hp|Hp]; [by apply Hps|by right].
  - intros i p Hi Hp. destruct (H5 i p Hi Hp) as [?|[? ?]]; [by left|right]. eauto.
Qed.

Lemma inv_task_step i outcome s s' :
  inv s -> no_reuse (Task i outcome) s -> task_step i outcome s = Some s' -> inv s'.
Proof.
  intros Hi Hre H. unfold task_step in H. destruct (tasks s !! i) as [t|] eqn:Et; [|done]. simpl in H.
  destruct t as [| |p|p|p|b]; [| | | | |done].
  - injection H as <-. eapply inv_set_task; [done|done| | |]; destruct (gImportCancelled s); by try left.
  - destruct outcome as [p|]; [|injection H as <-; eapply inv_set_task; [done|done|by left|done|done]].
    destruct (_ && _) eqn:E; [|done]. injection H as <-.
    apply andb_true_iff in E as [E1%Z.ltb_lt E2]. apply bool_decide_eq_true in E2. by apply inv_launch.
  - assert (held s p) as Hh by (right; left; eauto). injection H as <-.
    destruct (gImportCancelled s) eqn:Ef.
    + destruct (kill_held p s Hi Hh) as (_ & Ep & Ek & _ & _ & _ & _ & Hsig).
      eapply inv_set_task; [by apply inv_kill|by rewrite Ek|by left|done|].
      intros q [= <-]. rewrite Ep. intros Hq. left. by apply Hsig.
    + eapply inv_set_task; [apply inv_set_pids; [done| |]|exact Et|by left|done|]; cbn.
      * intros q [->%elem_of_singleton|Hq]%elem_of_union; [done|by left].
      * set_solver.
      * intros q [= <-] _. right. split; [set_solver|]. intros k c Hc.
        destruct c; try done; exfalso; by rewrite (inv_flag s Hi k _ Hc) in Ef.
  - case_bool_decide; [done|]. injection H as <-. eapply inv_set_task; [done|done|by left| |done].
    by intros q [= <-].
  - injection H as <-. eapply inv_set_task; [apply inv_set_pids; [done| |]|exact Et| |done|done]; cbn.
    + intros q [Hq _]%elem_of_difference. by left.
    + intros j q Hj Hq. apply elem_of_difference. split; [done|]. intros ->%elem_of_singleton.
      pose proof (inv_distinct s Hi i j _ _ p Et Hj eq_refl eq_refl) as <-. congruence.
    + right. split; [done|]. intros q Hq. destruct (inv_pid s Hi q i Hq) as (_ & u & Hu & Hpu).
      rewrite Et in Hu. injection Hu as <-. injection Hpu as ->. by apply (inv_erasing s Hi i q).
Qed.

(** A canceller that goes on; every task that waits is still in its copy. *)
Lemma inv_set_canceller k c c' s :
  inv s -> cancellers s !! k = Some c -> (c' <> Storing -> gImportCancelled s = true) ->
  (forall p, p ∈ pending c' -> held s p) ->
  (forall i p, tasks s !! i = Some (Waiting p) -> processes s !! p = Some (Some i) ->
     i ∈ signalled s \/ (p ∈ gTaskPids s ->
       match c with Killing ps => p ∈ ps | Finished => False | _ => True end ->
       match c' with Killing ps => p ∈ ps | Finished => False | _ => True end)) ->
  inv (set_canceller k c' s).
Proof.
  intros [H1 H2 H3 HE H4 H5 H6] Hk Hf Hp Hw. split; cbn; try done.
  - intros k' d Hd Hne. apply insert_lookup in Hd as [(-> & -> & _)|[_ Hd]]; eauto.
  - intros p Hh. apply H4. destruct Hh as [Hh|[Hh|(k' & d & Hd & Hpd)]]; [by left|by right; left|].
    apply insert_lookup in Hd as [(-> & -> & _)|[_ Hd]]; [by apply Hp|]. right; right. eauto.
  - intros i p Hi Hpi. destruct (Hw i p Hi Hpi) as [?|Hw']; [by left|].
    destruct (H5 i p Hi Hpi) as [?|[Hin Hc]]; [by left|right]. split; [done|].
    intros k' d Hd. apply insert_lookup in Hd as [(-> & -> & _)|[_ Hd]]; [|exact (Hc _ _ Hd)].
    apply Hw'; [done|]. exact (Hc k c Hk).
Qed.

Lemma inv_set_flag s : inv s -> inv (set_flag true s).
Proof. intros [H1 H2 H3 HE H4 H5 H6]. split; cbn; try done. Qed.

Lemma inv_cancel_step k s s' : inv s -> cancel_step k s = Some s' -> inv s'.
Proof.
  intros Hi H. unfold cancel_step in H. destruct (cancellers s !! k) as [c|] eqn:Ec; [|done]. simpl in H.
  destruct c as [| |[|p ps]|]; [| | | |done].
  - injection H as <-. eapply inv_set_canceller; [by apply inv_set_flag|exact Ec|done|set_solver|auto].
  - injection H as <-. pose proof (inv_flag s Hi k _ Ec) as Hf.
    eapply inv_set_canceller; [done|done|by intros _; apply Hf| |]; cbn.
    + intros p Hp%elem_of_elements. by left.
    + intros i p _ _. right. intros Hp _. by apply elem_of_elements.
  - injection H as <-. pose proof (inv_flag s Hi k _ Ec) as Hf.
    eapply inv_set_canceller; [done|done|by intros _; apply Hf|set_solver|].
    intros i p _ _. right. intros _. set_solver.
  - injection H as <-. pose proof (inv_flag s Hi k _ Ec) as Hf.
    assert (held s p) as Hh by (right; right; exists k, (Killing (p :: ps)); set_solver).
    assert (forall q, q ∈ ps -> held s q) as Hps
      by (intros q Hq; right; right; exists k, (Killing (p :: ps)); set_solver).
    destruct (kill_held p s Hi Hh) as (E1 & E2 & E3 & E4 & E5 & E6 & E7 & Hsig).
    destruct (0 <? p) eqn:Epos.
    + eapply inv_set_canceller; [by apply inv_kill|by rewrite E5|by intros _; rewrite E6; apply Hf| |]; cbn.
      * intros q Hq. unfold held. rewrite E3, E4, E5. by apply Hps.
      * rewrite E2, E3, E4. intros i q _ Hq. destruct (decide (q = p)) as [->|Hne]; [left; by apply Hsig|].
        right. set_solver.
    + eapply inv_set_canceller; [done|done|by intros _; apply Hf|done|]; cbn.
      intros i q _ Hq. right. destruct (inv_pid s Hi q i Hq) as [Hpos _].
      assert (q <> p) by (intros ->; bool_to_prop; lia). set_solver.
Qed.

(** A process that ends. *)
Lemma inv_exit p s : inv s -> inv (set_processes (delete p (processes s)) s).
Proof.
  intros [H1 H2 H3 HE H4 H5 H6]. split; cbn; try done.
  - intros q i [_ Hq]%lookup_delete_Some. by apply H2.
  - intros i q Hi [_ Hq]%lookup_delete_Some. by apply (HE i q).
  - intros q Hq o [_ Ho]%lookup_delete_Some. by apply (H4 q).
  - intros i q Hi [_ Hq]%lookup_delete_Some. by apply H5.
Qed.

(** A program that starts. *)
Lemma inv_program p s : inv s -> ~ held s p -> inv (set_processes (<[p := None]> (processes s)) s).
Proof.
  intros [H1 H2 H3 HE H4 H5 H6] Hh. split; cbn; try done.
  - intros q i [[_ ?]|[_ Hq]]%lookup_insert_Some; [done|]. by apply H2.
  - intros i q Hi [[_ ?]|[_ Hq]]%lookup_insert_Some; [done|]. by apply (HE i q).
  - intros q Hq o [[<- _]|[_ Ho]]%lookup_insert_Some; [done|]. by apply (H4 q).
  - intros i q Hi [[_ ?]|[_ Hq]]%lookup_insert_Some; [done|]. by apply H5.
Qed.

Lemma cancel_inv_step s s' : step s s' -> inv s -> inv s'.
Proof.
  intros (e & H & Hre & Hne) Hi. destruct e as [i o|k|p|p|]; cbn [exec] in H; [| | | |done].
  - by eapply inv_task_step.
  - by eapply inv_cancel_step.
  - destruct (processes s !! p); [|done]. injection H as <-. by apply inv_exit.
  - destruct (_ && _); [|done]. injection H as <-. by apply inv_program.
Qed.

Lemma cancel_inv_run s s' : rtc step s s' -> inv s -> inv s'.
Proof. induction 1; eauto using cancel_inv_step. Qed.

(** ** What a cancellation achieves *)

(** Past the first test of the flag, and launched. *)
Definition passed (t : task) : bool :=
  match t with Checking | Returned false => false | _ => true end.
Definition launched (t : task) : bool :=
  match t with Publishing _ | Waiting _ | Erasing _ | Returned true => true | _ => false end.

Lemma kill_same p s : tasks (kill p s) = tasks s /\ gImportCancelled (kill p s) = gImportCancelled s.
Proof. unfold kill. by destruct (processes s !! p). Qed.

(** Once the flag is set no task passes its first test. *)
Lemma none_passes s s' :
  step s s' -> gImportCancelled s = true ->
  gImportCancelled s' = true /\
  forall i t', tasks s' !! i = Some t' -> passed t' = true -> exists t, tasks s !! i = Some t /\ passed t = true.
Proof.
  intros (e & H & _ & Hne) Hf. destruct e as [i o|k|p|p|]; cbn [exec] in H; [| | | |done].
  - unfold task_step in H. destruct (tasks s !! i) as [t|] eqn:Et; [|done]. simpl in H. rewrite Hf in H.
    destruct (kill_same (default 0 (pid_of t)) s) as [Ek Ekf].
    destruct t as [| |p|p|p|b]; try (destruct o); repeat case_match; simplify_eq; cbn in *;
      (split; [congruence|]); intros j u Hj Hu; rewrite ?Ek in Hj;
      apply insert_lookup in Hj as [(-> & -> & _)|[_ Hj]]; try done; eauto.
  - unfold cancel_step in H. destruct (cancellers s !! k) as [c|]; [|done]. simpl in H.
    destruct c as [| |[|p ps]|]; simplify_eq; cbn; try (split; [done|by eauto]).
    destruct (kill_same p s) as [Ek Ekf]. destruct (0 <? p); cbn; rewrite ?Ek, ?Ekf; split; eauto.
  - destruct (processes s !! p); simplify_eq. cbn. eauto.
  - destruct (_ && _); simplify_eq. cbn. eauto.
Qed.

(** C12: tasks and cancellations interleaved in any way, beside other programs
    that start and end, as long as the system does not give out an identifier the
    importer still has. SIGTERM goes to tasks of the import only. Once a
    cancellation has returned, every task that waits for a running process has
    signalled it; a task launched meanwhile signals its own process as it reaches
    its locked section; and from the store of the flag on, only the tasks that had
    passed their test by then are launched. *)
Theorem cancel_reaches_tasks n m others s :
  rtc step (start n m others) s ->
  strays s = ∅ /\
  (forall k, cancellers s !! k = Some Finished ->
     forall i p, tasks s !! i = Some (Waiting p) -> processes s !! p = Some (Some i) -> i ∈ signalled s) /\
  (gImportCancelled s = true ->
     (forall i p o s', tasks s !! i = Some (Publishing p) -> processes s !! p = Some (Some i) ->
        exec (Task i o) s = Some s' -> tasks s' !! i = Some (Waiting p) /\ i ∈ signalled s') /\
     (forall s' i t', rtc step s s' -> tasks s' !! i = Some t' -> launched t' = true ->
        exists t, tasks s !! i = Some t /\ passed t = true)).
Proof.
  intros Hrun. pose proof (cancel_inv_run _ _ Hrun (cancel_inv_start n m others)) as Hi.
  split; [by apply inv_strays|]. split; [|intros Hf; split].
  - intros k Hk i p Ht Hp. destruct (inv_copy s Hi i p Ht Hp) as [?|[_ Hc]]; [done|].
    by destruct (Hc k _ Hk).
  - intros i p o s' Ht Hp H. cbn in H. unfold task_step in H. rewrite Ht in H. simpl in H.
    rewrite Hf in H. injection H as <-. cbn. destruct (kill_same p s) as [-> _].
    rewrite list_lookup_insert_eq by (by apply lookup_lt_is_Some; eexists). split; [done|].
    apply (kill_held p s Hi); [|done]. right; left. eauto.
  - intros s' i t' Hr Ht' Hl. assert (passed t' = true) as Hp' by (by destruct t' as [| | | | |[]]).
    clear Hrun Hi Hl. revert i t' Ht' Hp'. induction Hr as [|s s1 s' Hst Hr IH]; intros i t' Ht' Hp'; [eauto|].
    destruct (none_passes _ _ Hst Hf) as [Hf1 Hn]. destruct (IH Hf1 i t' Ht' Hp') as (t1 & Ht1 & Hp1).
    exact (Hn i t1 Ht1 Hp1).
Qed.

(** A run of events. *)
Fixpoint exec_all (es : list event) (s : state) : option state :=
  match es with [] => Some s | e :: es => s ← exec e s; exec_all es s end.

(** A cancellation before the import begins is forgotten. *)
Example early_cancel_lost :
  match exec_all [Cancel 0; Cancel 0; Cancel 0; Import; Task 0 None; Task 0 (Some 7); Task 0 None] (start 1 1 ∅) with
  | Some s => cancellers s = [Finished] /\ tasks s = [Waiting 7] /\ signalled s = ∅
  | None => False
  end.
Proof. vm_compute. by repeat split. Qed.

(** With an identifier used again a task can be missed: the first task erases it
    after the second one has inserted it. *)
Example reused_pid_missed :
  match exec_all [Task 0 None; Task 0 (Some 7); Task 0 None; Exit 7; Task 0 None;
                  Task 1 None; Task 1 (Some 7); Task 1 None; Task 0 None;
                  Cancel 0; Cancel 0; Cancel 0] (start 2 1 ∅) with
  | Some s => cancellers s = [Finished] /\ tasks s !! 1%nat = Some (Waiting 7) /\
      processes s !! 7 = Some (Some 1%nat) /\ signalled s = ∅
  | None => False
  end.
Proof. vm_compute. by repeat split. Qed.

(** The identifiers are signalled outside the lock, from the copy: one that ended
    and was given to another program meanwhile gets the signal. *)
Example stray_signal :
  match exec_all [Task 0 None; Task 0 (Some 7); Task 0 None; Cancel 0; Cancel 0; Exit 7; Start 7; Cancel 0]
          (start 1 1 ∅) with
  | Some s => strays s = {[7]}
  | None => False
  end.
Proof. vm_compute. reflexivity. Qed.
End ImageCancel.

(** ** A concrete cancellation *)
Import ImageCancel.

(** Three tasks: one runs, one is past its test, one has not begun. *)
Definition demo_cancel : list event :=
  [Task 0 None; Task 0 (Some 7); Task 0 None; Task 1 None; Cancel 0; Task 1 (Some 8); Cancel 0; Cancel 0; Cancel 0;
   Task 2 None; Task 1 None].

Definition demo_cancelled : state :=
  match exec_all demo_cancel (start 3 1 {[5]}) with Some s => s | None => start 3 1 ∅ end.

Definition heldb (s : state) (p : Z) : bool :=
  bool_decide (p ∈ gTaskPids s) || existsb (fun t => bool_decide (pid_of t = Some p)) (tasks s) ||
  existsb (fun c => bool_decide (p ∈ pending c)) (cancellers s).

Lemma heldb_spec s p : held s p -> heldb s p = true.
Proof.
  unfold heldb. intros [H|[(i & t & Hi & Ht)|(k & c & Hk & Hc)]].
  - by rewrite bool_decide_eq_true_2.
  - apply orb_true_iff; left; apply orb_true_iff; right. apply existsb_exists. exists t.
    split; [by apply list_elem_of_In, (list_elem_of_lookup_2 _ i)|by apply bool_decide_eq_true_2].
  - apply orb_true_iff; right. apply existsb_exists. exists c.
    split; [by apply list_elem_of_In, (list_elem_of_lookup_2 _ k)|by apply bool_decide_eq_true_2].
Qed.

(** A run that never uses an identifier again. *)
Fixpoint exec_fresh (es : list event) (s : state) : option state :=
  match es with
  | [] => Some s
  | e :: es =>
      if match e with Task _ (Some p) | Start p => negb (heldb s p) | Import => false | _ => true end
      then s ← exec e s; exec_fresh es s else None
  end.

Lemma exec_fresh_run es s s' : exec_fresh es s = Some s' -> rtc step s s'.
Proof.
  revert s. induction es as [|e es IH]; intros s H; simpl in H; [by simplify_eq|].
  destruct (match e with Task _ (Some p) | Start p => negb (heldb s p) | Import => false | _ => true end) eqn:Eg; [|done].
  destruct (exec e s) as [s1|] eqn:E; [|done]. simpl in H. apply rtc_l with s1; [|by apply IH].
  exists e. split; [done|]. destruct e as [i [p|]|k|p|p|]; try done; cbn;
    (split; [|done]); intros Hh%heldb_spec; by rewrite Hh in Eg.
Qed.

Lemma cancel_reaches_tasks_witness :
  tasks demo_cancelled = [Waiting 7; Waiting 8; Returned false] /\ strays demo_cancelled = ∅ /\
  0%nat ∈ signalled demo_cancelled /\ 1%nat ∈ signalled demo_cancelled.
Proof.
  destruct (cancel_reaches_tasks 3 1 {[5]} demo_cancelled) as (Hs & Hw & _).
  { apply (exec_fresh_run demo_cancel). vm_compute. reflexivity. }
  split; [vm_compute; reflexivity|]. split; [exact Hs|].
  split; [apply (Hw 0%nat) with (p := 7)|apply (Hw 0%nat) with (p := 8)]; vm_compute; reflexivity.
Defined.
