(* ===== verification/AppDisplays.v ===== *)
(** [shell/ui/macmu_shell.mm], the applications and their displays: the tables of
    [MacMuAppDelegate] that bind an Android application to a display and a window,
    and the handlers on the main queue that change them. A handler is a function of
    the state and of what the other components answer ([env]); it returns the new
    state and what it sends ([out]): requests of the control channel and of the
    guest agent with their completion blocks, delayed blocks, windows and status
    texts. *)
From S2P Require Import Prelude Text Posix ControlProtocol ControlChannel.

Module AppDisplays.

(** ** The tables *)

(** The sets of display ids. [Windows] and [SuppressRemoveOnClose] stand for the
    keys of the maps of that name. *)
Inductive idset :=
  | Windows | SuppressRemoveOnClose | ScreenMatched | ResizePending | PollInFlight
  | RemovalPending | ActiveUserIds.

(** The sets of packages. *)
Inductive pkgset := Pending | LaunchInFlight | Closing | Uninstalling.

(** The maps from displays to texts: the bound component, the error of a launch
    that failed during a close, the component whose launch is to be cleaned up. *)
Inductive textmap := AppBindings | ClosingLaunchFailures | DeferredCleanup.

(** The maps from displays to numbers: a screen, the end of an interval. *)
Inductive nummap := TargetScreens | OrientationSuppressedUntil.

(** Equality of the tables, by their numbers. *)
Definition idset_eqb (a b : idset) : bool :=
  let code k := match k with Windows => 0 | SuppressRemoveOnClose => 1 | ScreenMatched => 2
    | ResizePending => 3 | PollInFlight => 4 | RemovalPending => 5 | ActiveUserIds => 6 end%nat in
  (code a =? code b)%nat.
Definition pkgset_eqb (a b : pkgset) : bool :=
  let code k := match k with Pending => 0 | LaunchInFlight => 1 | Closing => 2 | Uninstalling => 3 end%nat in
  (code a =? code b)%nat.
Definition textmap_eqb (a b : textmap) : bool :=
  let code k := match k with AppBindings => 0 | ClosingLaunchFailures => 1 | DeferredCleanup => 2 end%nat in
  (code a =? code b)%nat.
Definition nummap_eqb (a b : nummap) : bool :=
  let code k := match k with TargetScreens => 0 | OrientationSuppressedUntil => 1 end%nat in
  (code a =? code b)%nat.

Record DisplayLaunchProfile := { title : string; width : Z; height : Z; dpi : Z }.

Record t := {
  ids : idset -> gset Z;
  packages : pkgset -> gset bytes;
  texts : textmap -> gmap Z bytes;
  appDisplayBindings : gmap bytes Z;
  launchProfiles : gmap Z DisplayLaunchProfile;
  numbers : nummap -> gmap Z Z;
  pendingApkInstalls : nat;
  agentConnected : bool;
  shuttingDown : bool }.

Definition set_ids (k : idset) (x : gset Z) (s : t) : t := {|
  ids := fun k' => if idset_eqb k' k then x else ids s k'; packages := packages s; texts := texts s;
  appDisplayBindings := appDisplayBindings s; launchProfiles := launchProfiles s; numbers := numbers s;
  pendingApkInstalls := pendingApkInstalls s; agentConnected := agentConnected s;
  shuttingDown := shuttingDown s |}.

Definition set_packages (k : pkgset) (x : gset bytes) (s : t) : t := {|
  ids := ids s; packages := fun k' => if pkgset_eqb k' k then x else packages s k'; texts := texts s;
  appDisplayBindings := appDisplayBindings s; launchProfiles := launchProfiles s; numbers := numbers s;
  pendingApkInstalls := pendingApkInstalls s; agentConnected := agentConnected s;
  shuttingDown := shuttingDown s |}.

Definition set_texts (k : textmap) (x : gmap Z bytes) (s : t) : t := {|
  ids := ids s; packages := packages s; texts := fun k' => if textmap_eqb k' k then x else texts s k';
  appDisplayBindings := appDisplayBindings s; launchProfiles := launchProfiles s; numbers := numbers s;
  pendingApkInstalls := pendingApkInstalls s; agentConnected := agentConnected s;
  shuttingDown := shuttingDown s |}.

Definition set_apps (x : gmap bytes Z) (s : t) : t := {|
  ids := ids s; packages := packages s; texts := texts s;
  appDisplayBindings := x; launchProfiles := launchProfiles s; numbers := numbers s;
  pendingApkInstalls := pendingApkInstalls s; agentConnected := agentConnected s;
  shuttingDown := shuttingDown s |}.

Definition set_profiles (x : gmap Z DisplayLaunchProfile) (s : t) : t := {|
  ids := ids s; packages := packages s; texts := texts s;
  appDisplayBindings := appDisplayBindings s; launchProfiles := x; numbers := numbers s;
  pendingApkInstalls := pendingApkInstalls s; agentConnected := agentConnected s;
  shuttingDown := shuttingDown s |}.

Definition set_numbers (k : nummap) (x : gmap Z Z) (s : t) : t := {|
  ids := ids s; packages := packages s; texts := texts s;
  appDisplayBindings := appDisplayBindings s; launchProfiles := launchProfiles s;
  numbers := fun k' => if nummap_eqb k' k then x else numbers s k';
  pendingApkInstalls := pendingApkInstalls s; agentConnected := agentConnected s;
  shuttingDown := shuttingDown s |}.

Definition set_flags (apks : nat) (agent shutting : bool) (s : t) : t := {|
  ids := ids s; packages := packages s; texts := texts s;
  appDisplayBindings := appDisplayBindings s; launchProfiles := launchProfiles s; numbers := numbers s;
  pendingApkInstalls := apks; agentConnected := agent; shuttingDown := shutting |}.

Definition has (k : idset) (d : Z) (s : t) : bool := bool_decide (d ∈ ids s k).
Definition has_pkg (k : pkgset) (p : bytes) (s : t) : bool := bool_decide (p ∈ packages s k).
Definition add_id (k : idset) (d : Z) (s : t) : t := set_ids k ({[d]} ∪ ids s k) s.
Definition erase_id (k : idset) (d : Z) (s : t) : t := set_ids k (ids s k ∖ {[d]}) s.
Definition add_pkg (k : pkgset) (p : bytes) (s : t) : t := set_packages k ({[p]} ∪ packages s k) s.
Definition erase_pkg (k : pkgset) (p : bytes) (s : t) : t := set_packages k (packages s k ∖ {[p]}) s.
Definition put_text (k : textmap) (d : Z) (x : bytes) (s : t) : t := set_texts k (<[d := x]> (texts s k)) s.
Definition erase_text (k : textmap) (d : Z) (s : t) : t := set_texts k (delete d (texts s k)) s.
Definition put_number (k : nummap) (d x : Z) (s : t) : t := set_numbers k (<[d := x]> (numbers s k)) s.
Definition erase_number (k : nummap) (d : Z) (s : t) : t := set_numbers k (delete d (numbers s k)) s.

Definition init : t := {|
  ids := fun _ => ∅; packages := fun _ => ∅; texts := fun _ => ∅; appDisplayBindings := ∅;
  launchProfiles := ∅; numbers := fun _ => ∅; pendingApkInstalls := 0; agentConnected := false;
  shuttingDown := false |}.

(** ** What handlers see and send *)

(** The answers of the other components: a control channel that is there and alive,
    and ready; the guest client ready; the emulator's process; the frame channel
    and Metal usable; the application list loaded; the screen new windows go to and
    the refresh rate of the window's screen; the time in milliseconds. *)
Record env := {
  channelAlive : bool; channelReady : bool; guestReady : bool; qemuPid : Z; surfaces : bool;
  appsReady : bool; targetScreen : Z; refreshRate : Z; now : Z }.

(** The completion block of a DISPLAY_ADD: of a launch or of a resize. *)
Inductive add_block :=
  | AddLaunch (component : bytes) (d : Z) (p : DisplayLaunchProfile)
  | AddResize (d : Z) (previous : DisplayLaunchProfile) (notifyUser : bool).

(** The completion block of a request to the guest agent. *)
Inductive guest_block :=
  | GuestClose (d : Z) (component : bytes)
  | GuestCleanup (d : Z) (component message : bytes)
  | GuestLaunch (d : Z) (component : bytes)
  | GuestPoll (d : Z)
  | GuestUninstall (package : bytes).

Inductive out :=
  | OAdd (d : Z) (p : DisplayLaunchProfile) (flags : Z) (block : add_block)
  | ORemove (d : Z)
  | OStream (d : Z) (enabled : bool) (rate : Z)
  | OGuest (command : bytes) (timeoutMs : Z) (block : guest_block)
  | OLater (component : bytes) (d : Z)          (* dispatch_after *)
  | OWindow (d aspectWidth aspectHeight : Z)    (* a new window *)
  | OFront (d : Z) | ORedraw (d : Z)
  | OStatus (text : string) (argument : bytes)
  | OSheet (package : bytes) | OBeep.

Definition act : Type := env -> t -> t * list out.
Definition skip : act := fun _ s => (s, []).
Definition upd (f : t -> t) : act := fun _ s => (f s, []).
Definition emit (o : out) : act := fun _ s => (s, [o]).
Definition seq (a b : act) : act := fun e s =>
  let '(s1, o1) := a e s in let '(s2, o2) := b e s1 in (s2, o1 ++ o2).
(** Look at the environment and the state and go on. *)
Definition look (f : env -> t -> act) : act := fun e s => f e s e s.
Definition status (text : string) : act := emit (OStatus text []).

Declare Scope app_scope.
Notation "a ;; b" := (seq a b) (at level 100, b at level 200, right associativity) : app_scope.
Open Scope app_scope.

(** ** Helpers *)

Fixpoint package_from_component (component : bytes) : bytes :=
  match component with
  | [] => []
  | b :: rest => if decide (b = SLASH) then [] else b :: package_from_component rest
  end.

Definition kMaxUserDisplayId : Z := 5.

Definition kNewDisplayFlags : Z :=
  Z.lor (Z.shiftl 1 0) (Z.lor (Z.shiftl 1 1) (Z.lor (Z.shiftl 1 3)
    (Z.lor (Z.shiftl 1 6) (Z.lor (Z.shiftl 1 7) (Z.shiftl 1 10))))).

Definition valid_display_profile (width height dpi : Z) : bool :=
  if (dpi <? 120) || (640 <? dpi) || (16384 <? width) || (16384 <? height) then false
  else let minimumPixels := u32 (320 * dpi) / 160 in (minimumPixels <=? width) && (minimumPixels <=? height).

(** The loop over the candidates 1 to [kMaxUserDisplayId]. *)
Fixpoint first_free (candidates : list Z) (s : t) : Z :=
  match candidates with
  | [] => 0
  | c :: cs => if negb (has ActiveUserIds c s) && negb (has RemovalPending c s) then c else first_free cs s
  end.

Definition allocateUserDisplayId (s : t) : Z * t :=
  let d := first_free (seqZ 1 kMaxUserDisplayId) s in
  (d, if d =? 0 then s else add_id ActiveUserIds d s).

Definition releaseUserDisplayId (d : Z) (s : t) : t :=
  if d =? 0 then s else erase_id ActiveUserIds d s.

Definition unbindApplicationFromDisplay (d : Z) (s : t) : t :=
  match texts s AppBindings !! d with
  | None => s
  | Some component =>
      let p := package_from_component component in
      let s := match appDisplayBindings s !! p with
               | Some d' => if d' =? d then set_apps (delete p (appDisplayBindings s)) s else s
               | None => s
               end in
      let s := erase_pkg Closing p (erase_pkg LaunchInFlight p (erase_pkg Pending p s)) in
      let s := erase_text DeferredCleanup d (erase_text ClosingLaunchFailures d s) in
      let s := set_profiles (delete d (launchProfiles s)) s in
      let s := erase_number TargetScreens d (erase_id ScreenMatched d s) in
      let s := erase_id PollInFlight d (erase_id ResizePending d s) in
      let s := erase_number OrientationSuppressedUntil d s in
      erase_text AppBindings d s
  end.

(** ** Removing a display *)

Definition requestDisplayRemove (d : Z) : act := look (fun e s =>
  if (d =? 0) || (kMaxUserDisplayId <? d) || has RemovalPending d s then skip
  else
    upd (add_id RemovalPending d) ;;
    if negb (channelAlive e) then
      if qemuPid e <=? 0 then
        upd (erase_id RemovalPending d) ;; upd (unbindApplicationFromDisplay d) ;;
        upd (releaseUserDisplayId d)
      else skip
    else emit (ORemove d)).

(** ** Windows *)

Definition setDisplayStreaming (d : Z) (enabled : bool) : act := look (fun e s =>
  if negb (channelReady e) then skip
  else emit (OStream d enabled (if has Windows d s then refreshRate e else 60))).

(** [openDisplayWindowForDisplay:aspectWidth:aspectHeight:dpi:]. *)
Definition openDisplayWindow (d aspectWidth aspectHeight : Z) : act := look (fun e s =>
  if shuttingDown s || (d =? 0) || (kMaxUserDisplayId <? d) then skip else
  match texts s AppBindings !! d with
  | None => skip
  | Some component =>
      if has_pkg Closing (package_from_component component) s || has RemovalPending d s then skip
      else if negb (surfaces e) then emit OBeep
      else if has Windows d s then emit (OFront d) ;; setDisplayStreaming d true
      else
        emit (OWindow d aspectWidth aspectHeight) ;;
        upd (add_id Windows d) ;; upd (add_id ActiveUserIds d) ;; setDisplayStreaming d true
  end).

(** [openDisplayWindowForDisplay:]. *)
Definition openDisplayWindowForDisplay (d : Z) : act := look (fun _ s =>
  match launchProfiles s !! d with
  | Some p => openDisplayWindow d (width p) (height p)
  | None => openDisplayWindow d 0 0
  end).

Definition guest_command (verb : string) (component : bytes) (d : Z) : bytes :=
  bstr verb ++ component ++ bstr " " ++ dec d.

Definition closeBoundAppAndRemoveDisplay (d : Z) : act := look (fun e s =>
  if shuttingDown s then skip else
  match texts s AppBindings !! d with
  | None => requestDisplayRemove d
  | Some component =>
      let p := package_from_component component in
      let wasPending := has_pkg Pending p s in
      let launchWasSent := has_pkg LaunchInFlight p s in
      upd (erase_pkg Pending p) ;; upd (erase_pkg LaunchInFlight p) ;;
      upd (erase_text ClosingLaunchFailures d) ;; upd (add_pkg Closing p) ;;
      if wasPending && negb launchWasSent then requestDisplayRemove d
      else if negb (guestReady e) then
        upd (erase_pkg Closing p) ;; openDisplayWindowForDisplay d ;;
        status "Android agent disconnected; the application is still open"
      else emit (OGuest (guest_command "close " component d) 5000 (GuestClose d component))
  end).

(** [windowWillClose:] for the window of display [d]; [[window close]] calls it. *)
Definition windowWillClose (d : Z) : act := look (fun _ s =>
  if shuttingDown s then skip else
  if negb (has Windows d s) then skip else
  setDisplayStreaming d false ;; upd (erase_id Windows d) ;;
  look (fun _ s =>
    if has SuppressRemoveOnClose d s then
      upd (erase_id SuppressRemoveOnClose d) ;; upd (unbindApplicationFromDisplay d) ;;
      look (fun _ s => if has RemovalPending d s then skip else upd (releaseUserDisplayId d))
    else closeBoundAppAndRemoveDisplay d)).

(** Close the window, if there is one, without asking for the removal again. *)
Definition closeSuppressed (d : Z) : act :=
  upd (add_id SuppressRemoveOnClose d) ;; windowWillClose d.

Definition rollbackApplicationDisplay (d : Z) (message : string) (argument : bytes) : act :=
  upd (unbindApplicationFromDisplay d) ;; emit (OStatus message argument) ;; requestDisplayRemove d ;;
  look (fun _ s => if has Windows d s then closeSuppressed d else skip).

(** ** Events of the emulator *)

Definition handleControlEvent (type : Z) (payload : bytes) : act := look (fun _ s =>
  if shuttingDown s then skip else
  if negb (type =? type_code kEventDisplay) || (length payload <? wire_size ControlEventDisplay)%nat
  then skip else
  let event : ControlEventDisplay := decode payload in
  let d := ev_displayId event in
  if (d =? 0) || (kMaxUserDisplayId <? d) then skip
  else if ev_state event =? kControlDisplayAdded then
    match texts s AppBindings !! d with
    | None => requestDisplayRemove d
    | Some _ =>
        match launchProfiles s !! d with
        | Some p =>
            if (0 <? ev_width event) && (0 <? ev_height event) && (0 <? ev_dpi event) then
              upd (set_profiles (<[d := {| title := title p; width := ev_width event;
                height := ev_height event; dpi := ev_dpi event |}]> (launchProfiles s)))
            else skip
        | None => skip
        end ;;
        openDisplayWindow d (ev_width event) (ev_height event)
    end
  else if ev_state event =? kControlDisplayRemoved then
    upd (erase_id RemovalPending d) ;; upd (unbindApplicationFromDisplay d) ;;
    look (fun _ s => if has Windows d s then closeSuppressed d else upd (releaseUserDisplayId d))
  else skip).

(** [presentFrameForDisplay:]. *)
Definition presentFrameForDisplay (d : Z) : act := look (fun _ s =>
  if shuttingDown s || (d =? 0) || bool_decide (texts s AppBindings !! d = None) then skip else
  (if has Windows d s then skip else openDisplayWindowForDisplay d) ;;
  look (fun _ s => if has Windows d s then emit (ORedraw d) else skip)).

(** ** Cleaning up after a launch *)

Definition cleanupFailedLaunchForDisplay (d : Z) (component message : bytes) : act := look (fun e s =>
  if shuttingDown s || bool_decide (texts s AppBindings !! d <> Some component) then skip else
  let p := package_from_component component in
  upd (erase_pkg Pending p) ;; upd (erase_pkg LaunchInFlight p) ;; upd (add_pkg Closing p) ;;
  upd (put_text DeferredCleanup d component) ;;
  if negb (guestReady e) then
    emit (OStatus "%@; cleanup will resume after Android reconnects" message)
  else emit (OGuest (guest_command "close " component d) 5000 (GuestCleanup d component message))).

Definition cleanupFinished (d : Z) (component message : bytes) (ok : bool) : act := look (fun _ s =>
  if bool_decide (texts s DeferredCleanup !! d <> Some component) ||
     bool_decide (texts s AppBindings !! d <> Some component) then skip
  else if negb ok then emit (OStatus "%@; close the application window to retry cleanup" message)
  else
    upd (erase_text DeferredCleanup d) ;; rollbackApplicationDisplay d "%@" message).

(** The completion block of the close request of [closeBoundAppAndRemoveDisplay]. *)
Definition closeFinished (d : Z) (component : bytes) (ok : bool) (payload : bytes) : act := look (fun _ s =>
  if bool_decide (texts s AppBindings !! d <> Some component) then skip
  else if negb ok then
    match texts s ClosingLaunchFailures !! d with
    | Some message => emit (OStatus "Could not open application: %@" message) ;; requestDisplayRemove d
    | None =>
        upd (erase_pkg Closing (package_from_component component)) ;; openDisplayWindowForDisplay d ;;
        emit (OStatus "Could not close application: %@" payload)
    end
  else requestDisplayRemove d).

(** ** Launching *)

Definition ambiguousTransportFailure (payload : bytes) : bool :=
  bool_decide (payload ∈ [bstr "guest request timed out"; bstr "guest agent disconnected";
    bstr "guest control client stopped"; bstr "guest control write failed"; bstr "guest agent not connected"]).

Definition launchFinished (d : Z) (component : bytes) (ok : bool) (payload : bytes) : act :=
  let p := package_from_component component in
  upd (erase_pkg LaunchInFlight p) ;;
  look (fun _ s =>
    if bool_decide (texts s AppBindings !! d <> Some component) then skip
    else if has_pkg Closing p s then
      if negb ok && negb (ambiguousTransportFailure payload)
      then upd (put_text ClosingLaunchFailures d payload) else skip
    else if negb ok then
      cleanupFailedLaunchForDisplay d component (bstr "Could not open application: " ++ payload)
    else upd (erase_pkg Pending p)).

Definition launchComponent (component : bytes) (d : Z) : act := look (fun e s =>
  if shuttingDown s then skip
  else if negb (guestReady e) then
    cleanupFailedLaunchForDisplay d component (bstr "Android agent disconnected during launch")
  else emit (OGuest (guest_command "launch " component d) 15000 (GuestLaunch d component))).

(** The block of [dispatch_after]. *)
Definition launchAfterDelay (component : bytes) (d : Z) : act := look (fun _ s =>
  let p := package_from_component component in
  if bool_decide (texts s AppBindings !! d = Some component) && has_pkg Pending p s &&
     negb (has_pkg Closing p s)
  then upd (add_pkg LaunchInFlight p) ;; launchComponent component d else skip).

(** The completion block of the DISPLAY_ADD of a launch. *)
Definition addFinished (component : bytes) (d : Z) (profile : DisplayLaunchProfile)
    (r : ControlChannel.Response) : act := look (fun _ s =>
  if negb (ControlChannel.r_ok r) then
    if ControlChannel.r_type r =? type_code kError then
      upd (unbindApplicationFromDisplay d) ;; upd (releaseUserDisplayId d) ;;
      emit (OStatus "Could not open application: %@" (ControlChannel.r_errorMessage r))
    else rollbackApplicationDisplay d "Could not open application: %@" (ControlChannel.r_errorMessage r)
  else if (length (ControlChannel.r_payload r) <? wire_size ControlDisplayAddOk)%nat then
    rollbackApplicationDisplay d "Could not read the application window response" []
  else
    let ok : ControlDisplayAddOk := decode (ControlChannel.r_payload r) in
    if bool_decide (appDisplayBindings s !! package_from_component component <> Some d) then
      requestDisplayRemove (addok_displayId ok)
    else if negb (addok_displayId ok =? d) then
      rollbackApplicationDisplay d "Could not reserve an application window" [] ;;
      requestDisplayRemove (addok_displayId ok)
    else
      openDisplayWindow (addok_displayId ok) (width profile) (height profile) ;;
      look (fun _ s =>
        if negb (has Windows (addok_displayId ok) s) then
          rollbackApplicationDisplay (addok_displayId ok) "Application window is unavailable" []
        else emit (OLater component (addok_displayId ok)))).

(** The reservation before DISPLAY_ADD. *)
Definition reserve (component : bytes) (d : Z) (profile : DisplayLaunchProfile)
    (matchesCurrentScreen : bool) (screen : Z) (s : t) : t :=
  let p := package_from_component component in
  let s := put_text AppBindings d component s in
  let s := set_apps (<[p := d]> (appDisplayBindings s)) s in
  let s := add_pkg Pending p s in
  let s := set_profiles (<[d := profile]> (launchProfiles s)) s in
  let s := put_number TargetScreens d screen s in
  if matchesCurrentScreen then add_id ScreenMatched d s else s.

Definition launchApplicationComponent (component : bytes) (profile : DisplayLaunchProfile)
    (matchesCurrentScreen : bool) : act := look (fun e s =>
  if shuttingDown s || bool_decide (component = []) then skip else
  let p := package_from_component component in
  if negb (bool_decide (packages s Uninstalling = ∅)) then
    status "Wait for application uninstall to finish" ;; emit OBeep
  else
  match appDisplayBindings s !! p with
  | Some d =>
      if has_pkg Closing p s || has RemovalPending d s then emit (OStatus "Closing %@" p)
      else
        (if has Windows d s then emit (OFront d) ;; setDisplayStreaming d true else skip) ;;
        emit (OStatus (if has_pkg Pending p s then "Opening %@" else "%@ is already open") p)
  | None =>
      if (0 <? pendingApkInstalls s)%nat then status "Wait for APK installation to finish" ;; emit OBeep
      else if negb (agentConnected s) then status "Waiting for Android"
      else if negb (channelAlive e) then status "Control channel not connected"
      else
        let '(d, s') := allocateUserDisplayId s in
        if d =? 0 then status "Up to 5 applications can run at the same time" ;; emit OBeep
        else
          upd (fun _ => s') ;; upd (reserve component d profile matchesCurrentScreen (targetScreen e)) ;;
          emit (OStatus "Opening %@" p) ;;
          emit (OAdd d profile kNewDisplayFlags (AddLaunch component d profile))
  end).

(** ** Resizing *)

Definition kOrientationResizeSettleTime : Z := 2000.

Definition same_geometry (p : DisplayLaunchProfile) (w h r : Z) : bool :=
  (width p =? w) && (height p =? h) && (dpi p =? r).

Definition resizeDisplay (d w h r : Z) (userInitiated : bool) : act := look (fun e s =>
  if shuttingDown s || (d =? 0) || (kMaxUserDisplayId <? d) || (w =? 0) || (h =? 0) || (r =? 0) ||
     has ResizePending d s || has RemovalPending d s || bool_decide (texts s AppBindings !! d = None)
  then skip else
  match launchProfiles s !! d with
  | None => skip
  | Some previous =>
      if same_geometry previous w h r then skip
      else if negb (channelAlive e) then (if userInitiated then emit OBeep else skip)
      else
        let p := {| title := title previous; width := w; height := h; dpi := r |} in
        upd (set_profiles (<[d := p]> (launchProfiles s))) ;; upd (add_id ResizePending d) ;;
        upd (put_number OrientationSuppressedUntil d (now e + kOrientationResizeSettleTime)) ;;
        emit (OAdd d p kNewDisplayFlags (AddResize d previous userInitiated))
  end).

(** Whether the response accepts the resize; computed before the block is queued. *)
Definition resize_accepted (d : Z) (r : ControlChannel.Response) : bool :=
  ControlChannel.r_ok r && (wire_size ControlDisplayAddOk <=? length (ControlChannel.r_payload r))%nat &&
  (addok_displayId (decode (ControlChannel.r_payload r)) =? d).

Definition resizeFinished (d : Z) (previous : DisplayLaunchProfile) (notifyUser : bool)
    (r : ControlChannel.Response) : act :=
  upd (erase_id ResizePending d) ;;
  look (fun _ s =>
    if bool_decide (texts s AppBindings !! d = None) then upd (erase_number OrientationSuppressedUntil d)
    else if negb (resize_accepted d r) then
      upd (set_profiles (<[d := previous]> (launchProfiles s))) ;;
      upd (erase_number OrientationSuppressedUntil d) ;;
      if notifyUser then
        emit (OStatus "Could not rotate application: %@"
          match ControlChannel.r_errorMessage r with [] => bstr "invalid display resize response" | m => m end) ;;
        emit OBeep
      else skip
    else skip).

(** [pollFocusedApplicationOrientation:]; [focused] is 0 or the display of the key window. *)
Definition pollFocusedApplicationOrientation (focused : Z) : act := look (fun e s =>
  if shuttingDown s || negb (guestReady e) then skip
  else if (focused =? 0) || has ResizePending focused s || has PollInFlight focused s ||
          has RemovalPending focused s then skip
  else
    let poll :=
      upd (add_id PollInFlight focused) ;;
      emit (OGuest (bstr "display-state " ++ dec focused) 1500 (GuestPoll focused)) in
    match numbers s OrientationSuppressedUntil !! focused with
    | Some until =>
        if now e <? until then skip
        else upd (erase_number OrientationSuppressedUntil focused) ;; poll
    | None => poll
    end).

(** Its completion block; [reading] is the logical size, when the answer was read as
    three numbers and the size is positive. *)
Definition pollFinished (d focused : Z) (reading : option (Z * Z)) : act :=
  upd (erase_id PollInFlight d) ;;
  look (fun _ s =>
    match reading, launchProfiles s !! d with
    | Some (logicalWidth, logicalHeight), Some p =>
        if shuttingDown s || negb (focused =? d) || has ResizePending d s || has RemovalPending d s ||
           (logicalWidth =? logicalHeight) || (width p =? height p) ||
           Bool.eqb (logicalHeight <? logicalWidth) (height p <? width p)
        then skip
        else resizeDisplay d (height p) (width p) (dpi p) false
    | _, _ => skip
    end).

Definition rotateFocusedApplication (focused : Z) : act := look (fun _ s =>
  match launchProfiles s !! focused with
  | Some p => if focused =? 0 then emit OBeep else resizeDisplay focused (height p) (width p) (dpi p) true
  | None => emit OBeep
  end).

(** [windowDidChangeScreen:] for the window of [d]: the new screen, the profile that
    matches it, and whether the window is visible. *)
Definition windowDidChangeScreen (d screen : Z) (target : DisplayLaunchProfile) (visible : bool) : act :=
  look (fun _ s =>
    if negb (has Windows d s) then skip
    else
      upd (put_number TargetScreens d screen) ;;
      match (if has ScreenMatched d s then launchProfiles s !! d else None) with
      | Some current =>
          let '(w, h) := if height current <? width current then (height target, width target)
                         else (width target, height target) in
          if same_geometry current w h (dpi target) then skip else resizeDisplay d w h (dpi target) false
      | None => skip
      end ;;
      if shuttingDown s then skip else setDisplayStreaming d visible).

(** ** The emulator and the agent come and go *)

Definition resetSecondaryDisplayStateAfterQemuExit (s : t) : t := {|
  ids := fun _ => ∅;
  packages := fun k => match k with Uninstalling => packages s Uninstalling | _ => ∅ end;
  texts := fun _ => ∅; appDisplayBindings := ∅; launchProfiles := ∅; numbers := fun _ => ∅;
  pendingApkInstalls := pendingApkInstalls s; agentConnected := agentConnected s;
  shuttingDown := shuttingDown s |}.

(** What the supervisor runs on the main queue when the emulator has exited. *)
Definition qemuExited : act :=
  upd (fun s => set_flags (pendingApkInstalls s) false (shuttingDown s) s) ;;
  upd resetSecondaryDisplayStateAfterQemuExit.

(** The order of a [std::map]. *)
Definition by_id (a b : Z * bytes) : Prop := a.1 <= b.1.
#[export] Instance by_id_dec : RelDecision by_id.
Proof. intros a b. unfold by_id. apply _. Defined.

(** The loop over [_deferredLaunchCleanup]. *)
Fixpoint resume_cleanups (entries : list (Z * bytes)) : act :=
  match entries with
  | [] => skip
  | (d, component) :: rest =>
      cleanupFailedLaunchForDisplay d component (bstr "The previous application launch did not complete") ;;
      resume_cleanups rest
  end.

Definition agentChanged (connected : bool) : act := look (fun _ s =>
  if shuttingDown s then skip
  else
    upd (fun s => set_flags (pendingApkInstalls s) connected (shuttingDown s) s) ;;
    if connected then
      status "Loading applications" ;;
      resume_cleanups (merge_sort by_id (map_to_list (texts s DeferredCleanup)))
    else status "Waiting for Android").

(** ** Installing and uninstalling *)

(** [uninstallSelectedApplication:] for a removable application, up to the sheet. *)
Definition uninstallRequested (p : bytes) : act := look (fun e s =>
  if shuttingDown s then skip
  else if bool_decide (is_Some (appDisplayBindings s !! p)) || has_pkg Pending p s || has_pkg Closing p s then
    emit (OStatus "Close %@ before uninstalling it." p) ;; emit OBeep
  else if negb (guestReady e) || (0 <? pendingApkInstalls s)%nat || has_pkg Uninstalling p s then
    status "Waiting for Android" ;; emit OBeep
  else emit (OSheet p)).

Definition uninstallConfirmed (p : bytes) : act := look (fun e s =>
  if shuttingDown s then skip
  else if negb (guestReady e) then status "Waiting for Android"
  else
    upd (add_pkg Uninstalling p) ;; emit (OStatus "Uninstalling %@" p) ;;
    emit (OGuest (bstr "uninstall " ++ p) 60000 (GuestUninstall p))).

Definition uninstallFinished (p : bytes) (ok : bool) (payload : bytes) : act := look (fun _ s =>
  if shuttingDown s then skip
  else
    upd (erase_pkg Uninstalling p) ;;
    if ok then emit (OStatus "%@ uninstalled. Refreshing applications" p)
    else emit (OStatus "Could not uninstall" (match payload with [] => bstr "Unknown uninstall error" | x => x end))).

(** [installApkURLs:], for [count] APK files. *)
Definition installApkURLs (count : nat) : act := look (fun e s =>
  if shuttingDown s || negb (guestReady e) || negb (agentConnected s) || negb (appsReady e) ||
     negb (bool_decide (packages s Uninstalling = ∅)) then emit OBeep
  else upd (fun s => set_flags (pendingApkInstalls s + count) (agentConnected s) (shuttingDown s) s)).

Definition apkInstallFinished : act := look (fun _ s =>
  if shuttingDown s then skip
  else upd (fun s => set_flags (pred (pendingApkInstalls s)) (agentConnected s) (shuttingDown s) s)).

Definition beginTermination : act :=
  upd (fun s => set_flags (pendingApkInstalls s) (agentConnected s) true (set_ids Windows ∅ s)).

(** ** The main queue *)

Inductive event :=
  | ELaunch (component : bytes) (profile : DisplayLaunchProfile) (matches_ : bool)
  | EAddDone (block : add_block) (r : ControlChannel.Response)
  | ELater (component : bytes) (d : Z)
  | EGuestDone (block : guest_block) (ok : bool) (payload : bytes)
  | EPollDone (d focused : Z) (reading : option (Z * Z))
  | EControl (type : Z) (payload : bytes)
  | EWindowClose (d : Z) | EFrame (d : Z)
  | ERotate (focused : Z) | EPoll (focused : Z)
  | EScreen (d screen : Z) (target : DisplayLaunchProfile) (visible : bool)
  | EAgent (connected : bool) | EQemuExited
  | EUninstall (p : bytes) | EUninstallConfirmed (p : bytes)
  | EInstall (count : nat) | EInstallDone
  | ETerminate.

Definition handle (ev : event) : act :=
  match ev with
  | ELaunch component profile m => launchApplicationComponent component profile m
  | EAddDone (AddLaunch component d profile) r => addFinished component d profile r
  | EAddDone (AddResize d previous notify) r => resizeFinished d previous notify r
  | ELater component d => launchAfterDelay component d
  | EGuestDone (GuestClose d component) ok payload => closeFinished d component ok payload
  | EGuestDone (GuestCleanup d component message) ok _ => cleanupFinished d component message ok
  | EGuestDone (GuestLaunch d component) ok payload => launchFinished d component ok payload
  | EGuestDone (GuestPoll d) _ _ => pollFinished d 0 None   (* not read *)
  | EGuestDone (GuestUninstall p) ok payload => uninstallFinished p ok payload
  | EPollDone d focused reading => pollFinished d focused reading
  | EControl type payload => handleControlEvent type payload
  | EWindowClose d => windowWillClose d
  | EFrame d => presentFrameForDisplay d
  | ERotate focused => rotateFocusedApplication focused
  | EPoll focused => pollFocusedApplicationOrientation focused
  | EScreen d screen target visible => windowDidChangeScreen d screen target visible
  | EAgent connected => agentChanged connected
  | EQemuExited => qemuExited
  | EUninstall p => uninstallRequested p
  | EUninstallConfirmed p => uninstallConfirmed p
  | EInstall count => installApkURLs count
  | EInstallDone => apkInstallFinished
  | ETerminate => beginTermination
  end.

End AppDisplays.
