(* ===== verification/AppDisplaysSafety.v ===== *)
(** [shell/ui/macmu_shell.mm]: the invariant of the application tables. Every
    handler of the main queue keeps it, whatever the other components answer and in
    whatever order completion blocks run. *)
From S2P Require Import Prelude Text Posix ControlProtocol ControlChannel AppDisplays.

Module AppDisplaysSafety.
Import AppDisplays.

Abbreviation bindings s := (texts s AppBindings).
Abbreviation package := package_from_component.

Record inv (s : t) : Prop := {
  (* one display per package, and back *)
  i_bound : forall d c, bindings s !! d = Some c -> appDisplayBindings s !! package c = Some d;
  i_app : forall p d, appDisplayBindings s !! p = Some d -> exists c, bindings s !! d = Some c /\ package c = p;
  (* a bound display is reserved, and ids are user ids *)
  i_active : forall d c, bindings s !! d = Some c -> d ∈ ids s ActiveUserIds;
  i_range : forall d, d ∈ ids s ActiveUserIds \/ d ∈ ids s RemovalPending -> 1 <= d <= kMaxUserDisplayId;
  (* what is kept per display belongs to a bound one *)
  i_profiles : forall d, is_Some (launchProfiles s !! d) <-> is_Some (bindings s !! d);
  i_deferred : forall d c, texts s DeferredCleanup !! d = Some c -> bindings s !! d = Some c;
  i_failures : forall d, is_Some (texts s ClosingLaunchFailures !! d) -> is_Some (bindings s !! d);
  (* what is kept per package belongs to a bound one *)
  i_launching : packages s LaunchInFlight ⊆ packages s Pending;
  i_exclusive : packages s Pending ## packages s Closing;
  i_transient : forall p, p ∈ packages s Pending \/ p ∈ packages s Closing -> is_Some (appDisplayBindings s !! p) }.

(** An update of a table the invariant does not mention. *)
Ltac unrelated := match goal with H : inv _ |- _ => destruct H; split; cbn; assumption end.

Lemma seq_upd f b e s : seq (upd f) b e s = b e (f s).
Proof. unfold seq, upd. by destruct (b e (f s)). Qed.

Lemma seq_emit o b e s : (seq (emit o) b e s).1 = (b e s).1.
Proof. unfold seq, emit. by destruct (b e s). Qed.

Lemma seq_state a b e s : (seq a b e s).1 = (b e (a e s).1).1.
Proof. unfold seq. destruct (a e s) as [s1 o1]. cbn. by destruct (b e s1). Qed.

(** ** The primitive updates *)

Lemma init_inv : inv init.
Proof.
  split; cbn; try done; try set_solver.
  intros d. by rewrite !lookup_empty.
Qed.

Lemma unbind_none d s : bindings (unbindApplicationFromDisplay d s) !! d = None.
Proof.
  unfold unbindApplicationFromDisplay. destruct (bindings s !! d) eqn:E; [|done]. cbn.
  apply lookup_delete_eq.
Qed.

Lemma unbind_ids d s k :
  k = Windows \/ k = SuppressRemoveOnClose \/ k = RemovalPending \/ k = ActiveUserIds ->
  ids (unbindApplicationFromDisplay d s) k = ids s k.
Proof.
  intros Hk. unfold unbindApplicationFromDisplay. destruct (bindings s !! d); [|done].
  destruct (appDisplayBindings s !! _) as [d'|]; [destruct (d' =? d)|];
    by destruct Hk as [->|[->|[->| ->]]].
Qed.

Lemma unbind_inv d s : inv s -> inv (unbindApplicationFromDisplay d s).
Proof.
  intros Hi. unfold unbindApplicationFromDisplay.
  destruct (bindings s !! d) as [c|] eqn:Ec; [|done]. destruct Hi as [H1 H2 H3 H4 H5 H6 H7 H8 H9 H10].
  rewrite (H1 d c Ec), Z.eqb_refl.
  assert (forall d' c', d' <> d -> bindings s !! d' = Some c' -> package c' <> package c) as Hne.
  { intros d' c' Hd Hc Hp. apply H1 in Hc. apply H1 in Ec. rewrite Hp in Hc. congruence. }
  split; cbn; try done.
  - intros d' c' [Hd Hc]%lookup_delete_Some. rewrite lookup_delete_ne; [by apply H1|].
    intros Hp. by apply (Hne d' c').
  - intros p d' [Hp Hd]%lookup_delete_Some. destruct (H2 p d' Hd) as (c' & Hc & <-). exists c'.
    split; [|done]. rewrite lookup_delete_ne; [done|]. intros <-. rewrite Ec in Hc. by simplify_eq.
  - intros d' c' [_ Hc]%lookup_delete_Some. by apply (H3 d' c').
  - intros d'. destruct (decide (d' = d)) as [->|Hd]; [by rewrite !lookup_delete_eq|].
    rewrite !lookup_delete_ne by done. apply H5.
  - intros d' c' [Hd Hc]%lookup_delete_Some. rewrite lookup_delete_ne by done. by apply H6.
  - intros d' [x [Hd Hx]%lookup_delete_Some]. rewrite lookup_delete_ne by done. apply H7. by exists x.
  - set_solver.
  - set_solver.
  - intros p Hp. assert (p <> package c) by set_solver. rewrite lookup_delete_ne by done.
    apply H10. set_solver.
Qed.

Lemma release_inv d s : inv s -> bindings s !! d = None -> inv (releaseUserDisplayId d s).
Proof.
  intros [H1 H2 H3 H4 H5 H6 H7 H8 H9 H10] Hd. unfold releaseUserDisplayId.
  destruct (d =? 0); split; cbn; try done.
  - intros d' c Hc. apply elem_of_difference. split; [by apply (H3 d' c)|]. intros ->%elem_of_singleton. congruence.
  - intros d'. rewrite elem_of_difference. intros [[? _]|?]; apply H4; tauto.
Qed.

Lemma add_removal_inv d s : inv s -> 1 <= d <= kMaxUserDisplayId -> inv (add_id RemovalPending d s).
Proof.
  intros [H1 H2 H3 H4 H5 H6 H7 H8 H9 H10] Hd. split; cbn; try done.
  intros d' [Ha|[->%elem_of_singleton|Hr]%elem_of_union]; [apply H4; by left|done|apply H4; by right].
Qed.

Lemma erase_removal_inv d s : inv s -> inv (erase_id RemovalPending d s).
Proof.
  intros [H1 H2 H3 H4 H5 H6 H7 H8 H9 H10]. split; cbn; try done. intros d' Hd. apply H4. set_solver.
Qed.

(** The package of a bound display moves to closing. *)
Lemma closing_inv p s :
  inv s -> is_Some (appDisplayBindings s !! p) ->
  inv (add_pkg Closing p (erase_pkg LaunchInFlight p (erase_pkg Pending p s))).
Proof.
  intros [H1 H2 H3 H4 H5 H6 H7 H8 H9 H10] Hp. split; cbn; try done.
  - set_solver.
  - set_solver.
  - intros q Hq. destruct (decide (q = p)) as [->|]; [done|]. apply H10. set_solver.
Qed.

Lemma erase_closing_inv p s : inv s -> inv (erase_pkg Closing p s).
Proof.
  intros [H1 H2 H3 H4 H5 H6 H7 H8 H9 H10]. split; cbn; try done; [set_solver|].
  intros q Hq. apply H10. set_solver.
Qed.

Lemma erase_launching_inv p s : inv s -> inv (erase_pkg LaunchInFlight p s).
Proof. intros [H1 H2 H3 H4 H5 H6 H7 H8 H9 H10]. split; cbn; try done. set_solver. Qed.

Lemma erase_pending_inv p s :
  inv s -> p ∉ packages s LaunchInFlight -> inv (erase_pkg Pending p s).
Proof.
  intros [H1 H2 H3 H4 H5 H6 H7 H8 H9 H10] Hp. split; cbn; try done; [set_solver|set_solver|].
  intros q Hq. apply H10. set_solver.
Qed.

Lemma launching_inv p s : inv s -> p ∈ packages s Pending -> inv (add_pkg LaunchInFlight p s).
Proof. intros [H1 H2 H3 H4 H5 H6 H7 H8 H9 H10] Hp. split; cbn; try done. set_solver. Qed.

Lemma erase_failure_inv d s : inv s -> inv (erase_text ClosingLaunchFailures d s).
Proof.
  intros [H1 H2 H3 H4 H5 H6 H7 H8 H9 H10]. split; cbn; try done.
  intros d' [x [_ Hx]%lookup_delete_Some]. apply H7. by exists x.
Qed.

Lemma put_failure_inv d x s : inv s -> is_Some (bindings s !! d) -> inv (put_text ClosingLaunchFailures d x s).
Proof.
  intros [H1 H2 H3 H4 H5 H6 H7 H8 H9 H10] Hd. split; cbn; try done.
  intros d' [y [[<- _]|[_ Hy]]%lookup_insert_Some]; [done|]. apply H7. by exists y.
Qed.

Lemma erase_deferred_inv d s : inv s -> inv (erase_text DeferredCleanup d s).
Proof.
  intros [H1 H2 H3 H4 H5 H6 H7 H8 H9 H10]. split; cbn; try done.
  intros d' c [_ Hc]%lookup_delete_Some. by apply H6.
Qed.

Lemma put_deferred_inv d c s : inv s -> bindings s !! d = Some c -> inv (put_text DeferredCleanup d c s).
Proof.
  intros [H1 H2 H3 H4 H5 H6 H7 H8 H9 H10] Hd. split; cbn; try done.
  intros d' x [[<- <-]|[_ Hx]]%lookup_insert_Some; [done|]. by apply H6.
Qed.

Lemma put_profile_inv d p s :
  inv s -> is_Some (bindings s !! d) -> inv (set_profiles (<[d := p]> (launchProfiles s)) s).
Proof.
  intros [H1 H2 H3 H4 H5 H6 H7 H8 H9 H10] Hd. split; cbn; try done.
  intros d'. destruct (decide (d' = d)) as [->|Hne]; [rewrite lookup_insert_eq; by split|].
  rewrite lookup_insert_ne by done. apply H5.
Qed.

Lemma add_active_inv d s : inv s -> 1 <= d <= kMaxUserDisplayId -> inv (add_id ActiveUserIds d s).
Proof.
  intros [H1 H2 H3 H4 H5 H6 H7 H8 H9 H10] Hd. split; cbn; try done.
  - intros d' c Hc. apply elem_of_union. right. by apply (H3 d' c).
  - intros d' [[->%elem_of_singleton|Ha]%elem_of_union|Hr]; [done|apply H4; by left|apply H4; by right].
Qed.

(** ** The handlers *)

Definition keeps (a : act) : Prop := forall e s, inv s -> inv (a e s).1.

Lemma keeps_seq a b : keeps a -> keeps b -> keeps (seq a b).
Proof. intros Ha Hb e s Hi. rewrite seq_state. by apply Hb, Ha. Qed.

Lemma keeps_emit o : keeps (emit o).
Proof. by intros e s Hi. Qed.

Lemma keeps_upd f : (forall s, inv s -> inv (f s)) -> keeps (upd f).
Proof. intros Hf e s Hi. by apply Hf. Qed.

Lemma keeps_skip : keeps skip.
Proof. by intros e s Hi. Qed.

(** A handler that looks at the state first. *)
Lemma keeps_look f : (forall e s, inv s -> inv (f e s e s).1) -> keeps (look f).
Proof. intros Hf e s Hi. by apply Hf. Qed.

Create HintDb app_displays.
#[local] Hint Resolve keeps_seq keeps_emit keeps_skip unbind_inv erase_removal_inv erase_closing_inv
  erase_launching_inv erase_failure_inv erase_deferred_inv closing_inv : app_displays.

(** A display that is left without its application and its reservation. *)
Lemma unbind_release_inv d s :
  inv s -> inv (releaseUserDisplayId d (unbindApplicationFromDisplay d s)).
Proof. intros Hi. apply release_inv; [by apply unbind_inv|apply unbind_none]. Qed.

Lemma user_id d : (d =? 0) || (kMaxUserDisplayId <? d) = false -> 0 <= d -> 1 <= d <= kMaxUserDisplayId.
Proof. intros H ?. bool_to_prop. lia. Qed.

Lemma bound_range d s : inv s -> is_Some (bindings s !! d) -> 1 <= d <= kMaxUserDisplayId.
Proof. intros Hi [c Hc]. apply (i_range s Hi). left. by apply (i_active s Hi d c). Qed.

Lemma requestDisplayRemove_keeps d : 0 <= d -> keeps (requestDisplayRemove d).
Proof.
  intros Hd. apply keeps_look. intros e s Hi.
  destruct (_ || has RemovalPending d s) eqn:E; [done|]. apply orb_false_iff in E as [E _].
  rewrite seq_upd. assert (inv (add_id RemovalPending d s)) as Ha by (apply add_removal_inv; [done|by apply user_id]).
  destruct (negb (channelAlive e)); [|done]. destruct (qemuPid e <=? 0); [|done].
  rewrite !seq_upd. cbn [fst upd]. by apply unbind_release_inv, erase_removal_inv.
Qed.

Lemma setDisplayStreaming_keeps d b : keeps (setDisplayStreaming d b).
Proof. intros e s Hi. unfold setDisplayStreaming, look. by destruct (negb _). Qed.

Lemma openDisplayWindow_keeps d w h : keeps (openDisplayWindow d w h).
Proof.
  apply keeps_look. intros e s Hi. destruct (_ || _); [done|].
  destruct (bindings s !! d) as [c|] eqn:Ec; [|done].
  destruct (_ || has RemovalPending d s); [done|]. destruct (negb (surfaces e)); [done|].
  destruct (has Windows d s); [by apply keeps_seq; auto using keeps_emit, setDisplayStreaming_keeps|].
  rewrite seq_emit, !seq_upd. apply setDisplayStreaming_keeps.
  apply add_active_inv; [unrelated|]. apply (bound_range _ s); [done|]. by exists c.
Qed.

Lemma openDisplayWindowForDisplay_keeps d : keeps (openDisplayWindowForDisplay d).
Proof.
  apply keeps_look. intros e s Hi. destruct (launchProfiles s !! d); by apply openDisplayWindow_keeps.
Qed.

Lemma closeBoundAppAndRemoveDisplay_keeps d : 0 <= d -> keeps (closeBoundAppAndRemoveDisplay d).
Proof.
  intros Hd. apply keeps_look. intros e s Hi. destruct (shuttingDown s); [done|].
  destruct (bindings s !! d) as [c|] eqn:Ec; [|by apply requestDisplayRemove_keeps].
  rewrite !seq_upd.
  assert (inv (add_pkg Closing (package c) (erase_text ClosingLaunchFailures d
    (erase_pkg LaunchInFlight (package c) (erase_pkg Pending (package c) s))))) as Hc.
  { assert (is_Some (appDisplayBindings s !! package c)) as Hs by (rewrite (i_bound s Hi d c Ec); eauto).
    pose proof (erase_failure_inv d _ (closing_inv (package c) s Hi Hs)) as H. unrelated. }
  destruct (_ && _); [by apply requestDisplayRemove_keeps|].
  destruct (negb (guestReady e)); [|done].
  rewrite seq_upd. apply (keeps_seq _ _ (openDisplayWindowForDisplay_keeps d) (keeps_emit _)).
  by apply erase_closing_inv.
Qed.

Lemma windowWillClose_keeps d : 0 <= d -> keeps (windowWillClose d).
Proof.
  intros Hd. apply keeps_look. intros e s Hi. destruct (shuttingDown s); [done|].
  destruct (negb (has Windows d s)); [done|].
  rewrite seq_state. set (s1 := (setDisplayStreaming d false e s).1).
  assert (inv s1) as H1 by (by apply setDisplayStreaming_keeps). clearbody s1. rewrite seq_upd.
  assert (inv (erase_id Windows d s1)) as H2 by unrelated. unfold look at 1.
  destruct (has SuppressRemoveOnClose d _); [|by apply closeBoundAppAndRemoveDisplay_keeps].
  rewrite !seq_upd. unfold look.
  assert (inv (erase_id SuppressRemoveOnClose d (erase_id Windows d s1))) as H3 by unrelated.
  destruct (has RemovalPending d _); [by apply unbind_inv|by apply unbind_release_inv].
Qed.

Lemma closeSuppressed_keeps d : 0 <= d -> keeps (closeSuppressed d).
Proof.
  intros Hd. apply keeps_seq; [|by apply windowWillClose_keeps]. apply keeps_upd. intros s Hi. unrelated.
Qed.

Lemma rollback_keeps d message x : 0 <= d -> keeps (rollbackApplicationDisplay d message x).
Proof.
  intros Hd. unfold rollbackApplicationDisplay.
  repeat apply keeps_seq; auto using keeps_emit, requestDisplayRemove_keeps, keeps_upd, unbind_inv.
  apply keeps_look. intros e s Hi. destruct (has Windows d s); [by apply closeSuppressed_keeps|done].
Qed.

Lemma handleControlEvent_keeps type payload : keeps (handleControlEvent type payload).
Proof.
  apply keeps_look. intros e s Hi. destruct (shuttingDown s); [done|].
  destruct (negb _ || (length payload <? _)%nat); [done|].
  set (ev := decode payload). assert (0 <= ev_displayId ev) as Hpos by apply (field_range 0 4).
  cbv zeta. clearbody ev. destruct ((ev_displayId ev =? 0) || _); [done|].
  destruct (ev_state ev =? kControlDisplayAdded).
  - destruct (bindings s !! ev_displayId ev) as [c|] eqn:Ec; [|by apply requestDisplayRemove_keeps].
    rewrite seq_state. apply openDisplayWindow_keeps.
    destruct (launchProfiles s !! _) as [p|]; [|done]. destruct (_ && _); [|done].
    apply put_profile_inv; [done|]. by exists c.
  - destruct (ev_state ev =? kControlDisplayRemoved); [|done]. rewrite !seq_upd. unfold look at 1.
    assert (inv (erase_id RemovalPending (ev_displayId ev) s)) as H1 by (by apply erase_removal_inv).
    destruct (has Windows _ _); [|by apply unbind_release_inv].
    apply closeSuppressed_keeps; [done|by apply unbind_inv].
Qed.

Lemma presentFrameForDisplay_keeps d : keeps (presentFrameForDisplay d).
Proof.
  apply keeps_look. intros e s Hi. destruct (_ || _); [done|]. apply keeps_seq; [| |done].
  - destruct (has Windows d s); [apply keeps_skip|apply openDisplayWindowForDisplay_keeps].
  - apply keeps_look. intros e' s' Hs'. by destruct (has Windows d s').
Qed.

Lemma cleanupFailedLaunch_keeps d c message : keeps (cleanupFailedLaunchForDisplay d c message).
Proof.
  apply keeps_look. intros e s Hi. destruct (_ || _) eqn:E; [done|].
  apply orb_false_iff in E as [_ E]. apply bool_decide_eq_false in E. apply dec_stable in E.
  rewrite !seq_upd.
  assert (inv (put_text DeferredCleanup d c (add_pkg Closing (package c) (erase_pkg LaunchInFlight (package c)
    (erase_pkg Pending (package c) s))))) as H.
  { apply put_deferred_inv; [|done]. apply closing_inv; [done|]. rewrite (i_bound s Hi d c E). eauto. }
  by destruct (negb (guestReady e)).
Qed.

(** The two tests of a completion block. *)
Lemma bound_of d c s : bool_decide (bindings s !! d <> Some c) = false -> bindings s !! d = Some c.
Proof. intros E. apply bool_decide_eq_false in E. by apply dec_stable in E. Qed.

Lemma cleanupFinished_keeps d c message ok : keeps (cleanupFinished d c message ok).
Proof.
  apply keeps_look. intros e s Hi. destruct (_ || _) eqn:E; [done|].
  apply orb_false_iff in E as [_ E%bound_of].
  destruct (negb ok); [done|]. rewrite seq_upd. apply rollback_keeps; [|by apply erase_deferred_inv].
  assert (1 <= d <= kMaxUserDisplayId) by (apply (bound_range d s); [done|by exists c]). lia.
Qed.

Lemma closeFinished_keeps d c ok payload : keeps (closeFinished d c ok payload).
Proof.
  apply keeps_look. intros e s Hi. destruct (bool_decide _) eqn:E; [done|]. apply bound_of in E.
  assert (0 <= d) as Hd. { assert (1 <= d <= kMaxUserDisplayId) by (apply (bound_range d s); [done|by exists c]). lia. }
  destruct (negb ok); [|by apply requestDisplayRemove_keeps].
  destruct (texts s ClosingLaunchFailures !! d).
  - apply keeps_seq; [apply keeps_emit|by apply requestDisplayRemove_keeps|done].
  - rewrite seq_upd. apply keeps_seq; [apply openDisplayWindowForDisplay_keeps|apply keeps_emit|].
    by apply erase_closing_inv.
Qed.

Lemma launchFinished_keeps d c ok payload : keeps (launchFinished d c ok payload).
Proof.
  intros e s Hi. unfold launchFinished. rewrite seq_upd. unfold look.
  assert (inv (erase_pkg LaunchInFlight (package c) s)) as H1 by (by apply erase_launching_inv).
  destruct (bool_decide _) eqn:E; [done|]. apply bound_of in E.
  destruct (has_pkg Closing _ _).
  { destruct (_ && _); [|done]. apply put_failure_inv; [done|]. by exists c. }
  destruct (negb ok); [by apply cleanupFailedLaunch_keeps|].
  apply erase_pending_inv; [done|]. cbn. set_solver.
Qed.

Lemma launchComponent_keeps c d : keeps (launchComponent c d).
Proof.
  apply keeps_look. intros e s Hi. destruct (shuttingDown s); [done|].
  destruct (negb _); [by apply cleanupFailedLaunch_keeps|done].
Qed.

Lemma launchAfterDelay_keeps c d : keeps (launchAfterDelay c d).
Proof.
  apply keeps_look. intros e s Hi. cbv zeta. destruct (_ && negb _) eqn:E; [|done].
  apply andb_true_iff in E as [[_ E]%andb_true_iff _]. apply bool_decide_eq_true in E.
  rewrite seq_upd. by apply launchComponent_keeps, launching_inv.
Qed.

Lemma addFinished_keeps c d profile r : 0 <= d -> keeps (addFinished c d profile r).
Proof.
  intros Hd. apply keeps_look. intros e s Hi. destruct (negb _).
  { destruct (_ =? type_code kError); [|by apply rollback_keeps].
    rewrite !seq_upd. by apply unbind_release_inv. }
  destruct (_ <? _)%nat; [by apply rollback_keeps|].
  set (ok := decode _). assert (0 <= addok_displayId ok) as Hok by apply (field_range 0 4).
  cbv zeta. clearbody ok.
  destruct (bool_decide _); [by apply requestDisplayRemove_keeps|].
  destruct (negb _).
  { apply keeps_seq; [by apply rollback_keeps|by apply requestDisplayRemove_keeps|done]. }
  apply keeps_seq; [apply openDisplayWindow_keeps| |done].
  apply keeps_look. intros e' s' Hs'. destruct (negb _); [by apply rollback_keeps|done].
Qed.

Lemma first_free_spec cs s d :
  first_free cs s = d -> d <> 0 -> d ∈ cs /\ d ∉ ids s ActiveUserIds /\ d ∉ ids s RemovalPending.
Proof.
  induction cs as [|c cs IH]; simpl; intros H Hd; [done|].
  destruct (_ && _) eqn:E; [|destruct (IH H Hd); set_solver]. subst.
  apply andb_true_iff in E as [E1 E2]. unfold has in *. rewrite negb_true_iff, bool_decide_eq_false in *.
  set_solver.
Qed.

Lemma allocated_range d s : first_free (seqZ 1 kMaxUserDisplayId) s = d -> d <> 0 -> 1 <= d <= kMaxUserDisplayId.
Proof.
  intros H Hd. apply first_free_spec in H as [H _]; [|done]. apply elem_of_seqZ in H.
  unfold kMaxUserDisplayId in *. lia.
Qed.

Lemma reserve_inv c d profile m screen s :
  inv s -> d ∉ ids s ActiveUserIds -> 1 <= d <= kMaxUserDisplayId -> appDisplayBindings s !! package c = None ->
  inv (reserve c d profile m screen (add_id ActiveUserIds d s)).
Proof.
  intros [H1 H2 H3 H4 H5 H6 H7 H8 H9 H10] Hd Hr Hp.
  assert (bindings s !! d = None) as Hb.
  { destruct (bindings s !! d) as [c'|] eqn:E; [|done]. by apply H3 in E. }
  assert (inv (reserve c d profile false screen (add_id ActiveUserIds d s))) as Hi.
  - split; cbn; try done.
    + intros d' c' [[<- <-]|[Hne Hc]]%lookup_insert_Some; [by rewrite lookup_insert_eq|].
      apply H1 in Hc. rewrite lookup_insert_ne; [done|]. intros E. congruence.
    + intros p d' [[<- <-]|[Hne Hd']]%lookup_insert_Some; [exists c; by rewrite lookup_insert_eq|].
      destruct (H2 p d' Hd') as (c' & Hc & <-). exists c'. split; [|done].
      rewrite lookup_insert_ne; [done|]. intros <-. congruence.
    + intros d' c' [[<- _]|[_ Hc]]%lookup_insert_Some; [set_solver|]. apply H3 in Hc. set_solver.
    + intros d' [[->%elem_of_singleton|Ha]%elem_of_union|Ha]; [done|apply H4; by left|apply H4; by right].
    + intros d'. destruct (decide (d' = d)) as [->|Hne]; [by rewrite !lookup_insert_eq|].
      rewrite !lookup_insert_ne by done. apply H5.
    + intros d' c' Hc. apply H6 in Hc. rewrite lookup_insert_ne; [done|]. intros <-. congruence.
    + intros d' Hs. apply H7 in Hs. rewrite lookup_insert_ne; [done|]. intros <-. rewrite Hb in Hs. by destruct Hs.
    + set_solver.
    + assert (package c ∉ packages s Closing); [|set_solver]. intros Hc.
      destruct (H10 (package c)) as [x Hx]; [by right|]. congruence.
    + intros p Hq. destruct (decide (p = package c)) as [->|Hne]; [rewrite lookup_insert_eq; by eexists|].
      rewrite lookup_insert_ne by done. apply H10. set_solver.
  - destruct m; [|done]. unrelated.
Qed.

Lemma launch_keeps c profile m : keeps (launchApplicationComponent c profile m).
Proof.
  apply keeps_look. intros e s Hi. destruct (_ || _); [done|]. cbv zeta.
  destruct (negb _); [done|]. destruct (appDisplayBindings s !! package c) as [d|] eqn:Ep.
  { destruct (_ || _); [done|]. apply keeps_seq; [|apply keeps_emit|done].
    destruct (has Windows d s); [|apply keeps_skip].
    apply keeps_seq; [apply keeps_emit|apply setDisplayStreaming_keeps]. }
  destruct (0 <? _)%nat; [done|]. destruct (negb _); [done|]. destruct (negb _); [done|].
  unfold allocateUserDisplayId. set (d := first_free _ s). destruct (d =? 0) eqn:Ed; [done|].
  apply Z.eqb_neq in Ed. destruct (first_free_spec _ _ d eq_refl Ed) as (_ & Ha & _).
  rewrite !seq_upd. apply reserve_inv; [done|done|by eapply allocated_range|done].
Qed.

Lemma resizeDisplay_keeps d w h r u : keeps (resizeDisplay d w h r u).
Proof.
  apply keeps_look. intros e s Hi.
  destruct (_ || bool_decide (bindings s !! d = None)) eqn:E; [done|].
  apply orb_false_iff in E as [_ E]. apply bool_decide_eq_false in E.
  destruct (launchProfiles s !! d) as [p|]; [|done]. destruct (same_geometry _ _ _ _); [done|].
  destruct (negb (channelAlive e)); [by destruct u|]. rewrite !seq_upd.
  pose proof (put_profile_inv d {| title := title p; width := w; height := h; dpi := r |} s Hi) as H.
  specialize (H ltac:(by apply not_eq_None_Some)). unrelated.
Qed.

Lemma resizeFinished_keeps d p u r : keeps (resizeFinished d p u r).
Proof.
  intros e s Hi. unfold resizeFinished. rewrite seq_upd. unfold look.
  assert (inv (erase_id ResizePending d s)) as H1 by unrelated.
  destruct (bool_decide _) eqn:E; [unrelated|]. apply bool_decide_eq_false in E.
  destruct (negb _); [|done]. rewrite !seq_upd.
  assert (inv (set_profiles (<[d := p]> (launchProfiles s)) (erase_id ResizePending d s))) as H2
    by (apply (put_profile_inv d p _ H1); by apply not_eq_None_Some).
  destruct u; [rewrite seq_emit|]; unrelated.
Qed.

Lemma poll_keeps focused : keeps (pollFocusedApplicationOrientation focused).
Proof.
  apply keeps_look. intros e s Hi. destruct (_ || negb _); [done|]. destruct (_ || _); [done|].
  cbv zeta. assert (keeps (seq (upd (add_id PollInFlight focused))
    (emit (OGuest (bstr "display-state " ++ dec focused) 1500 (GuestPoll focused))))) as Hk.
  { apply keeps_seq; [|apply keeps_emit]. apply keeps_upd. intros s' Hs'. unrelated. }
  destruct (numbers s _ !! focused) as [until|]; [|by apply Hk]. destruct (_ <? _); [done|].
  rewrite seq_upd. apply Hk. unrelated.
Qed.

Lemma pollFinished_keeps d focused reading : keeps (pollFinished d focused reading).
Proof.
  intros e s Hi. unfold pollFinished. rewrite seq_upd. unfold look.
  assert (inv (erase_id PollInFlight d s)) as H1 by unrelated.
  destruct reading as [[lw lh]|]; [|done]. destruct (launchProfiles _ !! d); [|done].
  destruct (_ || _); [done|by apply resizeDisplay_keeps].
Qed.

Lemma windowDidChangeScreen_keeps d screen target visible : keeps (windowDidChangeScreen d screen target visible).
Proof.
  apply keeps_look. intros e s Hi. destruct (negb _); [done|]. rewrite seq_upd.
  apply keeps_seq; [| |unrelated].
  - destruct (if has ScreenMatched d s then _ else _) as [current|]; [|apply keeps_skip].
    destruct (height current <? width current); (destruct (same_geometry _ _ _ _);
      [apply keeps_skip|apply resizeDisplay_keeps]).
  - destruct (shuttingDown s); [apply keeps_skip|apply setDisplayStreaming_keeps].
Qed.

Lemma reset_inv s : inv (resetSecondaryDisplayStateAfterQemuExit s).
Proof.
  split; cbn; try done; try set_solver. intros d. by rewrite !lookup_empty.
Qed.

Lemma resume_keeps entries : keeps (resume_cleanups entries).
Proof.
  induction entries as [|[d c] rest IH]; [apply keeps_skip|].
  apply keeps_seq; [apply cleanupFailedLaunch_keeps|done].
Qed.

Lemma agentChanged_keeps b : keeps (agentChanged b).
Proof.
  apply keeps_look. intros e s Hi. destruct (shuttingDown s) eqn:Es; [done|]. rewrite seq_upd.
  destruct b; [apply keeps_seq; [apply keeps_emit|apply resume_keeps|]|]; unrelated.
Qed.

(** Display ids are unsigned. *)
Definition event_ok (ev : event) : Prop :=
  match ev with EAddDone (AddLaunch _ d _) _ | EWindowClose d => 0 <= d | _ => True end.

Lemma uninstalling_inv p s : inv s -> inv (add_pkg Uninstalling p s) /\ inv (erase_pkg Uninstalling p s).
Proof. intros Hi. split; unrelated. Qed.

Lemma handle_keeps ev : event_ok ev -> keeps (handle ev).
Proof.
  destruct ev as [| [] | | [] | | | | | | | | | | | | | |]; intros Hok; cbn [handle event_ok] in *;
    auto using launch_keeps, addFinished_keeps, resizeFinished_keeps, launchAfterDelay_keeps,
      closeFinished_keeps, cleanupFinished_keeps, launchFinished_keeps, pollFinished_keeps,
      handleControlEvent_keeps, windowWillClose_keeps, presentFrameForDisplay_keeps, poll_keeps,
      windowDidChangeScreen_keeps, agentChanged_keeps.
  - apply keeps_look. intros e s Hi. destruct (shuttingDown s); [done|]. rewrite seq_upd.
    destruct ok; apply uninstalling_inv; done.
  - apply keeps_look. intros e s Hi. destruct (launchProfiles s !! _); [|done].
    destruct (_ =? 0); [done|by apply resizeDisplay_keeps].
  - intros e s Hi. apply reset_inv.
  - apply keeps_look. intros e s Hi. destruct (shuttingDown s); [done|].
    destruct (_ || _); [done|]. by destruct (_ || _).
  - apply keeps_look. intros e s Hi. destruct (shuttingDown s); [done|].
    destruct (negb _); [done|]. rewrite seq_upd. by apply uninstalling_inv.
  - apply keeps_look. intros e s Hi. destruct (_ || _); [done|]. unrelated.
  - apply keeps_look. intros e s Hi. destruct (shuttingDown s); [done|]. unrelated.
  - intros e s Hi. unrelated.
Qed.

(** A run of the main queue: every block with what the other components answer then. *)
Fixpoint run (evs : list (env * event)) (s : t) : t :=
  match evs with [] => s | (e, ev) :: evs => run evs (handle ev e s).1 end.

Lemma run_inv evs s : Forall (fun x => event_ok x.2) evs -> inv s -> inv (run evs s).
Proof.
  revert s. induction evs as [|[e ev] evs IH]; intros s HF Hi; [done|].
  apply Forall_cons in HF as [Hok HF]. apply IH; [done|]. by apply handle_keeps.
Qed.

(** The displays a handler asks the emulator to add. *)
Definition added (outs : list out) : list Z :=
  flat_map (fun o => match o with OAdd d _ _ _ => [d] | _ => [] end) outs.

(** A launch asks for a display at most once, for a free one, and for none when its
    package has one. *)
Lemma launch_adds c profile m e s d :
  d ∈ added (launchApplicationComponent c profile m e s).2 ->
  added (launchApplicationComponent c profile m e s).2 = [d] /\
  appDisplayBindings s !! package c = None /\ 1 <= d <= kMaxUserDisplayId /\
  d ∉ ids s ActiveUserIds /\ d ∉ ids s RemovalPending /\
  (launchApplicationComponent c profile m e s).1 =
    reserve c d profile m (targetScreen e) (add_id ActiveUserIds d s).
Proof.
  unfold launchApplicationComponent, look. destruct (_ || _); [set_solver|]. cbv zeta.
  destruct (negb _); [set_solver|]. destruct (appDisplayBindings s !! package c) as [d'|] eqn:Ep.
  { destruct (_ || _); [set_solver|]. unfold seq, setDisplayStreaming, look.
    destruct (has Windows d' s), (negb (channelReady e)); set_solver. }
  destruct (0 <? _)%nat; [set_solver|]. destruct (negb _); [set_solver|]. destruct (negb _); [set_solver|].
  unfold allocateUserDisplayId. set (d' := first_free _ s). destruct (d' =? 0) eqn:Ed; [set_solver|].
  apply Z.eqb_neq in Ed. destruct (first_free_spec _ _ d' eq_refl Ed) as (_ & Ha & Hr).
  pose proof (allocated_range d' s eq_refl Ed). rewrite !seq_upd. intros ->%list_elem_of_singleton. done.
Qed.

Lemma bindings_size s : inv s -> (size (bindings s) <= 5)%nat.
Proof.
  intros Hi. rewrite <- size_dom. transitivity (size (list_to_set (seqZ 1 kMaxUserDisplayId) : gset Z)); [|done].
  apply subseteq_size. intros d [c Hc]%elem_of_dom. apply elem_of_list_to_set, elem_of_seqZ.
  assert (1 <= d <= kMaxUserDisplayId) by (apply (bound_range d s Hi); by exists c). lia.
Qed.

(** ** Windows are opened for bound displays *)

(** The action binds no display and opens windows only for displays that are bound. *)
Definition opens (a : act) : Prop := forall e s,
  bindings (a e s).1 ⊆ bindings s /\ forall d w x, OWindow d w x ∈ (a e s).2 -> is_Some (bindings s !! d).

Lemma opens_seq a b : opens a -> opens b -> opens (seq a b).
Proof.
  intros Ha Hb e s. unfold seq. destruct (Ha e s) as [Hs Ho]. destruct (a e s) as [s1 o1]. cbn in Hs, Ho.
  destruct (Hb e s1) as [Hs1 Ho1]. destruct (b e s1) as [s2 o2]. cbn in *. split; [by etrans|].
  intros d w x [Hin|Hin]%elem_of_app; [by eapply Ho|]. destruct (Ho1 d w x Hin) as [c Hc].
  exists c. by eapply lookup_weaken.
Qed.

Lemma opens_look f : (forall e s, opens (f e s)) -> opens (look f).
Proof. intros Hf e s. apply Hf. Qed.

Lemma opens_skip : opens skip.
Proof. intros e s. split; [done|]. intros d w x. by rewrite elem_of_nil. Qed.

Lemma opens_emit o : match o with OWindow _ _ _ => False | _ => True end -> opens (emit o).
Proof. intros Ho e s. split; [done|]. intros d w x Hin%list_elem_of_singleton. by subst o. Qed.

Lemma opens_upd f : (forall s, bindings (f s) ⊆ bindings s) -> opens (upd f).
Proof. intros Hf e s. split; [apply Hf|]. intros d w x. by rewrite elem_of_nil. Qed.

Lemma unbind_subseteq d s : bindings (unbindApplicationFromDisplay d s) ⊆ bindings s.
Proof.
  unfold unbindApplicationFromDisplay. destruct (bindings s !! d); [|done]. cbn.
  destruct (appDisplayBindings s !! _) as [d'|]; [destruct (d' =? d)|]; apply delete_subseteq.
Qed.

Lemma release_bindings d s : bindings (releaseUserDisplayId d s) = bindings s.
Proof. unfold releaseUserDisplayId. by destruct (d =? 0). Qed.

Create HintDb opens.
Ltac opens_walk := repeat (cbv zeta; match goal with
  | |- opens (seq _ _) => apply opens_seq
  | |- opens (emit _) => apply opens_emit; exact I
  | |- opens (status _) => apply opens_emit; exact I
  | |- opens skip => apply opens_skip
  | |- opens (upd (unbindApplicationFromDisplay _)) => apply opens_upd, unbind_subseteq
  | |- opens (upd (releaseUserDisplayId _)) => apply opens_upd; intros ?; by rewrite release_bindings
  | |- opens (upd _) => apply opens_upd; intros ?; cbn; done
  | |- opens (if ?b then _ else _) => destruct b
  | |- opens (match ?x with _ => _ end) => destruct x
  | |- opens _ => solve [auto with opens]
  | |- opens (look _) => apply opens_look; intros ? ?
  end).

Lemma opens_remove d : opens (requestDisplayRemove d).
Proof. unfold requestDisplayRemove. opens_walk. Qed.
Lemma opens_streaming d b : opens (setDisplayStreaming d b).
Proof. unfold setDisplayStreaming. opens_walk. Qed.
#[local] Hint Resolve opens_remove opens_streaming : opens.

Lemma opens_window d w x : opens (openDisplayWindow d w x).
Proof.
  intros e s. unfold openDisplayWindow, look at 1 2. destruct (_ || _); [apply opens_skip|].
  destruct (bindings s !! d) as [c|] eqn:Eb; [|apply opens_skip]. destruct (_ || _); [apply opens_skip|].
  destruct (negb _); [by apply opens_emit|].
  destruct (has Windows d s); [by apply opens_seq; [apply opens_emit|apply opens_streaming]|].
  assert (opens (upd (add_id Windows d) ;; upd (add_id ActiveUserIds d) ;; setDisplayStreaming d true)) as Hk
    by opens_walk.
  specialize (Hk e s). revert Hk. set (k := seq (upd _) _). clearbody k. unfold seq. cbn [emit].
  destruct (k e s) as [s2 o2]. intros [H1 H2]. split; [done|].
  intros d' w' x' [[= -> _ _]|Hin]%elem_of_cons; [by exists c|]. by eapply H2.
Qed.
#[local] Hint Resolve opens_window : opens.

Lemma opens_window_for d : opens (openDisplayWindowForDisplay d).
Proof. unfold openDisplayWindowForDisplay. opens_walk. Qed.
#[local] Hint Resolve opens_window_for : opens.
Lemma opens_close_bound d : opens (closeBoundAppAndRemoveDisplay d).
Proof. unfold closeBoundAppAndRemoveDisplay. opens_walk. Qed.
#[local] Hint Resolve opens_close_bound : opens.
Lemma opens_window_close d : opens (windowWillClose d).
Proof. unfold windowWillClose. opens_walk. Qed.
#[local] Hint Resolve opens_window_close : opens.
Lemma opens_suppressed d : opens (closeSuppressed d).
Proof. unfold closeSuppressed. opens_walk. Qed.
#[local] Hint Resolve opens_suppressed : opens.
Lemma opens_rollback d m x : opens (rollbackApplicationDisplay d m x).
Proof. unfold rollbackApplicationDisplay. opens_walk. Qed.
Lemma opens_cleanup d c m : opens (cleanupFailedLaunchForDisplay d c m).
Proof. unfold cleanupFailedLaunchForDisplay. opens_walk. Qed.
Lemma opens_resize d w x r u : opens (resizeDisplay d w x r u).
Proof. unfold resizeDisplay. opens_walk. Qed.
#[local] Hint Resolve opens_rollback opens_cleanup opens_resize : opens.
Lemma opens_resume entries : opens (resume_cleanups entries).
Proof. induction entries as [|[d c] rest IH]; cbn [resume_cleanups]; opens_walk. Qed.
Lemma opens_component c d : opens (launchComponent c d).
Proof. unfold launchComponent. opens_walk. Qed.
#[local] Hint Resolve opens_resume opens_component : opens.

Lemma launch_no_window c profile m e s d w x :
  OWindow d w x ∉ (launchApplicationComponent c profile m e s).2.
Proof.
  unfold launchApplicationComponent, look. destruct (_ || _); [set_solver|]. cbv zeta.
  destruct (negb _); [set_solver|]. destruct (appDisplayBindings s !! package c) as [d'|] eqn:Ep.
  { destruct (_ || _); [set_solver|]. unfold seq, setDisplayStreaming, look.
    destruct (has Windows d' s), (negb (channelReady e)); set_solver. }
  destruct (0 <? _)%nat; [set_solver|]. destruct (negb _); [set_solver|]. destruct (negb _); [set_solver|].
  destruct (allocateUserDisplayId s) as [d' s']. destruct (d' =? 0); [set_solver|]. rewrite !seq_upd. set_solver.
Qed.

(** Every handler; a launch binds a display, and opens no window. *)
Lemma handle_opens ev e s d w x :
  OWindow d w x ∈ (handle ev e s).2 -> is_Some (bindings s !! d).
Proof.
  destruct ev as [c p m|[c d' p|d' p u] r|c d'|[d' c|d' c msg|d' c|d'|q] ok payload|d' focused reading|ty pl|d'|d'|focused|focused|d' screen target visible|b| |q|q|n| |];
    cbn [handle]; intros Hin; revert Hin.
  1: { intros Hin. by apply launch_no_window in Hin. }
  all: match goal with |- _ ∈ (?a _ _).2 -> _ => assert (opens a) as Ho; [|intros Hin; by eapply Ho] end.
  - unfold addFinished. opens_walk.
  - unfold resizeFinished. opens_walk.
  - unfold launchAfterDelay. opens_walk.
  - unfold closeFinished. opens_walk.
  - unfold cleanupFinished. opens_walk.
  - unfold launchFinished. opens_walk.
  - unfold pollFinished. opens_walk.
  - unfold uninstallFinished. opens_walk.
  - unfold pollFinished. opens_walk.
  - unfold handleControlEvent. opens_walk.
  - opens_walk.
  - unfold presentFrameForDisplay. opens_walk.
  - unfold rotateFocusedApplication. opens_walk.
  - unfold pollFocusedApplicationOrientation. opens_walk.
  - unfold windowDidChangeScreen. opens_walk.
  - unfold agentChanged. opens_walk.
  - unfold qemuExited. opens_walk. apply opens_upd. intros s'. apply map_empty_subseteq.
  - unfold uninstallRequested. opens_walk.
  - unfold uninstallConfirmed. opens_walk.
  - unfold installApkURLs. opens_walk.
  - unfold apkInstallFinished. opens_walk.
  - unfold beginTermination. opens_walk.
Qed.

(** C9: after any sequence of events of the main queue, whatever the emulator,
    the guest agent and the user do: a package has at most one display and a display
    one package, the two tables agree, and at most five displays are bound, with ids
    from 1 to 5 that are reserved. Exactly the bound displays have a launch profile;
    a deferred cleanup names the component its display is bound to, and a failure
    noted during a close belongs to a bound display. A package is being opened or
    closed only while it has a display, never both, and a launch request is out only
    while it is being opened. The next event opens a window only for a bound
    display. A launch asks for a display only when its package has none, for one id,
    which no application and no unfinished removal holds. *)
Theorem applications_one_display evs :
  Forall (fun x => event_ok x.2) evs ->
  let s := run evs init in
  (forall d d' c c', bindings s !! d = Some c -> bindings s !! d' = Some c' -> package c = package c' -> d = d') /\
  (forall p d, appDisplayBindings s !! p = Some d <-> exists c, bindings s !! d = Some c /\ package c = p) /\
  (size (bindings s) <= 5)%nat /\
  (forall d c, bindings s !! d = Some c -> 1 <= d <= kMaxUserDisplayId /\ d ∈ ids s ActiveUserIds) /\
  (forall d, is_Some (launchProfiles s !! d) <-> is_Some (bindings s !! d)) /\
  (forall d c, texts s DeferredCleanup !! d = Some c -> bindings s !! d = Some c) /\
  (forall d, is_Some (texts s ClosingLaunchFailures !! d) -> is_Some (bindings s !! d)) /\
  packages s LaunchInFlight ⊆ packages s Pending /\ packages s Pending ## packages s Closing /\
  (forall p, p ∈ packages s Pending \/ p ∈ packages s Closing -> is_Some (appDisplayBindings s !! p)) /\
  (forall ev e d w x, OWindow d w x ∈ (handle ev e s).2 -> is_Some (bindings s !! d)) /\
  (forall e c profile m d, d ∈ added (launchApplicationComponent c profile m e s).2 ->
     added (launchApplicationComponent c profile m e s).2 = [d] /\
     appDisplayBindings s !! package c = None /\ bindings s !! d = None /\ 1 <= d <= kMaxUserDisplayId /\
     d ∉ ids s ActiveUserIds /\ d ∉ ids s RemovalPending).
Proof.
  intros HF s. assert (inv s) as Hi by (apply run_inv; [done|apply init_inv]).
  pose proof (bindings_size s Hi) as Hsz. destruct Hi as [H1 H2 H3 H4 H5 H6 H7 H8 H9 H10].
  split; [|split; [|split; [done|split; [|do 6 (split; [done|]); split; [exact (fun ev e => handle_opens ev e s)|]]]]].
  - intros d d' c c' Hc Hc' E. apply H1 in Hc. apply H1 in Hc'. rewrite E in Hc. congruence.
  - intros p d. split; [apply H2|]. intros (c & Hc & <-). by apply H1.
  - intros d c Hc. apply H3 in Hc. split; [|done]. apply H4. by left.
  - intros e c profile m d Hd. destruct (launch_adds _ _ _ _ _ _ Hd) as (? & ? & ? & ? & ? & _).
    split; [done|]. split; [done|]. split; [|done].
    destruct (bindings s !! d) as [c'|] eqn:Ec; [|done]. by apply H3 in Ec.
Qed.
End AppDisplaysSafety.

(** ** Concrete runs *)
Import AppDisplays AppDisplaysSafety.

Definition demo_env : env := {| channelAlive := true; channelReady := true; guestReady := true; qemuPid := 7;
  surfaces := true; appsReady := true; targetScreen := 1; refreshRate := 60; now := 0 |}.

Definition demo_profile : DisplayLaunchProfile := {| title := "phone"; width := 720; height := 1600; dpi := 240 |}.

Definition add_ok (d : Z) : ControlChannel.Response := {|
  ControlChannel.r_ok := true; ControlChannel.r_type := 0; ControlChannel.r_errorCode := 0;
  ControlChannel.r_errorMessage := []; ControlChannel.r_payload := encode {| addok_displayId := d |} |}.

Definition display_event (state d : Z) : event := EControl (type_code kEventDisplay)
  (encode {| ev_displayId := d; ev_state := state; ev_width := 720; ev_height := 1600; ev_dpi := 240; ev_flags := 0 |}).

Definition mail : bytes := bstr "mail/.Main".
Definition maps : bytes := bstr "maps/.Main".

(** The outputs of a run in one environment. *)
Fixpoint outputs (e : env) (evs : list event) (s : t) : list out :=
  match evs with [] => [] | ev :: evs => (handle ev e s).2 ++ outputs e evs (handle ev e s).1 end.

Abbreviation quiet_run evs := (run (map (pair demo_env) evs) init).

(** Two applications are opened; the second click on one of them sends nothing. *)
Definition demo_session : list event :=
  [EAgent true; ELaunch mail demo_profile false; EAddDone (AddLaunch mail 1 demo_profile) (add_ok 1);
   display_event kControlDisplayAdded 1; ELater mail 1; EGuestDone (GuestLaunch 1 mail) true [];
   ELaunch maps demo_profile false].

Lemma applications_one_display_witness :
  bindings (quiet_run demo_session) !! 1 = Some mail /\ bindings (quiet_run demo_session) !! 2 = Some maps /\
  added (launchApplicationComponent mail demo_profile false demo_env (quiet_run demo_session)).2 = [] /\
  (size (bindings (quiet_run demo_session)) <= 5)%nat.
Proof.
  destruct (applications_one_display (map (pair demo_env) demo_session)) as (_ & _ & Hs & _ & _ & _ & _ & _ & _ & _ & _ & Ha).
  { repeat constructor; vm_compute; congruence. }
  split; [vm_compute; reflexivity|]. split; [vm_compute; reflexivity|]. split; [|exact Hs].
  destruct (added _) as [|d ds] eqn:E; [reflexivity|exfalso].
  destruct (Ha demo_env mail demo_profile false d) as (_ & Hn & _).
  - rewrite E. left.
  - assert (appDisplayBindings (quiet_run demo_session) !! package mail = Some 1) as Hm by (vm_compute; reflexivity).
    rewrite Hm in Hn. discriminate Hn.
Defined.

(** The tables alone do not tie a window to its binding: a frame opens the window
    before the answer to DISPLAY_ADD, and an error unbinds the display only. *)
Example window_outlives_binding :
  let s := quiet_run [EAgent true; ELaunch mail demo_profile false; EFrame 1;
    EAddDone (AddLaunch mail 1 demo_profile) {| ControlChannel.r_ok := false;
      ControlChannel.r_type := type_code kError; ControlChannel.r_errorCode := 0;
      ControlChannel.r_errorMessage := []; ControlChannel.r_payload := [] |}] in
  has Windows 1 s = true /\ bindings s !! 1 = None.
Proof. vm_compute. split; reflexivity. Qed.

Definition statuses (outs : list out) : list string :=
  flat_map (fun o => match o with OStatus x _ => [x] | _ => [] end) outs.

(** The user closes the window before DISPLAY_ADD is answered: the answer finds the
    binding still there, and reports an error for the close. *)
Example closed_launch_reports_error :
  "Application window is unavailable"%string ∈ statuses (outputs demo_env
    [EAgent true; ELaunch mail demo_profile false; EFrame 1; EWindowClose 1;
     EAddDone (AddLaunch mail 1 demo_profile) (add_ok 1)] init).
Proof. apply (bool_decide_unpack _). vm_compute. exact Logic.I. Qed.

(** Completion blocks name a launch by its display and component only. A window that
    is closed and opened again within the delay is launched by both delayed blocks. *)
Example launched_twice :
  length (flat_map (fun o => match o with OGuest _ _ (GuestLaunch _ _) => [o] | _ => [] end) (outputs demo_env
    [EAgent true; ELaunch mail demo_profile false; EAddDone (AddLaunch mail 1 demo_profile) (add_ok 1);
     EWindowClose 1; display_event kControlDisplayRemoved 1;
     ELaunch mail demo_profile false; ELater mail 1;
     EAddDone (AddLaunch mail 1 demo_profile) (add_ok 1); ELater mail 1] init)) = 2%nat.
Proof. vm_compute. reflexivity. Qed.

(** A launch fails and is being cleaned up when the user closes its window: two close
    requests are out. The answer to the second one can remove the display of a new
    launch of the application. *)
Example stale_close_removes_new_display :
  let evs := [EAgent true; ELaunch mail demo_profile false; EAddDone (AddLaunch mail 1 demo_profile) (add_ok 1);
     ELater mail 1; EGuestDone (GuestLaunch 1 mail) false (bstr "error");
     EWindowClose 1; EGuestDone (GuestCleanup 1 mail []) true []; display_event kControlDisplayRemoved 1;
     ELaunch mail demo_profile false; EAddDone (AddLaunch mail 1 demo_profile) (add_ok 1)] in
  has Windows 1 (quiet_run evs) = true /\
  (handle (EGuestDone (GuestClose 1 mail) true []) demo_env (quiet_run evs)).2 = [ORemove 1].
Proof. vm_compute. by split. Qed.
