(* ===== verification/DisplaySystem.v ===== *)
(** The application tables of the shell composed with the display requests of the
    emulator ([handle_display_add] and [handle_display_remove] of
    [macmu-control-receiver.cpp] over [setMultiDisplay]; [DisplayOutcomes] proves that
    the steps here are what those functions do): requests, responses and events under
    way on the control channel, timeouts, a channel that breaks and an emulator that
    exits. What
    is under way about one display id is a word of tags; [word_ok] says which words
    there are, and the lemmas here say how each kind of step changes a word. *)
From stdpp Require Import relations.
From S2P Require Import Prelude Text Posix ControlProtocol ControlChannel AppDisplays AppDisplaysSafety.

Module DisplaySystem.
Import AppDisplays AppDisplaysSafety.

(** ** The system *)

(** Requests to the emulator. A request whose block is gone has timed out. *)
Inductive request :=
  | RAdd (d : Z) (launch : bool) (block : option add_block)
  | RRemove (d : Z).

(** What the emulator has sent. The answer to a removal has no effect and is left out. *)
Inductive reply :=
  | WAdd (d : Z) (launch ok : bool) (block : option add_block)
  | WEvent (ev : ControlEventDisplay).

(** Blocks on the main queue. *)
Inductive block :=
  | QAdd (b : add_block) (r : ControlChannel.Response)
  | QEvent (ev : ControlEventDisplay).

(** How the emulator ends a request: done; refused, with its display table as it
    was; or failed with -EPIPE, which [setMultiDisplay] returns after the table has
    been changed because the guest's display pipe is not up. *)
Inductive outcome := Done | Refused | NoPipe.

Definition succeeded (r : outcome) : bool := match r with Done => true | _ => false end.

(** The ids of the emulator's table after a request. *)
Definition after_add (r : outcome) (d : Z) (ds : gset Z) : gset Z :=
  match r with Refused => ds | Done | NoPipe => {[d]} ∪ ds end.
Definition after_remove (r : outcome) (d : Z) (ds : gset Z) : gset Z :=
  match r with Refused => ds | Done | NoPipe => ds ∖ {[d]} end.

(** The displays that a launch left behind although its request failed. *)
Definition orphans_after_add (r : outcome) (launch : bool) (d : Z) (os : gset Z) : gset Z :=
  match r with Done => os ∖ {[d]} | Refused => os | NoPipe => if launch then {[d]} ∪ os else os end.

(** [orphans] records which displays of the table came from a DISPLAY_ADD of a
    launch that failed; the emulator does not keep it. *)
Record system := {
  host : t; displays : gset Z; orphans : gset Z;
  toEmulator : list request; fromEmulator : list reply; mainQueue : list block;
  channel : bool; emulator : bool }.

Definition set_host (s : system) (h : t) : system := {|
  host := h; displays := displays s; orphans := orphans s; toEmulator := toEmulator s; fromEmulator := fromEmulator s;
  mainQueue := mainQueue s; channel := channel s; emulator := emulator s |}.

Definition is_launch (b : add_block) : bool := match b with AddLaunch _ _ _ => true | AddResize _ _ _ => false end.
Definition block_id (b : add_block) : Z := match b with AddLaunch _ d _ | AddResize d _ _ => d end.

(** The requests among the outputs of a handler. *)
Definition requests (outs : list out) : list request :=
  flat_map (fun o => match o with
    | OAdd d _ _ b => [RAdd d (is_launch b) (Some b)]
    | ORemove d => [RRemove d]
    | _ => []
    end) outs.

Definition add_answer (d : Z) (ok : bool) : ControlChannel.Response := {|
  ControlChannel.r_ok := ok; ControlChannel.r_type := if ok then type_code kDisplayAddOk else type_code kError;
  ControlChannel.r_errorCode := 0; ControlChannel.r_errorMessage := [];
  ControlChannel.r_payload := if ok then encode {| addok_displayId := d |} else [] |}.

(** Run a handler and send its requests; the blocks behind it stay. *)
Definition perform (a : act) (e : env) (rest : list block) (s : system) : system :=
  let '(h, outs) := a e (host s) in {|
  host := h; displays := displays s; orphans := orphans s;
  toEmulator := toEmulator s ++ (if channel s then requests outs else []);
  fromEmulator := fromEmulator s; mainQueue := rest; channel := channel s; emulator := emulator s |}.

(** What the environment answers agrees with the system. *)
Definition agrees (e : env) (s : system) : Prop :=
  channelAlive e = channel s /\ (qemuPid e <=? 0) = negb (emulator s).

Definition user_display (d : Z) : Prop := 1 <= d <= kMaxUserDisplayId.

(** Events that are not answers or events of the emulator. *)
Definition outside (ev : event) : Prop :=
  match ev with
  | EAddDone _ _ | EControl _ _ | EQemuExited => False
  | EGuestDone (GuestCleanup d _ _) _ _ => user_display d
  | ERotate d | EPollDone d _ _ | EScreen d _ _ _ => 0 <= d
  | _ => True
  end.

(** A display of the emulator that no failed launch left there. *)
Definition owned (d : Z) (s : system) : Prop := d ∈ displays s /\ d ∉ orphans s.

(** A resize, which comes from the window of a display, is for a display whose
    DISPLAY_ADD the emulator has carried out. *)
Definition resizes_existing (outs : list out) (s : system) : Prop :=
  forall d p f b, OAdd d p f b ∈ outs -> is_launch b = false -> owned d s.

(** The blocks of requests that were not answered. *)
Definition open_blocks (s : system) : list add_block :=
  flat_map (fun r => match r with WAdd _ _ _ (Some b) => [b] | _ => [] end) (fromEmulator s) ++
  flat_map (fun r => match r with RAdd _ _ (Some b) => [b] | _ => [] end) (toEmulator s).

Section Steps.
(** Whether the guest's display pipe is up throughout. *)
Variable pipe : bool.

Inductive step : system -> system -> Prop :=
  | step_outside s ev e :
      outside ev -> agrees e s -> resizes_existing (handle ev e (host s)).2 s ->
      step s (perform (handle ev) e (mainQueue s) s)
  | step_answer s b r rest e :
      mainQueue s = QAdd b r :: rest -> agrees e s ->
      step s (perform (handle (EAddDone b r)) e rest s)
  | step_event s ev rest e :
      mainQueue s = QEvent ev :: rest -> agrees e s ->
      step s (perform (handle (EControl (type_code kEventDisplay) (encode ev))) e rest s)
  (* the emulator takes a request *)
  | step_add s d (launch : bool) b rest (r : outcome) ev :
      toEmulator s = RAdd d launch b :: rest -> channel s = true ->
      wire_wf ev -> ev_displayId ev = d -> ev_state ev = kControlDisplayAdded ->
      (r = NoPipe -> pipe = false) ->
      step s {| host := host s; displays := after_add r d (displays s);
        orphans := orphans_after_add r launch d (orphans s); toEmulator := rest;
        fromEmulator := fromEmulator s ++
          WAdd d launch (succeeded r) b :: (if succeeded r then [WEvent ev] else []);
        mainQueue := mainQueue s; channel := true; emulator := emulator s |}
  | step_remove s d rest (r : outcome) ev :
      toEmulator s = RRemove d :: rest -> channel s = true ->
      wire_wf ev -> ev_displayId ev = d -> ev_state ev = kControlDisplayRemoved ->
      (r = NoPipe -> pipe = false) ->
      step s {| host := host s; displays := after_remove r d (displays s);
        orphans := after_remove r d (orphans s); toEmulator := rest;
        fromEmulator := fromEmulator s ++ (if succeeded r then [WEvent ev] else []);
        mainQueue := mainQueue s; channel := true; emulator := emulator s |}
  (* the reader thread takes a reply *)
  | step_read s r rest :
      fromEmulator s = r :: rest -> channel s = true ->
      step s {| host := host s; displays := displays s; orphans := orphans s; toEmulator := toEmulator s; fromEmulator := rest;
        mainQueue := mainQueue s ++
          match r with
          | WAdd d _ ok (Some b) => [QAdd b (add_answer d ok)]
          | WAdd _ _ _ None => []
          | WEvent ev => [QEvent ev]
          end;
        channel := true; emulator := emulator s |}
  (* a request times out before it is taken, or before its answer is read *)
  | step_timeout_request s d launch b before after message :
      toEmulator s = before ++ RAdd d launch (Some b) :: after -> channel s = true ->
      step s {| host := host s; displays := displays s; orphans := orphans s;
        toEmulator := before ++ RAdd d launch None :: after; fromEmulator := fromEmulator s;
        mainQueue := mainQueue s ++ [QAdd b (ControlChannel.failure kControlErrInternal message)];
        channel := true; emulator := emulator s |}
  | step_timeout_reply s d launch ok b before after message :
      fromEmulator s = before ++ WAdd d launch ok (Some b) :: after -> channel s = true ->
      step s {| host := host s; displays := displays s; orphans := orphans s;
        toEmulator := toEmulator s; fromEmulator := before ++ WAdd d launch ok None :: after;
        mainQueue := mainQueue s ++ [QAdd b (ControlChannel.failure kControlErrInternal message)];
        channel := true; emulator := emulator s |}
  (* the channel breaks, or the emulator exits: open requests fail *)
  | step_down s (exits : bool) message displays' :
      (exits = true -> displays' = ∅) ->
      step s {| host := host s; displays := displays'; orphans := orphans s; toEmulator := []; fromEmulator := [];
        mainQueue := mainQueue s ++
          map (fun b => QAdd b (ControlChannel.failure kControlErrInternal message)) (open_blocks s);
        channel := false; emulator := if exits then false else emulator s |}
  (* the supervisor resets the tables, and starts an emulator *)
  | step_reset s :
      emulator s = false -> channel s = false -> mainQueue s = [] ->
      step s (set_host s (resetSecondaryDisplayStateAfterQemuExit (host s)))
  | step_launch s :
      emulator s = false -> mainQueue s = [] ->
      step s {| host := host s; displays := ∅; orphans := ∅; toEmulator := []; fromEmulator := [];
        mainQueue := []; channel := true; emulator := true |}.
End Steps.

Definition start : system := {|
  host := init; displays := ∅; orphans := ∅; toEmulator := []; fromEmulator := []; mainQueue := [];
  channel := false; emulator := false |}.

(** ** What is under way about one id *)

Inductive tag := TAdd (waiting : bool) | TResize | TRemove | TRefused | TFailed | TGone | TOther.

#[export] Instance tag_eq_dec : EqDecision tag.
Proof. solve_decision. Defined.

Definition request_tags (d : Z) (r : request) : list tag :=
  match r with
  | RAdd d' launch b =>
      if d' =? d then [if launch then TAdd (bool_decide (is_Some b)) else TResize] else []
  | RRemove d' => if d' =? d then [TRemove] else []
  end.

Definition event_tag (ev : ControlEventDisplay) : tag :=
  if ev_state ev =? kControlDisplayRemoved then TGone else TOther.

Definition reply_tags (d : Z) (r : reply) : list tag :=
  match r with
  | WAdd d' launch ok b =>
      if d' =? d then [if launch && negb ok && bool_decide (is_Some b) then TRefused else TOther] else []
  | WEvent ev => if ev_displayId ev =? d then [event_tag ev] else []
  end.

Definition answer_tag (b : add_block) (r : ControlChannel.Response) : tag :=
  if is_launch b && negb (ControlChannel.r_ok r) then
    if ControlChannel.r_type r =? type_code kError then TRefused else TFailed
  else TOther.

Definition block_tags (d : Z) (q : block) : list tag :=
  match q with
  | QAdd b r => if block_id b =? d then [answer_tag b r] else []
  | QEvent ev => if ev_displayId ev =? d then [event_tag ev] else []
  end.

(** Everything about [d], the oldest first. *)
Definition underway (d : Z) (s : system) : list tag :=
  flat_map (block_tags d) (mainQueue s) ++ flat_map (reply_tags d) (fromEmulator s) ++
  flat_map (request_tags d) (toEmulator s).

Definition removing (d : Z) (h : t) : Prop := d ∈ ids h RemovalPending.
Definition free (d : Z) (h : t) : Prop := d ∉ ids h ActiveUserIds /\ d ∉ ids h RemovalPending.

(** Nothing comes after [x]. *)
Fixpoint last_only (x : tag) (w : list tag) : Prop :=
  match w with [] => True | y :: w' => (y = x -> w' = []) /\ last_only x w' end.

(** The words that can be under way about an id. *)
Record word_ok (w : list tag) (present removing free : Prop) : Prop := {
  w_free : free -> w = [] /\ ~ present;
  w_add : forall b, TAdd b ∈ w -> ~ present /\
    (w = [TAdd b] \/ w = [TAdd b; TRemove] \/
     b = false /\ (w = [TFailed; TAdd b] \/ w = [TFailed; TAdd b; TRemove]));
  w_refused : TRefused ∈ w -> ~ present /\
    (w = [TRefused] \/ w = [TRefused; TRemove] \/ w = [TRefused; TGone]);
  w_remove : last_only TRemove w /\ (TRemove ∈ w -> removing);
  w_gone : last_only TGone w /\ (TGone ∈ w -> removing /\ ~ present) }.

(** ** Words *)

Lemma last_only_app x a y b : last_only x (a ++ y :: b) <-> x ∉ a /\ last_only x (y :: b).
Proof.
  induction a as [|z a IH]; [split; [intros; split; [apply not_elem_of_nil|done]|tauto]|].
  cbn [app last_only] in *. rewrite IH, not_elem_of_cons. split.
  - intros [Hz [Ha Hb]]. split; [|done]. split; [|done]. intros ->.
    specialize (Hz eq_refl). destruct a; done.
  - intros [[Hz Ha] Hb]. split; [intros ->; done|done].
Qed.

Lemma last_only_snoc x a : x ∉ a -> last_only x (a ++ [x]).
Proof. intros H. apply last_only_app. by split. Qed.

Lemma last_only_fresh x w : x ∉ w -> last_only x w.
Proof. induction w as [|y w IH]; cbn; [done|]. rewrite not_elem_of_cons. intros [? ?]. split; [congruence|auto]. Qed.

Lemma last_only_suffix x y w : last_only x (y :: w) -> last_only x w.
Proof. by intros [_ H]. Qed.

Lemma word_weaken w P R F (R' F' : Prop) : word_ok w P R F -> (R -> R') -> (F' -> F) -> word_ok w P R' F'.
Proof. intros [W1 W2 W3 W4 W5] HR HF. split; try done; naive_solver. Qed.

Lemma word_present w P R F (P' : Prop) : word_ok w P R F -> (P' -> P) -> word_ok w P' R F.
Proof.
  intros [W1 W2 W3 W4 [W5 W5']] HP. split; auto.
  - intros Hf. destruct (W1 Hf). auto.
  - intros b Hb. destruct (W2 b Hb). auto.
  - intros Hr. destruct (W3 Hr). auto.
  - split; [done|]. intros Hg. destruct (W5' Hg). auto.
Qed.

Lemma word_nil (R F : Prop) : word_ok [] False R F.
Proof. split; cbn; try done; set_solver. Qed.

Lemma word_done w P R F (R' F' : Prop) : word_ok (TGone :: w) P R F -> word_ok w P R' F'.
Proof.
  intros [_ _ _ _ [[Hl _] Hg]]. rewrite (Hl eq_refl). destruct Hg as [_ Hp]; [set_solver|].
  split; cbn; try done; set_solver.
Qed.

Lemma word_pop x w P R F (R' F' : Prop) :
  word_ok (x :: w) P R F -> x <> TRefused -> x <> TGone -> (R -> R') -> (F' -> F) -> word_ok w P R' F'.
Proof.
  intros [W1 W2 W3 [W4 W4'] [W5 W5']] H1 H2 HR HF. split.
  - intros Hf. by destruct (W1 (HF Hf)).
  - intros b Hb. destruct (W2 b) as [Hp Hs]; [set_solver|]. split; [done|].
    destruct Hs as [E|[E|[-> [E|E]]]]; simplify_eq; set_solver.
  - intros Hr. destruct W3 as [_ [E|[E|E]]]; [set_solver|..]; simplify_eq.
  - split; [by eapply last_only_suffix|]. intros Hr. apply HR, W4'. set_solver.
  - split; [by eapply last_only_suffix|]. intros Hg. destruct W5'; [set_solver|]. auto.
Qed.

Lemma word_pop_refused w P R F (R' F' : Prop) :
  word_ok (TRefused :: w) P R F -> (R -> R') -> (F' -> ~ R') -> word_ok w P R' F'.
Proof.
  intros [W1 W2 W3 [W4 W4'] [W5 W5']] HR HF. destruct W3 as [Hp Hw]; [set_solver|].
  assert (w = [] \/ (w = [TRemove] \/ w = [TGone]) /\ R) as [->|[[-> | ->] Hr]].
  { destruct Hw as [[= ->]|[[= ->]|[= ->]]]; [by left|right..]; (split; [auto|]).
    - apply W4'. set_solver.
    - apply W5'. set_solver. }
  - split; cbn; try done; set_solver.
  - split; cbn; try set_solver.
  - split; cbn; try set_solver.
Qed.

Lemma word_send_remove w P R F (R' F' : Prop) :
  word_ok w P R F -> ~ R -> R' -> (F' -> ~ R') -> word_ok (w ++ [TRemove]) P R' F'.
Proof.
  intros [W1 W2 W3 [W4 W4'] [W5 W5']] HR HR' HF.
  assert (TRemove ∉ w) as Hn by auto. assert (TGone ∉ w) as Hg by (intros Hg; by destruct (W5' Hg)).
  split.
  - intros Hf. by destruct (HF Hf).
  - intros b Hb. destruct (W2 b) as [Hp Hs]; [set_solver|]. split; [done|].
    destruct Hs as [->|[->|[-> [->| ->]]]]; cbn; auto; set_solver.
  - intros Hr. destruct W3 as [Hp [->|[->| ->]]]; [set_solver|..]; [auto|set_solver..].
  - split; [by apply last_only_snoc|done].
  - split; [apply last_only_fresh|]; set_solver.
Qed.

Lemma word_send_add w P R F (R' F' : Prop) :
  word_ok w P R F -> F -> ~ F' -> word_ok (w ++ [TAdd true]) P R' F'.
Proof.
  intros [W1 _ _ _ _] HF HF'. destruct (W1 HF) as [-> Hp]. split; cbn; try done.
  - intros b Hb. assert (b = true) as -> by set_solver. auto.
  - set_solver.
  - split; [done|set_solver].
  - split; [done|set_solver].
Qed.

Lemma word_send_resize w (P : Prop) R F (R' F' : Prop) :
  word_ok w P R F -> P -> ~ R -> (F' -> F) -> word_ok (w ++ [TResize]) P R' F'.
Proof.
  intros [W1 W2 W3 [W4 W4'] [W5 W5']] HP HR HF.
  assert (TRemove ∉ w) as Hn by auto. assert (TGone ∉ w) as Hg by (intros Hg; by destruct (W5' Hg)).
  split.
  - intros Hf. by destruct (W1 (HF Hf)).
  - intros b Hb. destruct (W2 b) as [Hp _]; [set_solver|done].
  - intros Hr. destruct W3 as [Hp _]; [set_solver|done].
  - split; [apply last_only_fresh|]; set_solver.
  - split; [apply last_only_fresh|]; set_solver.
Qed.

(** A word with a launch in it, cut at the launch. *)
Lemma word_cut_add l b r P R F :
  word_ok (l ++ TAdd b :: r) P R F ->
  ~ P /\ (r = [] \/ r = [TRemove] /\ R) /\ (l = [] \/ b = false /\ l = [TFailed]).
Proof.
  intros [W1 W2 _ [_ W4] _]. destruct (W2 b) as [Hp Hs]; [set_solver|]. split; [done|].
  assert (TRemove ∈ r -> R) as HR by (intros H; apply W4; set_solver).
  destruct l as [|x [|y [|z l]]]; cbn in Hs.
  - destruct Hs as [E|[E|[-> [E|E]]]]; simplify_eq; split; auto; right; split; auto; apply HR; set_solver.
  - destruct Hs as [E|[E|[-> [E|E]]]]; simplify_eq; split; auto; right; split; auto; apply HR; set_solver.
  - destruct Hs as [E|[E|[-> [E|E]]]]; simplify_eq.
  - destruct Hs as [E|[E|[-> [E|E]]]]; simplify_eq; destruct l; simplify_eq.
Qed.

(** A word of answers and failures, perhaps with a removal at its end. *)
Lemma word_plain l (P R F : Prop) :
  Forall (fun x => x = TOther \/ x = TFailed) l -> ~ F -> word_ok l P R F /\ (R -> word_ok (l ++ [TRemove]) P R F).
Proof.
  intros HF Hf. assert (forall x, x ∈ l -> x = TOther \/ x = TFailed) as Hl by (by apply Forall_forall).
  assert (TRemove ∉ l /\ TGone ∉ l /\ TRefused ∉ l /\ forall b, TAdd b ∉ l) as (H1 & H2 & H3 & H4).
  { repeat split; [..|intros b]; intros H%Hl; naive_solver. }
  clear HF Hl. split; [|intros HR]; split; try done.
  - intros b Hb. by destruct (H4 b).
  - split; [by apply last_only_fresh|done].
  - split; [by apply last_only_fresh|done].
  - intros b [Hb|Hb%list_elem_of_singleton]%elem_of_app; [by destruct (H4 b)|done].
  - intros [Hb|Hb%list_elem_of_singleton]%elem_of_app; done.
  - split; [by apply last_only_snoc|done].
  - split; [apply last_only_fresh|]; intros [Hb|Hb%list_elem_of_singleton]%elem_of_app; done.
Qed.

Lemma word_take_add l b r P R F (ok : bool) (P' : Prop) :
  word_ok (l ++ TAdd b :: r) P R F -> (P' -> ok = true \/ P) ->
  word_ok (l ++ (if negb ok && b then TRefused else TOther) :: (if ok then [TOther] else []) ++ r) P' R F.
Proof.
  intros W HP. assert (~ F) as Hf by (intros Hf; by destruct (w_free _ _ _ _ W Hf); destruct l).
  destruct (word_cut_add _ _ _ _ _ _ W) as (Hp & Hr & Hl).
  assert (forall m, Forall (fun x => x = TOther \/ x = TFailed) (l ++ m) -> word_ok (l ++ m ++ r) P' R F) as Hk.
  { intros m Hm. destruct Hr as [->|[-> HR]].
    - rewrite app_nil_r. by apply word_plain.
    - rewrite app_assoc. by apply word_plain. }
  destruct ok; cbn [negb andb].
  - apply (Hk [TOther; TOther]). destruct Hl as [->|[-> ->]]; apply Forall_forall; set_solver.
  - destruct b.
    + destruct Hl as [->|[? _]]; [|done]. cbn [app].
      assert (~ P') as Hp' by naive_solver. split; try done.
      * intros b Hb. destruct Hr as [->|[-> _]]; set_solver.
      * intros _. split; [done|]. destruct Hr as [->|[-> _]]; auto.
      * destruct Hr as [->|[-> ?]]; cbn; repeat split; set_solver.
      * destruct Hr as [->|[-> ?]]; cbn; repeat split; set_solver.
    + apply (Hk [TOther]). destruct Hl as [->|[_ ->]]; apply Forall_forall; set_solver.
Qed.

(** Something without consequences is put in the place of a resize or of an answer;
    a note of the failure goes in front. *)
Lemma word_replace a c x (y : option tag) m r P R F (P' : Prop) :
  word_ok (a ++ c ++ x :: r) P R F -> x = TResize \/ x = TOther \/ x = TRefused ->
  Forall (fun z => z = TOther \/ z = TResize) m ->
  (forall z, y = Some z -> z = TOther \/ z = TFailed) ->
  (P' -> P \/ TGone ∉ a ++ c ++ r) ->
  word_ok (a ++ option_list y ++ c ++ m ++ r) P' R F.
Proof.
  intros [W1 W2 W3 [W4 W4'] [W5 W5']] Hx Hm Hy HP.
  assert (forall z, z ∈ m -> z = TOther \/ z = TResize) as Hm' by (by apply Forall_forall).
  assert (forall z, z ∈ option_list y -> z = TOther \/ z = TFailed) as Hy'.
  { intros z Hz. apply Hy. destruct y; cbn in Hz; set_solver. }
  assert (forall z, z ∈ a ++ option_list y ++ c ++ m ++ r -> z <> TOther -> z <> TResize -> z <> TFailed ->
    z ∈ a ++ c ++ x :: r /\ (z ∈ a \/ z ∈ c \/ z ∈ r)) as Hin.
  { intros z. rewrite !elem_of_app, elem_of_cons. intros [H|[H|[H|[H|H]]]] ? ? ?; auto 6.
    - by destruct (Hy' z H).
    - by destruct (Hm' z H). }
  assert (a ++ c ++ x :: r <> []) as Hne by (destruct a, c; done).
  rewrite app_assoc in W4, W5. apply last_only_app in W4 as [Wa4 Wr4]. apply last_only_app in W5 as [Wa5 Wr5].
  assert (forall z, z <> TOther -> z <> TResize -> z <> TFailed -> z ∉ a ++ c -> last_only z r ->
    last_only z (a ++ option_list y ++ c ++ m ++ r)) as Hlast.
  { intros z ? ? ? Hz Hr. assert (z ∉ a ++ option_list y ++ c ++ m) as Hz'.
    { rewrite not_elem_of_app in Hz. destruct Hz as [Hz1 Hz2]. rewrite !elem_of_app.
      intros [H'|[H'|[H'|H']]]; [done|by destruct (Hy' z H')|done|by destruct (Hm' z H')]. }
    destruct r as [|r0 r]; [rewrite app_nil_r; by apply last_only_fresh|].
    replace (a ++ option_list y ++ c ++ m ++ r0 :: r) with ((a ++ option_list y ++ c ++ m) ++ r0 :: r)
      by (by rewrite <- !app_assoc).
    by apply last_only_app. }
  split.
  - intros Hf. by destruct (W1 Hf).
  - intros b Hb. exfalso. destruct (Hin (TAdd b) Hb) as [Hb' _]; [done..|].
    destruct (W2 b Hb') as [_ Hs].
    assert (x ∈ [TAdd b; TRemove; TFailed]) as Hxin.
    { assert (x ∈ a ++ c ++ x :: r) as Hw by (rewrite !elem_of_app; right; right; left).
      clear -Hs Hw. destruct Hs as [E|[E|[-> [E|E]]]]; rewrite E in Hw; set_solver. }
    rewrite !elem_of_cons, elem_of_nil in Hxin. naive_solver.
  - intros Hr. exfalso. destruct (Hin TRefused Hr) as [Hb' Hpos]; [done..|].
    destruct (W3 Hb') as [_ Hs].
    assert (x ∈ [TRefused; TRemove; TGone] /\ NoDup (a ++ c ++ x :: r)) as [Hxin Hnd].
    { assert (x ∈ a ++ c ++ x :: r) as Hw by (rewrite !elem_of_app; right; right; left).
      clear -Hs Hw. destruct Hs as [E|[E|E]]; rewrite E in *; (split; [set_solver|]);
        repeat constructor; rewrite ?elem_of_cons, elem_of_nil; naive_solver. }
    assert (x = TRefused) as -> by (rewrite !elem_of_cons, elem_of_nil in Hxin; naive_solver).
    rewrite !NoDup_app, NoDup_cons in Hnd. destruct Hnd as (_ & Ha & _ & Hc & Hr' & _).
    destruct Hpos as [H'|[H'|H']]; [|by apply (Hc TRefused H'); left|done].
    apply (Ha TRefused H'). rewrite elem_of_app. right. left.
  - split; [apply Hlast; [done..|exact Wa4|by eapply last_only_suffix]|].
    intros H'. destruct (Hin TRemove H') as [? _]; [done..|]. auto.
  - split; [apply Hlast; [done..|exact Wa5|by eapply last_only_suffix]|].
    intros H'. destruct (Hin TGone H') as [H1 H2]; [done..|]. destruct (W5' H1) as [? Hnp]. split; [done|].
    intros Hp'. destruct (HP Hp') as [?|Hng]; [done|]. set_solver.
Qed.

(** The emulator takes a removal: done, with an event, or failed. *)
Lemma word_take_remove l r P R F (ok : bool) (P' : Prop) :
  word_ok (l ++ TRemove :: r) P R F -> (forall b, TAdd b ∉ l) -> (P' -> P) -> (ok = true -> ~ P') ->
  word_ok (l ++ (if ok then [TGone] else []) ++ r) P' R F.
Proof.
  intros W Hadd HP HP'. destruct W as [W1 W2 W3 [W4 W4'] [W5 W5']].
  apply last_only_app in W4 as [Wl [Hr _]]. rewrite (Hr eq_refl), app_nil_r in *.
  assert (R) as HR by (apply W4'; rewrite elem_of_app; right; left).
  assert (~ F) as HF by (intros HF; by destruct (W1 HF); destruct l).
  apply last_only_app in W5 as [Wg _].
  assert (TRefused ∈ l -> ~ P /\ l = [TRefused]) as Hl.
  { intros Hb. destruct W3 as [Hp Hs]; [rewrite elem_of_app; by left|]. split; [done|].
    destruct l as [|x [|y l]]; destruct Hs as [E|[E|E]]; cbn in E; simplify_eq; auto; destruct l; simplify_eq. }
  destruct ok; [specialize (HP' eq_refl)|]; split; try done.
  - intros b [Hb|Hb%list_elem_of_singleton]%elem_of_app; [by destruct (Hadd b)|done].
  - intros [Hb|Hb%list_elem_of_singleton]%elem_of_app; [|done]. split; [done|].
    destruct (Hl Hb) as [_ ->]. auto.
  - split; [|done]. apply last_only_fresh. intros [Hb|Hb%list_elem_of_singleton]%elem_of_app; done.
  - split; [by apply last_only_snoc|done].
  - intros b Hb. rewrite app_nil_r in Hb. by destruct (Hadd b).
  - rewrite app_nil_r. intros Hb. destruct (Hl Hb) as [Hp ->]. auto.
  - rewrite app_nil_r. split; [by apply last_only_fresh|]. auto.
  - rewrite app_nil_r. split; [by apply last_only_fresh|done].
Qed.
End DisplaySystem.
