(* ===== verification/DisplayOutcomes.v ===== *)
(** The display requests of [DisplaySystem] are those of the emulator: a DISPLAY_ADD
    or DISPLAY_REMOVE that [macmu-control-receiver.cpp] handles with the display table
    of [MultiDisplay.cpp] changes the ids of the table, and answers, in one of the
    three ways of [outcome]. *)
From S2P Require Import Prelude Text StdMap Posix ControlProtocol DisplayAgent ControlReceiver ControlReceiverSafety MultiDisplay MultiDisplaySafety EmulatorDisplays DisplaySystem.

Module DisplayOutcomes.
Import MacMuControlReceiver.

Definition table_ids (st : MultiDisplay.t) : gset Z := list_to_set (keys (MultiDisplay.mMultiDisplay st)).

Section Outcomes.
Context (K : MultiDisplay.limits) (H : MultiDisplay.host) (HK : limits_ok K) (HH : host_ok H).
(** Displays are not plugged through the virtual machine. *)
Hypothesis no_hotplug : MultiDisplay.hotPlugDisplayEnabled H = false.

#[local] Instance table_agent : MultiDisplayAgent MultiDisplay.t := multi_display_agent K H HK HH.

Definition outcome_of (result : Z) : DisplaySystem.outcome :=
  if result =? 0 then DisplaySystem.Done
  else if result =? - MultiDisplay.EPIPE then DisplaySystem.NoPipe else DisplaySystem.Refused.

(** The ids of the table after [setMultiDisplay]. *)
Lemma set_ids id x y w h dp fl add st : table_ok st -> 0 <= id ->
  let '(r, st', _) := MultiDisplay.setMultiDisplay K H id x y w h dp fl add st in
  r <= 0 /\ (outcome_of r = DisplaySystem.NoPipe -> MultiDisplay.h_pipe H = false) /\
  table_ids st' = (if add then DisplaySystem.after_add else DisplaySystem.after_remove)
    (outcome_of r) id (table_ids st).
Proof.
  intros Hok Hid. pose proof (setMultiDisplay_branches K H id x y w h dp fl add st HK HH Hok Hid) as P.
  cbv zeta in P. destruct (MultiDisplay.setMultiDisplay _ _ _ _ _ _ _ _ _ _ _) as [[r st'] o].
  destruct P as (_ & Hoc & Hle & Hz & Hne & Hp). cbn [fst snd] in *. unfold outcome_of. split; [done|].
  assert ((id ∈ keys (MultiDisplay.mMultiDisplay st') <-> add = true) ->
    table_ids st' = if add then {[id]} ∪ table_ids st else table_ids st ∖ {[id]}) as Hk.
  { intros Hin. apply set_eq. intros k. unfold table_ids. unfold only_changes in Hoc. specialize (Hoc k).
    destruct add; rewrite ?elem_of_union, ?elem_of_difference, !elem_of_list_to_set, elem_of_singleton;
      (destruct (decide (k = id)) as [->|Hki]; [|specialize (Hoc Hki)]); naive_solver. }
  destruct (Z.eqb_spec r 0) as [->|H0].
  - split; [done|]. destruct (Hz eq_refl no_hotplug) as [Hin _]. rewrite (Hk Hin). by destruct add.
  - destruct (Z.eqb_spec r (- MultiDisplay.EPIPE)) as [->|Hn].
    + destruct (Hp eq_refl) as [Hpipe Hin]. split; [done|]. rewrite (Hk Hin). by destruct add.
    + split; [done|]. rewrite (Hne H0 Hn). by destruct add.
Qed.

(** DISPLAY_ADD of an id of the user range: the table and the frames that are sent. *)
Theorem emulator_adds id request st recv st' o :
  table_ok st -> 0 <= mFd recv -> 1 <= add_displayId request <= kMaxUserDisplayId ->
  handle_display_add id request (Some st) recv = (Some st', o) ->
  let d := add_displayId request in
  exists r, (r = DisplaySystem.NoPipe -> MultiDisplay.h_pipe H = false) /\
    table_ids st' = DisplaySystem.after_add r d (table_ids st) /\
    if DisplaySystem.succeeded r then
      o = [OutFrame (type_code kDisplayAddOk) id (encode {| addok_displayId := d |});
           OutFrame (type_code kEventDisplay) 0 (encode {| ev_displayId := d; ev_state := kControlDisplayAdded;
             ev_width := add_width request; ev_height := add_height request; ev_dpi := add_dpi request;
             ev_flags := add_flags request |})]
    else exists code msg, o = [error_frame id code msg].
Proof.
  intros Hok Hfd Hd E d. unfold handle_display_add in E. fold d in E, Hd. unfold kMaxUserDisplayId in *.
  assert ((d =? kControlDisplayIdAuto) = false) as Ha by (apply Z.eqb_neq; unfold kControlDisplayIdAuto; lia).
  rewrite Ha, (proj2 (Z.eqb_neq d 0)), (proj2 (Z.ltb_ge _ d)) in E by lia. cbn [andb orb agent_setMultiDisplay table_agent multi_display_agent] in E.
  pose proof (set_ids d (-1) (-1) (add_width request) (add_height request) (add_dpi request) (add_flags request)
    true st Hok ltac:(lia)) as S.
  destruct (MultiDisplay.setMultiDisplay _ _ _ _ _ _ _ _ _ _ _) as [[r st1] o1]. destruct S as (Hle & Hp & Hids).
  exists (outcome_of r). unfold outcome_of in *. destruct (Z.ltb_spec r 0) as [Hr|Hr]; injection E as <- <-.
  - rewrite (proj2 (Z.eqb_neq r 0)) in * by lia. split; [done|]. split; [done|].
    rewrite send_error_frame by done. destruct (r =? _); cbn; eauto.
  - assert (r = 0) as -> by lia. split; [done|]. split; [done|].
    unfold send_response, send_display_event, send_frame. by rewrite (proj2 (Z.ltb_ge _ _) Hfd).
Qed.

(** DISPLAY_REMOVE of an id of the user range, which may be absent. *)
Theorem emulator_removes id request now st recv st' recv' o :
  table_ok st -> 0 <= mFd recv -> 1 <= rm_displayId request <= kMaxUserDisplayId ->
  handle_display_remove id request now (Some st) recv = (Some st', recv', o) ->
  let d := rm_displayId request in
  exists r, (r = DisplaySystem.NoPipe -> MultiDisplay.h_pipe H = false) /\
    table_ids st' = DisplaySystem.after_remove r d (table_ids st) /\
    if DisplaySystem.succeeded r then
      exists o1, o = o1 ++ [OutClearFrame d] ++ send_frame (type_code kDisplayRemoveOk) id [] recv' ++
        send_display_event d kControlDisplayRemoved 0 0 0 0 recv'
    else exists code msg, o = [error_frame id code msg].
Proof.
  intros Hok Hfd Hd E d. unfold handle_display_remove in E. fold d in E, Hd. unfold kMaxUserDisplayId in *.
  rewrite (proj2 (Z.eqb_neq d 0)), (proj2 (Z.ltb_ge _ d)) in E by lia. cbn [orb agent_setMultiDisplay table_agent multi_display_agent] in E.
  pose proof (set_ids d (-1) (-1) 0 0 0 0 false st Hok ltac:(lia)) as S.
  destruct (MultiDisplay.setMultiDisplay _ _ _ _ _ _ _ _ _ _ _) as [[r st1] o1]. destruct S as (Hle & Hp & Hids).
  exists (outcome_of r). unfold outcome_of in *. destruct (Z.ltb_spec r 0) as [Hr|Hr].
  - injection E as <- <- <-. rewrite (proj2 (Z.eqb_neq r 0)) in * by lia. split; [done|]. split; [done|].
    rewrite send_error_frame by done. destruct (r =? _); cbn; eauto.
  - destruct (set_display_streaming d false 0 now recv) as [recv1 o2]. injection E as <- <- <-.
    assert (r = 0) as -> by lia. split; [done|]. split; [done|]. by exists o2.
Qed.

End Outcomes.
End DisplayOutcomes.
