(* ===== verification/AppDisplaysReuse.v ===== *)
(** Display ids are reused safely: a display id is given to a new application only
    when nothing about it is under way and the emulator has no display of that id, or
    only one that a failed launch left there.
    First the effect of every handler of the shell on the ids, then the invariant of
    the system of [DisplaySystem]. *)
From stdpp Require Import relations.
From S2P Require Import Prelude Text Posix ControlProtocol ControlChannel AppDisplays AppDisplaysSafety DisplaySystem.

Module AppDisplaysReuse.
Import AppDisplays AppDisplaysSafety DisplaySystem.

(** ** What a handler does to the ids *)

Definition tidy (h : t) : Prop := shuttingDown h = true \/ ids h SuppressRemoveOnClose = ∅.

Definition tags_of (d : Z) (outs : list out) : list tag := flat_map (request_tags d) (requests outs).

Lemma tags_of_app d o1 o2 : tags_of d (o1 ++ o2) = tags_of d o1 ++ tags_of d o2.
Proof. unfold tags_of, requests. by rewrite !flat_map_app. Qed.

(** No id is freed, and the only requests are removals of ids not being removed. *)
Record quiet (h : t) (r : t * list out) : Prop := {
  q_removing : forall d, removing d h -> removing d r.1;
  q_free : forall d, free d r.1 -> free d h;
  q_tags : forall d, tags_of d r.2 = [] \/ (tags_of d r.2 = [TRemove] /\ ~ removing d h /\ removing d r.1);
  q_tidy : tidy r.1 }.

Definition calm (a : act) : Prop := forall e h, channelAlive e = true -> tidy h -> quiet h (a e h).

Lemma quiet_same h outs : tidy h -> (forall d, tags_of d outs = []) -> quiet h (h, outs).
Proof. intros Ht Ho. split; cbn -[tags_of]; auto. Qed.

Lemma quiet_trans h1 h2 o1 r : quiet h1 (h2, o1) -> quiet h2 r -> quiet h1 (r.1, o1 ++ r.2).
Proof.
  intros [A1 A2 A3 A4] [B1 B2 B3 B4]. split; cbn -[tags_of] in *; auto. intros d. rewrite tags_of_app.
  destruct (A3 d) as [->|(-> & Hn & Hy)], (B3 d) as [->|(-> & Hn' & Hy')]; [by left| | |by destruct Hn'].
  - right. repeat split; auto.
  - right. repeat split; auto.
Qed.

Lemma calm_seq a b : calm a -> calm b -> calm (seq a b).
Proof.
  intros Ha Hb e h He Ht. unfold seq. pose proof (Ha e h He Ht) as Qa. destruct (a e h) as [h1 o1] eqn:Ea.
  pose proof (Hb e h1 He (q_tidy _ _ Qa)) as Qb. destruct (b e h1) as [h2 o2] eqn:Eb.
  exact (quiet_trans _ _ _ _ Qa Qb).
Qed.

Lemma calm_look f : (forall e h, channelAlive e = true -> tidy h -> quiet h (f e h e h)) -> calm (look f).
Proof. intros Hf e h He Ht. by apply Hf. Qed.

Lemma calm_skip : calm skip.
Proof. intros e h He Ht. by apply quiet_same. Qed.

Definition harmless (o : out) : Prop := match o with OAdd _ _ _ _ | ORemove _ => False | _ => True end.

Lemma calm_emit o : harmless o -> calm (emit o).
Proof. intros Ho e h He Ht. apply quiet_same; [done|]. by destruct o. Qed.

(** The update leaves the ids alone. *)
Definition inert (f : t -> t) : Prop := forall h,
  ids (f h) RemovalPending = ids h RemovalPending /\ ids (f h) ActiveUserIds = ids h ActiveUserIds /\
  ids (f h) SuppressRemoveOnClose = ids h SuppressRemoveOnClose /\ shuttingDown (f h) = shuttingDown h.

Lemma quiet_inert f h : inert f -> tidy h -> quiet h (f h, []).
Proof.
  intros Hf Ht. destruct (Hf h) as (E1 & E2 & E3 & E4).
  split; cbn; unfold removing, free, tidy in *; rewrite ?E1, ?E2, ?E3, ?E4; auto.
Qed.

Lemma calm_upd f : inert f -> calm (upd f).
Proof. intros Hf e h He Ht. by apply quiet_inert. Qed.

Lemma unbind_shutting d h : shuttingDown (unbindApplicationFromDisplay d h) = shuttingDown h.
Proof.
  unfold unbindApplicationFromDisplay. destruct (bindings h !! d); [|done].
  destruct (appDisplayBindings h !! _) as [d'|]; [destruct (d' =? d)|]; done.
Qed.

Lemma inert_unbind d : inert (unbindApplicationFromDisplay d).
Proof. intros h. rewrite !unbind_ids by tauto. by rewrite unbind_shutting. Qed.

Ltac inert := intros ?; by repeat split.

Lemma calm_unbind d : calm (upd (unbindApplicationFromDisplay d)).
Proof. apply calm_upd, inert_unbind. Qed.

Lemma calm_remove d : calm (requestDisplayRemove d).
Proof.
  apply calm_look. intros e h He Ht. destruct (_ || has RemovalPending d h) eqn:E; [by apply quiet_same|].
  apply orb_false_iff in E as [_ E]. apply bool_decide_eq_false in E. rewrite seq_upd, He. cbn [negb emit].
  split; cbn [fst snd]; unfold removing, free, tidy, tags_of; cbn; try done.
  - set_solver.
  - set_solver.
  - intros d'. destruct (d =? d') eqn:Ed; [apply Z.eqb_eq in Ed as <-|by left].
    right. repeat split; [done|set_solver].
Qed.

Lemma calm_streaming d b : calm (setDisplayStreaming d b).
Proof. apply calm_look. intros e h He Ht. by destruct (negb _); apply quiet_same. Qed.

Lemma calm_open d w x : calm (openDisplayWindow d w x).
Proof.
  apply calm_look. intros e h He Ht. destruct (_ || _); [by apply quiet_same|].
  destruct (bindings h !! d); [|by apply quiet_same]. destruct (_ || _); [by apply quiet_same|].
  destruct (negb _); [by apply quiet_same|].
  destruct (has Windows d h); [apply calm_seq; [by apply calm_emit|apply calm_streaming|done|done]|].
  apply calm_seq; [by apply calm_emit| |done|done]. repeat apply calm_seq; [|..|apply calm_streaming].
  - apply calm_upd. inert.
  - intros e' h' He' Ht'. split; unfold free, removing, tidy; cbn; try done; [|by left]. set_solver.
Qed.

Lemma calm_open_for d : calm (openDisplayWindowForDisplay d).
Proof. apply calm_look. intros e h He Ht. destruct (launchProfiles h !! d); by apply calm_open. Qed.

Lemma calm_close_bound d : calm (closeBoundAppAndRemoveDisplay d).
Proof.
  apply calm_look. intros e h He Ht. destruct (shuttingDown h); [by apply quiet_same|].
  destruct (bindings h !! d); [|by apply calm_remove].
  repeat apply calm_seq; try done; try (apply calm_upd; inert).
  destruct (_ && _); [apply calm_remove|]. destruct (negb _); [|by apply calm_emit].
  repeat apply calm_seq; [apply calm_upd; inert|apply calm_open_for|by apply calm_emit].
Qed.

Lemma streaming_result d b e h :
  exists outs, setDisplayStreaming d b e h = (h, outs) /\ forall d', tags_of d' outs = [].
Proof.
  unfold setDisplayStreaming, look. destruct (negb _); (eexists; split; [reflexivity|done]).
Qed.

(** A window that closes: the display streams no more, the window is gone, and the
    rest depends on why it closes. *)
Lemma close_window_quiet d e h :
  shuttingDown h = false -> has Windows d h = true -> tidy h ->
  (let h1 := erase_id Windows d h in
   quiet h1 (if has SuppressRemoveOnClose d h1 then
       (upd (erase_id SuppressRemoveOnClose d) ;; upd (unbindApplicationFromDisplay d) ;;
        look (fun _ s => if has RemovalPending d s then skip else upd (releaseUserDisplayId d))) e h1
     else closeBoundAppAndRemoveDisplay d e h1)) ->
  quiet h (windowWillClose d e h).
Proof.
  intros Es Ew Ht Hq. unfold windowWillClose, look at 1. rewrite Es, Ew. cbn [negb].
  unfold seq at 1. destruct (streaming_result d false e h) as (outs & -> & Ho). rewrite seq_upd. unfold look at 1.
  revert Hq. cbv zeta. destruct (has SuppressRemoveOnClose d _).
  all: match goal with |- quiet _ ?x -> _ => destruct x as [h2 o2]; intros Hq end.
  all: apply (quiet_trans h (erase_id Windows d h) outs (h2, o2)); [|exact Hq].
  all: pose proof (quiet_inert (erase_id Windows d) h ltac:(inert) Ht) as [Q1 Q2 _ Q4].
  all: split; cbn -[tags_of]; auto.
Qed.

(** A window the user closes. *)
Lemma calm_window_close d : calm (windowWillClose d).
Proof.
  intros e h He Ht. destruct (shuttingDown h) eqn:Es.
  { unfold windowWillClose, look at 1. rewrite Es. by apply quiet_same. }
  destruct (has Windows d h) eqn:Ew.
  2: { unfold windowWillClose, look at 1. rewrite Es, Ew. by apply quiet_same. }
  apply close_window_quiet; [done..|]. cbv zeta.
  destruct Ht as [Ht|Ht]; [congruence|].
  assert (has SuppressRemoveOnClose d (erase_id Windows d h) = false) as ->.
  { apply bool_decide_eq_false. cbn. rewrite Ht. set_solver. }
  apply calm_close_bound; [done|]. by right.
Qed.

(** The tables after the suppressed close of a window. *)
Definition after_close (d : Z) (h : t) : t :=
  let h := unbindApplicationFromDisplay d
    (erase_id SuppressRemoveOnClose d (erase_id Windows d (add_id SuppressRemoveOnClose d h))) in
  if has RemovalPending d h then h else releaseUserDisplayId d h.

Lemma suppressed_result d e h :
  shuttingDown h = false -> has Windows d h = true ->
  exists outs, closeSuppressed d e h = (after_close d h, outs) /\ forall d', tags_of d' outs = [].
Proof.
  intros Es Ew. unfold closeSuppressed. rewrite seq_upd. unfold windowWillClose, look at 1.
  cbn [shuttingDown add_id set_ids]. rewrite Es.
  assert (has Windows d (add_id SuppressRemoveOnClose d h) = true) as -> by exact Ew. cbn [negb].
  unfold seq at 1. destruct (streaming_result d false e (add_id SuppressRemoveOnClose d h)) as (outs & -> & Ho).
  rewrite seq_upd. unfold look at 1.
  assert (has SuppressRemoveOnClose d (erase_id Windows d (add_id SuppressRemoveOnClose d h)) = true) as ->.
  { apply bool_decide_eq_true. cbn. set_solver. }
  rewrite !seq_upd. unfold look at 1, after_close. exists outs.
  destruct (has RemovalPending d _); cbn; by rewrite app_nil_r.
Qed.

Lemma after_close_ids d h k :
  k = SuppressRemoveOnClose \/ k = RemovalPending \/ k = ActiveUserIds ->
  ids (after_close d h) k =
    match k with
    | SuppressRemoveOnClose => ({[d]} ∪ ids h k) ∖ {[d]}
    | ActiveUserIds => if has RemovalPending d h || (d =? 0) then ids h k else ids h k ∖ {[d]}
    | _ => ids h k
    end.
Proof.
  intros Hk. unfold after_close, has. rewrite unbind_ids by tauto. cbn [ids erase_id add_id set_ids idset_eqb Nat.eqb].
  unfold releaseUserDisplayId. destruct (bool_decide (d ∈ ids h RemovalPending)), (d =? 0); cbn [orb].
  all: destruct Hk as [->|[->| ->]]; cbn [ids erase_id set_ids idset_eqb Nat.eqb]; by rewrite unbind_ids by tauto.
Qed.

(** A suppressed close of a window whose display is being removed. *)
Lemma suppressed_quiet d e h :
  removing d h -> tidy h -> has Windows d h = true -> quiet h (closeSuppressed d e h).
Proof.
  intros Hr Ht Ew. destruct (shuttingDown h) eqn:Es.
  { unfold closeSuppressed. rewrite seq_upd. unfold windowWillClose, look at 1. cbn. rewrite Es.
    split; cbn; auto. by left. }
  destruct Ht as [Ht|Ht]; [congruence|].
  destruct (suppressed_result d e h Es Ew) as (outs & -> & Ho).
  assert (has RemovalPending d h = true) as Hp by (by apply bool_decide_eq_true).
  split; cbn -[tags_of]; unfold removing, free, tidy; rewrite ?after_close_ids by tauto; rewrite ?Hp; cbn [orb]; auto.
  right. rewrite Ht. set_solver.
Qed.

Lemma remove_removing d e h :
  channelAlive e = true -> user_display d -> removing d (requestDisplayRemove d e h).1.
Proof.
  intros He Hd. unfold requestDisplayRemove, look at 1.
  destruct ((d =? 0) || (kMaxUserDisplayId <? d)) eqn:E; [unfold user_display in Hd; bool_to_prop; lia|].
  cbn [orb]. destruct (has RemovalPending d h) eqn:Er; [by apply bool_decide_eq_true in Er|].
  rewrite seq_upd, He. cbn. unfold removing. cbn. set_solver.
Qed.

Lemma calm_rollback d message x : user_display d -> calm (rollbackApplicationDisplay d message x).
Proof.
  intros Hd. unfold rollbackApplicationDisplay. apply calm_seq; [apply calm_unbind|].
  apply calm_seq; [by apply calm_emit|]. intros e h He Ht. unfold seq.
  pose proof (calm_remove d e h He Ht) as Q. pose proof (remove_removing d e h He Hd) as Hr.
  destruct (requestDisplayRemove d e h) as [h1 o1]. cbn in Hr.
  match goal with |- quiet _ (let '(_, _) := ?x in _) => assert (quiet h1 x) as Q2 end.
  { unfold look. destruct (has Windows d h1) eqn:Ew; [|apply quiet_same; [by apply Q|done]].
    apply suppressed_quiet; [done|by apply Q|done]. }
  match goal with |- quiet _ (let '(_, _) := ?x in _) => destruct x as [h2 o2] end.
  exact (quiet_trans _ _ _ _ Q Q2).
Qed.

Lemma calm_present d : calm (presentFrameForDisplay d).
Proof.
  apply calm_look. intros e h He Ht. destruct (_ || _); [by apply quiet_same|].
  apply calm_seq; [| |done|done].
  - destruct (has Windows d h); [apply calm_skip|apply calm_open_for].
  - apply calm_look. intros e' h' He' Ht'. by destruct (has Windows d h'); apply quiet_same.
Qed.

Lemma calm_cleanup d c message : calm (cleanupFailedLaunchForDisplay d c message).
Proof.
  apply calm_look. intros e h He Ht. destruct (_ || _); [by apply quiet_same|].
  repeat apply calm_seq; try done; try (apply calm_upd; inert).
  destruct (negb _); by apply calm_emit.
Qed.

Lemma calm_cleanup_finished d c message ok : user_display d -> calm (cleanupFinished d c message ok).
Proof.
  intros Hd. apply calm_look. intros e h He Ht. destruct (_ || _); [by apply quiet_same|].
  destruct (negb ok); [by apply quiet_same|].
  apply calm_seq; [apply calm_upd; inert|by apply calm_rollback|done|done].
Qed.

Lemma calm_close_finished d c ok payload : calm (closeFinished d c ok payload).
Proof.
  apply calm_look. intros e h He Ht. destruct (bool_decide _); [by apply quiet_same|].
  destruct (negb ok); [|by apply calm_remove]. destruct (texts h ClosingLaunchFailures !! d).
  - apply calm_seq; [by apply calm_emit|apply calm_remove|done|done].
  - repeat apply calm_seq; try done; [apply calm_upd; inert|apply calm_open_for|by apply calm_emit].
Qed.

Lemma calm_launch_finished d c ok payload : calm (launchFinished d c ok payload).
Proof.
  unfold launchFinished. apply calm_seq; [apply calm_upd; inert|]. apply calm_look. intros e h He Ht.
  destruct (bool_decide _); [by apply quiet_same|].
  destruct (has_pkg Closing _ _). { destruct (_ && _); [|by apply quiet_same]. apply quiet_inert; [inert|done]. }
  destruct (negb ok); [by apply calm_cleanup|]. apply quiet_inert; [inert|done].
Qed.

Lemma calm_launch_component c d : calm (launchComponent c d).
Proof.
  apply calm_look. intros e h He Ht. destruct (shuttingDown h); [by apply quiet_same|].
  destruct (negb _); [by apply calm_cleanup|by apply quiet_same].
Qed.

Lemma calm_launch_later c d : calm (launchAfterDelay c d).
Proof.
  apply calm_look. intros e h He Ht. cbv zeta. destruct (_ && negb _); [|by apply quiet_same].
  apply calm_seq; [apply calm_upd; inert|apply calm_launch_component|done|done].
Qed.

Lemma calm_poll focused : calm (pollFocusedApplicationOrientation focused).
Proof.
  apply calm_look. intros e h He Ht. destruct (_ || negb _); [by apply quiet_same|].
  destruct (_ || _); [by apply quiet_same|]. cbv zeta.
  assert (calm (seq (upd (add_id PollInFlight focused))
    (emit (OGuest (bstr "display-state " ++ dec focused) 1500 (GuestPoll focused))))) as Hk.
  { apply calm_seq; [apply calm_upd; inert|by apply calm_emit]. }
  destruct (numbers h _ !! focused) as [until|]; [|by apply Hk]. destruct (_ <? _); [by apply quiet_same|].
  apply calm_seq; [apply calm_upd; inert|done|done|done].
Qed.

Lemma calm_agent b : calm (agentChanged b).
Proof.
  apply calm_look. intros e h He Ht. destruct (shuttingDown h); [by apply quiet_same|].
  apply calm_seq; [apply calm_upd; inert| |done|done]. destruct b; [|by apply calm_emit].
  apply calm_seq; [by apply calm_emit|]. generalize (merge_sort by_id (map_to_list (texts h DeferredCleanup))).
  induction l as [|[d c] rest IH]; [apply calm_skip|]. apply calm_seq; [apply calm_cleanup|done].
Qed.

Lemma calm_resize_finished d p u r : calm (resizeFinished d p u r).
Proof.
  unfold resizeFinished. apply calm_seq; [apply calm_upd; inert|]. apply calm_look. intros e h He Ht.
  destruct (bool_decide _); [apply quiet_inert; [inert|done]|]. destruct (negb _); [|by apply quiet_same].
  repeat apply calm_seq; try done; try (apply calm_upd; inert).
  destruct u; [|apply calm_skip]. apply calm_seq; by apply calm_emit.
Qed.

(** ** Handlers that ask for displays *)

(** A block belongs to the request it came with. *)
Definition linked (d : Z) (launch : bool) (b : add_block) : Prop :=
  block_id b = d /\ is_launch b = launch /\ user_display d.

(** As [quiet], and a launch may reserve a free id, a resize may ask for an id that
    is not being removed. *)
Record effect (h : t) (r : t * list out) : Prop := {
  e_removing : forall d, removing d h -> removing d r.1;
  e_free : forall d, free d r.1 -> free d h;
  e_tags : forall d, tags_of d r.2 = [] \/
    (tags_of d r.2 = [TRemove] /\ ~ removing d h /\ removing d r.1) \/
    (tags_of d r.2 = [TAdd true] /\ free d h /\ ~ free d r.1) \/
    (tags_of d r.2 = [TResize] /\ ~ removing d h);
  e_linked : forall d launch b, RAdd d launch (Some b) ∈ requests r.2 -> linked d launch b;
  e_tidy : tidy r.1 }.

Lemma quiet_no_adds h r d launch b : quiet h r -> RAdd d launch b ∉ requests r.2.
Proof.
  intros Q Hin. assert (exists x, x ∈ tags_of d r.2 /\ (x = TResize \/ exists w, x = TAdd w)) as (x & Hx & Hk).
  { exists (if launch then TAdd (bool_decide (is_Some b)) else TResize). split; [|destruct launch; eauto].
    unfold tags_of. apply list_elem_of_In, in_flat_map. exists (RAdd d launch b).
    split; [by apply list_elem_of_In|]. cbn. rewrite Z.eqb_refl. by left. }
  destruct (q_tags h r Q d) as [E|(E & _)]; rewrite E in Hx; [by apply elem_of_nil in Hx|].
  apply list_elem_of_singleton in Hx as ->. naive_solver.
Qed.

Lemma quiet_effect h r : quiet h r -> effect h r.
Proof.
  intros Q. split; [apply Q|apply Q| | |apply Q].
  - intros d. destruct (q_tags h r Q d) as [?|?]; auto.
  - intros d launch b Hb. by destruct (quiet_no_adds h r d launch (Some b) Q).
Qed.

Lemma launch_effect c profile m e h :
  channelAlive e = true -> tidy h -> effect h (launchApplicationComponent c profile m e h).
Proof.
  intros He Ht. unfold launchApplicationComponent, look at 1.
  destruct (_ || _); [apply quiet_effect; by apply quiet_same|]. cbv zeta.
  destruct (negb _); [apply quiet_effect; by apply quiet_same|].
  destruct (appDisplayBindings h !! _) as [d|].
  { destruct (_ || _); [apply quiet_effect; by apply quiet_same|]. apply quiet_effect.
    apply calm_seq; [|by apply calm_emit|done|done]. destruct (has Windows d h); [|apply calm_skip].
    apply calm_seq; [by apply calm_emit|apply calm_streaming]. }
  destruct (0 <? _)%nat; [apply quiet_effect; by apply quiet_same|].
  destruct (negb _); [apply quiet_effect; by apply quiet_same|].
  destruct (negb _); [apply quiet_effect; by apply quiet_same|].
  unfold allocateUserDisplayId. set (d := first_free _ h).
  destruct (d =? 0) eqn:Ed; [apply quiet_effect; by apply quiet_same|].
  apply Z.eqb_neq in Ed. destruct (first_free_spec _ _ d eq_refl Ed) as (_ & Ha & Hr).
  pose proof (allocated_range d h eq_refl Ed) as Hd. rewrite !seq_upd. clearbody d.
  set (h' := reserve _ _ _ _ _ _).
  assert (ids h' RemovalPending = ids h RemovalPending /\ ids h' ActiveUserIds = {[d]} ∪ ids h ActiveUserIds /\
    tidy h') as (E1 & E2 & E3).
  { unfold h', reserve. destruct m; (repeat split; [done..|]); exact Ht. }
  clearbody h'. split; cbn -[tags_of]; unfold removing, free; rewrite ?E1, ?E2; try done.
  - set_solver.
  - intros d'. unfold tags_of. cbn. destruct (d =? d') eqn:E; [|by left]. apply Z.eqb_eq in E as <-.
    right; right; left. split; [done|]. split; [done|]. set_solver.
  - intros d' l b. cbn. intros [= -> -> ->]%list_elem_of_singleton. done.
Qed.

Lemma resize_effect d w x r u e h :
  0 <= d -> channelAlive e = true -> tidy h -> effect h (resizeDisplay d w x r u e h).
Proof.
  intros Hd He Ht. unfold resizeDisplay, look at 1.
  destruct (_ || bool_decide (bindings h !! d = None)) eqn:E; [apply quiet_effect; by apply quiet_same|].
  destruct (launchProfiles h !! d) as [p|]; [|apply quiet_effect; by apply quiet_same].
  destruct (same_geometry _ _ _ _); [apply quiet_effect; by apply quiet_same|].
  rewrite He. cbn [negb]. rewrite !seq_upd. cbv zeta.
  assert (~ removing d h /\ user_display d) as [Hr Hu].
  { unfold removing, user_display. rewrite !orb_false_iff in E. destruct E as [[[[[[[[_ E0] E5] _] _] _] _] Er] _].
    apply bool_decide_eq_false in Er. split; [done|]. bool_to_prop. lia. }
  split; cbn -[tags_of]; try done.
  - intros d'. unfold tags_of. cbn. destruct (d =? d') eqn:Ed; [|by left]. apply Z.eqb_eq in Ed as <-.
    right; right; right. done.
  - intros d' l b. cbn. intros [= -> -> ->]%list_elem_of_singleton. done.
Qed.

(** Outputs without tags ask for no display. *)
Lemma no_tags_no_adds outs d l b : (forall d, tags_of d outs = []) -> RAdd d l (Some b) ∉ requests outs.
Proof.
  intros Ho Hb. specialize (Ho d). unfold tags_of in Ho.
  assert ((if l then TAdd true else TResize) ∈ ([] : list tag)) as Hx; [|by apply elem_of_nil in Hx].
  rewrite <- Ho. apply list_elem_of_In, in_flat_map. exists (RAdd d l (Some b)).
  split; [by apply list_elem_of_In|]. cbn. rewrite Z.eqb_refl. destruct l; by left.
Qed.

(** A step of the handler before one with an effect. *)
Lemma effect_after h h1 o1 r : quiet h (h1, o1) -> (forall d, tags_of d o1 = []) -> effect h1 r ->
  effect h (r.1, o1 ++ r.2).
Proof.
  intros [A1 A2 A3 A4] Ho [B1 B2 B3 B4 B5]. split; cbn -[tags_of] in *; auto.
  - intros d. rewrite tags_of_app, Ho. cbn [app].
    destruct (B3 d) as [?|[(? & ? & ?)|[(? & ? & ?)|(? & ?)]]]; auto 8.
  - intros d l b Hb. apply (B4 d l b). unfold requests in *. rewrite flat_map_app in Hb.
    apply elem_of_app in Hb as [Hb|Hb]; [|done]. by destruct (no_tags_no_adds o1 d l b Ho).
Qed.

(** And one with no effect after it. *)
Lemma effect_then h r outs : effect h r -> (forall d, tags_of d outs = []) -> effect h (r.1, r.2 ++ outs).
Proof.
  intros [B1 B2 B3 B4 B5] Ho. split; cbn -[tags_of] in *; auto.
  - intros d. rewrite tags_of_app, Ho, app_nil_r. apply B3.
  - intros d l b Hb. unfold requests in Hb. rewrite flat_map_app in Hb.
    apply elem_of_app in Hb as [Hb|Hb]; [by apply B4|]. by destruct (no_tags_no_adds outs d l b Ho).
Qed.

Lemma screen_effect d screen target visible e h :
  0 <= d -> channelAlive e = true -> tidy h -> effect h (windowDidChangeScreen d screen target visible e h).
Proof.
  intros Hd He Ht. unfold windowDidChangeScreen, look at 1.
  destruct (negb _); [apply quiet_effect; by apply quiet_same|]. rewrite seq_upd.
  set (h1 := put_number TargetScreens d screen h).
  assert (quiet h (h1, [])) as Q by (apply quiet_inert; [inert|done]).
  match goal with |- effect h (seq ?a ?b e h1) => assert (effect h1 (a e h1)) as Ha end.
  { destruct (if has ScreenMatched d h then _ else _) as [current|]; [|apply quiet_effect, quiet_same; [apply Q|done]].
    destruct (height current <? width current); (destruct (same_geometry _ _ _ _);
      [apply quiet_effect, quiet_same; [apply Q|done]|apply resize_effect; [done|done|apply Q]]). }
  unfold seq. match goal with |- effect h (let '(_, _) := ?x in _) => destruct x as [h2 o2] end.
  assert (exists outs, (if shuttingDown h then skip else setDisplayStreaming d visible) e h2 = (h2, outs) /\
    forall d', tags_of d' outs = []) as (outs & -> & Ho).
  { destruct (shuttingDown h); [by exists []|apply streaming_result]. }
  apply (effect_then h (h2, o2)); [|done]. apply (effect_after h h1 [] (h2, o2) Q); done.
Qed.

(** An event from outside has an effect. *)
Lemma outside_effect ev e h :
  outside ev -> channelAlive e = true -> tidy h -> effect h (handle ev e h).
Proof.
  intros Hev He Ht.
  destruct ev as [c p m| |c d|[d c|d c msg|d c|d|q] ok payload|d focused reading| |d|d|focused|focused|d screen target visible|b| |q|q|n| |];
    cbn [handle outside] in *; try done.
  - by apply launch_effect.
  - apply quiet_effect. by apply calm_launch_later.
  - apply quiet_effect. by apply calm_close_finished.
  - apply quiet_effect. by apply calm_cleanup_finished.
  - apply quiet_effect. by apply calm_launch_finished.
  - apply quiet_effect. apply calm_seq; [apply calm_upd; inert|apply calm_look; intros; by apply quiet_same|done|done].
  - apply quiet_effect. apply calm_look; [|done|done]. intros e' h' He' Ht'.
    destruct (shuttingDown h'); [by apply quiet_same|]. apply calm_seq; [apply calm_upd; inert| |done|done].
    destruct ok; by apply calm_emit.
  - unfold pollFinished, seq, look. cbn [upd]. set (h1 := erase_id PollInFlight d h).
    assert (quiet h (h1, [])) as Q by (apply quiet_inert; [inert|done]).
    assert (forall r, effect h1 r -> effect h (let '(s2, o2) := r in (s2, [] ++ o2))) as Hk.
    { intros [s2 o2] Hr. by apply (effect_after h h1 [] (s2, o2)). }
    apply Hk. destruct reading as [[lw lh]|]; [|apply quiet_effect, quiet_same; [apply Q|done]].
    destruct (launchProfiles h1 !! d); [|apply quiet_effect, quiet_same; [apply Q|done]].
    destruct (_ || _); [apply quiet_effect, quiet_same; [apply Q|done]|]. apply resize_effect; [done|done|apply Q].
  - apply quiet_effect. by apply calm_window_close.
  - apply quiet_effect. by apply calm_present.
  - unfold rotateFocusedApplication, look at 1. destruct (launchProfiles h !! focused); [|apply quiet_effect; by apply quiet_same].
    destruct (focused =? 0); [apply quiet_effect; by apply quiet_same|by apply resize_effect].
  - apply quiet_effect. by apply calm_poll.
  - by apply screen_effect.
  - apply quiet_effect. by apply calm_agent.
  - apply quiet_effect. apply calm_look; [|done|done]. intros e' h' He' Ht'.
    destruct (shuttingDown h'); [by apply quiet_same|].
    destruct (_ || _); [apply quiet_same; done|]. destruct (_ || _); by apply quiet_same.
  - apply quiet_effect. apply calm_look; [|done|done]. intros e' h' He' Ht'.
    destruct (shuttingDown h'); [by apply quiet_same|]. destruct (negb _); [by apply quiet_same|].
    repeat apply calm_seq; try done; [apply calm_upd; inert|by apply calm_emit..].
  - apply quiet_effect. apply calm_look; [|done|done]. intros e' h' He' Ht'.
    destruct (_ || _); [by apply quiet_same|]. apply quiet_inert; [inert|done].
  - apply quiet_effect. apply calm_look; [|done|done]. intros e' h' He' Ht'.
    destruct (shuttingDown h'); [by apply quiet_same|]. apply quiet_inert; [inert|done].
  - apply quiet_effect. split; cbn -[tags_of]; auto. by left.
Qed.
(** ** Nothing stays suppressed *)

Definition tidies (a : act) : Prop := forall e h, tidy h -> tidy (a e h).1.

Lemma tidies_seq a b : tidies a -> tidies b -> tidies (seq a b).
Proof. intros Ha Hb e h Ht. rewrite seq_state. by apply Hb, Ha. Qed.

Lemma tidies_look f : (forall e h, tidies (f e h)) -> tidies (look f).
Proof. intros Hf e h Ht. by apply Hf. Qed.

Lemma tidies_emit o : tidies (emit o).
Proof. by intros e h Ht. Qed.

Lemma tidies_skip : tidies skip.
Proof. by intros e h Ht. Qed.

Lemma tidies_upd f :
  (forall h, ids (f h) SuppressRemoveOnClose ⊆ ids h SuppressRemoveOnClose /\ shuttingDown (f h) = shuttingDown h) ->
  tidies (upd f).
Proof.
  intros Hf e h [Ht|Ht]; destruct (Hf h) as [Hs E]; [left; cbn; congruence|right; cbn].
  rewrite Ht in Hs. set_solver.
Qed.

Lemma tidies_unbind d : tidies (upd (unbindApplicationFromDisplay d)).
Proof. apply tidies_upd. intros h. rewrite unbind_ids by tauto. by rewrite unbind_shutting. Qed.

Lemma tidies_release d : tidies (upd (releaseUserDisplayId d)).
Proof. apply tidies_upd. intros h. unfold releaseUserDisplayId. by destruct (d =? 0). Qed.

Ltac tidy_walk := repeat (cbv zeta; match goal with
  | |- tidies (seq _ _) => apply tidies_seq
  | |- tidies (emit _) => apply tidies_emit
  | |- tidies (status _) => apply tidies_emit
  | |- tidies skip => apply tidies_skip
  | |- tidies (upd (unbindApplicationFromDisplay _)) => apply tidies_unbind
  | |- tidies (upd (releaseUserDisplayId _)) => apply tidies_release
  | |- tidies (upd _) => apply tidies_upd; intros ?; (split; [cbn; set_solver|done])
  | |- tidies (if ?b then _ else _) => destruct b
  | |- tidies (match ?x with _ => _ end) => destruct x
  | H : tidies ?a |- tidies ?a => exact H
  | |- tidies _ => solve [auto with tidy]
  | |- tidies (look _) => apply tidies_look; intros ? ?
  end).

Create HintDb tidy.

Lemma tidies_remove d : tidies (requestDisplayRemove d).
Proof. unfold requestDisplayRemove. tidy_walk. Qed.
Lemma tidies_streaming d b : tidies (setDisplayStreaming d b).
Proof. unfold setDisplayStreaming. tidy_walk. Qed.
#[local] Hint Resolve tidies_skip tidies_release tidies_remove tidies_streaming : tidy.
Lemma tidies_open d w x : tidies (openDisplayWindow d w x).
Proof. unfold openDisplayWindow. tidy_walk. Qed.
#[local] Hint Resolve tidies_open : tidy.
Lemma tidies_open_for d : tidies (openDisplayWindowForDisplay d).
Proof. unfold openDisplayWindowForDisplay. tidy_walk. Qed.
#[local] Hint Resolve tidies_open_for : tidy.
Lemma tidies_close_bound d : tidies (closeBoundAppAndRemoveDisplay d).
Proof. unfold closeBoundAppAndRemoveDisplay. tidy_walk. Qed.
#[local] Hint Resolve tidies_close_bound : tidy.
Lemma tidies_window_close d : tidies (windowWillClose d).
Proof. unfold windowWillClose. tidy_walk. Qed.
#[local] Hint Resolve tidies_window_close : tidy.

(** A window that is there consumes the suppression. *)
Lemma tidies_suppressed d k :
  tidies k -> tidies (look (fun _ s => if has Windows d s then closeSuppressed d else k)).
Proof.
  intros Hk e h Ht. unfold look. destruct (has Windows d h) eqn:Ew; [|by apply Hk].
  destruct (shuttingDown h) eqn:Es.
  { unfold closeSuppressed. rewrite seq_upd. unfold windowWillClose, look at 1. cbn. rewrite Es. by left. }
  destruct Ht as [Ht|Ht]; [congruence|]. destruct (suppressed_result d e h Es Ew) as (outs & -> & _).
  right. cbn. rewrite after_close_ids by tauto. rewrite Ht. set_solver.
Qed.

#[local] Hint Resolve tidies_suppressed : tidy.
Lemma tidies_rollback d m x : tidies (rollbackApplicationDisplay d m x).
Proof. unfold rollbackApplicationDisplay. tidy_walk. Qed.
#[local] Hint Resolve tidies_rollback : tidy.
Lemma tidies_cleanup d c m : tidies (cleanupFailedLaunchForDisplay d c m).
Proof. unfold cleanupFailedLaunchForDisplay. tidy_walk. Qed.
#[local] Hint Resolve tidies_cleanup : tidy.
Lemma tidies_resize d w x r u : tidies (resizeDisplay d w x r u).
Proof. unfold resizeDisplay. tidy_walk. Qed.
Lemma tidies_component c d : tidies (launchComponent c d).
Proof. unfold launchComponent. tidy_walk. Qed.
Lemma tidies_resume entries : tidies (resume_cleanups entries).
Proof. induction entries as [|[d c] rest IH]; cbn [resume_cleanups]; tidy_walk. Qed.
#[local] Hint Resolve tidies_resize tidies_component tidies_resume : tidy.

Lemma tidies_reserve c d p m x : tidies (upd (reserve c d p m x)).
Proof. apply tidies_upd. intros h. unfold reserve. by destruct m. Qed.
#[local] Hint Resolve tidies_reserve : tidy.

Lemma tidies_launch c p m : tidies (launchApplicationComponent c p m).
Proof.
  intros e h Ht. destruct (added (launchApplicationComponent c p m e h).2) as [|d ds] eqn:Ea.
  2: { destruct (launch_adds c p m e h d) as (_ & _ & _ & _ & _ & ->); [rewrite Ea; left|].
       by apply (tidies_reserve c d p m (targetScreen e) e). }
  revert Ht Ea. unfold launchApplicationComponent, look at 1 2.
  assert (forall a, tidies a -> tidy h -> added (a e h).2 = [] -> tidy (a e h).1) as Hk by auto.
  destruct (_ || _); [apply Hk; tidy_walk|]. cbv zeta. destruct (negb _); [apply Hk; tidy_walk|].
  destruct (appDisplayBindings h !! _) as [d|]; [apply Hk; tidy_walk|].
  destruct (0 <? _)%nat; [apply Hk; tidy_walk|]. destruct (negb _); [apply Hk; tidy_walk|].
  destruct (negb _); [apply Hk; tidy_walk|].
  unfold allocateUserDisplayId. destruct (_ =? 0); [apply Hk; tidy_walk|]. by rewrite !seq_upd.
Qed.

Lemma handle_tidies ev : tidies (handle ev).
Proof.
  destruct ev as [c p m|[c d p|d p u] r|c d|[d c|d c msg|d c|d|q] ok payload|d focused reading|ty pl|d|d|focused|focused|d screen target visible|b| |q|q|n| |];
    cbn [handle].
  - apply tidies_launch.
  - unfold addFinished. tidy_walk.
  - unfold resizeFinished. tidy_walk.
  - unfold launchAfterDelay. tidy_walk.
  - unfold closeFinished. tidy_walk.
  - unfold cleanupFinished. tidy_walk.
  - unfold launchFinished. tidy_walk.
  - unfold pollFinished. tidy_walk.
  - unfold uninstallFinished. tidy_walk.
  - unfold pollFinished. tidy_walk.
  - unfold handleControlEvent. tidy_walk.
  - apply tidies_window_close.
  - unfold presentFrameForDisplay. tidy_walk.
  - unfold rotateFocusedApplication. tidy_walk.
  - unfold pollFocusedApplicationOrientation. tidy_walk.
  - unfold windowDidChangeScreen. tidy_walk.
  - unfold agentChanged. tidy_walk.
  - unfold qemuExited. tidy_walk.
  - unfold uninstallRequested. tidy_walk.
  - unfold uninstallConfirmed. tidy_walk.
  - unfold installApkURLs. tidy_walk.
  - unfold apkInstallFinished. tidy_walk.
  - intros e h Ht. by left.
Qed.

(** ** Answers and events *)

(** The id [d] may be freed, and nothing is sent. *)
Record freed (d : Z) (h : t) (r : t * list out) : Prop := {
  f_removing : forall d', d' <> d -> removing d' h -> removing d' r.1;
  f_free : forall d', d' <> d -> free d' r.1 -> free d' h;
  f_tags : forall d', tags_of d' r.2 = [] }.

Lemma free_not_removing d h : free d h -> ~ removing d h.
Proof. by intros [_ H]. Qed.

Lemma refused_answer b r e h :
  answer_tag b r = TRefused ->
  freed (block_id b) h (handle (EAddDone b r) e h) /\
  (forall d, removing d h -> removing d (handle (EAddDone b r) e h).1).
Proof.
  unfold answer_tag. destruct b as [c d p|d p u]; cbn [is_launch andb]; [|done].
  destruct (ControlChannel.r_ok r) eqn:Eo; cbn [negb]; [done|].
  destruct (ControlChannel.r_type r =? type_code kError) eqn:Et; [|done]. intros _.
  cbn [handle block_id]. unfold addFinished, look at 1 2. rewrite Eo, Et. cbn [negb].
  rewrite !seq_upd. cbn [fst snd emit].
  assert (forall d', d' <> d -> free d' (releaseUserDisplayId d (unbindApplicationFromDisplay d h)) -> free d' h) as Hf.
  { intros d' Hne. unfold free, releaseUserDisplayId. destruct (d =? 0); cbn; rewrite !unbind_ids by tauto; set_solver. }
  assert (forall d', removing d' h -> removing d' (releaseUserDisplayId d (unbindApplicationFromDisplay d h))) as Hr.
  { intros d'. unfold removing, releaseUserDisplayId. destruct (d =? 0); cbn; by rewrite !unbind_ids by tauto. }
  split; [split; cbn -[tags_of]; auto|done].
Qed.

Lemma other_answer b r e h :
  answer_tag b r <> TRefused -> user_display (block_id b) -> channelAlive e = true -> tidy h ->
  quiet h (handle (EAddDone b r) e h).
Proof.
  intros Ha Hd He Ht. destruct b as [c d p|d p u]; cbn [handle block_id] in *; [|by apply calm_resize_finished].
  unfold answer_tag in Ha. cbn [is_launch andb] in Ha. unfold addFinished, look at 1.
  destruct (ControlChannel.r_ok r) eqn:Eo; cbn [negb] in *.
  - destruct (_ <? _)%nat; [by apply calm_rollback|]. cbv zeta.
    destruct (bool_decide _); [by apply calm_remove|].
    destruct (negb _) eqn:En; [apply calm_seq; [by apply calm_rollback|apply calm_remove|done|done]|].
    apply negb_false_iff, Z.eqb_eq in En. rewrite En.
    apply calm_seq; [apply calm_open| |done|done]. apply calm_look. intros e' h' He' Ht'.
    destruct (negb _); [by apply calm_rollback|by apply quiet_same].
  - destruct (_ =? type_code kError); [done|by apply calm_rollback].
Qed.

(** What an event does, once it is read off the channel. *)
Lemma event_decoded ev e h :
  wire_wf ev -> handle (EControl (type_code kEventDisplay) (encode ev)) e h =
  (if shuttingDown h then skip
   else if (ev_displayId ev =? 0) || (kMaxUserDisplayId <? ev_displayId ev) then skip
   else if ev_state ev =? kControlDisplayAdded then
     match bindings h !! ev_displayId ev with
     | None => requestDisplayRemove (ev_displayId ev)
     | Some _ =>
         match launchProfiles h !! ev_displayId ev with
         | Some p =>
             if (0 <? ev_width ev) && (0 <? ev_height ev) && (0 <? ev_dpi ev) then
               upd (set_profiles (<[ev_displayId ev := {| title := title p; width := ev_width ev;
                 height := ev_height ev; dpi := ev_dpi ev |}]> (launchProfiles h)))
             else skip
         | None => skip
         end ;;
         openDisplayWindow (ev_displayId ev) (ev_width ev) (ev_height ev)
     end
   else if ev_state ev =? kControlDisplayRemoved then
     upd (erase_id RemovalPending (ev_displayId ev)) ;; upd (unbindApplicationFromDisplay (ev_displayId ev)) ;;
     look (fun _ s => if has Windows (ev_displayId ev) s then closeSuppressed (ev_displayId ev)
                      else upd (releaseUserDisplayId (ev_displayId ev)))
   else skip) e h.
Proof.
  intros Hw. cbn [handle]. unfold handleControlEvent, look at 1.
  rewrite Z.eqb_refl, length_encode, Nat.ltb_irrefl, (decode_encode_nil ev Hw). cbn [negb orb].
  by destruct (shuttingDown h).
Qed.

Lemma other_event ev e h :
  wire_wf ev -> event_tag ev <> TGone -> channelAlive e = true -> tidy h ->
  quiet h (handle (EControl (type_code kEventDisplay) (encode ev)) e h).
Proof.
  intros Hw Hg He Ht. rewrite event_decoded by done. unfold event_tag in Hg.
  destruct (shuttingDown h); [by apply quiet_same|]. destruct (_ || _); [by apply quiet_same|].
  destruct (ev_state ev =? kControlDisplayAdded).
  - destruct (bindings h !! _); [|by apply calm_remove]. apply calm_seq; [|apply calm_open|done|done].
    destruct (launchProfiles h !! _); [|apply calm_skip]. destruct (_ && _); [|apply calm_skip].
    apply calm_upd. inert.
  - destruct (ev_state ev =? kControlDisplayRemoved); [done|by apply quiet_same].
Qed.

Lemma gone_event ev e h :
  wire_wf ev -> event_tag ev = TGone -> tidy h ->
  freed (ev_displayId ev) h (handle (EControl (type_code kEventDisplay) (encode ev)) e h).
Proof.
  intros Hw Hg Ht. rewrite event_decoded by done. unfold event_tag in Hg.
  destruct (shuttingDown h) eqn:Es; [by split|]. destruct (_ || _); [by split|].
  destruct (ev_state ev =? kControlDisplayRemoved) eqn:Er; [|done]. apply Z.eqb_eq in Er. rewrite Er.
  change (kControlDisplayRemoved =? kControlDisplayAdded) with false.
  change (kControlDisplayRemoved =? kControlDisplayRemoved) with true. cbv iota.
  destruct Ht as [Ht|Ht]; [congruence|]. generalize (ev_displayId ev). intros d. clear Hw Hg Er ev.
  rewrite !seq_upd. set (h1 := unbindApplicationFromDisplay d (erase_id RemovalPending d h)).
  assert (forall h', ids h' RemovalPending = ids h1 RemovalPending -> ids h' ActiveUserIds = ids h1 ActiveUserIds ->
    freed d h (releaseUserDisplayId d h', [])) as Hk.
  { intros h' E1 E2. assert (ids h1 RemovalPending = ids h RemovalPending ∖ {[d]} /\
      ids h1 ActiveUserIds = ids h ActiveUserIds) as [E3 E4].
    { unfold h1. by rewrite !unbind_ids by tauto. }
    split; cbn -[tags_of]; [..|done]; unfold removing, free, releaseUserDisplayId; intros d' Hd';
      destruct (d =? 0); cbn; rewrite E1, ?E2, E3, ?E4; set_solver. }
  unfold look. destruct (has Windows d h1) eqn:Ew; [|by apply Hk].
  assert (shuttingDown h1 = false) as Es1 by (unfold h1; by rewrite unbind_shutting).
  destruct (suppressed_result d e h1 Es1 Ew) as (outs & -> & Ho). unfold after_close.
  assert (d ∉ ids h1 RemovalPending) as Hr.
  { unfold h1. rewrite unbind_ids by tauto. cbn. set_solver. }
  set (h2 := unbindApplicationFromDisplay d (erase_id _ _ _)).
  assert (ids h2 RemovalPending = ids h1 RemovalPending /\ ids h2 ActiveUserIds = ids h1 ActiveUserIds) as [E1 E2]
    by (unfold h2; by rewrite !unbind_ids by tauto).
  assert (has RemovalPending d h2 = false) as -> by (apply bool_decide_eq_false; by rewrite E1).
  destruct (Hk h2 E1 E2) as [K1 K2 _]. by split.
Qed.

(** ** The invariant of the system *)

Section System.
Variable pipe : bool.
Notation step := (step pipe).

Record system_inv (s : system) : Prop := {
  y_tidy : tidy (host s);
  y_requests : forall d l b, RAdd d l (Some b) ∈ toEmulator s -> linked d l b;
  y_replies : forall d l ok b, WAdd d l ok (Some b) ∈ fromEmulator s -> linked d l b;
  y_blocks : forall b r, QAdd b r ∈ mainQueue s -> user_display (block_id b);
  y_reply_events : forall ev, WEvent ev ∈ fromEmulator s -> wire_wf ev;
  y_block_events : forall ev, QEvent ev ∈ mainQueue s -> wire_wf ev;
  y_orphans : pipe = true -> orphans s = ∅;
  y_gone : channel s = true -> forall d, TGone ∈ underway d s -> d ∉ orphans s;
  y_words : channel s = true -> forall d,
    word_ok (underway d s) (owned d s) (removing d (host s)) (free d (host s)) }.

Lemma app_last {A} (a b c d : list A) : a ++ b ++ c ++ d = (a ++ b ++ c) ++ d.
Proof. by rewrite <- !app_assoc. Qed.

(** Sending appends to what is under way. *)
Lemma underway_send d s h x y rest outs c m :
  underway d {| host := h; displays := x; orphans := y; toEmulator := toEmulator s ++ requests outs;
    fromEmulator := fromEmulator s; mainQueue := rest; channel := c; emulator := m |} =
  flat_map (block_tags d) rest ++ flat_map (reply_tags d) (fromEmulator s) ++
  flat_map (request_tags d) (toEmulator s) ++ tags_of d outs.
Proof. unfold underway, tags_of. cbn. by rewrite flat_map_app. Qed.

(** The word of an id after a handler has run. *)
Lemma word_effect d w s h outs :
  (forall d p f b, OAdd d p f b ∈ outs -> is_launch b = false -> owned d s) ->
  effect (host s) (h, outs) ->
  word_ok w (owned d s) (removing d (host s)) (free d (host s)) ->
  word_ok (w ++ tags_of d outs) (owned d s) (removing d h) (free d h).
Proof.
  intros Hres E W. destruct (e_tags _ _ E d) as [Ht|[(Ht & Hr & Hr')|[(Ht & Hf & Hf')|(Ht & Hr)]]];
    cbn [snd fst] in *; rewrite Ht.
  - rewrite app_nil_r. eapply word_weaken; [exact W|apply (e_removing _ _ E)|apply (e_free _ _ E)].
  - eapply word_send_remove; [exact W|done|done|by apply free_not_removing].
  - by eapply word_send_add.
  - eapply word_send_resize; [exact W| |done|apply (e_free _ _ E)].
    assert (TResize ∈ tags_of d outs) as Hin by (rewrite Ht; left). unfold tags_of, requests in Hin.
    apply list_elem_of_In, in_flat_map in Hin as (q & Hq & Hin).
    apply in_flat_map in Hq as (o & Ho & Hq). apply list_elem_of_In in Ho.
    destruct o as [d' p f b| | | | | | | | | |]; cbn in Hq; try done; destruct Hq as [<-|[]]; cbn in Hin;
      destruct (_ =? d) eqn:Ed; try done; destruct Hin as [Hin|[]]; try done.
    apply Z.eqb_eq in Ed as ->. apply (Hres d p f b Ho). by destruct (is_launch b).
Qed.

(** Requests have no events among their tags. *)
Lemma request_tags_plain d r : TGone ∉ flat_map (request_tags d) r.
Proof.
  intros Hin. apply list_elem_of_In, in_flat_map in Hin as (x & _ & Hx).
  destruct x as [d' [] b|d']; cbn in Hx; destruct (d' =? d); cbn in Hx; naive_solver.
Qed.

(** A handler runs: what is kept about the queues. *)
Lemma perform_inv s a e pre rest :
  system_inv s -> tidies a -> mainQueue s = pre ++ rest ->
  (channel s = true -> forall d l b, RAdd d l (Some b) ∈ requests (a e (host s)).2 -> linked d l b) ->
  (channel s = true -> forall d, word_ok (underway d (perform a e rest s)) (owned d s)
     (removing d (a e (host s)).1) (free d (a e (host s)).1)) ->
  system_inv (perform a e rest s).
Proof.
  intros [Y1 Y2 Y3 Y4 Y5 Y6 Yo Yg Y7] Ht Hq Hl Hw. unfold perform in *. pose proof (Ht e (host s) Y1) as Htidy.
  destruct (a e (host s)) as [h outs] eqn:Ea. cbn [fst snd] in *.
  assert (forall q, q ∈ rest -> q ∈ mainQueue s) as Hrest by (intros q ?; rewrite Hq; set_solver).
  split; cbn [host displays orphans toEmulator fromEmulator mainQueue channel]; auto.
  - intros d l b. rewrite elem_of_app. intros [?|Hin]; [by apply Y2|].
    destruct (channel s); [by apply Hl|by apply elem_of_nil in Hin].
  - intros b r Hin. by apply (Y4 b r), Hrest.
  - intros Hc d Hg. rewrite Hc in Hg. rewrite underway_send in Hg. apply (Yg Hc). unfold underway.
    rewrite Hq, flat_map_app. rewrite !elem_of_app in *. destruct Hg as [Hg|[Hg|[Hg|Hg]]]; auto.
    by destruct (request_tags_plain d (requests outs)).
Qed.

Lemma outside_inv s ev e :
  system_inv s -> outside ev -> agrees e s -> resizes_existing (handle ev e (host s)).2 s ->
  system_inv (perform (handle ev) e (mainQueue s) s).
Proof.
  intros Hi Hev [He _] Hres. pose proof (y_tidy s Hi) as Ht.
  assert (channel s = true -> effect (host s) (handle ev e (host s))) as HE
    by (intros Hc; apply outside_effect; [done|congruence|done]).
  apply (perform_inv s _ e []); [done|apply handle_tidies|done|..].
  - intros Hc d l b. apply (e_linked _ _ (HE Hc)).
  - intros Hc d. unfold perform. specialize (HE Hc). destruct (handle ev e (host s)) as [h outs]. rewrite Hc.
    cbv iota. rewrite underway_send. cbn [fst snd] in *.
    pose proof (word_effect d _ s h outs Hres HE (y_words s Hi Hc d)) as W. unfold underway in W.
    by rewrite <- !app_assoc in W.
Qed.

(** A block with no release is taken off the main queue. *)
Lemma word_quiet d x w s h outs :
  quiet (host s) (h, outs) -> x = [] \/ (exists y, x = [y] /\ y <> TRefused /\ y <> TGone) ->
  word_ok (x ++ w) (owned d s) (removing d (host s)) (free d (host s)) ->
  word_ok (w ++ tags_of d outs) (owned d s) (removing d h) (free d h).
Proof.
  intros Q Hx W. apply word_effect; [|by apply quiet_effect|].
  - intros d' p f b Hin _. exfalso. apply (quiet_no_adds _ _ d' (is_launch b) (Some b) Q). cbn.
    unfold requests. apply list_elem_of_In, in_flat_map. exists (OAdd d' p f b).
    split; [by apply list_elem_of_In|by left].
  - destruct Hx as [->|(y & -> & H1 & H2)]; [done|]. by eapply word_pop.
Qed.

(** A block is taken off the main queue. *)
Lemma answer_inv s b r rest e :
  system_inv s -> mainQueue s = QAdd b r :: rest -> agrees e s ->
  system_inv (perform (handle (EAddDone b r)) e rest s).
Proof.
  intros Hi Hq [He _]. pose proof (y_tidy s Hi) as Ht.
  assert (user_display (block_id b)) as Hu by (apply (y_blocks s Hi b r); rewrite Hq; left).
  assert (channel s = true -> answer_tag b r <> TRefused -> quiet (host s) (handle (EAddDone b r) e (host s))) as HQ
    by (intros Hc Hn; apply other_answer; [done|done|congruence|done]).
  eapply (perform_inv s _ e [_]); [done|apply handle_tidies|exact Hq|..].
  - intros Hc d l b'. destruct (decide (answer_tag b r = TRefused)) as [E|E].
    + destruct (refused_answer b r e (host s) E) as [[_ _ Hno] _]. intros Hin.
      by destruct (no_tags_no_adds _ d l b' Hno).
    + apply (e_linked _ _ (quiet_effect _ _ (HQ Hc E))).
  - intros Hc d. pose proof (y_words s Hi Hc d) as W. unfold underway in W. rewrite Hq in W. cbn [flat_map block_tags] in W.
    unfold perform. rewrite Hc. cbv iota.
    destruct (decide (answer_tag b r = TRefused)) as [E|E].
    + destruct (refused_answer b r e (host s) E) as [[F1 F2 F3] F4].
      destruct (handle (EAddDone b r) e (host s)) as [h outs]. rewrite underway_send, F3, app_nil_r. cbn [fst snd] in *.
      destruct (block_id b =? d) eqn:Ed; cbn [app] in W.
      * rewrite E in W. eapply word_pop_refused; [exact W|apply F4|by apply free_not_removing].
      * apply Z.eqb_neq in Ed. eapply word_weaken; [exact W|apply F4|by apply F2].
    + specialize (HQ Hc E). destruct (handle (EAddDone b r) e (host s)) as [h outs]. rewrite underway_send. cbn [fst snd] in *.
      rewrite app_last. rewrite <- app_assoc in W.
      eapply word_quiet; [exact HQ| |exact W]. destruct (block_id b =? d); [right|by left].
      eexists. split; [done|]. split; [done|]. unfold answer_tag. by repeat case_match.
Qed.

Lemma event_inv s ev rest e :
  system_inv s -> mainQueue s = QEvent ev :: rest -> agrees e s ->
  system_inv (perform (handle (EControl (type_code kEventDisplay) (encode ev))) e rest s).
Proof.
  intros Hi Hq [He _]. pose proof (y_tidy s Hi) as Ht.
  assert (wire_wf ev) as Hw by (apply (y_block_events s Hi); rewrite Hq; left).
  set (a := handle (EControl (type_code kEventDisplay) (encode ev))) in *.
  assert (channel s = true -> event_tag ev <> TGone -> quiet (host s) (a e (host s))) as HQ
    by (intros Hc Hn; apply other_event; [done|done|congruence|done]).
  assert (event_tag ev = TGone -> freed (ev_displayId ev) (host s) (a e (host s))) as HG
    by (intros E; by apply gone_event).
  eapply (perform_inv s _ e [_]); [done|apply handle_tidies|exact Hq|..].
  - intros Hc d l b'. destruct (decide (event_tag ev = TGone)) as [E|E].
    + intros Hin. by destruct (no_tags_no_adds _ d l b' (f_tags _ _ _ (HG E))).
    + apply (e_linked _ _ (quiet_effect _ _ (HQ Hc E))).
  - intros Hc d. pose proof (y_words s Hi Hc d) as W. unfold underway in W. rewrite Hq in W. cbn [flat_map block_tags] in W.
    unfold perform. rewrite Hc. cbv iota.
    destruct (decide (event_tag ev = TGone)) as [E|E].
    + destruct (HG E) as [F1 F2 F3]. destruct (a e (host s)) as [h outs]. rewrite underway_send, F3, app_nil_r. cbn [fst snd] in *.
      destruct (ev_displayId ev =? d) eqn:Ed; cbn [app] in W.
      * rewrite E in W. by eapply word_done.
      * apply Z.eqb_neq in Ed. eapply word_weaken; [exact W|by apply F1|by apply F2].
    + specialize (HQ Hc E). destruct (a e (host s)) as [h outs]. rewrite underway_send. cbn [fst snd] in *.
      rewrite app_last. rewrite <- app_assoc in W.
      eapply word_quiet; [exact HQ| |exact W]. destruct (ev_displayId ev =? d); [right|by left].
      eexists. split; [done|]. split; [|done]. unfold event_tag. by case_match.
Qed.

Lemma add_inv s d (l : bool) b rest (r : outcome) ev :
  system_inv s -> toEmulator s = RAdd d l b :: rest -> channel s = true ->
  wire_wf ev -> ev_displayId ev = d -> ev_state ev = kControlDisplayAdded -> (r = NoPipe -> pipe = false) ->
  system_inv {| host := host s; displays := after_add r d (displays s);
    orphans := orphans_after_add r l d (orphans s); toEmulator := rest;
    fromEmulator := fromEmulator s ++ WAdd d l (succeeded r) b :: (if succeeded r then [WEvent ev] else []);
    mainQueue := mainQueue s; channel := true; emulator := emulator s |}.
Proof.
  intros [Y1 Y2 Y3 Y4 Y5 Y6 Yo Yg Y7] Hq Hc Hw Hd Hst Hpipe. rewrite Hq in *.
  assert (forall d', flat_map (reply_tags d') (if succeeded r then [WEvent ev] else []) =
    if d =? d' then (if succeeded r then [TOther] else []) else []) as Hev.
  { intros d'. destruct (succeeded r); [|by destruct (d =? d')]. cbn. rewrite Hd, app_nil_r.
    destruct (d =? d'); [|done]. unfold event_tag. by rewrite Hst. }
  split; cbn [host displays orphans toEmulator fromEmulator mainQueue channel]; auto.
  - intros d' l' b' Hin. apply Y2. by right.
  - intros d' l' ok' b'. rewrite elem_of_app, elem_of_cons.
    intros [?|[[= -> -> -> <-]|Hin]]; [by eapply Y3|apply Y2; left|].
    destruct (succeeded r); [by apply list_elem_of_singleton in Hin|by apply elem_of_nil in Hin].
  - intros ev'. rewrite elem_of_app, elem_of_cons. intros [?|[?|Hin]]; [by apply Y5|done|].
    destruct (succeeded r); [|by apply elem_of_nil in Hin]. apply list_elem_of_singleton in Hin as [= ->]. done.
  - intros Hp. rewrite (Yo Hp). destruct r; cbn; [set_solver|done|]. by rewrite Hpipe in Hp.
  - intros _ d' Hg. specialize (Yg Hc d'). specialize (Y7 Hc d'). unfold underway in *. rewrite Hq in *.
    cbn [host displays orphans toEmulator fromEmulator mainQueue flat_map] in *.
    rewrite flat_map_app in Hg. cbn [flat_map] in Hg. rewrite Hev in Hg.
    assert (TGone ∈ flat_map (block_tags d') (mainQueue s) ++ flat_map (reply_tags d') (fromEmulator s)) as Hg'.
    { apply elem_of_app. apply elem_of_app in Hg as [Hg|[[Hg|[Hg|Hg]%elem_of_app]%elem_of_app|Hg]%elem_of_app];
        auto; exfalso.
      - cbn in Hg. destruct (d =? d'); [|by apply elem_of_nil in Hg].
        apply list_elem_of_singleton in Hg. by destruct (_ && _).
      - destruct (d =? d'), (succeeded r); try by apply elem_of_nil in Hg. by apply list_elem_of_singleton in Hg.
      - by apply request_tags_plain in Hg. }
    assert (d' ∉ orphans s) as Hno by (apply Yg; rewrite app_assoc; apply elem_of_app; by left).
    destruct r; cbn; [set_solver|done|]. destruct l; [|done].
    assert (d' <> d); [|set_solver]. intros ->. cbn [request_tags] in Y7. rewrite Z.eqb_refl in Y7. cbn [app] in Y7.
    rewrite app_assoc in Y7. destruct (word_cut_add _ _ _ _ _ _ Y7) as (_ & _ & [E|[_ E]]); rewrite E in Hg'; set_solver.
  - intros _ d'. specialize (Y7 Hc d'). unfold underway, owned in *. rewrite Hq in Y7.
    cbn [host displays orphans toEmulator fromEmulator mainQueue flat_map request_tags] in *.
    rewrite flat_map_app. cbn [flat_map reply_tags]. rewrite Hev.
    destruct (d =? d') eqn:Ed; cbn [app] in *.
    + apply Z.eqb_eq in Ed as <-. rewrite app_assoc in Y7.
      rewrite !app_assoc, <- (app_assoc (_ ++ _) (_ :: _)). cbn [app].
      destruct l; cbn [andb].
      * eapply word_take_add in Y7; [exact Y7|]. destruct r; cbn; set_solver.
      * pose proof (word_replace _ [] TResize None (if succeeded r then [TOther; TOther] else [TOther]) _ _ _ _
          (d ∈ after_add r d (displays s) /\ d ∉ orphans_after_add r false d (orphans s)) Y7) as W.
        cbn [option_list app] in W.
        assert (TGone ∉ (flat_map (block_tags d) (mainQueue s) ++ flat_map (reply_tags d) (fromEmulator s)) ++
          flat_map (request_tags d) rest) as Hng.
        { destruct (w_gone _ _ _ _ Y7) as [Hl _]. apply last_only_app in Hl as [Hl _].
          rewrite not_elem_of_app. split; [done|apply request_tags_plain]. }
        destruct r; apply W; try done; try (by left); try (by right); try (by repeat constructor; auto).
    + rewrite ?app_nil_r, <- ?app_assoc. apply Z.eqb_neq in Ed. apply (word_present _ _ _ _ _ Y7).
      destruct r, l; cbn; set_solver.
Qed.

(** Replies and blocks have no requests among their tags. *)
Lemma answer_tags_plain d b s :
  TAdd b ∉ flat_map (block_tags d) (mainQueue s) ++ flat_map (reply_tags d) (fromEmulator s).
Proof.
  rewrite not_elem_of_app. split; intros Hin; apply list_elem_of_In, in_flat_map in Hin as (x & _ & Hx).
  - destruct x as [b' r|ev]; cbn in Hx; [destruct (block_id b' =? d)|destruct (_ =? d)]; cbn in Hx; try done;
      destruct Hx as [Hx|[]]; revert Hx; unfold answer_tag, event_tag; by repeat case_match.
  - destruct x as [d' l ok b'|ev]; cbn in Hx; destruct (_ =? d); cbn in Hx; try done;
      destruct Hx as [Hx|[]]; revert Hx; unfold event_tag; by repeat case_match.
Qed.

Lemma remove_inv s d rest (r : outcome) ev :
  system_inv s -> toEmulator s = RRemove d :: rest -> channel s = true ->
  wire_wf ev -> ev_displayId ev = d -> ev_state ev = kControlDisplayRemoved ->
  system_inv {| host := host s; displays := after_remove r d (displays s);
    orphans := after_remove r d (orphans s); toEmulator := rest;
    fromEmulator := fromEmulator s ++ (if succeeded r then [WEvent ev] else []);
    mainQueue := mainQueue s; channel := true; emulator := emulator s |}.
Proof.
  intros [Y1 Y2 Y3 Y4 Y5 Y6 Yo Yg Y7] Hq Hc Hw Hd Hst. rewrite Hq in *.
  assert (forall d', flat_map (reply_tags d') (if succeeded r then [WEvent ev] else []) =
    if d =? d' then (if succeeded r then [TGone] else []) else []) as Hev.
  { intros d'. destruct (succeeded r); [|by destruct (d =? d')]. cbn. rewrite Hd, app_nil_r.
    destruct (d =? d'); [|done]. unfold event_tag. by rewrite Hst. }
  split; cbn [host displays orphans toEmulator fromEmulator mainQueue channel]; auto.
  - intros d' l' b' Hin. apply Y2. by right.
  - intros d' l' ok' b'. rewrite elem_of_app. intros [?|Hin]; [by eapply Y3|].
    destruct (succeeded r); [by apply list_elem_of_singleton in Hin|by apply elem_of_nil in Hin].
  - intros ev'. rewrite elem_of_app. intros [?|Hin]; [by apply Y5|].
    destruct (succeeded r); [|by apply elem_of_nil in Hin]. apply list_elem_of_singleton in Hin as [= ->]. done.
  - intros Hp. rewrite (Yo Hp). destruct r; cbn; set_solver.
  - intros _ d' Hg. specialize (Yg Hc d'). unfold underway in *. rewrite Hq in *.
    cbn [host displays orphans toEmulator fromEmulator mainQueue flat_map] in *.
    rewrite flat_map_app, Hev in Hg. destruct (decide (d = d')) as [<-|Hne].
    + destruct r; cbn; [set_solver| |set_solver]. apply Yg. cbn in Hg. rewrite Z.eqb_refl, app_nil_r in Hg.
      rewrite !elem_of_app in *. naive_solver.
    + rewrite (proj2 (Z.eqb_neq _ _) Hne), app_nil_r in Hg.
      assert (d' ∉ orphans s) as Hno by (apply Yg; rewrite !elem_of_app in *; naive_solver).
      destruct r; cbn; set_solver.
  - intros _ d'. specialize (Y7 Hc d'). unfold underway, owned in *. rewrite Hq in Y7.
    cbn [host displays orphans toEmulator fromEmulator mainQueue flat_map request_tags] in *.
    rewrite flat_map_app, Hev.
    destruct (d =? d') eqn:Ed; cbn [app] in *.
    + apply Z.eqb_eq in Ed as <-. rewrite app_assoc in Y7. rewrite <- app_assoc, app_assoc.
      apply (word_take_remove _ _ _ _ _ (succeeded r) _ Y7).
      * intros b'. apply answer_tags_plain.
      * destruct r; cbn; set_solver.
      * destruct r; cbn; set_solver.
    + rewrite app_nil_r. apply Z.eqb_neq in Ed. apply (word_present _ _ _ _ _ Y7). destruct r; cbn; set_solver.
Qed.

(** A reply keeps its tags when it is read. *)
Lemma read_tags d r :
  (forall d' l ok b, r = WAdd d' l ok (Some b) -> linked d' l b) ->
  flat_map (block_tags d) match r with
    | WAdd d' _ ok (Some b) => [QAdd b (add_answer d' ok)]
    | WAdd _ _ _ None => []
    | WEvent ev => [QEvent ev]
    end = reply_tags d r \/ (reply_tags d r = [TOther] /\ exists d' l ok, r = WAdd d' l ok None).
Proof.
  intros Hl. destruct r as [d' l ok [b|]|ev]; cbn.
  - left. destruct (Hl d' l ok b eq_refl) as (Hb & Hla & _). rewrite Hb, app_nil_r.
    destruct (d' =? d); [|done]. unfold answer_tag. rewrite Hla. by destruct l, ok.
  - destruct (d' =? d); [|by left]. right. rewrite andb_false_r. eauto 6.
  - left. by rewrite app_nil_r.
Qed.

Lemma read_inv s r rest :
  system_inv s -> fromEmulator s = r :: rest -> channel s = true ->
  system_inv {| host := host s; displays := displays s; orphans := orphans s; toEmulator := toEmulator s; fromEmulator := rest;
    mainQueue := mainQueue s ++
      match r with
      | WAdd d _ ok (Some b) => [QAdd b (add_answer d ok)]
      | WAdd _ _ _ None => []
      | WEvent ev => [QEvent ev]
      end;
    channel := true; emulator := emulator s |}.
Proof.
  intros [Y1 Y2 Y3 Y4 Y5 Y6 Yo Yg Y7] Hq Hc. rewrite Hq in *.
  split; cbn [host displays orphans toEmulator fromEmulator mainQueue channel]; auto.
  - intros d l ok b Hin. apply (Y3 d l ok b). by right.
  - intros b r'. rewrite elem_of_app. intros [?|Hin]; [by eapply Y4|].
    destruct r as [d l ok [b'|]|ev]; apply list_elem_of_In in Hin; cbn in Hin; try done;
      destruct Hin as [[= <- _]|[]].
    destruct (Y3 d l ok b') as (-> & _ & Hu); [left|done].
  - intros ev Hin. apply Y5. by right.
  - intros ev. rewrite elem_of_app. intros [?|Hin]; [by apply Y6|].
    destruct r as [d l ok [b'|]|ev']; apply list_elem_of_In in Hin; cbn in Hin; try done;
      destruct Hin as [[= <-]|[]]. apply Y5. left.
  - intros _ d Hg. apply (Yg Hc d). unfold underway in *. rewrite Hq.
    cbn [host displays orphans toEmulator fromEmulator mainQueue flat_map] in *. rewrite flat_map_app in Hg.
    destruct (read_tags d r) as [E|[Ht (d' & l & ok & ->)]].
    { intros d' l ok b ->. apply (Y3 d' l ok b). left. }
    + rewrite E in Hg. by rewrite <- !app_assoc in *.
    + cbn [flat_map] in Hg. rewrite !elem_of_app in *. cbn in Hg. set_solver.
  - intros _ d. specialize (Y7 Hc d). unfold underway in *. rewrite Hq in Y7.
    cbn [host displays orphans toEmulator fromEmulator mainQueue flat_map] in *. rewrite flat_map_app.
    destruct (read_tags d r) as [->|[Ht (d' & l & ok & ->)]].
    { intros d' l ok b ->. apply (Y3 d' l ok b). left. }
    + by rewrite <- !app_assoc in *.
    + rewrite Ht in Y7. cbn [flat_map]. rewrite app_nil_r. cbn [app] in Y7.
      pose proof (word_replace _ [] TOther None [] _ _ _ _ (owned d s) Y7) as W. cbn in W.
      apply W; auto. done.
Qed.

(** The tags of a request that failed. *)
Lemma failure_tags d b message :
  flat_map (block_tags d) [QAdd b (ControlChannel.failure kControlErrInternal message)] =
  if block_id b =? d then [if is_launch b then TFailed else TOther] else [].
Proof. cbn. rewrite app_nil_r. destruct (block_id b =? d); [|done]. by destruct b. Qed.

Lemma word_timeout_add r P R F : word_ok (TAdd true :: r) P R F -> word_ok (TFailed :: TAdd false :: r) P R F.
Proof.
  intros W. assert (~ F) as Hf by (intros Hf; by destruct (w_free _ _ _ _ W Hf)).
  destruct (word_cut_add [] _ _ _ _ _ W) as (Hp & Hr & _).
  assert (forall x, x ∈ r -> x = TRemove) as Hx by (destruct Hr as [->|[-> _]]; set_solver).
  split; try done.
  - intros b Hb. assert (b = false) as ->.
    { apply elem_of_cons in Hb as [?|[[= ->]|Hb%Hx]%elem_of_cons]; done. }
    split; [done|]. right; right. split; [done|]. destruct Hr as [->|[-> _]]; auto.
  - intros [?|[?|Hb%Hx]%elem_of_cons]%elem_of_cons; done.
  - destruct Hr as [->|[-> HR]]; cbn; repeat split; auto; set_solver.
  - destruct Hr as [->|[-> HR]]; cbn; repeat split; auto; set_solver.
Qed.

Lemma timeout_request_inv s d l b before after message :
  system_inv s -> toEmulator s = before ++ RAdd d l (Some b) :: after -> channel s = true ->
  system_inv {| host := host s; displays := displays s; orphans := orphans s;
    toEmulator := before ++ RAdd d l None :: after; fromEmulator := fromEmulator s;
    mainQueue := mainQueue s ++ [QAdd b (ControlChannel.failure kControlErrInternal message)];
    channel := true; emulator := emulator s |}.
Proof.
  intros [Y1 Y2 Y3 Y4 Y5 Y6 Yo Yg Y7] Hq Hc.
  destruct (Y2 d l b) as (Hb & Hl & Hu); [rewrite Hq, elem_of_app; right; left|]. rewrite Hq in *.
  split; cbn [host displays orphans toEmulator fromEmulator mainQueue channel]; auto.
  - intros d' l' b'. rewrite elem_of_app, elem_of_cons. intros [?|[?|?]]; [|done|];
      apply Y2; rewrite elem_of_app; [by left|right; by right].
  - intros b' r'. rewrite elem_of_app. intros [?|[= -> _]%list_elem_of_singleton]; [by eapply Y4|congruence].
  - intros ev. rewrite elem_of_app. intros [?|?%list_elem_of_singleton]; [by apply Y6|done].
  - intros _ d' Hg. apply (Yg Hc d'). revert Hg. unfold underway. rewrite Hq.
    cbn [host displays orphans toEmulator fromEmulator mainQueue]. rewrite !flat_map_app, failure_tags.
    cbn [flat_map request_tags reply_tags]. clear. rewrite !elem_of_app.
    destruct (_ =? d'), (_ =? d'), l, (is_launch b); rewrite ?andb_false_r; set_solver.
  - intros _ d'. specialize (Y7 Hc d'). unfold underway in *. rewrite Hq in Y7.
    cbn [host displays orphans toEmulator fromEmulator mainQueue] in *. rewrite !flat_map_app, failure_tags, Hb, Hl in *.
    cbn [flat_map request_tags] in *. destruct (d =? d') eqn:Ed; [|by rewrite app_nil_r].
    apply Z.eqb_eq in Ed as <-. cbn [app] in *. rewrite <- !app_assoc. cbn [app]. destruct l.
    + rewrite 2!app_assoc in Y7. destruct (word_cut_add _ _ _ _ _ _ Y7) as (_ & _ & [E|[? _]]); [|done].
      rewrite E in Y7. apply app_nil in E as [[E1 E2]%app_nil E3]. rewrite E1, E2, E3. by apply word_timeout_add.
    + assert (word_ok (flat_map (block_tags d) (mainQueue s) ++
        (flat_map (reply_tags d) (fromEmulator s) ++ flat_map (request_tags d) before) ++
        TResize :: flat_map (request_tags d) after) (owned d s) (removing d (host s)) (free d (host s))) as Y
        by (by rewrite <- !app_assoc).
      pose proof (word_replace _ _ TResize (Some TOther) [TResize] _ _ _ _ (owned d s) Y) as W.
      cbn [option_list app] in W. rewrite <- !app_assoc in W.
      apply W; [by left|repeat constructor; by right|intros z [= <-]; by left|by left].
Qed.

Lemma timeout_reply_inv s d l ok b before after message :
  system_inv s -> fromEmulator s = before ++ WAdd d l ok (Some b) :: after -> channel s = true ->
  system_inv {| host := host s; displays := displays s; orphans := orphans s;
    toEmulator := toEmulator s; fromEmulator := before ++ WAdd d l ok None :: after;
    mainQueue := mainQueue s ++ [QAdd b (ControlChannel.failure kControlErrInternal message)];
    channel := true; emulator := emulator s |}.
Proof.
  intros [Y1 Y2 Y3 Y4 Y5 Y6 Yo Yg Y7] Hq Hc.
  destruct (Y3 d l ok b) as (Hb & Hl & Hu); [rewrite Hq, elem_of_app; right; left|]. rewrite Hq in *.
  split; cbn [host displays orphans toEmulator fromEmulator mainQueue channel]; auto.
  - intros d' l' ok' b'. rewrite elem_of_app, elem_of_cons. intros [?|[?|?]]; [|done|];
      apply (Y3 d' l' ok' b'); rewrite elem_of_app; [by left|right; by right].
  - intros b' r'. rewrite elem_of_app. intros [?|[= -> _]%list_elem_of_singleton]; [by eapply Y4|congruence].
  - intros ev. rewrite elem_of_app, elem_of_cons. intros [?|[?|?]]; [|done|];
      apply Y5; rewrite elem_of_app; [by left|right; by right].
  - intros ev. rewrite elem_of_app. intros [?|?%list_elem_of_singleton]; [by apply Y6|done].
  - intros _ d' Hg. apply (Yg Hc d'). revert Hg. unfold underway. rewrite Hq.
    cbn [host displays orphans toEmulator fromEmulator mainQueue]. rewrite !flat_map_app, failure_tags.
    cbn [flat_map request_tags reply_tags]. clear. rewrite !elem_of_app.
    destruct (_ =? d'), (_ =? d'), l, (is_launch b); rewrite ?andb_false_r; set_solver.
  - intros _ d'. specialize (Y7 Hc d'). unfold underway in *. rewrite Hq in Y7.
    cbn [host displays orphans toEmulator fromEmulator mainQueue] in *. rewrite !flat_map_app, failure_tags, Hb, Hl in *.
    cbn [flat_map reply_tags] in *. destruct (d =? d') eqn:Ed; [|by rewrite app_nil_r].
    apply Z.eqb_eq in Ed as <-. rewrite andb_false_r. cbn [app] in *. rewrite <- !app_assoc in *. cbn [app] in *.
    set (x := if l && negb ok && _ then TRefused else TOther) in Y7.
    pose proof (word_replace _ _ x (Some (if l then TFailed else TOther)) [TOther] _ _ _ _ (owned d s) Y7) as W.
    cbn [option_list app] in W.
    apply W; [unfold x; destruct (_ && _); auto|repeat constructor; by left|intros z [= <-]; destruct l; auto|by left].
Qed.

Lemma down_inv s (exits : bool) message x :
  system_inv s ->
  system_inv {| host := host s; displays := x; orphans := orphans s; toEmulator := []; fromEmulator := [];
    mainQueue := mainQueue s ++
      map (fun b => QAdd b (ControlChannel.failure kControlErrInternal message)) (open_blocks s);
    channel := false; emulator := if exits then false else emulator s |}.
Proof.
  intros [Y1 Y2 Y3 Y4 Y5 Y6 Yo Yg Y7].
  split; cbn [host displays orphans toEmulator fromEmulator mainQueue channel]; auto; try done;
    try (intros *; by rewrite elem_of_nil).
  - intros b r. rewrite elem_of_app. intros [?|Hin]; [by eapply Y4|].
    apply list_elem_of_In, in_map_iff in Hin as (b' & [= -> _] & Hin). unfold open_blocks in Hin.
    apply in_app_iff in Hin as [Hin|Hin]; apply in_flat_map in Hin as (q & Hq & Hin); apply list_elem_of_In in Hq.
    + destruct q as [d l ok [b0|]|]; cbn in Hin; try done. destruct Hin as [->|[]].
      destruct (Y3 d l ok b Hq) as (-> & _ & Hu). done.
    + destruct q as [d l [b0|]|]; cbn in Hin; try done. destruct Hin as [->|[]].
      destruct (Y2 d l b Hq) as (-> & _ & Hu). done.
  - intros ev. rewrite elem_of_app. intros [?|Hin]; [by apply Y6|].
    apply list_elem_of_In, in_map_iff in Hin as (b' & ? & _). done.
Qed.

Lemma system_step s s' : step s s' -> system_inv s -> system_inv s'.
Proof.
  intros Hst Hi. destruct Hst as [s ev e Hev Ha Hr|s b r rest e Hq Ha|s ev rest e Hq Ha|s d l b rest r ev Hq Hc Hw Hd Hs Hp|
    s d rest r ev Hq Hc Hw Hd Hs Hp|s r rest Hq Hc|s d l b before after message Hq Hc|
    s d l ok b before after message Hq Hc|s exits message x Hx|s He Hc Hq|s He Hq].
  - by apply outside_inv.
  - by apply answer_inv.
  - by apply event_inv.
  - by apply add_inv.
  - by apply remove_inv.
  - by apply read_inv.
  - by apply timeout_request_inv.
  - by eapply timeout_reply_inv.
  - by apply down_inv.
  - destruct Hi as [Y1 Y2 Y3 Y4 Y5 Y6 Yo _ _]. split; cbn; auto; [by right|congruence..].
  - destruct Hi as [Y1 _ _ _ _ _ _ _ _]. split; cbn [host displays orphans toEmulator fromEmulator mainQueue channel]; auto;
      try (intros *; by rewrite elem_of_nil); intros _ d; unfold underway; cbn.
    + by rewrite elem_of_nil.
    + apply (word_present _ False); [apply word_nil|]. unfold owned. cbn. set_solver.
Qed.

Lemma reuse_start_inv : system_inv start.
Proof. split; cbn; try done; try (intros *; by rewrite elem_of_nil). by right. Qed.

Lemma system_run s s' : rtc step s s' -> system_inv s -> system_inv s'.
Proof. induction 1; eauto using system_step. Qed.

(** Nothing about [d] is under way. *)
Definition no_trace (d : Z) (s : system) : Prop :=
  (forall r, r ∈ toEmulator s -> match r with RAdd d' _ _ | RRemove d' => d' <> d end) /\
  (forall r, r ∈ fromEmulator s -> match r with WAdd d' _ _ _ => d' <> d | WEvent ev => ev_displayId ev <> d end) /\
  (forall q, q ∈ mainQueue s -> match q with QAdd b _ => block_id b <> d | QEvent ev => ev_displayId ev <> d end).

Lemma underway_nil d s : underway d s = [] -> no_trace d s.
Proof.
  unfold underway. intros [E1 [E2 E3]%app_nil]%app_nil.
  assert (forall {A} (f : A -> list tag) l x, flat_map f l = [] -> x ∈ l -> f x = []) as Hk.
  { intros A f l x. induction l as [|y l IH]; cbn; intros E Hx; [by apply elem_of_nil in Hx|].
    apply app_nil in E as [Ey El]. apply elem_of_cons in Hx as [->|Hx]; auto. }
  repeat split; intros x Hx.
  - apply (Hk _ _ _ x E3) in Hx. destruct x; cbn in Hx; destruct (_ =? d) eqn:E; try done; by apply Z.eqb_neq.
  - apply (Hk _ _ _ x E2) in Hx. destruct x; cbn in Hx; destruct (_ =? d) eqn:E; try done; by apply Z.eqb_neq.
  - apply (Hk _ _ _ x E1) in Hx. destruct x; cbn in Hx; destruct (_ =? d) eqn:E; try done; by apply Z.eqb_neq.
Qed.

(** C7: in every state the system reaches, with the emulator carrying out or
    refusing requests or failing them with EPIPE after it has changed its table,
    requests that time out, a channel that breaks, emulators that exit and start
    again, any behaviour of the guest agent and of the user, and resizes only for
    displays that were added: while the channel is up, a launch gets a display id
    only if no request, answer or event about it is under way and the emulator has no
    display of that id, or has one that a failed DISPLAY_ADD of a launch left there,
    which happens only when the guest's display pipe was not up ([pipe] false). An
    event that reports the removal of a display finds that removal pending and the
    display gone, so it never takes a display from a new application. *)
Theorem display_ids_reused_safely s :
  rtc step start s -> channel s = true ->
  (forall e c profile m d, d ∈ added (launchApplicationComponent c profile m e (host s)).2 ->
     no_trace d s /\ (d ∉ displays s \/ pipe = false /\ d ∈ orphans s)) /\
  (forall ev rest, mainQueue s = QEvent ev :: rest -> ev_state ev = kControlDisplayRemoved ->
     removing (ev_displayId ev) (host s) /\ ev_displayId ev ∉ displays s).
Proof.
  intros Hrun Hc. pose proof (system_run _ _ Hrun reuse_start_inv) as Hi. pose proof (y_words s Hi Hc) as W. split.
  - intros e c profile m d Hd. destruct (launch_adds _ _ _ _ _ _ Hd) as (_ & _ & _ & Ha & Hr & _).
    destruct (w_free _ _ _ _ (W d)) as [Hw Hp]; [by split|]. split; [by apply underway_nil|].
    destruct (decide (d ∈ displays s)) as [Hin|Hin]; [right|by left].
    destruct (decide (d ∈ orphans s)) as [Ho|Ho]; [|by destruct Hp]. split; [|done].
    destruct pipe eqn:Ep; [|done]. rewrite (y_orphans s Hi Ep) in Ho. set_solver.
  - intros ev rest Hq Hst. assert (TGone ∈ underway (ev_displayId ev) s) as Hin.
    { unfold underway. rewrite Hq. cbn [flat_map block_tags]. rewrite Z.eqb_refl. unfold event_tag. rewrite Hst. left. }
    destruct (w_gone _ _ _ _ (W (ev_displayId ev))) as [_ Hg]. destruct (Hg Hin) as [Hr Hn]. split; [done|].
    intros Hd. apply Hn. split; [done|]. by apply (y_gone s Hi Hc).
Qed.

End System.
End AppDisplaysReuse.

(** ** A concrete run *)
Import AppDisplays AppDisplaysSafety DisplaySystem AppDisplaysReuse.

Definition system_env (s : system) : env := {|
  channelAlive := channel s; channelReady := channel s; guestReady := true;
  qemuPid := if emulator s then 7 else -1; surfaces := true; appsReady := true; targetScreen := 1;
  refreshRate := 60; now := 0 |}.

Definition reported (d state : Z) : ControlEventDisplay := {|
  ev_displayId := d; ev_state := state; ev_width := 720; ev_height := 1600; ev_dpi := 240; ev_flags := 0 |}.

(** The moves of a run: the emulator starts, the user acts, the emulator takes a
    request and ends it in one of the three ways, the reader takes a reply, the main queue runs a block. *)
Inductive move := MStart | MUser (ev : event) | MEmulate (r : outcome) | MRead | MBlock.

Definition resize_free (outs : list out) : bool :=
  forallb (fun o => match o with OAdd _ _ _ b => is_launch b | _ => true end) outs.

Definition outside_b (ev : event) : bool :=
  match ev with ELaunch _ _ _ | EAgent _ | EWindowClose _ => true | _ => false end.

Definition play (pipe : bool) (m : move) (s : system) : option system :=
  match m with
  | MStart =>
      match emulator s, mainQueue s with
      | false, [] => Some {| host := host s; displays := ∅; orphans := ∅; toEmulator := []; fromEmulator := []; mainQueue := [];
          channel := true; emulator := true |}
      | _, _ => None
      end
  | MUser ev =>
      if outside_b ev && resize_free (handle ev (system_env s) (host s)).2
      then Some (perform (handle ev) (system_env s) (mainQueue s) s) else None
  | MEmulate r =>
      if pipe && match r with NoPipe => true | _ => false end then None else
      match toEmulator s, channel s with
      | RAdd d l b :: rest, true =>
          if (0 <=? d) && (d <? 2 ^ 32) then
          Some {| host := host s; displays := after_add r d (displays s);
            orphans := orphans_after_add r l d (orphans s); toEmulator := rest;
            fromEmulator := fromEmulator s ++ WAdd d l (succeeded r) b ::
              (if succeeded r then [WEvent (reported d kControlDisplayAdded)] else []);
            mainQueue := mainQueue s; channel := true; emulator := emulator s |}
          else None
      | RRemove d :: rest, true =>
          if (0 <=? d) && (d <? 2 ^ 32) then
          Some {| host := host s; displays := after_remove r d (displays s);
            orphans := after_remove r d (orphans s); toEmulator := rest;
            fromEmulator := fromEmulator s ++
              (if succeeded r then [WEvent (reported d kControlDisplayRemoved)] else []);
            mainQueue := mainQueue s; channel := true; emulator := emulator s |}
          else None
      | _, _ => None
      end
  | MRead =>
      match fromEmulator s, channel s with
      | r :: rest, true =>
          Some {| host := host s; displays := displays s; orphans := orphans s; toEmulator := toEmulator s;
            fromEmulator := rest;
            mainQueue := mainQueue s ++
              match r with
              | WAdd d _ ok (Some b) => [QAdd b (add_answer d ok)]
              | WAdd _ _ _ None => []
              | WEvent ev => [QEvent ev]
              end;
            channel := true; emulator := emulator s |}
      | _, _ => None
      end
  | MBlock =>
      match mainQueue s with
      | QAdd b r :: rest => Some (perform (handle (EAddDone b r)) (system_env s) rest s)
      | QEvent ev :: rest =>
          Some (perform (handle (EControl (type_code kEventDisplay) (encode ev))) (system_env s) rest s)
      | [] => None
      end
  end.

Lemma system_env_agrees s : agrees (system_env s) s.
Proof. split; [done|]. cbn. by destruct (emulator s). Qed.

Lemma reported_wf d state : 0 <= d < 2 ^ 32 -> is_u32 state -> wire_wf (reported d state).
Proof. intros Hd Hs. repeat split; try apply Hs; cbn; lia. Qed.

Lemma play_step pipe m s s' : play pipe m s = Some s' -> step pipe s s'.
Proof.
  intros H. destruct m as [|ev|r| |]; cbn [play] in H.
  - destruct (emulator s) eqn:Ee, (mainQueue s) eqn:Eq; try done. injection H as <-. by apply step_launch.
  - destruct (_ && _) eqn:E; [|done]. injection H as <-. apply andb_true_iff in E as [Eo Er].
    apply step_outside; [by destruct ev|apply system_env_agrees|].
    intros d p f b Hin Hb. unfold resize_free in Er. rewrite forallb_forall in Er.
    specialize (Er (OAdd d p f b)). cbn in Er. rewrite Er in Hb; [done|]. by apply list_elem_of_In.
  - destruct (pipe && _) eqn:Ep; [done|].
    assert (r = NoPipe -> pipe = false) as Hp by (intros ->; revert Ep; by rewrite andb_true_r).
    destruct (toEmulator s) as [|[d l b|d] rest] eqn:Eq; [done|..]; destruct (channel s) eqn:Ec; try done;
      (destruct ((0 <=? d) && (d <? 2 ^ 32)) eqn:E; [|done]); injection H as <-;
      apply andb_true_iff in E as [E1%Z.leb_le E2%Z.ltb_lt].
    + apply (step_add pipe s d l b rest r (reported d kControlDisplayAdded)); auto. by apply reported_wf.
    + apply (step_remove pipe s d rest r (reported d kControlDisplayRemoved)); auto. by apply reported_wf.
  - destruct (fromEmulator s) as [|r rest] eqn:Eq; [done|]. destruct (channel s) eqn:Ec; [|done].
    injection H as <-. by apply step_read.
  - destruct (mainQueue s) as [|[b r|ev] rest] eqn:Eq; [done|..]; injection H as <-.
    + apply step_answer; [done|apply system_env_agrees].
    + apply step_event; [done|apply system_env_agrees].
Qed.

Fixpoint play_all (pipe : bool) (ms : list move) (s : system) : option system :=
  match ms with [] => Some s | m :: ms => s' ← play pipe m s; play_all pipe ms s' end.

Lemma play_all_run pipe ms s s' : play_all pipe ms s = Some s' -> rtc (step pipe) s s'.
Proof.
  revert s. induction ms as [|m ms IH]; intros s H; cbn in H; [by simplify_eq|].
  destruct (play pipe m s) as [s1|] eqn:E; [|done]. apply rtc_l with s1; [by eapply play_step|by apply IH].
Qed.

(** An application is opened and its window closed at once; the display goes. *)
Definition demo_moves : list move :=
  [MStart; MUser (EAgent true); MUser (ELaunch mail demo_profile false); MEmulate Done; MRead; MRead; MBlock;
   MBlock; MUser (EWindowClose 1); MEmulate Done; MRead; MBlock].

(** An application is opened before the guest's display pipe is up. *)
Definition early_moves : list move :=
  [MStart; MUser (EAgent true); MUser (ELaunch mail demo_profile false); MEmulate NoPipe; MRead; MBlock].

Definition played (pipe : bool) (ms : list move) : system :=
  match play_all pipe ms start with Some s => s | None => start end.

Lemma played_run pipe ms : rtc (step pipe) start (played pipe ms).
Proof. unfold played. destruct (play_all pipe ms start) as [s|] eqn:E; [by eapply play_all_run|done]. Qed.

(** The next application gets the id again, and the emulator has no such display. *)
Lemma display_ids_reused_safely_witness :
  let s := played true demo_moves in
  channel s = true /\ added (launchApplicationComponent maps demo_profile false (system_env s) (host s)).2 = [1] /\
  1 ∉ displays s /\ no_trace 1 s.
Proof.
  intros s. assert (channel s = true) as Hc by (vm_compute; reflexivity).
  destruct (display_ids_reused_safely true s (played_run true demo_moves) Hc) as [H _].
  assert (added (launchApplicationComponent maps demo_profile false (system_env s) (host s)).2 = [1])
    as Ha by (vm_compute; reflexivity).
  split; [exact Hc|]. split; [exact Ha|].
  destruct (H (system_env s) maps demo_profile false 1) as [Hn [Hd|[? _]]]; [rewrite Ha; left|by split|done].
Defined.

(** After a launch that failed with EPIPE the shell gives its id to the next
    application although the emulator has kept the display: "a direct QEMU error is
    authoritative" does not hold. *)
Example orphan_reused :
  let s := played false early_moves in
  channel s = true /\ bindings (host s) !! 1 = None /\ elements (displays s) = [1] /\ orphans s = displays s /\
  added (launchApplicationComponent maps demo_profile false (system_env s) (host s)).2 = [1].
Proof. vm_compute. repeat split; reflexivity. Qed.
