(* ===== verification/FramePresentation.v ===== *)
(** [shell/ui/macmu_shell.mm], [doorbellLoop] and
    [enqueueFramePresentationForDisplay:]: the doorbell thread, the main queue and
    the emulator that writes the frame slot, for one display with an id between 1
    and the number of slots, during one run of the emulator and before MacMu
    shuts down (so [_qemuGeneration], [_doorbellShutdown] and [_shuttingDown] do not
    change). Redraws are coalesced by [_framePresentationPending]. Each atomic access
    and each read of the slot is a step of its own. *)
From stdpp Require Import relations.
From S2P Require Import Prelude.

Module FramePresentation.

(** The doorbell thread: in [wait_for_any_frame], about to read the slot it
    reported, or about to enqueue. *)
Inductive doorbell := DWait | DRead | DEnqueue.

(** The main queue: between blocks, at the first read of a block, after it (with the
    frame that was presented, 0 for none), or after the flag was cleared. *)
Inductive main := Idle | FirstRead | Presented (frame : Z) | Cleared (frame : Z).

(** [busy]: the slot's sequence number is odd, reads fail. [frame]: the number in
    the slot. [seen]: the display's entry of [lastFrames]. [drawn]: the last frame
    presented. [queued]: blocks of this display on the main queue. *)
Record state := {
  busy : bool; frame : Z; seen : Z; drawn : Z; pending : bool; queued : nat;
  doorbellThread : doorbell; mainQueue : main }.

Definition start : state := {|
  busy := false; frame := 0; seen := 0; drawn := 0; pending := false; queued := 0;
  doorbellThread := DWait; mainQueue := Idle |}.

Definition set_slot (s : state) (b : bool) (f : Z) : state := {|
  busy := b; frame := f; seen := seen s; drawn := drawn s; pending := pending s; queued := queued s;
  doorbellThread := doorbellThread s; mainQueue := mainQueue s |}.

Definition set_doorbell (s : state) (f : Z) (d : doorbell) : state := {|
  busy := busy s; frame := frame s; seen := f; drawn := drawn s; pending := pending s; queued := queued s;
  doorbellThread := d; mainQueue := mainQueue s |}.

Definition set_main (s : state) (f : Z) (m : main) : state := {|
  busy := busy s; frame := frame s; seen := seen s; drawn := f; pending := pending s; queued := queued s;
  doorbellThread := doorbellThread s; mainQueue := m |}.

Definition set_queue (s : state) (p : bool) (n : nat) : state := {|
  busy := busy s; frame := frame s; seen := seen s; drawn := drawn s; pending := p; queued := n;
  doorbellThread := doorbellThread s; mainQueue := mainQueue s |}.

(** [exchange(true)], and a block when it was clear. *)
Definition enqueueFramePresentationForDisplay (s : state) : state :=
  if pending s then s else set_queue s true (S (queued s)).

(** [FrameConsumer::read]: fails while the slot is being written. *)
Definition read (s : state) : option Z := if busy s then None else Some (frame s).

Inductive event :=
  | BeginWrite | EndWrite (f : Z)     (* the emulator *)
  | Doorbell | Main.                  (* a step of the thread *)

Definition doorbell_step (s : state) : option state :=
  match doorbellThread s with
  | DWait =>
      match read s with
      | Some f => if f =? seen s then None else Some (set_doorbell s (seen s) DRead)
      | None => None
      end
  | DRead =>
      match read s with
      | Some f => Some (set_doorbell s f DEnqueue)
      | None => Some (set_doorbell s (seen s) DWait)
      end
  | DEnqueue => Some (enqueueFramePresentationForDisplay (set_doorbell s (seen s) DWait))
  end.

Definition main_step (s : state) : option state :=
  match mainQueue s with
  | Idle =>
      match queued s with
      | O => None
      | S n => Some (set_main (set_queue s (pending s) n) (drawn s) FirstRead)
      end
  | FirstRead =>
      match read s with
      | Some f => Some (set_main s f (Presented f))
      | None => Some (set_main s (drawn s) (Presented 0))
      end
  | Presented f => Some (set_main (set_queue s false (queued s)) (drawn s) (Cleared f))
  | Cleared f =>
      let s' := set_main s (drawn s) Idle in
      match read s with
      | Some after => Some (if after =? f then s' else enqueueFramePresentationForDisplay s')
      | None => Some s'
      end
  end.

(** The emulator's frame numbers grow. *)
Definition exec (e : event) (s : state) : option state :=
  match e with
  | BeginWrite => if busy s then None else Some (set_slot s true (frame s))
  | EndWrite f => if busy s && (frame s <? f) then Some (set_slot s false f) else None
  | Doorbell => doorbell_step s
  | Main => main_step s
  end.

Definition step (s s' : state) : Prop := exists e, exec e s = Some s'.

(** ** No redraw is lost *)

Definition in_block (m : main) : nat := match m with FirstRead | Presented _ => 1 | _ => 0 end.

Record inv (s : state) : Prop := {
  i_order : 0 <= seen s <= frame s /\ 0 <= drawn s <= frame s;
  i_pending : (queued s + in_block (mainQueue s) = if pending s then 1 else 0)%nat;
  i_block : forall f, mainQueue s = Presented f \/ mainQueue s = Cleared f -> 0 <= f <= drawn s;
  i_covered : seen s <= drawn s \/ (0 < queued s)%nat \/ mainQueue s = FirstRead \/
    (exists f, (mainQueue s = Presented f \/ mainQueue s = Cleared f) /\ f <> frame s) \/
    doorbellThread s = DEnqueue \/ busy s = true \/ seen s < frame s }.

Lemma frames_start : inv start.
Proof. split; cbn; try lia; by intros f [?|?]. Qed.

(** A block that has presented the current frame has presented all that was seen. *)
Lemma covered_block s f :
  inv s -> (mainQueue s = Presented f \/ mainQueue s = Cleared f) -> seen s <= drawn s \/ f <> frame s.
Proof.
  intros Hi Hm. pose proof (i_block s Hi f Hm). destruct (i_order s Hi) as [H1 H2].
  destruct (decide (f = frame s)) as [->|Hne]; [left; lia|by right].
Qed.

(** The cases of [i_covered] that arithmetic settles. *)
Ltac frame_solve := try solve
  [ assumption | done | lia | tauto | (intros ? [?|?]; simplify_eq; auto; lia) | (right; left; lia)
  | (right; right; right; right; right; right; lia) | (cbn in *; destruct (pending _); lia)
  | (right; right; right; left; eauto) ].

Lemma frames_step s s' : step s s' -> inv s -> inv s'.
Proof.
  intros [e H] Hi. pose proof (i_order s Hi) as [Ho1 Ho2]. pose proof (i_pending s Hi) as Hp.
  destruct e as [|f| |]; cbn [exec] in H.
  - destruct (busy s) eqn:Eb; [done|]. injection H as <-. destruct Hi as [A B C D]. split; cbn; frame_solve.
  - destruct (busy s && (frame s <? f)) eqn:E; [|done]. injection H as <-. bool_to_prop.
    destruct Hi as [A B C D]. split; cbn; frame_solve.
  - unfold doorbell_step, read in H. destruct (doorbellThread s) eqn:Ed.
    + destruct (busy s) eqn:Eb; [done|]. destruct (frame s =? seen s) eqn:Ef; [done|]. injection H as <-.
      bool_to_prop. destruct Hi as [A B C D]. split; cbn; frame_solve.
    + destruct (busy s) eqn:Eb; injection H as <-; destruct Hi as [A B C D]; split; cbn; frame_solve.
    + injection H as <-. unfold enqueueFramePresentationForDisplay. cbn. destruct (pending s) eqn:Epd.
      * assert (seen s <= drawn s \/ (0 < queued s)%nat \/ mainQueue s = FirstRead \/
          exists f, (mainQueue s = Presented f \/ mainQueue s = Cleared f) /\ f <> frame s) as Hc.
        { destruct (mainQueue s) as [| |f|f] eqn:Em; cbn in Hp; try (right; left; lia); [by auto|].
          destruct (covered_block s f Hi) as [?|?]; [by left|by left|]. right; right; right. eauto. }
        destruct Hi as [A B C D]. split; cbn; rewrite ?Epd; frame_solve.
      * destruct Hi as [A B C D]. split; cbn; frame_solve.
  - unfold main_step, read in H. destruct (mainQueue s) as [| |f|f] eqn:Em.
    + destruct (queued s) as [|n] eqn:Eq; [done|]. injection H as <-. destruct Hi as [A B C D].
      split; cbn; frame_solve.
    + destruct (busy s) eqn:Eb; injection H as <-; destruct Hi as [A B C D]; split; cbn; frame_solve.
    + injection H as <-. destruct (covered_block s f Hi) as [Hc|Hc]; [by left|..];
        pose proof (i_block s Hi f ltac:(by left)); destruct Hi as [A B C D]; split; cbn; frame_solve.
    + pose proof (i_block s Hi f ltac:(by right)). destruct (covered_block s f Hi) as [Hc|Hc]; [by right|..].
      all: destruct (busy s) eqn:Eb; injection H as <-.
      all: try destruct (frame s =? f) eqn:Ef; unfold enqueueFramePresentationForDisplay; cbn;
        try destruct (pending s) eqn:Epd; destruct Hi as [A B C D]; split; cbn; rewrite ?Epd; frame_solve.
      all: bool_to_prop; congruence.
Qed.

Lemma frames_run s s' : rtc step s s' -> inv s -> inv s'.
Proof. induction 1; eauto using frames_step. Qed.

(** The steps the two threads still make when the slot does not change. *)
Definition block_work : nat := 4.
Definition late (f : Z) (s : state) : nat := if f =? frame s then 0 else block_work.

Definition work (s : state) : nat :=
  (match doorbellThread s with
   | DWait => if (seen s =? frame s)%Z then 0 else 3 + block_work
   | DRead => 2 + block_work
   | DEnqueue => (if (seen s =? frame s)%Z then 0 else 3 + block_work) + 1 + block_work
   end +
   block_work * queued s +
   match mainQueue s with Idle => 0 | FirstRead => 3 | Presented f => 2 + late f s | Cleared f => 1 + late f s end)%nat.

Lemma work_decreases s s' :
  busy s = false -> doorbell_step s = Some s' \/ main_step s = Some s' -> busy s' = false /\ (work s' < work s)%nat.
Proof.
  intros Hb [H|H]; unfold doorbell_step, main_step, read in H; rewrite Hb in H.
  - destruct (doorbellThread s) eqn:Ed.
    + destruct (frame s =? seen s) eqn:E; [done|]. injection H as <-. split; [done|].
      unfold work, late, block_work. cbn. rewrite Ed, Z.eqb_sym, E. lia.
    + injection H as <-. split; [done|]. unfold work, late, block_work. cbn. rewrite Ed, Z.eqb_refl. lia.
    + injection H as <-. unfold enqueueFramePresentationForDisplay. cbn.
      destruct (pending s); (split; [done|]); unfold work, late, block_work; cbn; rewrite Ed; lia.
  - destruct (mainQueue s) as [| |f|f] eqn:Em.
    + destruct (queued s) as [|n] eqn:Eq; [done|]. injection H as <-. split; [done|].
      unfold work, late, block_work. cbn. rewrite Em, Eq. lia.
    + injection H as <-. split; [done|]. unfold work, late, block_work. cbn. rewrite Em, Z.eqb_refl. lia.
    + injection H as <-. split; [done|]. unfold work, late, block_work. cbn. rewrite Em. lia.
    + injection H as <-. destruct (frame s =? f) eqn:E.
      * split; [done|]. unfold work, late, block_work. cbn. rewrite Em. lia.
      * unfold enqueueFramePresentationForDisplay. cbn. rewrite Z.eqb_sym in E.
        destruct (pending s); (split; [done|]); unfold work, late, block_work; cbn; rewrite Em, E; lia.
Qed.

(** C13: for every interleaving of the emulator that writes frames, the
    doorbell thread and the main queue: a display has at most one block on the main
    queue; and once the emulator has finished writing, the two threads come to rest
    after a bounded number of steps, and then the last frame has been presented. *)
Theorem last_frame_presented s :
  rtc step start s ->
  (queued s + in_block (mainQueue s) <= 1)%nat /\ drawn s <= frame s /\
  (busy s = false ->
     (forall s', exec Doorbell s = Some s' \/ exec Main s = Some s' ->
        busy s' = false /\ frame s' = frame s /\ (work s' < work s)%nat) /\
     (exec Doorbell s = None -> exec Main s = None -> drawn s = frame s)).
Proof.
  intros Hrun. pose proof (frames_run _ _ Hrun frames_start) as Hi.
  destruct (i_order s Hi) as [H1 H2]. pose proof (i_pending s Hi) as Hp.
  split; [destruct (pending s); lia|]. split; [lia|]. intros Hb. split.
  - intros s' Hs. destruct (work_decreases s s' Hb Hs) as [Hb' Hw]. split; [done|]. split; [|done].
    unfold exec, doorbell_step, main_step, read, enqueueFramePresentationForDisplay in Hs.
    destruct Hs as [Hs|Hs]; repeat case_match; simplify_eq; done.
  - cbn [exec]. intros Hd Hm. unfold doorbell_step, main_step, read in Hd, Hm. rewrite Hb in Hd, Hm.
    destruct (doorbellThread s) eqn:Ed; [|done..]. destruct (frame s =? seen s) eqn:Ef; [|done].
    destruct (mainQueue s) eqn:Em; [|done..]. destruct (queued s) eqn:Eq; [|done]. bool_to_prop.
    destruct (i_covered s Hi) as [?|[?|[?|[(f & [?|?] & _)|[?|[?|?]]]]]]; try congruence; lia.
Qed.
End FramePresentation.

(** ** A concrete run *)
Import FramePresentation.

Fixpoint exec_all (es : list event) (s : state) : option state :=
  match es with [] => Some s | e :: es => s ← exec e s; exec_all es s end.

Lemma exec_all_run es s s' : exec_all es s = Some s' -> rtc step s s'.
Proof.
  revert s. induction es as [|e es IH]; intros s H; cbn in H; [by simplify_eq|].
  destruct (exec e s) as [s1|] eqn:E; [|done]. apply rtc_l with s1; [by exists e|by apply IH].
Qed.

(** A second frame is written while the block of the first one runs, and its
    doorbell is coalesced; the block asks for one more. *)
Definition demo_frames : list event :=
  [BeginWrite; EndWrite 1; Doorbell; Doorbell; Doorbell; Main; Main; BeginWrite; EndWrite 2; Doorbell; Doorbell; Doorbell;
   Main; Main; Main; Main; Main; Main].

Definition demo_frame_state : state :=
  match exec_all demo_frames start with Some s => s | None => start end.

Lemma last_frame_presented_witness : frame demo_frame_state = 2 /\ drawn demo_frame_state = frame demo_frame_state.
Proof.
  split; [vm_compute; reflexivity|].
  destruct (last_frame_presented demo_frame_state) as (_ & _ & H).
  { apply (exec_all_run demo_frames). vm_compute. reflexivity. }
  apply H; vm_compute; reflexivity.
Defined.
