(* ===== verification/Supervisor.v ===== *)
(** [shell/ui/macmu_shell.mm], the lifetime of the emulator process: the monitor
    thread ([qemuMonitorLoop]), the import of a system image, whose flags hold the
    monitor back ([importSystemImageSource:]), and the end of MacMu
    ([applicationShouldTerminate:], [beginAsyncTermination],
    [performRuntimeShutdown], [applicationWillTerminate:], [shutdownRuntime]). Every
    access to a shared atomic, every signal and every wait is a step of its own; the
    windows, the status texts and the channels are left out. *)
From stdpp Require Import relations.
From S2P Require Import Prelude.

Module Supervisor.

(** ** State *)

(** The monitor thread, by the access it makes next: the condition of the loop, the
    two flags of the gate, [macmu_system_image_exists], [macmu_machine_exists] with
    [macmu_create_default_machine], [launch_qemu], the store to [_qemuPid], the load
    of [_shuttingDown] after it, [request_qemu_termination], [waitpid], the
    compare-and-exchange, the load of [_shuttingDown], the [dispatch_sync]. *)
Inductive monitor_at :=
  | MTop | MGate1 | MGate2 | MImage | MMachine | MLaunch | MStore (pid : Z) | MLoad (pid : Z)
  | MSignal (pid : Z) | MWait (pid : Z) | MClear (pid : Z) | MLeave | MSync | MDone.

(** [performRuntimeShutdown]: before the load of [_qemuPid], the load, the request,
    the wait of five seconds, the load after it, the kill, the join of the monitor
    thread, and after [_runtimeShutdownComplete] is set, before [terminate:] is
    dispatched. *)
Inductive shutdown_at :=
  | SNone | SStop | SPid | STerm (pid : Z) | SWait (pid : Z) | SCheck (pid : Z) | SKill (pid : Z)
  | SJoin | SPost | SDone.

(** The main thread: [importSystemImageSource:] after its test of [_shuttingDown]
    (the test of [_qemuPid], of [_imageImportInProgress], the two stores), the block
    at the end of an import (the two stores, without and with a next source), the
    block of [dispatch_sync]. *)
Inductive main_at :=
  | Idle | ICheckPid | ICheckProgress | ISetProgress | ISetFailed
  | FSetFailed (ok : bool) | FClearProgress | HSetFailed | HClearProgress | SyncBlock.

Inductive block := BFinish (ok : bool) | BSync | BTerminate.

Record child := { cpid : Z; alive : bool; termed : bool; killed : bool }.

(** [workers]: imports at work on the global queue. [late]: emulators launched since
    [_shuttingDown] was set. [strays]: signals sent to a process that was already
    reaped. [onMain]: [performRuntimeShutdown] runs on the main thread. [terminating]:
    [applicationShouldTerminate:] answered [NSTerminateNow]. *)
Record state := {
  shuttingDown : bool; qemuPid : Z; imageImportInProgress : bool; imageImportFailed : bool;
  pendingImageImportSource : bool; runtimeShutdownComplete : bool; terminating : bool; onMain : bool;
  monitor : monitor_at; shutdown : shutdown_at; main : main_at; queue : list block; workers : nat;
  children : list child; late : nat; strays : list Z }.

Definition start : state := {|
  shuttingDown := false; qemuPid := -1; imageImportInProgress := false; imageImportFailed := false;
  pendingImageImportSource := false; runtimeShutdownComplete := false; terminating := false; onMain := false;
  monitor := MTop; shutdown := SNone; main := Idle; queue := []; workers := 0;
  children := []; late := 0; strays := [] |}.

Definition set_monitor (s : state) (m : monitor_at) : state := {|
  shuttingDown := shuttingDown s; qemuPid := qemuPid s; imageImportInProgress := imageImportInProgress s;
  imageImportFailed := imageImportFailed s; pendingImageImportSource := pendingImageImportSource s;
  runtimeShutdownComplete := runtimeShutdownComplete s; terminating := terminating s; onMain := onMain s;
  monitor := m; shutdown := shutdown s; main := main s; queue := queue s; workers := workers s;
  children := children s; late := late s; strays := strays s |}.

Definition set_pid (s : state) (p : Z) (m : monitor_at) : state := {|
  shuttingDown := shuttingDown s; qemuPid := p; imageImportInProgress := imageImportInProgress s;
  imageImportFailed := imageImportFailed s; pendingImageImportSource := pendingImageImportSource s;
  runtimeShutdownComplete := runtimeShutdownComplete s; terminating := terminating s; onMain := onMain s;
  monitor := m; shutdown := shutdown s; main := main s; queue := queue s; workers := workers s;
  children := children s; late := late s; strays := strays s |}.

Definition set_children (s : state) (cs : list child) (n : nat) (x : list Z) : state := {|
  shuttingDown := shuttingDown s; qemuPid := qemuPid s; imageImportInProgress := imageImportInProgress s;
  imageImportFailed := imageImportFailed s; pendingImageImportSource := pendingImageImportSource s;
  runtimeShutdownComplete := runtimeShutdownComplete s; terminating := terminating s; onMain := onMain s;
  monitor := monitor s; shutdown := shutdown s; main := main s; queue := queue s; workers := workers s;
  children := cs; late := n; strays := x |}.

Definition set_shutdown (s : state) (b : bool) (d : shutdown_at) : state := {|
  shuttingDown := shuttingDown s; qemuPid := qemuPid s; imageImportInProgress := imageImportInProgress s;
  imageImportFailed := imageImportFailed s; pendingImageImportSource := pendingImageImportSource s;
  runtimeShutdownComplete := b; terminating := terminating s; onMain := onMain s;
  monitor := monitor s; shutdown := d; main := main s; queue := queue s; workers := workers s;
  children := children s; late := late s; strays := strays s |}.

Definition begin_shutdown (s : state) (on_main : bool) : state := {|
  shuttingDown := true; qemuPid := qemuPid s; imageImportInProgress := imageImportInProgress s;
  imageImportFailed := imageImportFailed s; pendingImageImportSource := pendingImageImportSource s;
  runtimeShutdownComplete := runtimeShutdownComplete s; terminating := terminating s; onMain := on_main;
  monitor := monitor s; shutdown := SStop; main := main s; queue := queue s; workers := workers s;
  children := children s; late := late s; strays := strays s |}.

Definition set_terminating (s : state) : state := {|
  shuttingDown := shuttingDown s; qemuPid := qemuPid s; imageImportInProgress := imageImportInProgress s;
  imageImportFailed := imageImportFailed s; pendingImageImportSource := pendingImageImportSource s;
  runtimeShutdownComplete := runtimeShutdownComplete s; terminating := true; onMain := onMain s;
  monitor := monitor s; shutdown := shutdown s; main := main s; queue := queue s; workers := workers s;
  children := children s; late := late s; strays := strays s |}.

Definition set_main (s : state) (m : main_at) (q : list block) : state := {|
  shuttingDown := shuttingDown s; qemuPid := qemuPid s; imageImportInProgress := imageImportInProgress s;
  imageImportFailed := imageImportFailed s; pendingImageImportSource := pendingImageImportSource s;
  runtimeShutdownComplete := runtimeShutdownComplete s; terminating := terminating s; onMain := onMain s;
  monitor := monitor s; shutdown := shutdown s; main := m; queue := q; workers := workers s;
  children := children s; late := late s; strays := strays s |}.

(** [_imageImportInProgress], [_imageImportFailed], [_pendingImageImportSourceURL] and
    the imports at work. *)
Definition set_import (s : state) (progress failed pending : bool) (n : nat) : state := {|
  shuttingDown := shuttingDown s; qemuPid := qemuPid s; imageImportInProgress := progress;
  imageImportFailed := failed; pendingImageImportSource := pending;
  runtimeShutdownComplete := runtimeShutdownComplete s; terminating := terminating s; onMain := onMain s;
  monitor := monitor s; shutdown := shutdown s; main := main s; queue := queue s; workers := n;
  children := children s; late := late s; strays := strays s |}.

(** ** Signals and the process table *)

Definition mark (force : bool) (p : Z) (c : child) : child :=
  if cpid c =? p then
    {| cpid := cpid c; alive := alive c; termed := if force then termed c else true;
       killed := if force then true else killed c |}
  else c.

(** [request_qemu_termination] and [force_kill_qemu]: SIGTERM or SIGKILL to the process
    group of [p]. *)
Definition signal (force : bool) (p : Z) (s : state) : state :=
  set_children s (mark force p <$> children s) (late s)
    (if existsb (fun c => cpid c =? p) (children s) then strays s else strays s ++ [p]).

(** [launch_qemu] returned the process [p]. *)
Definition add_child (p : Z) (s : state) : state :=
  set_children s ({| cpid := p; alive := true; termed := false; killed := false |} :: children s)
    (if shuttingDown s then S (late s) else late s) (strays s).

(** [waitpid(p)]: [None] while [p] runs; it fails when [p] is not a child. *)
Definition reap (p : Z) (s : state) : option state :=
  if existsb (fun c => (cpid c =? p) && alive c) (children s) then None
  else Some (set_children s (filter (fun c => cpid c <> p) (children s)) (late s) (strays s)).

Definition exits (c : child) : child :=
  {| cpid := cpid c; alive := false; termed := termed c; killed := killed c |}.

(** ** The threads *)

(** [ok]: the image exists, or the machine exists or was created. [p]: the result of
    [launch_qemu]. *)
Definition qemuMonitorLoop (ok : bool) (p : Z) (s : state) : option state :=
  match monitor s with
  | MTop => Some (set_monitor s (if shuttingDown s then MDone else MGate1))
  | MGate1 => Some (set_monitor s (if imageImportInProgress s then MTop else MGate2))
  | MGate2 => Some (set_monitor s (if imageImportFailed s then MTop else MImage))
  | MImage => Some (set_monitor s (if ok then MMachine else MTop))
  | MMachine => Some (set_monitor s (if ok then MLaunch else MTop))
  | MLaunch => Some (if p <=? 0 then set_monitor s MTop else add_child p (set_monitor s (MStore p)))
  | MStore pid => Some (set_pid s pid (MLoad pid))
  | MLoad pid => Some (set_monitor s (if shuttingDown s then MSignal pid else MWait pid))
  | MSignal pid => Some (signal false pid (set_monitor s (MWait pid)))
  | MWait pid => reap pid (set_monitor s (MClear pid))
  | MClear pid => Some (if qemuPid s =? pid then set_pid s (-1) MLeave else set_monitor s MLeave)
  | MLeave =>
      Some (if shuttingDown s then set_monitor s MDone
            else set_main (set_monitor s MSync) (main s) (queue s ++ [BSync]))
  | MSync | MDone => None
  end.

(** [importSystemImageSource:] up to its first access to shared state; the source is
    not empty. *)
Definition importSystemImageSource (s : state) : state :=
  set_main s (if shuttingDown s then Idle else ICheckPid) (queue s).

(** [_shuttingDown] is exchanged; the first caller runs [performRuntimeShutdown]. *)
Definition beginAsyncTermination (s : state) : state :=
  if shuttingDown s then s else begin_shutdown s false.

Definition shutdownRuntime (s : state) : state :=
  if shuttingDown s then s else begin_shutdown s true.

Definition applicationShouldTerminate (s : state) : state :=
  if runtimeShutdownComplete s then set_terminating s else beginAsyncTermination s.

Definition applicationWillTerminate (s : state) : state :=
  if runtimeShutdownComplete s then s else shutdownRuntime s.

(** A step of the main thread. *)
Definition main_step (s : state) : option state :=
  let go m := set_main s m (queue s) in
  match main s with
  | Idle =>
      match queue s with
      | [] => None
      | BFinish ok :: q =>
          let s := set_main s (if pendingImageImportSource s then HSetFailed else FSetFailed ok) q in
          Some (set_import s (imageImportInProgress s) (imageImportFailed s) false (workers s))
      | BSync :: q => Some (set_main s SyncBlock q)
      | BTerminate :: q => Some (applicationShouldTerminate (set_main s Idle q))
      end
  | ICheckPid => Some (go (if 0 <? qemuPid s then Idle else ICheckProgress))
  | ICheckProgress =>
      Some (if imageImportInProgress s then
              set_import (go Idle) (imageImportInProgress s) (imageImportFailed s) true (workers s)
            else go ISetProgress)
  | ISetProgress => Some (set_import (go ISetFailed) true (imageImportFailed s) (pendingImageImportSource s) (workers s))
  | ISetFailed =>
      Some (set_import (go Idle) (imageImportInProgress s) false (pendingImageImportSource s) (S (workers s)))
  | FSetFailed ok =>
      Some (set_import (go FClearProgress) (imageImportInProgress s) (negb ok) (pendingImageImportSource s) (workers s))
  | FClearProgress =>
      Some (set_import (go Idle) false (imageImportFailed s) (pendingImageImportSource s) (workers s))
  | HSetFailed =>
      Some (set_import (go HClearProgress) (imageImportInProgress s) true (pendingImageImportSource s) (workers s))
  | HClearProgress =>
      Some (importSystemImageSource
              (set_import s false (imageImportFailed s) (pendingImageImportSource s) (workers s)))
  | SyncBlock => Some (set_monitor (go Idle) MTop)
  end.

(** A step of the thread that runs [performRuntimeShutdown]; [timeout]: the five
    seconds are over. *)
Definition performRuntimeShutdown (timeout : bool) (s : state) : option state :=
  let go d := set_shutdown s (runtimeShutdownComplete s) d in
  match shutdown s with
  | SNone | SDone => None
  | SStop => Some (go SPid)
  | SPid => Some (go (if 0 <? qemuPid s then STerm (qemuPid s) else SJoin))
  | STerm p => Some (signal false p (go (SWait p)))
  | SWait p => if negb (qemuPid s =? p) then Some (go SJoin) else if timeout then Some (go (SCheck p)) else None
  | SCheck p => Some (go (if qemuPid s =? p then SKill p else SJoin))
  | SKill p => Some (signal true p (go SJoin))
  | SJoin => match monitor s with MDone => Some (set_shutdown s true SPost) | _ => None end
  | SPost =>
      let s := go SDone in
      Some (if onMain s then s else set_main s (main s) (queue s ++ [BTerminate]))
  end.

(** ** The system *)

(** The three threads, an import that ends, a process that exits; and what comes from
    outside: an image is chosen, MacMu is quit, AppKit ends the application. *)
Inductive event :=
  | Monitor (ok : bool) (pid : Z) | Main | Shutdown (timeout : bool) | ImportFinished (ok : bool) | Exited
  | ChooseImage | Quit | WillTerminate.

(** The main thread runs [performRuntimeShutdown] itself. *)
Definition main_blocked (s : state) : bool :=
  onMain s && match shutdown s with SDone => false | _ => true end.

Definition idle (s : state) : bool :=
  negb (main_blocked s) && match main s with Idle => true | _ => false end.

(** AppKit calls [applicationWillTerminate:] after [NSTerminateNow]. *)
Definition exec (e : event) (s : state) : option state :=
  match e with
  | Monitor ok p => qemuMonitorLoop ok p s
  | Main => if main_blocked s then None else main_step s
  | Shutdown t => performRuntimeShutdown t s
  | ImportFinished ok =>
      match workers s with
      | O => None
      | S n =>
          Some (set_import (set_main s (main s) (queue s ++ [BFinish ok])) (imageImportInProgress s)
                  (imageImportFailed s) (pendingImageImportSource s) n)
      end
  | Exited => if existsb alive (children s) then Some (set_children s (exits <$> children s) (late s) (strays s)) else None
  | ChooseImage => if idle s then Some (importSystemImageSource s) else None
  | Quit => if idle s then Some (applicationShouldTerminate s) else None
  | WillTerminate => if idle s && terminating s then Some (applicationWillTerminate s) else None
  end.

Definition step (s s' : state) : Prop := exists e, exec e s = Some s'.

(** ** Invariant *)

(** The process the monitor thread has launched and not reaped. *)
Definition owned (m : monitor_at) : list Z :=
  match m with MStore p | MLoad p | MSignal p | MWait p => [p] | _ => [] end.

(** The value of [_qemuPid]. *)
Definition published (m : monitor_at) : Z :=
  match m with MLoad p | MSignal p | MWait p | MClear p => p | _ => -1 end.

Definition positive (m : monitor_at) : Prop :=
  match m with MStore p | MLoad p | MSignal p | MWait p | MClear p => 0 < p | _ => True end.

Definition waited (d : shutdown_at) : Z :=
  match d with STerm p | SWait p | SCheck p | SKill p => p | _ => 1 end.

(** The shutdown will still signal process [p]. *)
Definition will_signal (d : shutdown_at) (p : Z) : Prop :=
  match d with SStop | SPid => True | STerm q => q = p | _ => False end.

Definition signalled (c : child) : bool := termed c || killed c.

(** The monitor thread leaves before another launch. *)
Definition leaving (m : monitor_at) : Prop :=
  match m with MStore _ | MLoad _ | MSignal _ | MWait _ | MClear _ | MLeave | MDone => True | _ => False end.

Definition joined (d : shutdown_at) : bool := match d with SPost | SDone => true | _ => false end.

Definition is_finish (b : block) : nat := match b with BFinish _ => 1 | _ => 0 end.
Definition is_sync (b : block) : nat := match b with BSync => 1 | _ => 0 end.

(** The imports that have set [_imageImportInProgress] and not cleared it. *)
Definition main_import (m : main_at) : nat :=
  match m with ISetFailed | FSetFailed _ | FClearProgress | HSetFailed | HClearProgress => 1 | _ => 0 end.

(** The main thread is past the test of [_imageImportInProgress]. *)
Definition may_set (m : main_at) : bool := match m with ISetProgress => true | _ => false end.

(** [terminate:] is dispatched at the end of the shutdown, and not before. *)
Definition ends (complete terminating : bool) (d : shutdown_at) (q : list block) : Prop :=
  (terminating = true -> complete = true) /\ (d = SDone -> terminating = true \/ BTerminate ∈ q) /\
  (BTerminate ∈ q -> complete = true).

Record inv (s : state) : Prop := {
  i_children : cpid <$> children s = owned (monitor s);
  i_pid : qemuPid s = published (monitor s);
  i_positive : positive (monitor s) /\ 0 < waited (shutdown s);
  i_shutting : if shuttingDown s then shutdown s <> SNone else shutdown s = SNone /\ late s = 0%nat;
  i_done : match monitor s with MDone => shuttingDown s = true | _ => True end;
  i_told : shuttingDown s = true -> forall p c, monitor s = MWait p -> c ∈ children s ->
    signalled c = true \/ will_signal (shutdown s) p;
  i_joined : runtimeShutdownComplete s = joined (shutdown s) /\
    match monitor s with MDone => True | _ => joined (shutdown s) = false end;
  i_terminate : ends (runtimeShutdownComplete s) (terminating s) (shutdown s) (queue s);
  i_main : onMain s = false;
  i_late : (late s <= 1)%nat /\ (late s = 1%nat -> leaving (monitor s));
  i_sync : (sum_list_with is_sync (queue s) + (match main s with SyncBlock => 1 | _ => 0 end) =
    match monitor s with MSync => 1 | _ => 0 end)%nat;
  i_import : (workers s + sum_list_with is_finish (queue s) + main_import (main s) =
      if imageImportInProgress s then 1 else 0)%nat /\
    (may_set (main s) = true -> imageImportInProgress s = false) }.

Lemma supervisor_start : inv start.
Proof. split; cbn; try done; try lia; repeat split; try done; set_solver. Qed.

Lemma count_app (f : block -> nat) q b : sum_list_with f (q ++ [b]) = (sum_list_with f q + f b)%nat.
Proof. rewrite sum_list_with_app. cbn. lia. Qed.

Lemma mark_cpid force p (cs : list child) : cpid <$> (mark force p <$> cs) = cpid <$> cs.
Proof.
  rewrite <- list_fmap_compose. apply list_fmap_ext. intros i c _. cbn. unfold mark. by destruct (cpid c =? p).
Qed.

Lemma exits_cpid (cs : list child) : cpid <$> (exits <$> cs) = cpid <$> cs.
Proof. rewrite <- list_fmap_compose. by apply list_fmap_ext. Qed.

Lemma owned_child (cs : list child) p : cpid <$> cs = [p] -> exists c, cs = [c] /\ cpid c = p.
Proof. destruct cs as [|c [|]]; intros H; simplify_eq/=. eauto. Qed.

Lemma mark_signalled force p c : cpid c = p -> signalled (mark force p c) = true.
Proof. intros <-. unfold mark, signalled. rewrite Z.eqb_refl. destruct force; cbn; [by rewrite orb_true_r|done]. Qed.

Lemma mark_keeps force p c : signalled c = true -> signalled (mark force p c) = true.
Proof. unfold mark, signalled. destruct (cpid c =? p), force; cbn; rewrite ?orb_true_r; auto. Qed.

Lemma ends_app c t d q b : b <> BTerminate -> ends c t d q -> ends c t d (q ++ [b]).
Proof.
  intros Hb (H1 & H2 & H3). unfold ends. rewrite elem_of_app, list_elem_of_singleton. split; [done|]. split; [tauto|].
  intros [H|H]; [auto|congruence].
Qed.

Lemma ends_tail c t d q b : b <> BTerminate -> ends c t d (b :: q) -> ends c t d q.
Proof.
  intros Hb (H1 & H2 & H3). unfold ends in *. rewrite elem_of_cons in *. split; [done|]. split; [|tauto].
  intros H. destruct (H2 H) as [?|[?|?]]; [tauto|congruence|tauto].
Qed.

Lemma ends_phase c t d d' q : d' <> SDone -> ends c t d q -> ends c t d' q.
Proof. unfold ends. tauto. Qed.

(** Fields that a step leaves alone, and the ones arithmetic settles. *)
Ltac keeps := try solve [ done | assumption | lia | tauto | congruence | (split; [done|lia]) | (intros; simplify_eq)
  | (cbn; lia) | (cbn; split; [lia|done]) | by apply ends_app
  | by eapply ends_phase; [|eassumption] ].

Ltac open_inv Hi :=
  destruct Hi as [H1 H2 [H3 H3'] H4 H5 H6 [H7 H7'] H8 H9 [H10 H10'] H11 [H12 H12']].

Lemma monitor_keeps ok p s s' : qemuMonitorLoop ok p s = Some s' -> inv s -> inv s'.
Proof.
  unfold qemuMonitorLoop. intros H Hi. destruct (monitor s) as [| | | | | |q|q|q|q|q| | |] eqn:Em; simplify_eq.
  all: open_inv Hi; rewrite Em in *; cbn in *.
  - destruct (shuttingDown s) eqn:Es; split; cbn; rewrite ?Es; keeps.
  - destruct (imageImportInProgress s) eqn:Eg; split; cbn; rewrite ?Eg; keeps.
  - destruct (imageImportFailed s); split; cbn; keeps.
  - destruct ok; split; cbn; keeps.
  - destruct ok; split; cbn; keeps.
  - destruct (p <=? 0) eqn:Ep; bool_to_prop; destruct (shuttingDown s) eqn:Es; split; cbn; rewrite ?Es; keeps.
  - split; cbn; keeps.
  - destruct (shuttingDown s) eqn:Es; split; cbn; rewrite ?Es; keeps.
  - split; cbn; keeps; [by rewrite mark_cpid|].
    destruct (owned_child _ _ H1) as (c & -> & Hc). intros _ p' c' _ Hin.
    apply list_elem_of_singleton in Hin as ->. left. by apply mark_signalled.
  - unfold reap in H. cbn in H. destruct (owned_child _ _ H1) as (c & Hc & <-).
    destruct (existsb _ _); simplify_eq. split; cbn; keeps.
    rewrite Hc. cbn. unfold filter. cbn. by rewrite decide_False by tauto.
  - destruct (qemuPid s =? q) eqn:Eq; bool_to_prop; split; cbn; keeps.
  - destruct (shuttingDown s) eqn:Es; split; cbn; rewrite ?Es, ?count_app; keeps.
Qed.

Lemma should_terminate_keeps s : inv s -> inv (applicationShouldTerminate s).
Proof.
  unfold applicationShouldTerminate, beginAsyncTermination.
  intros Hi. open_inv Hi.
  destruct (runtimeShutdownComplete s) eqn:Ec; [split; cbn; rewrite ?Ec; keeps|].
  destruct (shuttingDown s) eqn:Es; [by split; rewrite ?Es, ?Ec|].
  destruct H4 as [H4 H4']. rewrite H4 in *. split; cbn; rewrite ?Ec; keeps. by destruct (monitor s).
Qed.

Lemma main_keeps s s' : main_step s = Some s' -> inv s -> inv s'.
Proof.
  unfold main_step. intros H Hi. destruct (main s) eqn:Em.
  - destruct (queue s) as [|[ok| |] q] eqn:Eq; simplify_eq.
    3: unfold applicationShouldTerminate; cbn.
    all: open_inv Hi;
      rewrite Em, Eq in *; cbn in *.
    + apply ends_tail in H8; [|done]. destruct (pendingImageImportSource s); split; cbn; keeps.
    + apply ends_tail in H8; [|done]. split; cbn; keeps.
    + assert (runtimeShutdownComplete s = true) as Ec by (apply H8; left). rewrite Ec in *.
      split; cbn; rewrite ?Ec; keeps.
  - simplify_eq. open_inv Hi. rewrite Em in *; cbn in *. destruct (0 <? qemuPid s); split; cbn; keeps.
  - simplify_eq. open_inv Hi. rewrite Em in *; cbn in *.
    destruct (imageImportInProgress s) eqn:Eg; split; cbn; rewrite ?Eg; keeps.
  - simplify_eq. open_inv Hi. rewrite Em in *; cbn in *. rewrite H12' in H12 by done. split; cbn; keeps.
  - simplify_eq. open_inv Hi. rewrite Em in *; cbn in *. split; cbn; keeps.
  - simplify_eq. open_inv Hi. rewrite Em in *; cbn in *. split; cbn; keeps.
  - simplify_eq. open_inv Hi. rewrite Em in *; cbn in *. destruct (imageImportInProgress s); split; cbn; keeps.
  - simplify_eq. open_inv Hi. rewrite Em in *; cbn in *. split; cbn; keeps.
  - simplify_eq. unfold importSystemImageSource. cbn. open_inv Hi. rewrite Em in *; cbn in *.
    destruct (imageImportInProgress s), (shuttingDown s) eqn:Es; split; cbn; rewrite ?Es; keeps.
  - simplify_eq. open_inv Hi. rewrite Em in *; cbn in *. destruct (monitor s) eqn:Emm; keeps. split; cbn; keeps.
Qed.

(** A signal to the process that is waited for leaves it signalled. *)
Lemma told_marked force p s :
  (forall c, c ∈ children s -> signalled c = true \/ cpid c = p) ->
  forall c, c ∈ mark force p <$> children s -> signalled c = true.
Proof.
  intros H c Hin. apply list_elem_of_fmap in Hin as (c' & -> & Hin).
  destruct (H c' Hin) as [Hs|Hs]; [by apply mark_keeps|by apply mark_signalled].
Qed.

Lemma child_of_wait s p c : inv s -> monitor s = MWait p -> c ∈ children s -> cpid c = p.
Proof.
  intros Hi Hm Hin. pose proof (i_children s Hi) as H. rewrite Hm in H. cbn in H.
  destruct (owned_child _ _ H) as (c' & Hc & <-). rewrite Hc in Hin. by apply list_elem_of_singleton in Hin as ->.
Qed.

Lemma shutdown_keeps t s s' : performRuntimeShutdown t s = Some s' -> inv s -> inv s'.
Proof.
  unfold performRuntimeShutdown. intros H Hi.
  assert (shuttingDown s = true) as Es.
  { pose proof (i_shutting s Hi) as H4. destruct (shuttingDown s); [done|]. destruct H4 as [H4 _]. by rewrite H4 in H. }
  pose proof (fun p c => child_of_wait s p c Hi) as Hcw. open_inv Hi. rewrite Es in *. specialize (H6 eq_refl).
  destruct (shutdown s) as [| | |q|q|q|q| | |] eqn:Ed; simplify_eq; cbn in *.
  - split; cbn; rewrite ?Es; keeps.
  - destruct (0 <? qemuPid s) eqn:Ep; bool_to_prop; split; cbn; rewrite ?Es; keeps.
    + intros _ p c Hm _. right. by rewrite H2, Hm.
    + intros _ p c Hm _. rewrite Hm in *. cbn in *. lia.
  - split; cbn; rewrite ?Es; keeps; [by rewrite mark_cpid|]. intros _ p c Hm Hin. left.
    apply (told_marked false q s); [|done]. intros c' Hin'.
    destruct (H6 p c' Hm Hin') as [?| ->]; [by left|]. right. eauto.
  - destruct (qemuPid s =? q); cbn in H; [destruct t; simplify_eq|simplify_eq]; split; cbn; rewrite ?Es; keeps.
  - destruct (qemuPid s =? q); split; cbn; rewrite ?Es; keeps.
  - split; cbn; rewrite ?Es; keeps; [by rewrite mark_cpid|]. intros _ p c Hm Hin. left.
    apply (told_marked true q s); [|done]. intros c' Hin'. destruct (H6 p c' Hm Hin') as [?|[]]. by left.
  - destruct (monitor s) eqn:Em; simplify_eq. split; cbn; rewrite ?Es, ?Em; keeps.
  - rewrite H9. split; cbn; rewrite ?Es, ?count_app; keeps.
    destruct H8 as (? & ? & ?). unfold ends. rewrite H7. split; [done|].
    split; [right; apply elem_of_app; right; by left|done].
Qed.

Lemma supervisor_step s s' : step s s' -> inv s -> inv s'.
Proof.
  intros [e H] Hi. destruct e; cbn [exec] in H.
  - eauto using monitor_keeps.
  - destruct (main_blocked s); [done|]. eauto using main_keeps.
  - eauto using shutdown_keeps.
  - destruct (workers s) as [|n] eqn:Ew; simplify_eq. open_inv Hi. rewrite Ew in *.
    split; cbn; rewrite ?count_app; keeps.
  - destruct (existsb alive (children s)); simplify_eq. open_inv Hi.
    split; cbn; keeps; [by rewrite exits_cpid|]. intros Hs p c Hm Hin.
    apply list_elem_of_fmap in Hin as (c' & -> & Hin). by apply (H6 Hs p c').
  - unfold idle in H. destruct (main s) eqn:Em; rewrite ?andb_false_r in H; try done.
    destruct (_ && _); simplify_eq. unfold importSystemImageSource. open_inv Hi. rewrite Em in *.
    destruct (shuttingDown s) eqn:Es; split; cbn; rewrite ?Es; keeps.
  - destruct (idle s); simplify_eq. by apply should_terminate_keeps.
  - destruct (idle s && terminating s) eqn:E; simplify_eq. apply andb_true_iff in E as [_ Et].
    unfold applicationWillTerminate. by rewrite (proj1 (i_terminate s Hi) Et).
Qed.

Lemma supervisor_run s s' : rtc step s s' -> inv s -> inv s'.
Proof. induction 1; eauto using supervisor_step. Qed.

(** ** The end of MacMu *)

Definition monitor_rank (m : monitor_at) : nat :=
  match m with
  | MDone => 0 | MTop => 1 | MSync => 2 | MLeave => 2 | MClear _ => 3 | MWait _ => 4 | MSignal _ => 5 | MLoad _ => 6
  | MStore _ => 7 | MLaunch => 9 | MMachine => 10 | MImage => 11 | MGate2 => 12 | MGate1 => 13
  end.

Definition shutdown_rank (d : shutdown_at) : nat :=
  match d with
  | SNone | SDone => 0 | SPost => 2 | SJoin => 3 | SKill _ => 4 | SCheck _ => 5 | SWait _ => 6 | STerm _ => 7
  | SPid => 8 | SStop => 9
  end.

Definition main_rank (m : main_at) : nat :=
  match m with
  | Idle => 0 | SyncBlock | FClearProgress | HClearProgress => 1 | FSetFailed _ | HSetFailed => 2
  | ISetFailed => 5 | ISetProgress => 6 | ICheckProgress => 7 | ICheckPid => 8
  end.

Definition block_rank (b : block) : nat := match b with BFinish _ => 3 | BSync => 2 | BTerminate => 1 end.

Definition alive_rank (c : child) : nat := if alive c then 1 else 0.

(** A bound on the steps the threads still make once [_shuttingDown] is set. *)
Definition rank (s : state) : nat :=
  (monitor_rank (monitor s) + shutdown_rank (shutdown s) + main_rank (main s) +
   sum_list_with block_rank (queue s) + 4 * workers s + sum_list_with alive_rank (children s))%nat.

(** The steps that need nothing from outside. *)
Definition thread_event (e : event) : bool :=
  match e with Monitor _ _ | Main | Shutdown _ | ImportFinished _ | Exited => true | _ => false end.

Lemma mark_alive force p (cs : list child) :
  sum_list_with alive_rank (mark force p <$> cs) = sum_list_with alive_rank cs.
Proof.
  induction cs as [|c cs IH]; [done|]. cbn. rewrite IH. unfold mark, alive_rank. by destruct (cpid c =? p).
Qed.

Lemma exits_alive (cs : list child) :
  existsb alive cs = true -> (sum_list_with alive_rank (exits <$> cs) < sum_list_with alive_rank cs)%nat.
Proof.
  assert (forall cs, sum_list_with alive_rank (exits <$> cs) = 0%nat) as H0 by (intros l; by induction l).
  rewrite H0. induction cs as [|c cs IH]; [done|]. cbn. unfold alive_rank at 1.
  destruct (alive c); cbn; [lia|]. intros H. specialize (IH H). lia.
Qed.

Lemma monitor_rank_decreases ok p s s' :
  inv s -> shuttingDown s = true -> qemuMonitorLoop ok p s = Some s' ->
  shuttingDown s' = true /\ (rank s' < rank s)%nat.
Proof.
  intros Hi Hs H. unfold qemuMonitorLoop in H. rewrite Hs in H. pose proof (i_children s Hi) as Hc.
  destruct (monitor s) as [| | | | | |q|q|q|q|q| | |] eqn:Em; simplify_eq; unfold rank; rewrite ?Em in *.
  all: try solve [split; [done|cbn; rewrite ?Em; repeat case_match; cbn; lia]].
  - destruct (p <=? 0); (split; [done|]); cbn; lia.
  - split; [done|]. cbn. rewrite mark_alive. lia.
  - unfold reap in H. cbn in H. destruct (existsb _ _) eqn:Ee; [done|]. simplify_eq. split; [done|]. cbn.
    destruct (owned_child _ _ Hc) as (c & -> & Hq). unfold filter. cbn.
    rewrite decide_False by tauto. cbn. lia.
  - destruct (qemuPid s =? q); (split; [done|]); cbn; lia.
Qed.

Lemma main_rank_decreases s s' :
  inv s -> shuttingDown s = true -> main_step s = Some s' -> shuttingDown s' = true /\ (rank s' < rank s)%nat.
Proof.
  intros Hi Hs H. unfold main_step in H. pose proof (i_sync s Hi) as Hy. pose proof (proj2 (proj2 (i_terminate s Hi))) as Ht.
  destruct (main s) eqn:Em; simplify_eq; unfold rank; rewrite ?Em in *.
  - destruct (queue s) as [|[ok| |] q] eqn:Eq; simplify_eq; unfold applicationShouldTerminate; cbn.
    + split; [done|]. destruct (pendingImageImportSource s); cbn; lia.
    + split; [done|lia].
    + rewrite Ht by left. cbn. split; [done|lia].
  - split; [done|]. destruct (0 <? qemuPid s); cbn; lia.
  - destruct (imageImportInProgress s); (split; [done|]); cbn; lia.
  - split; [done|]. cbn. lia.
  - split; [done|]. cbn. lia.
  - split; [done|]. cbn. lia.
  - split; [done|]. cbn. lia.
  - split; [done|]. cbn. lia.
  - unfold importSystemImageSource. cbn. rewrite Hs. split; [done|]. cbn. lia.
  - split; [done|]. destruct (monitor s); cbn in *; lia.
Qed.

Lemma shutdown_rank_decreases t s s' :
  inv s -> shuttingDown s = true -> performRuntimeShutdown t s = Some s' ->
  shuttingDown s' = true /\ (rank s' < rank s)%nat.
Proof.
  intros Hi Hs H. unfold performRuntimeShutdown in H. pose proof (i_main s Hi) as Hm.
  destruct (shutdown s) as [| | |q|q|q|q| | |] eqn:Ed; simplify_eq; unfold rank; rewrite ?Ed in *.
  - split; [done|]. cbn. lia.
  - split; [done|]. destruct (0 <? qemuPid s); cbn; lia.
  - split; [done|]. cbn. rewrite mark_alive. lia.
  - destruct (qemuPid s =? q); cbn in H; [destruct t; simplify_eq|simplify_eq]; (split; [done|]); cbn; lia.
  - split; [done|]. destruct (qemuPid s =? q); cbn; lia.
  - split; [done|]. cbn. rewrite mark_alive. lia.
  - destruct (monitor s) eqn:Emm; simplify_eq. split; [done|]. cbn. rewrite Emm. cbn. lia.
  - cbn. rewrite Hm. split; [done|]. cbn. rewrite sum_list_with_app. cbn. lia.
Qed.

Lemma thread_rank_decreases e s s' :
  inv s -> shuttingDown s = true -> thread_event e = true -> exec e s = Some s' ->
  shuttingDown s' = true /\ (rank s' < rank s)%nat.
Proof.
  intros Hi Hs He H. destruct e; try done; cbn [exec] in H.
  - by eapply monitor_rank_decreases.
  - destruct (main_blocked s); [done|]. by apply main_rank_decreases.
  - by eapply shutdown_rank_decreases.
  - destruct (workers s) eqn:Ew; simplify_eq. split; [done|]. unfold rank. cbn. rewrite sum_list_with_app, Ew. cbn. lia.
  - destruct (existsb alive (children s)) eqn:Ea; simplify_eq. split; [done|]. apply exits_alive in Ea.
    unfold rank. cbn. lia.
Qed.

Lemma complete_done s : inv s -> runtimeShutdownComplete s = true -> monitor s = MDone.
Proof. intros Hi Hc. destruct (i_joined s Hi) as [H7 H7']. destruct (monitor s); congruence. Qed.

(** A step that is bound to come: of a thread, without the five seconds, or the exit
    of a process that was told to. *)
Definition bound_to_come (s : state) (e : event) : Prop :=
  match e with
  | Monitor _ _ | Main | Shutdown false | ImportFinished _ => True
  | Exited => Forall (fun c => signalled c = true) (children s)
  | _ => False
  end.

(** The main thread waits for nothing but its queue. *)
Lemma main_ready s : inv s -> (exists s', exec Main s = Some s') \/ (main s = Idle /\ queue s = []).
Proof.
  intros Hi. cbn [exec]. unfold main_blocked. rewrite (i_main s Hi). cbn. unfold main_step.
  destruct (main s); try solve [left; eauto]. destruct (queue s) as [|[ok| |] q]; [by right|left; eauto..].
Qed.

(** The monitor thread waits for the main queue, or for a process that runs. *)
Lemma monitor_ready s :
  (exists s', exec (Monitor false 0) s = Some s') \/ monitor s = MSync \/ monitor s = MDone \/
  exists p, monitor s = MWait p /\ existsb alive (children s) = true.
Proof.
  cbn [exec]. unfold qemuMonitorLoop. destruct (monitor s) as [| | | | | |q|q|q|q|q| | |]; try solve [left; eauto | auto].
  unfold reap. cbn. destruct (existsb _ _) eqn:E; [|left; eauto]. do 3 right. exists q. split; [done|].
  apply existsb_exists in E as (c & Hin & Hc). apply existsb_exists. exists c. split; [done|]. bool_to_prop. tauto.
Qed.

Lemma never_stuck s :
  inv s -> shuttingDown s = true ->
  (exists e s', bound_to_come s e /\ exec e s = Some s') \/
  (terminating s = true /\ monitor s = MDone /\ children s = []).
Proof.
  intros Hi Hs. destruct (main_ready s Hi) as [[s' H]|[Hm Hq]]; [left; by exists Main, s'|].
  pose proof (i_sync s Hi) as Hy. rewrite Hm, Hq in Hy. cbn in Hy.
  destruct (performRuntimeShutdown false s) as [s'|] eqn:Ed; [left; by exists (Shutdown false), s'|].
  pose proof (i_shutting s Hi) as H4. rewrite Hs in H4. unfold performRuntimeShutdown in Ed.
  destruct (monitor_ready s) as [[s' H]|[H|[H|(p & H & Ha)]]].
  - left. by exists (Monitor false 0), s'.
  - rewrite H in Hy. done.
  - right. pose proof (i_pid s Hi) as Hp. pose proof (proj2 (i_positive s Hi)) as Hw. rewrite H in Hp, Ed. cbn in Hp.
    pose proof (i_terminate s Hi) as (_ & Ht & _). rewrite Hq in Ht.
    destruct (shutdown s) as [| | |q|q|q|q| | |]; try done.
    + cbn in Hw. rewrite Hp in Ed. destruct (-1 =? q) eqn:Eq; [|done]. bool_to_prop. lia.
    + split; [|split; [done|]]; [by destruct (Ht eq_refl) as [?|?%elem_of_nil]|].
      pose proof (i_children s Hi) as Hc. rewrite H in Hc. by apply fmap_nil_inv in Hc.
  - left. exists Exited. cbn [exec]. rewrite Ha. eexists. split; [|done]. cbn. apply Forall_forall. intros c Hin.
    destruct (i_told s Hi Hs p c H Hin) as [?|Hw]; [done|]. by destruct (shutdown s).
Qed.

(** C8: for every interleaving of the monitor thread, the main thread, the
    shutdown, imports and exits: at most one emulator process exists, and none when
    the monitor thread launches one; [_qemuPid] is -1 or the process of the monitor
    thread; at most one emulator is launched after the shutdown has begun, and an
    emulator the monitor waits for has then been signalled or the shutdown is about to
    signal it; when the runtime is shut down the monitor thread has ended and no
    emulator is left; at most one import is at work, while [_imageImportInProgress] is
    set; and the shutdown never runs on the main thread. *)
Theorem one_emulator s :
  rtc step start s ->
  (length (children s) <= 1)%nat /\ (monitor s = MLaunch -> children s = []) /\
  (qemuPid s = -1 \/ 0 < qemuPid s /\ forall c, c ∈ children s -> cpid c = qemuPid s) /\
  (late s <= 1)%nat /\
  (shuttingDown s = true -> forall p c, monitor s = MWait p -> c ∈ children s ->
     signalled c = true \/ will_signal (shutdown s) (cpid c)) /\
  (runtimeShutdownComplete s = true -> monitor s = MDone /\ children s = [] /\ qemuPid s = -1) /\
  (workers s <= 1)%nat /\ ((0 < workers s)%nat -> imageImportInProgress s = true) /\
  onMain s = false.
Proof.
  intros Hrun. pose proof (supervisor_run _ _ Hrun supervisor_start) as Hi.
  pose proof (i_children s Hi) as H1. pose proof (i_pid s Hi) as H2. pose proof (i_positive s Hi) as [H3 _].
  pose proof (i_import s Hi) as [H12 _]. repeat split.
  - rewrite <- (length_fmap cpid), H1. destruct (monitor s); cbn; lia.
  - intros Hm. rewrite Hm in H1. by apply fmap_nil_inv in H1.
  - rewrite H2. destruct (monitor s); cbn in *; try (by left); right; (split; [done|]).
    all: try (destruct (owned_child _ _ H1) as (c & -> & Hc); by intros c' ->%list_elem_of_singleton).
    apply fmap_nil_inv in H1 as ->. by intros c ?%elem_of_nil.
  - apply Hi.
  - intros Hs p c Hm Hin. rewrite (child_of_wait s p c Hi Hm Hin). by apply (i_told s Hi Hs p c).
  - by eapply complete_done.
  - eapply fmap_nil_inv. rewrite H1. by rewrite (complete_done s).
  - rewrite H2. by rewrite (complete_done s).
  - destruct (imageImportInProgress s); lia.
  - destruct (imageImportInProgress s); [done|lia].
  - apply Hi.
Qed.

(** C14: once the shutdown has begun: every step of a thread, every end of an
    import and every exit of a process takes the system closer to its end, whatever
    their order; and while MacMu has not terminated a step is bound to come, counting
    the exit of an emulator only when the emulator was signalled. When none is left
    [NSTerminateNow] was answered, the monitor thread has ended and there is no emulator. *)
Theorem quit_ends s :
  rtc step start s -> shuttingDown s = true ->
  (forall e s', thread_event e = true -> exec e s = Some s' -> shuttingDown s' = true /\ (rank s' < rank s)%nat) /\
  ((exists e s', bound_to_come s e /\ exec e s = Some s') \/
   (terminating s = true /\ monitor s = MDone /\ children s = [])).
Proof.
  intros Hrun Hs. pose proof (supervisor_run _ _ Hrun supervisor_start) as Hi. split; [|by apply never_stuck].
  intros e s' He H. by eapply thread_rank_decreases.
Qed.

(** ** Concrete runs *)

Fixpoint run (es : list event) (s : state) : option state :=
  match es with [] => Some s | e :: es => s ← exec e s; run es s end.

Lemma run_rtc es s s' : run es s = Some s' -> rtc step s s'.
Proof.
  revert s. induction es as [|e es IH]; intros s H; cbn in H; [by simplify_eq|].
  destruct (exec e s) as [s1|] eqn:E; [|done]. apply rtc_l with s1; [by exists e|by apply IH].
Qed.

Definition after (es : list event) : state := match run es start with Some s => s | None => start end.

Abbreviation tick := (Monitor true 42).

(** The monitor thread up to [waitpid]: loop, gate, image, machine, launch, store, load. *)
Definition boot : list event := [tick; tick; tick; tick; tick; tick; tick; tick].

(** MacMu is quit while the emulator runs: the shutdown requests its end and waits, the
    emulator exits, the monitor thread ends, MacMu terminates. *)
Definition quit_run : list event :=
  boot ++ [Quit; Shutdown false; Shutdown false; Shutdown false; Exited; tick; tick; tick; Shutdown false;
           Shutdown false; Shutdown false; Main].

Lemma one_emulator_witness :
  children (after quit_run) = [] /\ qemuPid (after quit_run) = -1 /\ (length (children (after boot)) <= 1)%nat.
Proof.
  assert (rtc step start (after quit_run)) as Hrun by (apply (run_rtc quit_run); vm_compute; reflexivity).
  assert (rtc step start (after boot)) as Hboot by (apply (run_rtc boot); vm_compute; reflexivity).
  destruct (one_emulator _ Hrun) as (_ & _ & _ & _ & _ & H & _). destruct H as (_ & H1 & H2); [vm_compute; reflexivity|].
  split; [exact H1|]. split; [exact H2|]. apply (one_emulator _ Hboot).
Defined.

(** The emulator was asked to exit and has not. *)
Lemma quit_ends_witness :
  exists e s', bound_to_come (after (take 12 quit_run)) e /\ exec e (after (take 12 quit_run)) = Some s'.
Proof.
  destruct (quit_ends (after (take 12 quit_run))) as [_ [H|[H _]]].
  - apply (run_rtc (take 12 quit_run)). vm_compute. reflexivity.
  - vm_compute. reflexivity.
  - exact H.
  - vm_compute in H. discriminate H.
Defined.

(** An import of an image and, before it ends, the choice of a second source. *)
Definition two_sources : list event :=
  [ChooseImage; Main; Main; Main; Main; ChooseImage; Main; Main; ImportFinished false; Main; Main; Main].

(** The gate loads [_imageImportInProgress] between the end of the first import and the
    start of the second, and [_imageImportFailed] after the second has cleared it: the
    emulator is launched while the second import works. *)
Example handoff_launch_window :
  let s := after (two_sources ++ [tick; tick; Main; Main; Main; Main; tick; tick; tick; tick]) in
  (workers s, imageImportInProgress s, length (children s)) = (1%nat, true, 1%nat).
Proof. vm_compute. reflexivity. Qed.

(** An image is chosen between the gate and the store to [_qemuPid]. *)
Example import_beside_emulator :
  let s := after ([tick; tick; tick; tick; tick] ++ [ChooseImage; Main; Main; Main; Main] ++ [tick; tick; tick]) in
  (workers s, length (children s), qemuPid s) = (1%nat, 1%nat, 42).
Proof. vm_compute. reflexivity. Qed.

(** The shutdown loads [_qemuPid] before the monitor thread stores it: the emulator is
    asked to exit, and when it does not, the shutdown waits for the monitor thread and
    the five seconds do not apply. *)
Example late_launch_not_killed :
  let s := after (take 6 boot ++ [Quit; Shutdown false; Shutdown false; tick; tick; tick]) in
  (shutdown s, monitor s, (fun c => (termed c, killed c)) <$> children s, exec (Shutdown true) s, exec tick s,
   exec Main s) = (SJoin, MWait 42, [(true, false)], None, None, None).
Proof. vm_compute. reflexivity. Qed.

(** The emulator exits and is reaped between the load of [_qemuPid] and the signal. *)
Example reaped_before_signal :
  strays (after (boot ++ [Quit; Shutdown false; Shutdown false; Exited; tick; Shutdown false])) = [42].
Proof. vm_compute. reflexivity. Qed.

End Supervisor.
