(* ===== verification/InputView.v ===== *)
(** [shell/ui/macmu_input_view.mm]: the view of an application's window, which turns
    the events of AppKit into touch gestures, mouse events, scrolling and keyboard
    reports, and sends them through the guest agent or to the emulator. A handler is a
    function of the state and of what the senders and the renderer answer ([env]), and
    returns what it sends. Scroll distances are the IEEE numbers of the source. *)
From Stdlib Require Import SpecFloat.
From S2P Require Import Prelude InputProtocol HidKeyboard GuestInput.
Import HidKeyboard.

Module InputView.

(** ** State *)

Inductive InputTransport := kNone | kGuestAgent | kDirectQemu.

#[export] Instance InputTransport_eq_dec : EqDecision InputTransport.
Proof. solve_decision. Defined.

(** [guest], [direct]: the view was given a [GuestInputSender], an [InputSender]. *)
Record t := {
  guest : bool; direct : bool; displayId : Z; keyboardState : HidKeyboardState;
  leftTouchActive : bool; leftTouchTransport : InputTransport; leftTouchDisplayId : Z;
  mouseTransport : InputTransport; mouseDisplayId : Z;
  lastMouse : Z * Z; lastTouch : Z * Z }.

Definition initWithFrame (hasGuest hasDirect : bool) (display : Z) : t := {|
  guest := hasGuest; direct := hasDirect; displayId := display; keyboardState := init;
  leftTouchActive := false; leftTouchTransport := kNone; leftTouchDisplayId := 0;
  mouseTransport := kNone; mouseDisplayId := 0; lastMouse := (0, 0); lastTouch := (0, 0) |}.

Definition set_keyboard (k : HidKeyboardState) (s : t) : t := {|
  guest := guest s; direct := direct s; displayId := displayId s; keyboardState := k;
  leftTouchActive := leftTouchActive s; leftTouchTransport := leftTouchTransport s;
  leftTouchDisplayId := leftTouchDisplayId s; mouseTransport := mouseTransport s;
  mouseDisplayId := mouseDisplayId s; lastMouse := lastMouse s; lastTouch := lastTouch s |}.

Definition set_touch (active : bool) (tr : InputTransport) (display : Z) (at_ : Z * Z) (s : t) : t := {|
  guest := guest s; direct := direct s; displayId := displayId s; keyboardState := keyboardState s;
  leftTouchActive := active; leftTouchTransport := tr;
  leftTouchDisplayId := display; mouseTransport := mouseTransport s;
  mouseDisplayId := mouseDisplayId s; lastMouse := lastMouse s; lastTouch := at_ |}.

Definition set_mouse (tr : InputTransport) (display : Z) (at_ : Z * Z) (s : t) : t := {|
  guest := guest s; direct := direct s; displayId := displayId s; keyboardState := keyboardState s;
  leftTouchActive := leftTouchActive s; leftTouchTransport := leftTouchTransport s;
  leftTouchDisplayId := leftTouchDisplayId s; mouseTransport := tr;
  mouseDisplayId := display; lastMouse := at_; lastTouch := lastTouch s |}.

(** ** What the view sees and sends *)

(** Whether the guest agent is connected; the results of sending ([guestSendsAgain]:
    when a handler sends a second message through the agent); and [macmu_surface_renderer_map_view_point] at the event's location,
    with and without clamping: the point and the display. *)
Record env := {
  guestReady : bool; guestSends : bool; guestSendsAgain : bool; directSends : bool;
  mapEvent : bool -> option (Z * Z * Z) }.

Definition again (e : env) : env := {|
  guestReady := guestReady e; guestSends := guestSendsAgain e; guestSendsAgain := guestSendsAgain e;
  directSends := directSends e; mapEvent := mapEvent e |}.

Inductive out :=
  | OTouch (tr : InputTransport) (kind : InputEventKind) (display x y : Z) (sent : bool)
  | OMouse (tr : InputTransport) (kind : InputEventKind) (display x y buttons : Z) (sent : bool)
  | OReport (display : Z) (report : list Z) (sent : bool)
  | OHover (display x y : Z) | OHoverExit
  | OScroll (display x y : Z) (h v : GuestInputSender.float)
  | OSuper.                                      (* left to the superclass *)

(** ** Constants and helpers *)

Definition NSEventModifierFlagShift : Z := Z.shiftl 1 17.
Definition NSEventModifierFlagControl : Z := Z.shiftl 1 18.
Definition NSEventModifierFlagOption : Z := Z.shiftl 1 19.
Definition NSEventModifierFlagCommand : Z := Z.shiftl 1 20.

Inductive NSEventType :=
  | LeftMouseDown | LeftMouseUp | LeftMouseDragged | RightMouseDown | RightMouseUp | RightMouseDragged
  | OtherMouseDown | OtherMouseUp | OtherMouseDragged | OtherEvent.

(** [buttons &= ~mask], in 32 bits. *)
Definition clear_bits (buttons mask : Z) : Z := Z.land buttons (u32 (Z.lnot mask)).

(** [pressed]: the bits of [pressedMouseButtons]; [number]: the event's button. *)
Definition buttons_for_event (pressed : Z) (type : NSEventType) (number : Z) : Z :=
  let buttons := 0 in
  let buttons := if Z.testbit pressed 0 then Z.lor buttons kInputMouseButtonLeft else buttons in
  let buttons := if Z.testbit pressed 1 then Z.lor buttons kInputMouseButtonRight else buttons in
  let buttons := if Z.testbit pressed 2 then Z.lor buttons kInputMouseButtonMiddle else buttons in
  match type with
  | LeftMouseDown | LeftMouseDragged => Z.lor buttons kInputMouseButtonLeft
  | LeftMouseUp => clear_bits buttons kInputMouseButtonLeft
  | RightMouseDown | RightMouseDragged => Z.lor buttons kInputMouseButtonRight
  | RightMouseUp => clear_bits buttons kInputMouseButtonRight
  | OtherMouseDown | OtherMouseDragged => if number =? 2 then Z.lor buttons kInputMouseButtonMiddle else buttons
  | OtherMouseUp => if number =? 2 then clear_bits buttons kInputMouseButtonMiddle else buttons
  | OtherEvent => buttons
  end.

(** A [CGFloat], a double. *)
Definition double_prec : Z := 53.
Definition double_emax : Z := 1024.
Definition ten : spec_float := S754_finite false 5629499534213120 (-49).

(** [static_cast<float>] of a double. *)
Definition to_float (d : spec_float) : GuestInputSender.float :=
  match d with
  | S754_finite sign m e => binary_normalize GuestInputSender.float_prec GuestInputSender.float_emax (cond_Zopp sign (Zpos m)) e sign
  | _ => d
  end.

Definition scroll_axis_value (precise : bool) (delta : spec_float) : GuestInputSender.float :=
  match SFcompare delta (S754_zero false) with
  | Some Eq => S754_zero false
  | _ => if precise then to_float (SFdiv double_prec double_emax delta ten) else to_float delta
  end.

Definition modifier_flag_for_hid_usage (usage : Z) : Z :=
  if (usage =? 0xe0) || (usage =? 0xe4) then NSEventModifierFlagControl
  else if (usage =? 0xe1) || (usage =? 0xe5) then NSEventModifierFlagShift
  else if (usage =? 0xe2) || (usage =? 0xe6) then NSEventModifierFlagOption
  else if (usage =? 0xe3) || (usage =? 0xe7) then NSEventModifierFlagCommand
  else 0.

(** ** Sending *)

Definition preferredInputTransport (e : env) (s : t) : InputTransport :=
  if guest s && guestReady e then kGuestAgent else kDirectQemu.

Definition sendTouchKind (e : env) (s : t) (kind : InputEventKind) (display x y : Z) (tr : InputTransport)
    : bool * list out :=
  match tr with
  | kGuestAgent => if guest s then (guestSends e, [OTouch tr kind display x y (guestSends e)]) else (false, [])
  | kDirectQemu => if direct s then (directSends e, [OTouch tr kind display x y (directSends e)]) else (false, [])
  | kNone => (false, [])
  end.

(** [sendMouseMoveForDisplay:] and [sendMouseButtonForDisplay:]. *)
Definition sendMouse (e : env) (s : t) (kind : InputEventKind) (display x y buttons : Z) (tr : InputTransport)
    : bool * list out :=
  match tr with
  | kGuestAgent => if guest s then (guestSends e, [OMouse tr kind display x y buttons (guestSends e)]) else (false, [])
  | kDirectQemu => if direct s then (directSends e, [OMouse tr kind display x y buttons (directSends e)]) else (false, [])
  | kNone => (false, [])
  end.

Definition sendKeyboardReport (e : env) (s : t) : list out :=
  if guest s then [OReport (displayId s) (report_ (keyboardState s)) (guestSends e)] else [].

(** Try [tr], and the emulator when the guest agent does not take it. *)
Definition with_fallback (send : InputTransport -> bool * list out) (tr : InputTransport)
    : bool * InputTransport * list out :=
  let '(sent, o) := send tr in
  if negb sent && bool_decide (tr = kGuestAgent) then
    let '(sent', o') := send kDirectQemu in (sent', kDirectQemu, o ++ o')
  else (sent, tr, o).

(** ** Keyboard *)

Definition press (usage : Z) (pressed : bool) (c : bool * HidKeyboardState) : bool * HidKeyboardState :=
  let '(changed, k) := set_key usage pressed c.2 in (c.1 || changed, k).

Definition kGroups : list (Z * Z * Z) :=
  [(NSEventModifierFlagControl, 0xe0, 0xe4); (NSEventModifierFlagShift, 0xe1, 0xe5);
   (NSEventModifierFlagOption, 0xe2, 0xe6); (NSEventModifierFlagCommand, 0xe3, 0xe7)].

Definition synchronize_group (flags : Z) (group : Z * Z * Z) (c : bool * HidKeyboardState)
    : bool * HidKeyboardState :=
  let '(flag, leftUsage, rightUsage) := group in
  let leftPressed := is_pressed leftUsage c.2 in
  let rightPressed := is_pressed rightUsage c.2 in
  if Z.land flags flag =? 0 then press rightUsage false (press leftUsage false c)
  else if negb leftPressed && negb rightPressed then press leftUsage true c
  else c.

Definition synchronizeKeyboardModifiers (flags : Z) (k : HidKeyboardState) : bool * HidKeyboardState :=
  fold_left (fun c g => synchronize_group flags g c) kGroups (false, k).

Definition report_if (e : env) (changed : bool) (s : t) : t * list out :=
  (s, if changed then sendKeyboardReport e s else []).

Definition keyDown (e : env) (keyCode flags : Z) (isARepeat : bool) (s : t) : t * list out :=
  let usage := mac_virtual_key_to_hid_usage keyCode in
  if usage =? 0 then (s, [OSuper])
  else if isARepeat then (s, [])
  else
    let '(changed, k) := press usage true (synchronizeKeyboardModifiers flags (keyboardState s)) in
    report_if e changed (set_keyboard k s).

Definition keyUp (e : env) (keyCode flags : Z) (s : t) : t * list out :=
  let usage := mac_virtual_key_to_hid_usage keyCode in
  if usage =? 0 then (s, [OSuper])
  else
    let '(changed, k) := press usage false (synchronizeKeyboardModifiers flags (keyboardState s)) in
    report_if e changed (set_keyboard k s).

Definition flagsChanged (e : env) (keyCode flags : Z) (s : t) : t * list out :=
  let usage := mac_virtual_key_to_hid_usage keyCode in
  if usage =? 0x39 then
    let s1 := set_keyboard (set_key usage true (keyboardState s)).2 s in
    let s2 := set_keyboard (set_key usage false (keyboardState s1)).2 s1 in
    (s2, sendKeyboardReport e s1 ++ sendKeyboardReport (again e) s2)
  else
    let flag := modifier_flag_for_hid_usage usage in
    if flag =? 0 then (s, [OSuper])
    else
      let pressed := negb (is_pressed usage (keyboardState s)) && negb (Z.land flags flag =? 0) in
      let '(changed, k) := set_key usage pressed (keyboardState s) in
      report_if e changed (set_keyboard k s).

(** ** The left button: touch gestures *)

Definition mouseDown (e : env) (s : t) : t * list out :=
  match mapEvent e false with
  | None => (s, [])
  | Some (x, y, display) =>
      let '(sent, tr, o) :=
        with_fallback (sendTouchKind e s kTouchBegin display x y) (preferredInputTransport e s) in
      (set_touch sent (if sent then tr else kNone) display (x, y) s, o)
  end.

Definition mouseDragged (e : env) (s : t) : t * list out :=
  if negb (leftTouchActive s) then (s, [])
  else
    match mapEvent e true with
    | None => (s, [])
    | Some (x, y, _) =>
        (set_touch true (leftTouchTransport s) (leftTouchDisplayId s) (x, y) s,
         (sendTouchKind e s kTouchUpdate (leftTouchDisplayId s) x y (leftTouchTransport s)).2)
    end.

Definition mouseUp (e : env) (s : t) : t * list out :=
  if negb (leftTouchActive s) then (s, [])
  else
    let '(x, y) := match mapEvent e true with Some (x, y, _) => (x, y) | None => lastTouch s end in
    (set_touch false kNone (leftTouchDisplayId s) (lastTouch s) s,
     (sendTouchKind e s kTouchEnd (leftTouchDisplayId s) x y (leftTouchTransport s)).2).

(** ** The other buttons, hovering and scrolling *)

Definition sendMouseMoveEvent (e : env) (buttons : Z) (s : t) : t * list out :=
  match mapEvent e true with
  | None => (s, [])
  | Some (x, y, display) =>
      let tr := if bool_decide (mouseTransport s = kNone) then preferredInputTransport e s else mouseTransport s in
      (set_mouse (mouseTransport s) display (x, y) s, (sendMouse e s kMouseMove display x y buttons tr).2)
  end.

Definition sendMouseButtonEvent (e : env) (type : NSEventType) (buttons : Z) (s : t) : t * list out :=
  match mapEvent e true with
  | None => (s, [])
  | Some (x, y, display) =>
      let isDown := match type with RightMouseDown | OtherMouseDown => true | _ => false end in
      let '(tr, o) :=
        if isDown && bool_decide (mouseTransport s = kNone) then
          let '(sent, tr, o) :=
            with_fallback (sendMouse e s kMouseButton display x y buttons) (preferredInputTransport e s) in
          (if sent then tr else kNone, o)
        else (mouseTransport s, (sendMouse e s kMouseButton display x y buttons (mouseTransport s)).2) in
      (set_mouse (if buttons =? 0 then kNone else tr) display (x, y) s, o)
  end.

Definition mouseMoved (e : env) (s : t) : t * list out :=
  (s, match mapEvent e false with
      | Some (x, y, display) => if guest s then [OHover display x y] else []
      | None => []
      end).

Definition mouseExited (e : env) (s : t) : t * list out := (s, if guest s then [OHoverExit] else []).

Definition scrollWheel (e : env) (precise : bool) (deltaX deltaY : spec_float) (s : t) : t * list out :=
  (s, match mapEvent e false with
      | Some (x, y, display) =>
          if guest s then [OScroll display x y (scroll_axis_value precise deltaX) (scroll_axis_value precise deltaY)]
          else []
      | None => []
      end).

(** ** Leaving the window *)

Definition resetInputState (e : env) (s : t) : t * list out :=
  let '(changed, k) := release_all (keyboardState s) in
  let s1 := set_keyboard k s in
  let s2 := set_touch false kNone (leftTouchDisplayId s1) (lastTouch s1) s1 in
  (set_mouse kNone (mouseDisplayId s2) (lastMouse s2) s2, if changed then sendKeyboardReport e s1 else []).

(** [viewWillMoveToWindow:] with no window. *)
Definition viewWillMoveToNoWindow (e : env) (s : t) : t * list out :=
  let '(s1, o1) :=
    if leftTouchActive s then
      (set_touch false kNone (leftTouchDisplayId s) (lastTouch s) s,
       (sendTouchKind e s kTouchEnd (leftTouchDisplayId s) (lastTouch s).1 (lastTouch s).2 (leftTouchTransport s)).2)
    else (s, []) in
  let '(s2, o2) :=
    if bool_decide (mouseTransport s1 = kNone) then (s1, [])
    else
      (set_mouse kNone (mouseDisplayId s1) (lastMouse s1) s1,
       (sendMouse (again e) s1 kMouseButton (mouseDisplayId s1) (lastMouse s1).1 (lastMouse s1).2 0 (mouseTransport s1)).2) in
  (s2, o1 ++ o2 ++ if guest s2 then [OHoverExit] else []).

(** ** The view *)

Inductive event :=
  | EKeyDown (keyCode flags : Z) (isARepeat : bool) | EKeyUp (keyCode flags : Z) | EFlags (keyCode flags : Z)
  | EMouseDown | EMouseDragged | EMouseUp
  | EButton (type : NSEventType) (pressed number : Z) | EButtonDragged (type : NSEventType) (pressed number : Z)
  | EMoved | EExited | EScroll (precise : bool) (deltaX deltaY : spec_float)
  | EReset | ENoWindow.

Definition handle (ev : event) (e : env) (s : t) : t * list out :=
  match ev with
  | EKeyDown keyCode flags isARepeat => keyDown e keyCode flags isARepeat s
  | EKeyUp keyCode flags => keyUp e keyCode flags s
  | EFlags keyCode flags => flagsChanged e keyCode flags s
  | EMouseDown => mouseDown e s
  | EMouseDragged => mouseDragged e s
  | EMouseUp => mouseUp e s
  | EButton type pressed number => sendMouseButtonEvent e type (buttons_for_event pressed type number) s
  | EButtonDragged type pressed number => sendMouseMoveEvent e (buttons_for_event pressed type number) s
  | EMoved => mouseMoved e s
  | EExited => mouseExited e s
  | EScroll precise deltaX deltaY => scrollWheel e precise deltaX deltaY s
  | EReset => resetInputState e s
  | ENoWindow => viewWillMoveToNoWindow e s
  end.

Fixpoint run (evs : list (event * env)) (s : t) : t * list out :=
  match evs with
  | [] => (s, [])
  | (ev, e) :: evs => let '(s1, o1) := handle ev e s in let '(s2, o2) := run evs s1 in (s2, o1 ++ o2)
  end.

(** ** Gestures *)

Definition accept {S} (next : S -> out -> option S) : S -> list out -> option S :=
  fix go g os := match os with [] => Some g | o :: os => g' ← next g o; go g' os end.

Lemma accept_app {S} (next : S -> out -> option S) g os os' g' :
  accept next g os = Some g' -> accept next g (os ++ os') = accept next g' os'.
Proof.
  revert g. induction os as [|o os IH]; intros g H; cbn in *; [by simplify_eq|].
  destruct (next g o) as [g1|]; [cbn in *; by apply IH|done].
Qed.

(** The receivers of touch events: the transport and display of the open gesture. A
    gesture is open when its beginning was sent; [strict]: none may begin while
    another one is open. *)
Definition touch_next (strict : bool) (g : option (InputTransport * Z)) (o : out) : option (option (InputTransport * Z)) :=
  match o with
  | OTouch tr kTouchBegin d _ _ sent =>
      if sent then if strict && bool_decide (g <> None) then None else Some (Some (tr, d)) else Some g
  | OTouch tr kTouchUpdate d _ _ _ => if bool_decide (g = Some (tr, d)) then Some g else None
  | OTouch tr kTouchEnd d _ _ _ => if bool_decide (g = Some (tr, d)) then Some None else None
  | OTouch _ _ _ _ _ _ => None
  | _ => Some g
  end.

(** The receivers of mouse events: the transport that was told of a pressed button. *)
Definition mouse_next (m : InputTransport) (o : out) : option InputTransport :=
  match o with
  | OMouse tr kMouseButton _ _ _ buttons sent =>
      if bool_decide (m = kNone) then Some (if sent && negb (buttons =? 0) then tr else kNone)
      else if bool_decide (m = tr) then Some (if buttons =? 0 then kNone else m) else None
  | OMouse tr kMouseMove _ _ _ _ _ => if bool_decide (m = kNone \/ m = tr) then Some m else None
  | OMouse _ _ _ _ _ _ _ => None
  | _ => Some m
  end.

Definition open_touch (s : t) : option (InputTransport * Z) :=
  if leftTouchActive s then Some (leftTouchTransport s, leftTouchDisplayId s) else None.

(** The left button goes down once before it goes up, and the state is not reset while
    a touch or a button is under way. *)
Definition settled (ev : event) (s : t) : Prop :=
  match ev with
  | EMouseDown => leftTouchActive s = false
  | EReset => leftTouchActive s = false /\ mouseTransport s = kNone
  | _ => True
  end.

Fixpoint paired (evs : list (event * env)) (s : t) : Prop :=
  match evs with [] => True | (ev, e) :: evs => settled ev s /\ paired evs (handle ev e s).1 end.

Definition touch_link (strict : bool) (s : t) (g : option (InputTransport * Z)) : Prop :=
  if strict then g = open_touch s else leftTouchActive s = true -> g = open_touch s.

(** The outputs of the keyboard and of the mouse are no touch events, and the other way
    round. *)
Definition is_touch (o : out) : bool := match o with OTouch _ _ _ _ _ _ => true | _ => false end.
Definition is_mouse (o : out) : bool := match o with OMouse _ _ _ _ _ _ _ => true | _ => false end.

Lemma accept_no_touch strict g os : Forall (fun o => is_touch o = false) os -> accept (touch_next strict) g os = Some g.
Proof. induction 1 as [|o os Ho _ IH]; [done|]. cbn. destruct o; done. Qed.

Lemma accept_no_mouse m os : Forall (fun o => is_mouse o = false) os -> accept mouse_next m os = Some m.
Proof. induction 1 as [|o os Ho _ IH]; [done|]. cbn. destruct o; done. Qed.

Lemma send_mouse_outs e s k d x y b tr : Forall (fun o => is_touch o = false) (sendMouse e s k d x y b tr).2.
Proof. unfold sendMouse. destruct tr; repeat case_match; cbn; auto. Qed.

Lemma send_touch_outs e s k d x y tr : Forall (fun o => is_mouse o = false) (sendTouchKind e s k d x y tr).2.
Proof. unfold sendTouchKind. destruct tr; repeat case_match; cbn; auto. Qed.

Lemma report_outs e s : Forall (fun o => is_touch o = false /\ is_mouse o = false) (sendKeyboardReport e s).
Proof. unfold sendKeyboardReport. destruct (guest s); auto. Qed.

Lemma with_fallback_outs (P : out -> Prop) send tr :
  (forall tr, Forall P (send tr).2) -> Forall P (with_fallback send tr).2.
Proof.
  intros H. unfold with_fallback. pose proof (H tr). pose proof (H kDirectQemu). repeat case_match; cbn in *; simplify_eq; auto.
  apply Forall_app. auto.
Qed.

(** The sender of a transport is there. *)
Definition has_sender (s : t) (tr : InputTransport) : bool :=
  match tr with kGuestAgent => guest s | kDirectQemu => direct s | kNone => false end.

(** A handler of the keyboard changes the keyboard only and sends reports only. *)
Lemma keyboard_handler ev e s :
  match ev with EKeyDown _ _ _ | EKeyUp _ _ | EFlags _ _ => True | _ => False end ->
  (exists k, (handle ev e s).1 = set_keyboard k s) /\
  Forall (fun o => is_touch o = false /\ is_mouse o = false) (handle ev e s).2.
Proof.
  assert (exists k, s = set_keyboard k s) as Hs by (exists (keyboardState s); by destruct s).
  pose proof (report_outs e) as Hr. pose proof (report_outs (again e)) as Hr2.
  destruct ev; try done; intros _; cbn [handle]; unfold keyDown, keyUp, flagsChanged, report_if.
  all: repeat case_match; cbn; split; eauto; rewrite ?Forall_app; eauto.
Qed.

(** What is sent on the transport of the open gesture. *)
Lemma send_touch_pinned strict e s k d x y tr g' :
  has_sender s tr = true -> (forall sent, touch_next strict (Some (tr, d)) (OTouch tr k d x y sent) = Some g') ->
  accept (touch_next strict) (Some (tr, d)) (sendTouchKind e s k d x y tr).2 = Some g'.
Proof. unfold sendTouchKind. intros Hs H. destruct tr; cbn in Hs; [done|rewrite Hs..]; cbn [snd accept]; by rewrite H. Qed.

(** The beginning of a gesture, with its fallback. *)
Lemma begin_touch strict e s d x y tr g :
  (strict = true -> g = None) ->
  let '(sent, tr', o) := with_fallback (sendTouchKind e s kTouchBegin d x y) tr in
  accept (touch_next strict) g o = Some (if sent then Some (tr', d) else g) /\ (sent = true -> has_sender s tr' = true).
Proof.
  intros Hg.
  assert (forall tr, let '(sent, o) := sendTouchKind e s kTouchBegin d x y tr in
    accept (touch_next strict) g o = Some (if sent then Some (tr, d) else g) /\ (sent = true -> has_sender s tr = true)) as H.
  { intros tr'. unfold sendTouchKind. destruct tr'; [done|destruct (guest s) eqn:E|destruct (direct s) eqn:E]; try done.
    all: cbn; destruct (guestSends e), (directSends e), strict; cbn; try done; by rewrite Hg. }
  unfold with_fallback. pose proof (H tr) as H1. pose proof (H kDirectQemu) as H2.
  destruct (sendTouchKind e s kTouchBegin d x y tr) as [sent o].
  destruct (sendTouchKind e s kTouchBegin d x y kDirectQemu) as [sent' o']. destruct sent; cbn; [done|].
  destruct (bool_decide (tr = kGuestAgent)); [|done]. destruct H1 as [H1 _]. by rewrite (accept_app _ _ _ _ _ H1).
Qed.

(** The handlers that leave touches alone. *)
Definition touch_handler (ev : event) : bool :=
  match ev with EMouseDown | EMouseDragged | EMouseUp | EReset | ENoWindow => true | _ => false end.

Lemma no_touch_handler ev e s :
  touch_handler ev = false ->
  open_touch (handle ev e s).1 = open_touch s /\ leftTouchActive (handle ev e s).1 = leftTouchActive s /\
  (guest (handle ev e s).1, direct (handle ev e s).1) = (guest s, direct s) /\
  Forall (fun o => is_touch o = false) (handle ev e s).2.
Proof.
  intros He. destruct ev; try done.
  1-3: match goal with |- context [handle ?ev ?e ?s] => destruct (keyboard_handler ev e s I) as [[k Hk] Ho]; rewrite Hk end;
    do 3 (split; [done|]); eapply Forall_impl; [exact Ho|by intros ? []].
  - cbn [handle]. unfold sendMouseButtonEvent. destruct (mapEvent e true) as [[[x y] d]|]; [|done].
    pose proof (fun b => with_fallback_outs _ (sendMouse e s kMouseButton d x y b) (preferredInputTransport e s)
      (send_mouse_outs e s kMouseButton d x y b)) as Hf.
    pose proof (send_mouse_outs e s kMouseButton d x y (buttons_for_event pressed type number) (mouseTransport s)) as Hm.
    specialize (Hf (buttons_for_event pressed type number)).
    destruct (with_fallback _ _) as [[sent tr] o], (sendMouse e s kMouseButton d x y _ (mouseTransport s)) as [sent' o'].
    cbn in *. destruct (_ && _); done.
  - cbn [handle]. unfold sendMouseMoveEvent. destruct (mapEvent e true) as [[[x y] d]|]; [|done].
    repeat split. apply send_mouse_outs.
  - cbn. repeat case_match; auto.
  - cbn. repeat case_match; auto.
  - cbn. repeat case_match; auto.
Qed.

(** The end of a gesture. *)
Lemma end_touch strict e s s' x y :
  leftTouchActive s = true -> has_sender s (leftTouchTransport s) = true -> leftTouchActive s' = false ->
  accept (touch_next strict) (open_touch s)
    (sendTouchKind e s kTouchEnd (leftTouchDisplayId s) x y (leftTouchTransport s)).2 = Some (open_touch s').
Proof.
  intros Ha Hh Hs'. unfold open_touch. rewrite Ha, Hs'. apply send_touch_pinned; [done|]. intros sent. cbn.
  by rewrite bool_decide_true.
Qed.

(** An active touch has a sender. *)
Definition sender_ok (s : t) : Prop := leftTouchActive s = true -> has_sender s (leftTouchTransport s) = true.

Lemma touch_event strict ev e s g :
  touch_link strict s g -> sender_ok s -> (strict = true -> settled ev s) ->
  exists g', accept (touch_next strict) g (handle ev e s).2 = Some g' /\ touch_link strict (handle ev e s).1 g' /\
    sender_ok (handle ev e s).1.
Proof.
  intros Hl Hok Hs. destruct (touch_handler ev) eqn:Eh.
  2:{ destruct (no_touch_handler ev e s Eh) as (H1 & H2 & H3 & H4). exists g. rewrite accept_no_touch by done.
      split; [done|]. unfold touch_link, sender_ok in *. rewrite H1, H2. split; [done|]. intros Ha. specialize (Hok Ha).
      unfold open_touch in H1. rewrite H2, Ha in H1. injection H1 as -> _.
      injection H3 as Hg Hd. unfold has_sender in *. by rewrite Hg, Hd. }
  destruct ev; try done; cbn [handle].
  - unfold mouseDown. destruct (mapEvent e false) as [[[x y] d]|]; [|by exists g].
    pose proof (begin_touch strict e s d x y (preferredInputTransport e s) g) as Hb.
    assert (strict = true -> g = None) as Hg.
    { intros ->. unfold touch_link in Hl. rewrite Hl. unfold open_touch. by rewrite (Hs eq_refl). }
    specialize (Hb Hg). destruct (with_fallback _ _) as [[sent tr] o]. destruct Hb as [Hb1 Hb2].
    eexists. split; [exact Hb1|]. unfold touch_link, open_touch, sender_ok. cbn. split.
    + destruct sent, strict; auto.
    + intros ->. by apply Hb2.
  - unfold mouseDragged. destruct (leftTouchActive s) eqn:Ea; cbn; [|by exists g].
    destruct (mapEvent e true) as [[[x y] d]|]; [|by exists g].
    assert (g = open_touch s) as -> by (destruct strict; auto). exists (open_touch s). split; [|split].
    + unfold open_touch. rewrite Ea. apply send_touch_pinned; [auto|]. intros sent. cbn. by rewrite bool_decide_true.
    + unfold touch_link, open_touch. cbn. rewrite Ea. by destruct strict.
    + intros _. exact (Hok Ea).
  - unfold mouseUp. destruct (leftTouchActive s) eqn:Ea; cbn; [|by exists g].
    assert (g = open_touch s) as -> by (destruct strict; auto).
    destruct (match mapEvent e true with Some (x, y, _) => (x, y) | None => lastTouch s end) as [x y].
    eexists. split; [by apply (end_touch strict e s (set_touch false kNone 0 (0, 0) s)); auto|].
    split; [|done]. by destruct strict.
  - unfold resetInputState. destruct (release_all (keyboardState s)) as [changed k]. cbn [fst snd].
    exists g. split; [|split; [|done]].
    + apply accept_no_touch. destruct changed; [|done]. eapply Forall_impl; [apply report_outs|by intros ? []].
    + destruct strict; [|done]. destruct (Hs eq_refl) as [Ha _]. unfold touch_link, open_touch in *. cbn. by rewrite Ha in Hl.
  - unfold viewWillMoveToNoWindow.
    assert (forall s1 m, Forall (fun o => is_touch o = false)
      ((sendMouse (again e) s1 kMouseButton (mouseDisplayId s1) (lastMouse s1).1 (lastMouse s1).2 0 m).2 ++
       if guest s then [OHoverExit] else [])) as Hm.
    { intros s1 m. apply Forall_app. split; [apply send_mouse_outs|]. destruct (guest s); auto. }
    destruct (leftTouchActive s) eqn:Ea.
    + assert (g = open_touch s) as -> by (destruct strict; auto).
      pose proof (end_touch strict e s (set_touch false kNone 0 (0, 0) s) (lastTouch s).1 (lastTouch s).2 Ea (Hok Ea) eq_refl) as He.
      exists None. case_bool_decide; cbn [fst snd].
      * rewrite (accept_app _ _ _ _ _ He). split; [|by destruct strict]. destruct (guest _); done.
      * rewrite (accept_app _ _ _ _ _ He). split; [|by destruct strict]. apply accept_no_touch, Hm.
    + exists g. case_bool_decide; cbn [fst snd].
      * split; [by destruct (guest _)|]. done.
      * split; [apply accept_no_touch, Hm|]. unfold touch_link, open_touch, sender_ok in *. cbn. by rewrite Ea in *.
Qed.

(** ** The other buttons *)

Definition mouse_handler (ev : event) : bool :=
  match ev with EButton _ _ _ | EButtonDragged _ _ _ | EReset | ENoWindow => true | _ => false end.

Lemma no_mouse_handler ev e s :
  mouse_handler ev = false ->
  mouseTransport (handle ev e s).1 = mouseTransport s /\
  (guest (handle ev e s).1, direct (handle ev e s).1) = (guest s, direct s) /\
  Forall (fun o => is_mouse o = false) (handle ev e s).2.
Proof.
  intros He. destruct ev; try done.
  1-3: match goal with |- context [handle ?ev ?e ?s] => destruct (keyboard_handler ev e s I) as [[k Hk] Ho]; rewrite Hk end;
    do 2 (split; [done|]); eapply Forall_impl; [exact Ho|by intros ? []].
  - cbn [handle]. unfold mouseDown. destruct (mapEvent e false) as [[[x y] d]|]; [|done].
    pose proof (with_fallback_outs _ (sendTouchKind e s kTouchBegin d x y) (preferredInputTransport e s)
      (send_touch_outs e s kTouchBegin d x y)) as Hf.
    by destruct (with_fallback _ _) as [[sent tr] o].
  - cbn [handle]. unfold mouseDragged. destruct (leftTouchActive s), (mapEvent e true) as [[[x y] d]|]; cbn; try done.
    repeat split. apply send_touch_outs.
  - cbn [handle]. unfold mouseUp. destruct (leftTouchActive s); cbn; [|done].
    destruct (match mapEvent e true with Some (x, y, _) => (x, y) | None => lastTouch s end) as [x y].
    repeat split. apply send_touch_outs.
  - cbn. repeat case_match; auto.
  - cbn. repeat case_match; auto.
  - cbn. repeat case_match; auto.
Qed.

(** The pinned transport has a sender. *)
Definition mouse_ok (s : t) : Prop := mouseTransport s <> kNone -> has_sender s (mouseTransport s) = true.

Lemma mouse_ok_none s : mouseTransport s = kNone -> mouse_ok s.
Proof. by intros ? []. Qed.

Lemma send_button_pinned e s d x y b m :
  has_sender s m = true ->
  accept mouse_next m (sendMouse e s kMouseButton d x y b m).2 = Some (if b =? 0 then kNone else m).
Proof.
  unfold sendMouse. intros Hs. destruct m; cbn in Hs; [done|rewrite Hs..]; cbn.
  all: by destruct (b =? 0).
Qed.

Lemma send_move_pinned e s d x y b m tr :
  m = kNone \/ m = tr -> accept mouse_next m (sendMouse e s kMouseMove d x y b tr).2 = Some m.
Proof.
  unfold sendMouse. intros Hm. destruct tr; [done|destruct (guest s)|destruct (direct s)]; try done; cbn.
  all: by rewrite bool_decide_true by done.
Qed.

(** A button that goes down, with its fallback. *)
Lemma press_button e s d x y b tr :
  let '(sent, tr', o) := with_fallback (sendMouse e s kMouseButton d x y b) tr in
  accept mouse_next kNone o = Some (if sent && negb (b =? 0) then tr' else kNone) /\
  (sent = true -> has_sender s tr' = true).
Proof.
  assert (forall tr, let '(sent, o) := sendMouse e s kMouseButton d x y b tr in
    accept mouse_next kNone o = Some (if sent && negb (b =? 0) then tr else kNone) /\
    (sent = true -> has_sender s tr = true)) as H.
  { intros tr'. unfold sendMouse. destruct tr'; [done|destruct (guest s) eqn:E|destruct (direct s) eqn:E]; done. }
  unfold with_fallback. pose proof (H tr) as H1. pose proof (H kDirectQemu) as H2.
  destruct (sendMouse e s kMouseButton d x y b tr) as [sent o].
  destruct (sendMouse e s kMouseButton d x y b kDirectQemu) as [sent' o']. destruct sent; cbn; [done|].
  destruct (bool_decide (tr = kGuestAgent)); [|done]. destruct H1 as [H1 _]. by rewrite (accept_app _ _ _ _ _ H1).
Qed.

Lemma mouse_event ev e s :
  mouse_ok s -> settled ev s ->
  accept mouse_next (mouseTransport s) (handle ev e s).2 = Some (mouseTransport (handle ev e s).1) /\
  mouse_ok (handle ev e s).1.
Proof.
  intros Hok Hs. destruct (mouse_handler ev) eqn:Eh.
  2:{ destruct (no_mouse_handler ev e s Eh) as (H1 & H2 & H3). rewrite accept_no_mouse, H1 by done. split; [done|].
      unfold mouse_ok, has_sender in *. rewrite H1. by injection H2 as -> ->. }
  destruct ev; try done; cbn [handle].
  - unfold sendMouseButtonEvent. destruct (mapEvent e true) as [[[x y] d]|]; [|done].
    set (b := buttons_for_event pressed type number).
    pose proof (press_button e s d x y b (preferredInputTransport e s)) as Hp.
    destruct (with_fallback _ _) as [[sent tr] o]. destruct Hp as [Hp1 Hp2].
    destruct (_ && bool_decide _) eqn:Ed; cbn [fst snd].
    + apply andb_true_iff in Ed as [_ Ed]. apply bool_decide_eq_true in Ed. rewrite Ed, Hp1. cbn.
      destruct sent, (b =? 0) eqn:Eb; cbn; (split; [done|]); unfold mouse_ok; cbn; auto; done.
    + destruct (decide (mouseTransport s = kNone)) as [En|En].
      * rewrite En. cbn. destruct (b =? 0); (split; [done|]); unfold mouse_ok; cbn; auto; done.
      * rewrite send_button_pinned by auto. split; [done|]. unfold mouse_ok. cbn. destruct (b =? 0); [done|auto].
  - unfold sendMouseMoveEvent. destruct (mapEvent e true) as [[[x y] d]|]; [|done]. split; [|exact Hok]. cbn.
    apply send_move_pinned. case_bool_decide; auto.
  - destruct Hs as [_ Hs]. unfold resetInputState. destruct (release_all (keyboardState s)) as [changed k]. cbn [fst snd].
    rewrite Hs. split; [|by apply mouse_ok_none]. apply accept_no_mouse. destruct changed; [|done].
    eapply Forall_impl; [apply report_outs|by intros ? []].
  - unfold viewWillMoveToNoWindow.
    assert (forall x y, accept mouse_next (mouseTransport s) (if leftTouchActive s then
      (sendTouchKind e s kTouchEnd (leftTouchDisplayId s) x y (leftTouchTransport s)).2 else []) =
      Some (mouseTransport s)) as Ht.
    { intros x y. apply accept_no_mouse. destruct (leftTouchActive s); [apply send_touch_outs|done]. }
    specialize (Ht (lastTouch s).1 (lastTouch s).2).
    destruct (leftTouchActive s); cbn [mouseTransport set_touch]; case_bool_decide as Hm; cbn [fst snd mouseTransport set_mouse set_touch].
    all: rewrite (accept_app _ _ _ _ _ Ht); try (rewrite Hm; split; [by destruct (guest _)|by apply mouse_ok_none]).
    all: (erewrite accept_app; [|apply send_button_pinned; exact (Hok Hm)]); split; [by destruct (guest _)|by apply mouse_ok_none].
Qed.

Lemma touch_run strict evs s g :
  touch_link strict s g -> sender_ok s -> (strict = true -> paired evs s) ->
  exists g', accept (touch_next strict) g (run evs s).2 = Some g' /\ touch_link strict (run evs s).1 g'.
Proof.
  revert s g. induction evs as [|[ev e] evs IH]; intros s g Hl Hok Hp; [by exists g|].
  destruct (touch_event strict ev e s g Hl Hok) as (g1 & Ha & Hl1 & Hok1); [intros H; by apply Hp|].
  cbn [run]. cbn [paired] in Hp. destruct (handle ev e s) as [s1 o1]. cbn [fst snd] in *.
  destruct (IH s1 g1 Hl1 Hok1) as (g2 & Ha2 & Hl2); [intros H; by apply Hp|].
  destruct (run evs s1) as [s2 o2]. exists g2. split; [|done]. cbn [snd]. by rewrite (accept_app _ _ _ _ _ Ha).
Qed.

Lemma mouse_run evs s :
  mouse_ok s -> paired evs s -> accept mouse_next (mouseTransport s) (run evs s).2 = Some (mouseTransport (run evs s).1).
Proof.
  revert s. induction evs as [|[ev e] evs IH]; intros s Hok Hp; [done|].
  cbn [run paired] in *. destruct Hp as [Hs Hp]. destruct (mouse_event ev e s Hok Hs) as [Ha Hok1].
  destruct (handle ev e s) as [s1 o1]. cbn [fst snd] in *. specialize (IH s1 Hok1 Hp).
  destruct (run evs s1) as [s2 o2]. cbn [fst snd] in *. by rewrite (accept_app _ _ _ _ _ Ha).
Qed.

(** C26: for every sequence of AppKit events, whatever the senders answer: each
    move and each end of a touch goes to the transport and the display to which the
    beginning of that touch was sent, and nothing follows its end. When the events are
    paired (one mouse-down before its mouse-up, no reset during a touch or while a
    button is pressed), no touch begins during another one, a touch is open at the
    receivers exactly while the view holds it active, and between the press of another
    button and the release of all of them every mouse event goes to one transport. *)
Theorem gestures_pinned hasGuest hasDirect display evs :
  let '(s, o) := run evs (initWithFrame hasGuest hasDirect display) in
  (exists g, accept (touch_next false) None o = Some g /\ (leftTouchActive s = true -> g = open_touch s)) /\
  (paired evs (initWithFrame hasGuest hasDirect display) ->
     accept (touch_next true) None o = Some (open_touch s) /\
     accept mouse_next kNone o = Some (mouseTransport s)).
Proof.
  set (s0 := initWithFrame hasGuest hasDirect display).
  pose proof (touch_run false evs s0 None) as H1. pose proof (touch_run true evs s0 None) as H2.
  pose proof (mouse_run evs s0) as H3. destruct (run evs s0) as [s o]. split.
  - by apply H1.
  - intros Hp. split.
    + destruct H2 as (g & Ha & Hl); [done|done|by intros _|]. cbn in *. by rewrite Ha, Hl.
    + apply H3; [by apply mouse_ok_none|done].
Qed.

(** ** The keyboard *)








(** The last report the agent was sent: a report whose sending failed does not count. *)
Definition reported (r : list Z) (os : list out) : list Z :=
  fold_left (fun r o => match o with OReport _ r' true => r' | _ => r end) os r.




































(** ** Concrete runs *)

Definition sends (ready guestOk : bool) (x y : Z) : env :=
  {| guestReady := ready; guestSends := guestOk; guestSendsAgain := guestOk; directSends := true; mapEvent := fun _ => Some (x, y, 3) |}.

Definition demo_view : t := initWithFrame true true 3.

(** The agent does not take the beginning of the touch, and is back at its end; the end
    still goes to the emulator. A right click and a key follow. *)
Definition demo_events : list (event * env) :=
  [(EMouseDown, sends true false 10 20); (EMouseDragged, sends true true 11 20); (EMouseUp, sends true true 12 20);
   (EButton RightMouseDown 2 1, sends true true 5 5); (EButton RightMouseUp 0 1, sends false true 5 5);
   (EKeyDown 0x00 NSEventModifierFlagShift false, sends true true 0 0)].

Lemma demo_end :
  open_touch (run demo_events demo_view).1 = None /\ mouseTransport (run demo_events demo_view).1 = kNone /\
  leftTouchActive (run (take 1 demo_events) demo_view).1 = true.
Proof. vm_compute. auto. Qed.

Lemma gestures_pinned_witness :
  accept (touch_next true) None (run demo_events demo_view).2 = Some None /\
  accept mouse_next kNone (run demo_events demo_view).2 = Some kNone.
Proof.
  pose proof (gestures_pinned true true 3 demo_events) as H. change (initWithFrame true true 3) with demo_view in H.
  destruct demo_end as (Ho & Hm & _). destruct (run demo_events demo_view) as [s o]. destruct H as [_ H].
  cbn [fst snd] in *. destruct H as [H1 H2]; [vm_compute; tauto|]. split; [by rewrite H1, Ho|by rewrite H2, Hm].
Defined.

(** The agent does not take the report of the first key, and takes that of the second. *)
Definition demo_keys : list (event * env) :=
  [(EKeyDown 0x00 0 false, sends true false 0 0); (EKeyDown 0x0b 0 false, sends true true 0 0)].


(** A report that is lost is not sent again: the agent never learns of the press. *)
Example lost_report_not_repeated :
  (run (take 1 demo_keys) demo_view).2 = [OReport 3 [0; 0; 4; 0; 0; 0; 0; 0] false] /\
  reported (replicate kHidKeyboardReportSize 0) (run (take 1 demo_keys) demo_view).2 = replicate kHidKeyboardReportSize 0 /\
  is_pressed 4 (keyboardState (run (take 1 demo_keys) demo_view).1) = true.
Proof. vm_compute. auto. Qed.

(** The window loses the focus during a touch and while the right button is pressed: the
    view forgets both, and neither the end of the touch nor the release of the button is
    ever sent, also when the view leaves its window later. *)
Definition interrupted : list (event * env) :=
  [(EMouseDown, sends true true 10 20); (EButton RightMouseDown 3 1, sends true true 5 5); (EReset, sends true true 0 0);
   (EMouseUp, sends true true 12 20); (EButton RightMouseUp 0 1, sends true true 5 5); (ENoWindow, sends true true 0 0)].

Example reset_leaves_touch_open :
  (run interrupted demo_view).2 =
    [OTouch kGuestAgent kTouchBegin 3 10 20 true; OMouse kGuestAgent kMouseButton 3 5 5 3 true; OHoverExit] /\
  accept (touch_next true) None (run interrupted demo_view).2 = Some (Some (kGuestAgent, 3)) /\
  accept mouse_next kNone (run interrupted demo_view).2 = Some kGuestAgent.
Proof. vm_compute. auto. Qed.

End InputView.
