(* ===== verification/GuestRamdisk.v ===== *)
(** The initial ramdisk of the guest: [android-qemu2-glue/main.cpp] (the boot properties
    that MacMu adds, [appendFileToStream], [appendFileRangeToStream],
    [extractVendorBootRamdisk], [createMacMuGuestRamdisk], and the selection of the
    ramdisk) and [android/android-emu/android/bootconfig.cpp], which appends the boot
    properties to it. Files are byte lists by path; every call of stdio can fail
    ([in_env], [out_env]). *)
From S2P Require Import Prelude Text.

Module GuestRamdisk.

(** ** Files and stdio *)

Abbreviation files := (gmap bytes bytes).

Definition ENOENT : Z := 2.
Definition EIO : Z := 5.
Definition EINVAL : Z := 22.
Definition EFBIG : Z := 27.

(** [errno ? errno : otherwise]. *)
Definition errno_or (errno otherwise : Z) : Z := if errno =? 0 then otherwise else errno.

(** A stream that is read, and what is written from it: the [errno] of a failing
    [fopen], [fseek] and [fclose]; the calls of [fread] and [fwrite], by number, that
    stop after some bytes with an error. *)
Record in_env := {
  ie_open : option Z; ie_seek : option Z; ie_read : nat -> option (nat * Z);
  ie_write : nat -> option (nat * Z); ie_close : option Z }.

(** A file that is written: a failing [fopen], and an [fclose] that fails after some
    bytes are in the file. *)
Record out_env := { oe_open : option Z; oe_close : option (nat * Z) }.

Definition fopen_read (e : in_env) (f : files) (path : bytes) : Z + bytes :=
  match ie_open e with
  | Some err => inl (errno_or err ENOENT)
  | None => match f !! path with Some content => inr content | None => inl ENOENT end
  end.

(** The bytes that call [i] of [fread] returns, and the error of a short read. *)
Definition fread (e : in_env) (i n : nat) (rest : bytes) : bytes * option Z :=
  match ie_read e i with
  | Some (k, err) => if (k <? n)%nat then (take k rest, Some err) else (take n rest, None)
  | None => (take n rest, None)
  end.

(** [ferror] stays set. *)
Definition sticky (now before : option Z) : option Z := match now with Some err => Some err | None => before end.

(** What is in the stream after call [i] of [fwrite], and the error of a short write. *)
Definition fwrite (e : in_env) (i : nat) (chunk out : bytes) : bytes * option Z :=
  match ie_write e i with
  | Some (k, err) => if (k <? length chunk)%nat then (out ++ take k chunk, Some err) else (out ++ chunk, None)
  | None => (out ++ chunk, None)
  end.

(** [result] after [fclose(in)]. *)
Definition close_in (e : in_env) (result : Z) : Z :=
  match ie_close e with Some err => if result =? 0 then errno_or err EIO else result | None => result end.

(** [fopen(path, "wb")], a body that writes, [fclose]. *)
Definition with_out (e : out_env) (f : files) (path : bytes) (body : files -> Z * bytes) : Z * files :=
  match oe_open e with
  | Some err => (errno_or err EIO, f)
  | None =>
      let f := <[path := []]> f in
      let '(result, content) := body f in
      match oe_close e with
      | Some (k, err) => (if result =? 0 then errno_or err EIO else result, <[path := take k content]> f)
      | None => (result, <[path := content]> f)
      end
  end.

Definition kBufferSize : nat := Z.to_nat (64 * 1024).

(** ** Copying files *)

(** The loop of [appendFileToStream]; a chunk that is not full is the last one. *)
Fixpoint append_loop (fuel i : nat) (e : in_env) (rest out : bytes) : Z * bytes :=
  match fuel with
  | O => (EIO, out)
  | S fuel =>
      let '(chunk, ferror) := fread e i kBufferSize rest in
      let '(out, failed) := if (0 <? length chunk)%nat then fwrite e i chunk out else (out, None) in
      match failed with
      | Some err => (errno_or err EIO, out)
      | None =>
          if (length chunk <? kBufferSize)%nat then
            (match ferror with Some err => errno_or err EIO | None => 0 end, out)
          else append_loop fuel (S i) e (drop (length chunk) rest) out
      end
  end.

Definition appendFileToStream (e : in_env) (f : files) (out srcPath : bytes) : Z * bytes :=
  match fopen_read e f srcPath with
  | inl err => (err, out)
  | inr content =>
      let '(result, out) := append_loop (S (length content)) 0 e content out in
      (close_in e result, out)
  end.

(** The loop of [appendFileRangeToStream]. *)
Fixpoint range_loop (fuel i : nat) (e : in_env) (before : option Z) (rest : bytes) (remaining : Z) (out : bytes) : Z * bytes :=
  match fuel with
  | O => (EIO, out)
  | S fuel =>
      if remaining =? 0 then (0, out)
      else
        let toRead := Z.to_nat (Z.min remaining (Z.of_nat kBufferSize)) in
        let '(chunk, now) := fread e i toRead rest in
        let ferror := sticky now before in
        if (length chunk =? 0)%nat then
          (match ferror with Some err => errno_or err EIO | None => EIO end, out)
        else
          let '(out, failed) := fwrite e i chunk out in
          match failed with
          | Some err => (errno_or err EIO, out)
          | None =>
              range_loop fuel (S i) e ferror (drop (length chunk) rest) (remaining - Z.of_nat (length chunk)) out
          end
  end.

Definition LONG_MAX : Z := 2 ^ 63 - 1.

Definition appendFileRangeToStream (e : in_env) (f : files) (out srcPath : bytes) (offset count : Z) : Z * bytes :=
  if LONG_MAX <? offset then (EFBIG, out)
  else
    match fopen_read e f srcPath with
    | inl err => (err, out)
    | inr content =>
        let '(result, out) :=
          match ie_seek e with
          | Some err => (errno_or err EIO, out)
          | None =>
              let rest := drop (Z.to_nat offset) content in
              range_loop (S (length rest)) 0 e None rest count out
          end in
        (close_in e result, out)
    end.

(** ** The vendor_boot image *)

Definition kVendorBootMagicSize : nat := 8.
Definition kVendorBootV3HeaderSize : nat := Z.to_nat 2112.
Definition kVendorBootV4HeaderSize : nat := Z.to_nat 2128.
Definition kHeaderVersionOffset : nat := 8.
Definition kPageSizeOffset : nat := 12.
Definition kVendorRamdiskSizeOffset : nat := 24.
Definition kHeaderSizeOffset : nat := Z.to_nat 2096.

Definition readLe32 (header : bytes) (offset : nat) : Z := field offset 4 header.

(** On [uint64_t]. *)
Definition roundUpToMultiple (value multiple : Z) : option Z :=
  if multiple =? 0 then None
  else
    let remainder := value mod multiple in
    if remainder =? 0 then Some value
    else
      let delta := multiple - remainder in
      if (2 ^ 64 - 1) - delta <? value then None else Some (u64 (value + delta)).

(** The result of reading the header: its buffer and the number of bytes read. *)
Definition read_header (e : in_env) (f : files) (path : bytes) : Z + bytes * nat :=
  match fopen_read e f path with
  | inl err => inl err
  | inr content =>
      let '(data, ferror) := fread e 0 kVendorBootV4HeaderSize content in
      let result :=
        if (length data <? kVendorBootV3HeaderSize)%nat
        then match ferror with Some err => errno_or err EIO | None => EINVAL end else 0 in
      let result := close_in e result in
      if result =? 0 then inr (data ++ replicate (kVendorBootV4HeaderSize - length data) NUL, length data)
      else inl result
  end.

(** The offset and the size of the ramdisk, from the header. *)
Definition parse_vendor_header (header : bytes) (readBytes : nat) : option (Z * Z) :=
  if negb (bool_decide (take kVendorBootMagicSize header = bstr "VNDRBOOT")) then None else
  let headerVersion := readLe32 header kHeaderVersionOffset in
  let pageSize := readLe32 header kPageSizeOffset in
  let vendorRamdiskSize := readLe32 header kVendorRamdiskSizeOffset in
  let headerSize := readLe32 header kHeaderSizeOffset in
  let minimumHeaderSize := if 4 <=? headerVersion then kVendorBootV4HeaderSize else kVendorBootV3HeaderSize in
  if (headerVersion <? 3) || (readBytes <? minimumHeaderSize)%nat || (pageSize =? 0) || (vendorRamdiskSize =? 0) ||
     (headerSize <? Z.of_nat minimumHeaderSize) then None else
  match roundUpToMultiple headerSize pageSize with
  | None => None
  | Some vendorRamdiskOffset => Some (vendorRamdiskOffset, vendorRamdiskSize)
  end.

(** The reads and writes of [extractVendorBootRamdisk]; [ve_size]: [path_get_size]
    fails. *)
Record vendor_env := { ve_header : in_env; ve_size : option Z; ve_in : in_env; ve_out : out_env }.

Definition extractVendorBootRamdisk (e : vendor_env) (f : files) (vendorBootPath outPath : bytes) : Z * files :=
  match outPath with
  | [] => (EINVAL, f)
  | _ =>
      match read_header (ve_header e) f vendorBootPath with
      | inl result => (result, f)
      | inr (header, readBytes) =>
          match parse_vendor_header header readBytes with
          | None => (EINVAL, f)
          | Some (vendorRamdiskOffset, vendorRamdiskSize) =>
              match ve_size e with
              | Some err => (errno_or err EIO, f)
              | None =>
                  let vendorBootSize := Z.of_nat (length (default [] (f !! vendorBootPath))) in
                  if (vendorBootSize <? vendorRamdiskOffset) || (vendorBootSize - vendorRamdiskOffset <? vendorRamdiskSize)
                  then (EINVAL, f)
                  else
                    with_out (ve_out e) f outPath (fun f =>
                      appendFileRangeToStream (ve_in e) f [] vendorBootPath vendorRamdiskOffset vendorRamdiskSize)
              end
          end
      end
  end.

(** ** The ramdisk with an overlay *)

Record overlay_env := { ov_base : in_env; ov_overlay : in_env; ov_out : out_env }.

Definition createMacMuGuestRamdisk (e : overlay_env) (f : files) (basePath overlayPath outPath : bytes) : Z * files :=
  match outPath with
  | [] => (EINVAL, f)
  | _ =>
      match f !! overlayPath with
      | None => (ENOENT, f)
      | Some _ =>
          with_out (ov_out e) f outPath (fun f =>
            let '(result, out) := appendFileToStream (ov_base e) f [] basePath in
            if result =? 0 then appendFileToStream (ov_overlay e) f out overlayPath else (result, out))
      end
  end.

(** ** Boot properties *)

Definition getNonEmptyEnv (getenv : bytes -> option bytes) (name : string) : option bytes :=
  match getenv (bstr name) with Some [] | None => None | Some value => Some value end.

Definition appendMacMuGuestBootProperties (getenv : bytes -> option bytes) (props : list (bytes * bytes))
    : list (bytes * bytes) :=
  let env := getNonEmptyEnv getenv in
  let props :=
    match env "MACMU_GUEST_RPC_SOCKET" with
    | Some path => props ++ [(bstr "androidboot.macmu_rpc_socket", path)] | None => props end in
  let props :=
    match env "MACMU_GUEST_CTRL_SOCKET" with
    | Some path => props ++ [(bstr "androidboot.macmu_ctrl_socket", path)] | None => props end in
  match env "MACMU_GUEST_INIT_RC" with
  | Some initRc => props ++ [(bstr "androidboot.init_rc", initRc)]
  | None =>
      match env "MACMU_GUEST_AGENT_IMAGE" with
      | Some _ => props ++ [(bstr "androidboot.init_rc", bstr "/vendor/etc/sensors/init.rc")] | None => props end
  end.

(** ** [bootconfig.cpp] *)

Definition kBootconfigMagic : bytes := bstr "#BOOTCONFIG" ++ [NL].
Definition kBootconfigAlign : nat := 4.
Definition EQUALS : Init.Byte.byte := Byte.x3d.
Definition QUOTE : Init.Byte.byte := Byte.x22.

Definition host2le32 (v : Z) : bytes := put32 (u32 v).

Definition bootconfig_line (kv : bytes * bytes) : bytes := kv.1 ++ [EQUALS; QUOTE] ++ kv.2 ++ [QUOTE; NL].

Definition flattenBootconfig (bootconfig : list (bytes * bytes)) : bytes :=
  concat (bootconfig_line <$> bootconfig) ++ [NUL].

(** The sum in [uint32_t]. *)
Definition checksum (blob : bytes) : Z := fold_left (fun z c => u32 (z + byte.unsigned c)) blob 0.

Definition buildBootconfigBlob (srcSize : nat) (bootconfig : list (bytes * bytes)) : bytes :=
  let blob := flattenBootconfig bootconfig in
  let unaligned := ((srcSize + length blob) mod kBootconfigAlign)%nat in
  let blob := if (unaligned =? 0)%nat then blob else blob ++ replicate (kBootconfigAlign - unaligned) PLUS in
  blob ++ host2le32 (Z.of_nat (length blob)) ++ host2le32 (checksum blob) ++ kBootconfigMagic.

(** [copyFile]: the error and the size; [ferror] is 1. *)
Fixpoint copy_loop (fuel i : nat) (e : in_env) (before : option Z) (rest out : bytes) (sz : nat) : Z * nat * bytes :=
  match fuel with
  | O => (1, sz, out)
  | S fuel =>
      let '(chunk, now) := fread e i kBufferSize rest in
      let ferror := sticky now before in
      if (length chunk =? 0)%nat then (match ferror with Some _ => 1 | None => 0 end, sz, out)
      else
        let '(out, failed) := fwrite e i chunk out in
        match failed with
        | Some _ => (1, sz, out)
        | None => copy_loop fuel (S i) e ferror (drop (length chunk) rest) out (sz + length chunk)
        end
  end.

(** [be_blob]: the write of the blob stops early. *)
Record bootconfig_env := { be_in : in_env; be_blob : option nat; be_out : out_env }.

(** The streams are closed by destructors, which do not look at the result. *)
Definition createRamdiskWithBootconfig (e : bootconfig_env) (f : files) (srcRamdiskPath dstRamdiskPath : bytes)
    (bootconfig : list (bytes * bytes)) : Z * files :=
  match fopen_read (be_in e) f srcRamdiskPath with
  | inl _ => (1, f)
  | inr _ =>
      match oe_open (be_out e), dstRamdiskPath with
      | Some _, _ | None, [] => (1, f)
      | None, _ =>
          let f := <[dstRamdiskPath := []]> f in
          let source := default [] (f !! srcRamdiskPath) in
          let '(err, sz, out) := copy_loop (S (length source)) 0 (be_in e) None source [] 0 in
          let '(result, content) :=
            if negb (err =? 0) then (err, out)
            else
              let blob := buildBootconfigBlob sz bootconfig in
              match be_blob e with
              | Some k => if (k <? length blob)%nat then (1, out ++ take k blob) else (0, out ++ blob)
              | None => (0, out ++ blob)
              end in
          (result, <[dstRamdiskPath := match oe_close (be_out e) with Some (k, _) => take k content | None => content end]> f)
      end
  end.

(** ** The selection in [main] *)

(** [PathUtils::join] on POSIX. *)
Definition SLASH : Init.Byte.byte := Byte.x2f.
Definition isAbsolute (path : bytes) : bool := match path with b :: _ => bool_decide (b = SLASH) | [] => false end.

Definition join (path1 path2 : bytes) : bytes :=
  match path1, path2 with
  | [], _ => path2
  | _, [] => path1
  | _, _ =>
      if isAbsolute path2 then path2
      else
        let prefixLen := if isAbsolute path1 then 1%nat else 0%nat in
        if (prefixLen <? length path1)%nat && negb (bool_decide (last path1 = Some SLASH))
        then path1 ++ [SLASH] ++ path2 else path1 ++ path2
  end.

(** [PathUtils::split] on POSIX; the loop goes back to the last separator. *)
Fixpoint split_pos (path : bytes) (prefixLen pos : nat) : nat :=
  match pos with
  | O => O
  | S pos' =>
      if (prefixLen <? pos)%nat && negb (bool_decide (path !! pos' = Some SLASH)) then split_pos path prefixLen pos' else pos
  end.

Definition split (path : bytes) : option (bytes * bytes) :=
  if bool_decide (path = []) || bool_decide (last path = Some SLASH) then None
  else
    let prefixLen := if isAbsolute path then 1%nat else 0%nat in
    let pos := split_pos path prefixLen (length path) in
    if (prefixLen <? pos)%nat then Some (take pos path, drop pos path)
    else Some (if (prefixLen =? 0)%nat then bstr "." else take prefixLen path, drop prefixLen path).

Definition path_dirname (path : bytes) : option bytes := fst <$> split path.
Definition path_basename (path : bytes) : option bytes := snd <$> split path.

Definition getWriteableFilename (disk_dataPartition_path filename : bytes) : bytes :=
  match path_dirname disk_dataPartition_path with Some userdata_dir => join userdata_dir filename | None => [] end.

(** What the selection looks at: [disk_ramdisk_path], the vendor_boot path of the AVD, the
    data partition, beside which files are written, the environment, and whether boot properties are in the
    bootconfig; with the environments of the copies. *)
Record config := {
  disk_ramdisk_path : option bytes; vendorBootPath : option bytes; disk_dataPartition_path : bytes;
  getenv : bytes -> option bytes; androidbootProps : bool;
  c_vendor : vendor_env; c_vendor_overlay : overlay_env; c_macmu_overlay : overlay_env;
  c_bootconfig : bootconfig_env }.

Definition use_vendor_boot (c : config) (selected : bytes) (f : files) : (Z + bytes) * files :=
  match vendorBootPath c with
  | Some vendorBoot =>
      match f !! vendorBoot with
      | Some _ =>
          let vendorBootRamdisk := getWriteableFilename (disk_dataPartition_path c) (bstr "vendor-ramdisk") in
          let '(result, f) := extractVendorBootRamdisk (c_vendor c) f vendorBoot vendorBootRamdisk in
          if negb (result =? 0) then (inl result, f)
          else
            let vendorBootInitrd := getWriteableFilename (disk_dataPartition_path c) (bstr "vendor-initrd") in
            let '(result, f) := createMacMuGuestRamdisk (c_vendor_overlay c) f selected vendorBootRamdisk vendorBootInitrd in
            if negb (result =? 0) then (inl result, f) else (inr vendorBootInitrd, f)
      | None => (inr selected, f)
      end
  | None => (inr selected, f)
  end.

Definition use_overlay (c : config) (selected : bytes) (f : files) : (Z + bytes) * files :=
  match getNonEmptyEnv (getenv c) "MACMU_GUEST_RAMDISK_OVERLAY" with
  | Some overlay =>
      let initrd := getWriteableFilename (disk_dataPartition_path c) (bstr "macmu-initrd") in
      let '(result, f) := createMacMuGuestRamdisk (c_macmu_overlay c) f selected overlay initrd in
      if negb (result =? 0) then (inl result, f) else (inr initrd, f)
  | None => (inr selected, f)
  end.

Definition select_ramdisk (c : config) (f : files) : (Z + bytes) * files :=
  match disk_ramdisk_path c with
  | None => (inl 1, f)
  | Some ramdisk =>
      let base :=
        match getNonEmptyEnv (getenv c) "MACMU_GUEST_RAMDISK" with
        | Some path => match f !! path with Some _ => inr path | None => inl ENOENT end
        | None => inr ramdisk
        end in
      match base with
      | inl err => (inl err, f)
      | inr selected =>
          match use_vendor_boot c selected f with
          | (inl err, f) => (inl err, f)
          | (inr selected, f) => use_overlay c selected f
          end
      end
  end.

(** The path given to [-initrd], after the boot properties were added. *)
Definition prepare_initrd (c : config) (bootProperties : list (bytes * bytes)) (f : files) : (Z + bytes) * files :=
  match select_ramdisk c f with
  | (inl err, f) => (inl err, f)
  | (inr selected, f) =>
      if androidbootProps c then
        let initrd := getWriteableFilename (disk_dataPartition_path c) (bstr "initrd") in
        let props := appendMacMuGuestBootProperties (getenv c) bootProperties in
        let '(result, f) := createRamdiskWithBootconfig (c_bootconfig c) f selected initrd props in
        if negb (result =? 0) then (inl result, f) else (inr initrd, f)
      else (inr selected, f)
  end.

(** ** Copies are whole *)

Lemma errno_or_nonzero errno otherwise : otherwise <> 0 -> errno_or errno otherwise <> 0.
Proof. unfold errno_or. destruct (errno =? 0) eqn:E; bool_to_prop; auto. Qed.

Lemma kBufferSize_pos : (0 < kBufferSize)%nat.
Proof. unfold kBufferSize. lia. Qed.

Lemma fread_take e i n rest chunk err :
  fread e i n rest = (chunk, err) -> exists m, (m <= n)%nat /\ chunk = take m rest /\ (err = None -> m = n).
Proof.
  unfold fread. intros H.
  destruct (ie_read e i) as [[k e']|]; [destruct (k <? n)%nat eqn:Ek; [apply Nat.ltb_lt in Ek|]|]; simplify_eq;
    [exists k|exists n|exists n]; (split; [lia|]); done.
Qed.

(** What [fread] returns is the beginning of the rest, all that was asked for or all that
    is there when there is no error. *)
Lemma fread_prefix e i n rest chunk err :
  fread e i n rest = (chunk, err) ->
  rest = chunk ++ drop (length chunk) rest /\ (length chunk <= n)%nat /\
  (err = None -> length chunk = n \/ chunk = rest).
Proof.
  intros (m & Hm & -> & He)%fread_take. rewrite length_take. split; [|split; [lia|]].
  - destruct (Nat.le_gt_cases m (length rest)); [rewrite Nat.min_l by lia; by rewrite take_drop|].
    rewrite Nat.min_r, drop_all, app_nil_r by lia. by rewrite take_ge by lia.
  - intros H. rewrite (He H). destruct (Nat.le_gt_cases n (length rest)); [left; lia|right]. by rewrite take_ge by lia.
Qed.

Lemma fwrite_whole e i chunk out out' : fwrite e i chunk out = (out', None) -> out' = out ++ chunk.
Proof. unfold fwrite. repeat case_match; intros; simplify_eq; done. Qed.

Lemma append_loop_ok fuel i e rest out out' : append_loop fuel i e rest out = (0, out') -> out' = out ++ rest.
Proof.
  revert i rest out. induction fuel as [|fuel IH]; intros i rest out; [discriminate|]. cbn [append_loop].
  destruct (fread e i kBufferSize rest) as [chunk err] eqn:Er.
  destruct (fread_prefix _ _ _ _ _ _ Er) as (Hp & Hl & He).
  destruct (if (0 <? length chunk)%nat then fwrite e i chunk out else (out, None)) as [out1 failed] eqn:Ew.
  destruct failed as [x|]; [intros H; simplify_eq; by destruct (errno_or_nonzero x EIO)|].
  assert (out1 = out ++ chunk) as ->.
  { destruct chunk; [cbn in Ew; simplify_eq; by rewrite app_nil_r|].
    change (fwrite e i (b :: chunk) out = (out1, None)) in Ew. by eapply fwrite_whole. }
  destruct (length chunk <? kBufferSize)%nat eqn:El.
  - destruct err as [x|]; intros H; simplify_eq; [by destruct (errno_or_nonzero x EIO)|].
    destruct (He eq_refl) as [?| ->]; [apply Nat.ltb_lt in El; lia|done].
  - intros H. apply IH in H as ->. rewrite <- app_assoc. by rewrite <- Hp.
Qed.

(** No call fails. *)
Record in_good (e : in_env) : Prop := {
  ig_open : ie_open e = None; ig_seek : ie_seek e = None; ig_read : forall i, ie_read e i = None;
  ig_write : forall i, ie_write e i = None; ig_close : ie_close e = None }.

Lemma fread_good e i n rest : in_good e -> fread e i n rest = (take n rest, None).
Proof. intros He. unfold fread. by rewrite (ig_read e He). Qed.

Lemma fwrite_good e i chunk out : in_good e -> fwrite e i chunk out = (out ++ chunk, None).
Proof. intros He. unfold fwrite. by rewrite (ig_write e He). Qed.

(** The fuel is enough. *)
Lemma append_loop_good fuel i e rest out :
  in_good e -> (length rest < fuel)%nat -> append_loop fuel i e rest out = (0, out ++ rest).
Proof.
  intros He. revert i rest out. induction fuel as [|fuel IH]; intros i rest out Hf; [lia|]. cbn [append_loop].
  pose proof kBufferSize_pos as Hb. rewrite fread_good by done.
  assert ((if (0 <? length (take kBufferSize rest))%nat then fwrite e i (take kBufferSize rest) out else (out, None)) =
    (out ++ take kBufferSize rest, None)) as ->.
  { rewrite fwrite_good by done. destruct (take kBufferSize rest); [by rewrite app_nil_r|done]. }
  rewrite length_take. destruct (Nat.le_gt_cases kBufferSize (length rest)).
  - rewrite Nat.min_l by lia. rewrite Nat.ltb_irrefl. rewrite IH; [|rewrite length_drop; lia].
    by rewrite <- app_assoc, take_drop.
  - rewrite (proj2 (Nat.ltb_lt _ _)) by lia. by rewrite take_ge by lia.
Qed.

Lemma range_loop_ok fuel i e before rest remaining out out' :
  0 <= remaining -> range_loop fuel i e before rest remaining out = (0, out') ->
  remaining <= Z.of_nat (length rest) /\ out' = out ++ take (Z.to_nat remaining) rest.
Proof.
  revert i before rest remaining out. induction fuel as [|fuel IH]; intros i before rest remaining out Hr; [discriminate|].
  cbn [range_loop]. destruct (remaining =? 0) eqn:E0; bool_to_prop.
  { intros H. simplify_eq. rewrite take_0, app_nil_r. split; [lia|done]. }
  destruct (fread e i _ rest) as [chunk err] eqn:Er. destruct (fread_prefix _ _ _ _ _ _ Er) as (Hp & Hl & He).
  destruct (length chunk =? 0)%nat eqn:Ec.
  { destruct (sticky err before) as [x|]; intros H; simplify_eq. by destruct (errno_or_nonzero x EIO). }
  destruct (fwrite e i chunk out) as [out1 failed] eqn:Ew.
  destruct failed as [x|]; [intros H; simplify_eq; by destruct (errno_or_nonzero x EIO)|].
  apply fwrite_whole in Ew as ->. intros H. apply IH in H as [H1 ->]; [|lia].
  rewrite length_drop in H1. assert (length chunk <= length rest)%nat by (rewrite Hp, length_app; lia).
  split; [lia|]. rewrite <- app_assoc. f_equal. rewrite Hp at 2.
  replace (Z.to_nat remaining) with (length chunk + Z.to_nat (remaining - Z.of_nat (length chunk)))%nat by lia.
  by rewrite take_app_add.
Qed.

Lemma range_loop_good fuel i e before rest remaining out :
  in_good e -> 0 <= remaining <= Z.of_nat (length rest) -> (length rest < fuel)%nat ->
  range_loop fuel i e before rest remaining out = (0, out ++ take (Z.to_nat remaining) rest).
Proof.
  intros He. revert i before rest remaining out. induction fuel as [|fuel IH]; intros i before rest remaining out Hr Hf; [lia|].
  pose proof kBufferSize_pos as Hb. cbn [range_loop]. destruct (remaining =? 0) eqn:E0; bool_to_prop.
  { subst. by rewrite take_0, app_nil_r. }
  rewrite fread_good, fwrite_good by done.
  set (n := Z.to_nat (Z.min remaining (Z.of_nat kBufferSize))).
  rewrite length_take, Nat.min_l by lia. destruct (n =? 0)%nat eqn:En; [apply Nat.eqb_eq in En; lia|].
  rewrite IH; [|rewrite length_drop; lia..]. rewrite <- app_assoc. do 2 f_equal.
  replace (Z.to_nat remaining) with (n + Z.to_nat (remaining - Z.of_nat n))%nat by lia.
  apply take_take_drop.
Qed.

Lemma copy_loop_ok fuel i e before rest out sz sz' out' :
  copy_loop fuel i e before rest out sz = (0, sz', out') -> sz' = (sz + length rest)%nat /\ out' = out ++ rest.
Proof.
  revert i before rest out sz. induction fuel as [|fuel IH]; intros i before rest out sz; [discriminate|]. cbn [copy_loop].
  destruct (fread e i kBufferSize rest) as [chunk err] eqn:Er.
  destruct (fread_prefix _ _ _ _ _ _ Er) as (Hp & Hl & He). pose proof kBufferSize_pos as Hb.
  destruct (length chunk =? 0)%nat eqn:Ec.
  - apply Nat.eqb_eq in Ec. destruct err; [done|]. cbn [sticky]. destruct before; intros H; simplify_eq.
    destruct (He eq_refl) as [?| ->]; [lia|]. apply nil_length_inv in Ec as ->. rewrite app_nil_r. split; [cbn; lia|done].
  - destruct (fwrite e i chunk out) as [out1 failed] eqn:Ew. destruct failed; [done|].
    apply fwrite_whole in Ew as ->. intros H. apply IH in H as [-> ->]. rewrite <- app_assoc, <- Hp.
    assert (length chunk <= length rest)%nat by (rewrite Hp, length_app; lia). rewrite length_drop. split; [lia|done].
Qed.

Lemma copy_loop_good fuel i e rest out sz :
  in_good e -> (length rest < fuel)%nat -> copy_loop fuel i e None rest out sz = (0, (sz + length rest)%nat, out ++ rest).
Proof.
  intros He. revert i rest out sz. induction fuel as [|fuel IH]; intros i rest out sz Hf; [lia|]. cbn [copy_loop].
  pose proof kBufferSize_pos as Hb. rewrite fread_good by done. rewrite length_take.
  destruct rest as [|b rest]; [cbn [length]; rewrite Nat.min_0_r, app_nil_r, Nat.add_0_r; done|].
  destruct (kBufferSize `min` length (b :: rest) =? 0)%nat eqn:Ec; [apply Nat.eqb_eq in Ec; cbn in Ec; lia|].
  rewrite fwrite_good by done. set (n := (kBufferSize `min` length (b :: rest))%nat) in *.
  assert (take kBufferSize (b :: rest) = take n (b :: rest)) as ->.
  { unfold n. destruct (Nat.le_gt_cases kBufferSize (length (b :: rest))); [by rewrite Nat.min_l|].
    rewrite Nat.min_r by lia. by rewrite !take_ge by lia. }
  assert (n <= length (b :: rest))%nat as Hn by (unfold n; lia). apply Nat.eqb_neq in Ec.
  rewrite IH by (rewrite length_drop; lia). rewrite length_drop, <- app_assoc, take_drop. do 2 f_equal. lia.
Qed.

Lemma close_in_ok e result : close_in e result = 0 -> result = 0.
Proof.
  unfold close_in. destruct (ie_close e) as [err|]; [|done]. destruct (result =? 0) eqn:E; bool_to_prop; [done|].
  done.
Qed.

Lemma fopen_read_ok e f path content : fopen_read e f path = inr content -> f !! path = Some content.
Proof. unfold fopen_read. repeat case_match; intros; by simplify_eq. Qed.

Lemma fopen_read_good e f path content : in_good e -> f !! path = Some content -> fopen_read e f path = inr content.
Proof. intros He H. unfold fopen_read. by rewrite (ig_open e He), H. Qed.

Lemma close_in_good e result : in_good e -> close_in e result = result.
Proof. intros He. unfold close_in. by rewrite (ig_close e He). Qed.

Lemma appendFileToStream_ok e f out src out' :
  appendFileToStream e f out src = (0, out') -> exists content, f !! src = Some content /\ out' = out ++ content.
Proof.
  unfold appendFileToStream. destruct (fopen_read e f src) as [err|content] eqn:Eo.
  - intros H. simplify_eq. unfold fopen_read in Eo. repeat case_match; simplify_eq. by destruct (errno_or_nonzero z ENOENT).
  - apply fopen_read_ok in Eo. destruct (append_loop _ _ _ _ _) as [r o] eqn:El. intros H. simplify_eq.
    assert (r = 0) as -> by (by eapply close_in_ok). apply append_loop_ok in El as ->. by exists content.
Qed.

Lemma appendFileToStream_good e f out src content :
  in_good e -> f !! src = Some content -> appendFileToStream e f out src = (0, out ++ content).
Proof.
  intros He Hs. unfold appendFileToStream. rewrite (fopen_read_good _ _ _ _ He Hs), append_loop_good by (done || lia).
  by rewrite close_in_good.
Qed.

Definition out_good (e : out_env) : Prop := oe_open e = None /\ oe_close e = None.

(** A file that was written without an error has all that the body wrote. *)
Lemma with_out_ok e f path body f' :
  with_out e f path body = (0, f') -> exists content, body (<[path := []]> f) = (0, content) /\ f' = <[path := content]> f.
Proof.
  unfold with_out. destruct (oe_open e) as [err|]; [intros H; simplify_eq; by destruct (errno_or_nonzero err EIO)|].
  destruct (body (<[path := []]> f)) as [r content]. destruct (oe_close e) as [[k err]|].
  - destruct (r =? 0) eqn:Er; bool_to_prop; intros H; simplify_eq. by destruct (errno_or_nonzero err EIO).
  - intros H. simplify_eq. exists content. split; [done|]. by rewrite insert_insert_eq.
Qed.

Lemma with_out_good e f path body r content :
  out_good e -> body (<[path := []]> f) = (r, content) -> with_out e f path body = (r, <[path := content]> f).
Proof. intros [Ho Hc] Hb. unfold with_out. rewrite Ho, Hb, Hc. by rewrite insert_insert_eq. Qed.

(** ** The vendor_boot image *)

(** [ramdisk] is the ramdisk of an image: it starts at the first page after the header and
    lies in the file. *)
Record vendor_image (image ramdisk : bytes) : Prop := {
  vi_magic : take 8 image = bstr "VNDRBOOT";
  vi_version : 3 <= field 8 4 image;
  vi_header : (if 4 <=? field 8 4 image then 2128 else 2112) <= Z.min (Z.of_nat (length image)) (field (Z.to_nat 2096) 4 image);
  vi_place : exists pages,
    let page := field 12 4 image in
    let offset := pages * page in
    0 < page /\ field (Z.to_nat 2096) 4 image <= offset < field (Z.to_nat 2096) 4 image + page /\
    0 < field 24 4 image /\ offset + field 24 4 image <= Z.of_nat (length image) /\
    ramdisk = take (Z.to_nat (field 24 4 image)) (drop (Z.to_nat offset) image) }.

Lemma roundUp_spec value multiple :
  0 <= value < 2 ^ 32 -> 0 < multiple < 2 ^ 32 ->
  exists k, roundUpToMultiple value multiple = Some (k * multiple) /\ value <= k * multiple < value + multiple.
Proof.
  intros Hv Hm. unfold roundUpToMultiple. rewrite (proj2 (Z.eqb_neq multiple 0)) by lia.
  pose proof (Z.div_mod value multiple ltac:(lia)) as Hd. pose proof (Z.mod_pos_bound value multiple ltac:(lia)) as Hb.
  destruct (value mod multiple =? 0) eqn:E; bool_to_prop.
  - exists (value / multiple). split; [f_equal; nia|nia].
  - rewrite (proj2 (Z.ltb_ge _ _)) by lia. exists (value / multiple + 1).
    rewrite u64_id by (unfold is_u64; lia). split; [f_equal; nia|nia].
Qed.

(** A multiple between a number and the number a step further is unique. *)
Lemma multiple_unique k1 k2 m v : 0 < m -> v <= k1 * m < v + m -> v <= k2 * m < v + m -> k1 * m = k2 * m.
Proof. intros Hm H1 H2. assert (k1 = k2) by nia. by subst. Qed.

(** An image has one ramdisk. *)
Lemma vendor_image_unique image r1 r2 : vendor_image image r1 -> vendor_image image r2 -> r1 = r2.
Proof.
  intros [_ _ _ (k1 & P1 & B1 & _ & _ & ->)] [_ _ _ (k2 & _ & B2 & _ & _ & ->)].
  by rewrite (multiple_unique k1 k2 (field 12 4 image) (field (Z.to_nat 2096) 4 image) P1 B1 B2).
Qed.

Lemma prefix_field image m pad off :
  (off + 4 <= length (take m image))%nat -> field off 4 (take m image ++ pad) = field off 4 image.
Proof.
  intros H. rewrite <- (field_take (length (take m image))) by done. rewrite take_app_length.
  rewrite length_take in H. apply field_take. lia.
Qed.

(** The smallest header. *)
Definition minimum_header (image : bytes) : Z := if 4 <=? field 8 4 image then 2128 else 2112.

(** The header of an image as [parse_vendor_header] reads it. *)
Lemma parse_vendor_header_iff image m offset size :
  let data := take m image in
  (kVendorBootV3HeaderSize <= length data)%nat ->
  let header := data ++ replicate (kVendorBootV4HeaderSize - length data) NUL in
  parse_vendor_header header (length data) = Some (offset, size) <->
  take 8 image = bstr "VNDRBOOT" /\ 3 <= field 8 4 image /\
  minimum_header image <= Z.of_nat (length data) /\ minimum_header image <= field (Z.to_nat 2096) 4 image /\
  0 < size /\ size = field 24 4 image /\ 0 < field 12 4 image /\
  exists pages, offset = pages * field 12 4 image /\
    field (Z.to_nat 2096) 4 image <= offset < field (Z.to_nat 2096) 4 image + field 12 4 image.
Proof.
  intros data Hd header. unfold parse_vendor_header, readLe32, header, data.
  fold data. assert (forall off, (off + 4 <= kVendorBootV3HeaderSize)%nat ->
    field off 4 (data ++ replicate (kVendorBootV4HeaderSize - length data) NUL) = field off 4 image) as Hf
    by (intros off Ho; apply prefix_field; fold data; lia).
  rewrite !Hf by (unfold kVendorBootV3HeaderSize, kHeaderVersionOffset, kPageSizeOffset, kVendorRamdiskSizeOffset,
    kHeaderSizeOffset; lia).
  assert (take kVendorBootMagicSize (data ++ replicate (kVendorBootV4HeaderSize - length data) NUL) = take 8 image) as ->.
  { unfold data, kVendorBootMagicSize, kVendorBootV3HeaderSize in *. rewrite take_app_le by lia. rewrite take_take. f_equal. rewrite length_take in Hd. lia. }
  unfold kHeaderVersionOffset, kPageSizeOffset, kVendorRamdiskSizeOffset, kHeaderSizeOffset.
  assert ((if 4 <=? field 8 4 image then kVendorBootV4HeaderSize else kVendorBootV3HeaderSize) =
    Z.to_nat (minimum_header image)) as -> by (unfold minimum_header; by destruct (4 <=? field 8 4 image)).
  assert (0 <= minimum_header image) as Hmin by (unfold minimum_header; destruct (4 <=? _); lia).
  pose proof (field_range 12 4 image) as R1. pose proof (field_range 24 4 image) as R2.
  pose proof (field_range (Z.to_nat 2096) 4 image) as R3. change (2 ^ (8 * Z.of_nat 4)) with (2 ^ 32) in *.
  destruct (bool_decide (take 8 image = bstr "VNDRBOOT")) eqn:Em; cbn [negb].
  2:{ apply bool_decide_eq_false in Em. split; [done|]. by intros [? _]. }
  apply bool_decide_eq_true in Em. destruct (_ || _) eqn:Eg.
  { split; [done|]. intros (_ & Hv & Hl & Hh & Hs & -> & Hp & _). exfalso.
    repeat (apply orb_true_iff in Eg as [Eg|Eg]); bool_to_prop; try lia. apply Nat.ltb_lt in Eg. lia. }
  repeat (apply orb_false_iff in Eg as [Eg ?]). bool_to_prop. rewrite Nat.ltb_ge in *.
  destruct (roundUp_spec (field (Z.to_nat 2096) 4 image) (field 12 4 image)) as (k & Hk & Hb); [lia..|].
  rewrite Hk. split.
  - intros Hs. injection Hs as <- <-. repeat split; try done; try lia. exists k. lia.
  - intros (_ & _ & _ & _ & _ & -> & _ & pages & -> & Hb'). do 2 f_equal. 
    apply (multiple_unique k pages _ (field (Z.to_nat 2096) 4 image)); lia.
Qed.

(** [fread] of the header, when it succeeds. *)
Lemma read_header_ok e f path image header n :
  f !! path = Some image -> read_header e f path = inr (header, n) ->
  exists m, n = length (take m image) /\ (m <= kVendorBootV4HeaderSize)%nat /\
    (kVendorBootV3HeaderSize <= n)%nat /\
    header = take m image ++ replicate (kVendorBootV4HeaderSize - n) NUL.
Proof.
  intros Hf. unfold read_header. destruct (fopen_read e f path) as [|content] eqn:Eo; [done|].
  apply fopen_read_ok in Eo. simplify_eq. destruct (fread e 0 _ image) as [data err] eqn:Er.
  assert (exists m, (m <= kVendorBootV4HeaderSize)%nat /\ data = take m image) as (m & Hm & ->).
  { destruct (fread_take _ _ _ _ _ _ Er) as (m & ? & ? & _). by exists m. }
  destruct (close_in e _ =? 0) eqn:Ec; [|done]. bool_to_prop. apply close_in_ok in Ec.
  intros H. simplify_eq. exists m. split; [done|]. split; [done|].
  destruct (length (take m image) <? kVendorBootV3HeaderSize)%nat eqn:El; [|apply Nat.ltb_ge in El; done].
  destruct err as [x|]; [by destruct (errno_or_nonzero x EIO)|done].
Qed.

Lemma range_ok e f out src offset count out' :
  0 <= offset -> 0 <= count -> appendFileRangeToStream e f out src offset count = (0, out') ->
  exists content, f !! src = Some content /\
    count <= Z.of_nat (length (drop (Z.to_nat offset) content)) /\
    out' = out ++ take (Z.to_nat count) (drop (Z.to_nat offset) content).
Proof.
  intros Ho Hc. unfold appendFileRangeToStream. destruct (LONG_MAX <? offset); [done|].
  destruct (fopen_read e f src) as [err|content] eqn:Eo.
  - intros H. simplify_eq. unfold fopen_read in Eo. repeat case_match; simplify_eq. by destruct (errno_or_nonzero z ENOENT).
  - apply fopen_read_ok in Eo. destruct (ie_seek e) as [x|].
    + intros H. simplify_eq. apply close_in_ok in H. by destruct (errno_or_nonzero x EIO).
    + destruct (range_loop _ _ _ _ _ _) as [r o] eqn:El. intros H. simplify_eq.
      assert (r = 0) as -> by (by eapply close_in_ok). apply range_loop_ok in El as [H1 ->]; [|done]. by exists content.
Qed.

Definition vendor_good (e : vendor_env) : Prop :=
  in_good (ve_header e) /\ ve_size e = None /\ in_good (ve_in e) /\ out_good (ve_out e).

Lemma extract_ok e f path out image f' :
  f !! path = Some image -> path <> out -> extractVendorBootRamdisk e f path out = (0, f') ->
  exists ramdisk, vendor_image image ramdisk /\ f' = <[out := ramdisk]> f.
Proof.
  intros Hf Hne. unfold extractVendorBootRamdisk. destruct out as [|b out]; [done|].
  destruct (read_header _ f path) as [r|[header n]] eqn:Eh.
  { intros H. simplify_eq. unfold read_header in Eh. repeat case_match; simplify_eq; bool_to_prop; try done.
    unfold fopen_read in *. repeat case_match; simplify_eq. by destruct (errno_or_nonzero z ENOENT). }
  destruct (read_header_ok _ _ _ _ _ _ Hf Eh) as (m & -> & Hm & Hl & ->).
  destruct (parse_vendor_header _ _) as [[offset size]|] eqn:Ep; [|done].
  apply (parse_vendor_header_iff image m offset size Hl) in Ep
    as (H1 & H2 & H3 & H4 & H5 & H6 & H7 & pages & -> & H8).
  destruct (ve_size e) as [x|]; [intros H; simplify_eq; by destruct (errno_or_nonzero x EIO)|].
  rewrite Hf. cbn [default id]. destruct (_ || _) eqn:Eb; [done|]. apply orb_false_iff in Eb as [B1 B2]. bool_to_prop.
  intros H. apply with_out_ok in H as (content & Hb & ->).
  pose proof (field_range (Z.to_nat 2096) 4 image). apply range_ok in Hb as (image' & Hi & _ & ->); [|nia|lia].
  rewrite lookup_insert_ne in Hi by done. simplify_eq. eexists. split; [|reflexivity].
  split; [done|done| |]; [unfold minimum_header in *; rewrite length_take in H3; destruct (4 <=? _); lia|].
  exists pages. cbn zeta. repeat split; try done; lia.
Qed.

Lemma extract_good e f path out image :
  f !! path = Some image -> path <> out -> out <> [] -> Z.of_nat (length image) < 2 ^ 63 -> vendor_good e ->
  (forall ramdisk, vendor_image image ramdisk -> extractVendorBootRamdisk e f path out = (0, <[out := ramdisk]> f)) /\
  ((forall ramdisk, ~ vendor_image image ramdisk) -> extractVendorBootRamdisk e f path out = (EINVAL, f)).
Proof.
  intros Hf Hne Hout Hsize (Gh & Gs & Gi & Go). unfold extractVendorBootRamdisk. destruct out as [|b out]; [done|].
  unfold read_header. rewrite (fopen_read_good _ _ _ _ Gh Hf), fread_good by done. rewrite !close_in_good by done.
  destruct (length (take kVendorBootV4HeaderSize image) <? kVendorBootV3HeaderSize)%nat eqn:El.
  { cbn. split; [|done]. intros r [V1 V2 V3 _]. exfalso. apply Nat.ltb_lt in El. rewrite length_take in El.
    unfold kVendorBootV3HeaderSize, kVendorBootV4HeaderSize in El. destruct (4 <=? _); lia. }
  apply Nat.ltb_ge in El. cbn [Z.eqb]. rewrite Gs.
  pose proof (fun o s => parse_vendor_header_iff image kVendorBootV4HeaderSize o s El) as Hiff. cbn zeta in Hiff.
  pose proof (field_range (Z.to_nat 2096) 4 image) as R. pose proof (field_range 24 4 image) as R2.
  assert (length (take kVendorBootV4HeaderSize image) = (Z.to_nat 2128 `min` length image)%nat) as Hlt by apply length_take.
  assert (forall ramdisk, vendor_image image ramdisk -> exists pages, let offset := pages * field 12 4 image in
    parse_vendor_header (take kVendorBootV4HeaderSize image ++
      replicate (kVendorBootV4HeaderSize - length (take kVendorBootV4HeaderSize image)) NUL)
      (length (take kVendorBootV4HeaderSize image)) = Some (offset, field 24 4 image) /\
    0 <= offset /\ offset + field 24 4 image <= Z.of_nat (length image) /\
    ramdisk = take (Z.to_nat (field 24 4 image)) (drop (Z.to_nat offset) image)) as Hv.
  { intros r [V1 V2 V3 (pages & V4 & V5 & V6 & V7 & V8)]. exists pages. cbn zeta in *. split; [|repeat split; try done; lia].
    apply Hiff. unfold minimum_header. rewrite Hlt. repeat split; try done; try lia.
    - destruct (4 <=? _); lia.
    - exists pages. split; [done|lia]. }
  split.
  - intros r Hr. destruct (Hv r Hr) as (pages & Hp & Ho & Hb & ->). rewrite Hp, Hf. cbn [default id].
    rewrite (proj2 (orb_false_iff _ _)) by (split; apply Z.ltb_ge; lia).
    apply with_out_good; [done|]. unfold appendFileRangeToStream.
    rewrite (proj2 (Z.ltb_ge _ _)) by (unfold LONG_MAX; lia).
    rewrite (fopen_read_good _ _ _ image) by (try done; by rewrite lookup_insert_ne).
    rewrite (ig_seek _ Gi), range_loop_good; [by rewrite close_in_good|done| |lia]. rewrite length_drop. lia.
  - intros Hno. destruct (parse_vendor_header _ _) as [[offset size]|] eqn:Ep; [|done]. rewrite Hf. cbn [default id].
    destruct (_ || _) eqn:Eb; [done|]. apply orb_false_iff in Eb as [B1 B2]. bool_to_prop. exfalso.
    destruct (proj1 (Hiff offset size) eq_refl) as (H1 & H2 & H3 & H4 & H5 & H6 & H7 & pages & -> & H8).
    eapply Hno. split; [done|done| |].
    + unfold minimum_header in *. rewrite Hlt in H3. destruct (4 <=? _); lia.
    + exists pages. cbn zeta. split; [done|]. split; [done|]. split; [lia|]. split; [lia|reflexivity].
Qed.

(** ** The overlay *)

Lemma overlay_ok e f base overlay out f' :
  base <> out -> overlay <> out -> createMacMuGuestRamdisk e f base overlay out = (0, f') ->
  exists b o, f !! base = Some b /\ f !! overlay = Some o /\ f' = <[out := b ++ o]> f.
Proof.
  intros Hb Ho. unfold createMacMuGuestRamdisk. destruct out as [|x out]; [done|].
  destruct (f !! overlay) as [o0|] eqn:Eo; [|done]. intros H. apply with_out_ok in H as (content & H & ->).
  destruct (appendFileToStream (ov_base e) _ [] base) as [r out1] eqn:E1.
  destruct (r =? 0) eqn:Er; bool_to_prop; [|by simplify_eq]. subst r.
  apply appendFileToStream_ok in E1 as (b & Hb' & ->). apply appendFileToStream_ok in H as (o & Ho' & ->).
  rewrite lookup_insert_ne in Hb', Ho' by done. simplify_eq. by eexists b, _.
Qed.

Definition overlay_env_good (e : overlay_env) : Prop := in_good (ov_base e) /\ in_good (ov_overlay e) /\ out_good (ov_out e).

Lemma overlay_good e f base overlay out b o :
  base <> out -> overlay <> out -> out <> [] -> f !! base = Some b -> f !! overlay = Some o ->
  in_good (ov_base e) -> in_good (ov_overlay e) -> out_good (ov_out e) ->
  createMacMuGuestRamdisk e f base overlay out = (0, <[out := b ++ o]> f).
Proof.
  intros Hb Ho Hout Fb Fo G1 G2 G3. unfold createMacMuGuestRamdisk. destruct out as [|x out]; [done|]. rewrite Fo.
  apply with_out_good; [done|]. rewrite (appendFileToStream_good _ _ _ _ b) by (try done; by rewrite lookup_insert_ne).
  cbn [Z.eqb app]. apply appendFileToStream_good; [done|by rewrite lookup_insert_ne].
Qed.

(** ** Reading the bootconfig back *)

(** The layout that the header of [bootconfig.h] gives: the ramdisk, the text, padding,
    size, checksum, and the magic at the end. *)
Fixpoint parse_lines (fuel : nat) (text : bytes) : option (list (bytes * bytes)) :=
  match fuel, text with
  | S fuel, b :: _ =>
      if bool_decide (b = NUL) then Some []
      else
        '(key, rest) ← split_at EQUALS text;
        match rest with
        | q :: rest =>
            if bool_decide (q = QUOTE) then
              ('(value, rest) ← split_at QUOTE rest;
              match rest with
              | n :: rest => if bool_decide (n = NL) then (kvs ← parse_lines fuel rest; Some ((key, value) :: kvs)) else None
              | [] => None
              end)
            else None
        | [] => None
        end
  | _, _ => None
  end.

Definition kTrailerSize : nat := 20.

Definition read_bootconfig (image : bytes) : option (bytes * list (bytes * bytes)) :=
  let body := take (length image - kTrailerSize) image in
  let trailer := drop (length image - kTrailerSize) image in
  let size := Z.to_nat (field 0 4 trailer) in
  let text := drop (length body - size) body in
  if bool_decide (drop 8 trailer = kBootconfigMagic) && (size <=? length body)%nat &&
     (field 4 4 trailer =? checksum text) then
    (kvs ← parse_lines (S (length text)) text; Some (take (length body - size) body, kvs))
  else None.

(** A property that can be written between quotes. *)
Definition property_ok (kv : bytes * bytes) : Prop := (EQUALS ∉ kv.1) /\ head kv.1 <> Some NUL /\ (QUOTE ∉ kv.2).

Lemma length_bootconfig_line kv : length (bootconfig_line kv) = (length kv.1 + length kv.2 + 4)%nat.
Proof. unfold bootconfig_line. rewrite !length_app. cbn. lia. Qed.

Lemma parse_flatten props rest fuel :
  Forall property_ok props -> (length props < fuel)%nat ->
  parse_lines fuel (concat (bootconfig_line <$> props) ++ NUL :: rest) = Some props.
Proof.
  intros Hp. revert fuel. induction Hp as [|[k v] props (H1 & H2 & H3) _ IH]; intros fuel Hf.
  - destruct fuel; [lia|]. done.
  - destruct fuel as [|fuel]; [cbn in Hf; lia|]. cbn [fmap list_fmap concat]. unfold bootconfig_line at 1. cbn [fst snd] in *.
    rewrite <- !app_assoc. cbn [app].
    assert (exists b l, k ++ EQUALS :: QUOTE :: v ++ QUOTE :: NL :: concat (bootconfig_line <$> props) ++ NUL :: rest = b :: l /\ b <> NUL)
      as (b & l & Hbl & Hb).
    { destruct k as [|b k]; [by eexists _, _|]. eexists _, _. split; [reflexivity|]. intros ->. by apply H2. }
    cbn [parse_lines]. rewrite Hbl. rewrite bool_decide_eq_false_2 by done. rewrite <- Hbl.
    rewrite (split_at_app EQUALS k) by done. cbn [mbind option_bind]. rewrite bool_decide_eq_true_2 by done.
    rewrite (split_at_app QUOTE v) by done. cbn [mbind option_bind]. rewrite bool_decide_eq_true_2 by done.
    rewrite IH by (cbn in Hf; lia). done.
Qed.

Lemma checksum_range blob : is_u32 (checksum blob).
Proof.
  unfold checksum. assert (is_u32 0) as H0 by (unfold is_u32; lia). revert H0. generalize 0.
  induction blob as [|b blob IH]; intros z Hz; [done|]. cbn. apply IH, u32_range.
Qed.

(** The blob without its trailer. *)
Definition padded (srcSize : nat) (props : list (bytes * bytes)) : bytes :=
  let blob := flattenBootconfig props in
  let unaligned := ((srcSize + length blob) mod kBootconfigAlign)%nat in
  if (unaligned =? 0)%nat then blob else blob ++ replicate (kBootconfigAlign - unaligned) PLUS.

Lemma build_padded srcSize props :
  buildBootconfigBlob srcSize props =
  padded srcSize props ++ host2le32 (Z.of_nat (length (padded srcSize props))) ++ host2le32 (checksum (padded srcSize props)) ++
  kBootconfigMagic.
Proof. done. Qed.

Lemma padded_flatten srcSize props :
  exists pad, padded srcSize props = concat (bootconfig_line <$> props) ++ NUL :: pad /\
    ((srcSize + length (padded srcSize props)) mod 4 = 0)%nat.
Proof.
  unfold padded. set (n := (srcSize + length (flattenBootconfig props))%nat).
  assert (n mod kBootconfigAlign < 4)%nat as Hn by (apply Nat.mod_upper_bound; done).
  destruct (n mod kBootconfigAlign =? 0)%nat eqn:E.
  - exists []. split; [done|]. by apply Nat.eqb_eq in E.
  - exists (replicate (kBootconfigAlign - n mod kBootconfigAlign) PLUS). unfold flattenBootconfig. rewrite <- app_assoc.
    split; [done|]. unfold kBootconfigAlign in *.
    assert (forall k, srcSize + length (concat (bootconfig_line <$> props) ++ [NUL] ++ replicate k PLUS) = n + k)%nat as ->.
    { intros k. unfold n, flattenBootconfig. rewrite !length_app, length_replicate. lia. }
    pose proof (Nat.div_mod_eq n 4).
    replace (n + (4 - n mod 4))%nat with ((n / 4 + 1) * 4)%nat by lia. apply Nat.Div0.mod_mul.
Qed.

Lemma length_props_lines (props : list (bytes * bytes)) : (length props <= length (concat (bootconfig_line <$> props)))%nat.
Proof. induction props as [|kv props IH]; [done|]. cbn. rewrite length_app, length_bootconfig_line. lia. Qed.

Lemma bootconfig_roundtrip src props :
  Forall property_ok props -> Z.of_nat (length (padded (length src) props)) < 2 ^ 32 ->
  read_bootconfig (src ++ buildBootconfigBlob (length src) props) = Some (src, props) /\
  ((length (src ++ buildBootconfigBlob (length src) props) - kTrailerSize) mod 4 = 0)%nat.
Proof.
  intros Hp Hlen. rewrite build_padded. destruct (padded_flatten (length src) props) as (pad & Hpad & Halign).
  set (text := padded (length src) props) in *.
  set (trailer := host2le32 (Z.of_nat (length text)) ++ host2le32 (checksum text) ++ kBootconfigMagic).
  assert (length trailer = kTrailerSize) as Ht.
  { unfold trailer, host2le32. by rewrite !length_app, !length_put32. }
  unfold read_bootconfig. rewrite app_assoc, length_app, Ht. rewrite Nat.add_sub.
  rewrite take_app_length, drop_app_length. split; [|by rewrite length_app].
  assert (field 0 4 trailer = Z.of_nat (length text)) as F1.
  { unfold trailer, host2le32. rewrite field_put32. rewrite !u32_id; unfold is_u32; try apply u32_range; lia. }
  assert (field 4 4 trailer = checksum text) as F2.
  { unfold trailer, host2le32. rewrite (field_skip 4 4 (put32 _)) by (rewrite length_put32; lia). rewrite length_put32. cbn [Nat.sub].
    rewrite field_put32, (u32_id (u32 _)) by apply u32_range. apply u32_id, checksum_range. }
  assert (drop 8 trailer = kBootconfigMagic) as F3.
  { unfold trailer, host2le32. rewrite app_assoc. apply drop_app_length'. by rewrite length_app, !length_put32. }
  rewrite F1, F2, F3, Nat2Z.id, length_app.
  replace (length src + length text - length text)%nat with (length src) by lia.
  rewrite drop_app_length, take_app_length, Z.eqb_refl, bool_decide_eq_true_2 by done.
  rewrite (proj2 (Nat.leb_le _ _)) by lia. cbn [andb]. rewrite Hpad at 2. rewrite parse_flatten; [done|done|].
  rewrite Hpad, length_app. cbn. pose proof (length_props_lines props). lia.
Qed.

(** ** The whole selection *)

(** The names of the files that are written. *)
Definition written_names : list bytes :=
  [bstr "vendor-ramdisk"; bstr "vendor-initrd"; bstr "macmu-initrd"; bstr "initrd"].

Ltac name_in := unfold written_names; rewrite !elem_of_cons; tauto.

Definition written (d : bytes) : list bytes := join d <$> written_names.

Lemma join_inj d n1 n2 :
  n1 ∈ written_names -> n2 ∈ written_names -> join d n1 = join d n2 -> n1 = n2.
Proof.
  assert (forall n, n ∈ written_names -> exists b l, n = b :: l /\ b <> SLASH) as Hn.
  { intros n H. unfold written_names in H. rewrite !elem_of_cons in H.
    destruct H as [->|[->|[->|[->|H%elem_of_nil]]]]; [by eexists _, _..|done]. }
  intros (b1 & l1 & -> & H1)%Hn (b2 & l2 & -> & H2)%Hn. unfold join. destruct d as [|x d]; [done|].
  cbn [isAbsolute]. rewrite (bool_decide_eq_false_2 (b1 = SLASH)), (bool_decide_eq_false_2 (b2 = SLASH)) by done.
  destruct (_ && _); intros H; [apply app_inv_head in H; by simplify_eq|by apply app_inv_head in H].
Qed.

(** The paths of the ramdisk that is read first, of the vendor_boot image and of the
    overlay. *)
Definition base_path (c : config) : option bytes :=
  match getNonEmptyEnv (getenv c) "MACMU_GUEST_RAMDISK" with Some p => Some p | None => disk_ramdisk_path c end.

Definition overlay_path (c : config) : option bytes := getNonEmptyEnv (getenv c) "MACMU_GUEST_RAMDISK_OVERLAY".

Definition inputs (c : config) : list bytes :=
  option_list (base_path c) ++ option_list (vendorBootPath c) ++ option_list (overlay_path c).

Lemma inputs_base c p : base_path c = Some p -> p ∈ inputs c.
Proof. intros H. unfold inputs. rewrite H. apply elem_of_app. left. by apply list_elem_of_singleton. Qed.

Lemma inputs_vendor c p : vendorBootPath c = Some p -> p ∈ inputs c.
Proof. intros H. unfold inputs. rewrite H. rewrite !elem_of_app. right. left. by apply list_elem_of_singleton. Qed.

Lemma inputs_overlay c p : overlay_path c = Some p -> p ∈ inputs c.
Proof. intros H. unfold inputs. rewrite H. rewrite !elem_of_app. right. right. by apply list_elem_of_singleton. Qed.

(** What is appended. *)
Definition vendor_part (c : config) (f : files) (v : bytes) : Prop :=
  match p ← vendorBootPath c; f !! p with Some image => vendor_image image v | None => v = [] end.

Definition overlay_part (c : config) (f : files) (o : bytes) : Prop :=
  match overlay_path c with Some p => f !! p = Some o | None => o = [] end.

(** Files outside [written d] are not changed. *)
Definition keeps_inputs (d : bytes) (f f' : files) : Prop := forall p, p ∉ written d -> f' !! p = f !! p.

Lemma keeps_inputs_insert d f path x : path ∈ written d -> keeps_inputs d f (<[path := x]> f).
Proof. intros Hp q Hq. apply lookup_insert_ne. intros ->. done. Qed.

Lemma keeps_inputs_trans d f1 f2 f3 : keeps_inputs d f1 f2 -> keeps_inputs d f2 f3 -> keeps_inputs d f1 f3.
Proof. intros H1 H2 p Hp. by rewrite (H2 p Hp), (H1 p Hp). Qed.

(** The directory of the data partition. *)
Definition dataDir (c : config) : option bytes := path_dirname (disk_dataPartition_path c).

Section selection.
Context (c : config) (d : bytes) (Hd : dataDir c = Some d).
Context (Hin : forall p, p ∈ inputs c -> p ∉ written d).

Lemma writeable_join n : getWriteableFilename (disk_dataPartition_path c) n = join d n.
Proof. unfold getWriteableFilename. fold (dataDir c). by rewrite Hd. Qed.

Lemma written_neq n1 n2 :
  n1 ∈ written_names -> n2 ∈ written_names -> n1 <> n2 ->
  join d n1 <> join d n2.
Proof. intros H1 H2 Hne H. apply Hne. by apply (join_inj d). Qed.

Lemma written_in n : n ∈ written_names -> join d n ∈ written d.
Proof. intros H. apply list_elem_of_fmap. by exists n. Qed.

Lemma input_neq p n : p ∈ inputs c -> n ∈ written_names -> p <> join d n.
Proof. intros Hp Hn ->. apply (Hin _ Hp). by apply written_in. Qed.

Lemma vendor_stage base b f s f' :
  base ∈ inputs c -> f !! base = Some b -> use_vendor_boot c base f = (inr s, f') ->
  exists v, vendor_part c f v /\ f' !! s = Some (b ++ v) /\ keeps_inputs d f f' /\
    (s = base \/ s = join d (bstr "vendor-initrd")).
Proof.
  intros Hb Fb. unfold use_vendor_boot, vendor_part. rewrite !writeable_join.
  destruct (vendorBootPath c) as [p|] eqn:Ep; [|intros; simplify_eq; exists []; rewrite app_nil_r; by repeat split; auto].
  cbn [mbind option_bind]. destruct (f !! p) as [image|] eqn:Fi;
    [|intros; simplify_eq; exists []; rewrite app_nil_r; by repeat split; auto].
  pose proof (inputs_vendor _ _ Ep) as Hp. destruct (extractVendorBootRamdisk _ _ _ _) as [r1 f1] eqn:E1. destruct (r1 =? 0) eqn:Er1; [|done].
  apply Z.eqb_eq in Er1 as ->. apply (extract_ok _ _ _ _ image) in E1 as (v & Hv & ->); [|done|by apply input_neq; [|name_in]].
  cbn [negb]. destruct (createMacMuGuestRamdisk _ _ _ _ _) as [r2 f2] eqn:E2. destruct (r2 =? 0) eqn:Er2; [|done].
  apply Z.eqb_eq in Er2 as ->. apply overlay_ok in E2 as (b' & v' & Hb' & Hv' & ->);
    [|by apply input_neq; [|name_in]|by apply written_neq; [name_in..|]].
  rewrite lookup_insert_eq in Hv'. rewrite lookup_insert_ne in Hb' by (apply not_eq_sym, input_neq; [done|name_in]).
  cbn [negb]. intros H. simplify_eq. exists v'. split; [done|]. rewrite lookup_insert_eq. split; [done|].
  split; [|by right]. eapply keeps_inputs_trans; apply keeps_inputs_insert, written_in; name_in.
Qed.

Lemma overlay_stage s x f s' f' :
  (s ∈ inputs c \/ s = join d (bstr "vendor-initrd")) -> f !! s = Some x ->
  use_overlay c s f = (inr s', f') ->
  exists o, overlay_part c f o /\ f' !! s' = Some (x ++ o) /\ keeps_inputs d f f' /\
    s' <> join d (bstr "initrd").
Proof.
  intros Hs Fs. assert (s <> join d (bstr "macmu-initrd") /\
    s <> join d (bstr "initrd")) as [N1 N2].
  { destruct Hs as [Hs| ->]; [split; apply input_neq; (done || name_in)|split; apply written_neq; (done || name_in)]. }
  unfold use_overlay, overlay_part. change (getNonEmptyEnv (getenv c) "MACMU_GUEST_RAMDISK_OVERLAY") with (overlay_path c).
  rewrite !writeable_join. destruct (overlay_path c) as [p|] eqn:Ep; [|intros; simplify_eq; exists []; rewrite app_nil_r; by repeat split].
  pose proof (inputs_overlay _ _ Ep) as Hp. destruct (createMacMuGuestRamdisk _ _ _ _ _) as [r f1] eqn:E1. destruct (r =? 0) eqn:Er; [|done].
  apply Z.eqb_eq in Er as ->. apply overlay_ok in E1 as (b' & o & Hb' & Ho & ->); [|done|by apply input_neq; [|name_in]].
  cbn [negb]. intros H. simplify_eq. exists o. split; [done|]. rewrite lookup_insert_eq. split; [done|].
  split; [apply keeps_inputs_insert, written_in; name_in|]. apply written_neq; [name_in..|done].
Qed.
Lemma bootconfig_stage e f src dst props x f' :
  oe_close (be_out e) = None -> src <> dst -> f !! src = Some x ->
  createRamdiskWithBootconfig e f src dst props = (0, f') ->
  f' = <[dst := x ++ buildBootconfigBlob (length x) props]> f.
Proof.
  intros Hc Hne Fx. unfold createRamdiskWithBootconfig. destruct (fopen_read (be_in e) f src); [done|].
  destruct (oe_open (be_out e)); [done|]. destruct dst as [|y dst]; [done|].
  rewrite lookup_insert_ne, Fx, Hc by done. cbn [default id].
  destruct (copy_loop _ _ _ _ _ _) as [[err sz] out] eqn:Ec. destruct (err =? 0) eqn:Ee; cbn [negb].
  - apply Z.eqb_eq in Ee as ->. apply copy_loop_ok in Ec as [-> ->]. cbn [app Nat.add].
    repeat case_match; intros; simplify_eq; by rewrite insert_insert_eq.
  - intros H. simplify_eq.
Qed.

(** No call fails while the ramdisk is prepared. *)
Record config_good : Prop := {
  cg_ramdisk : disk_ramdisk_path c <> None;
  cg_vendor : vendor_good (c_vendor c);
  cg_vendor_overlay : overlay_env_good (c_vendor_overlay c);
  cg_macmu_overlay : overlay_env_good (c_macmu_overlay c);
  cg_in : in_good (be_in (c_bootconfig c));
  cg_blob : be_blob (c_bootconfig c) = None;
  cg_out : out_good (be_out (c_bootconfig c)) }.

Lemma writeable_nonempty n : n ∈ written_names -> join d n <> [].
Proof.
  intros Hn. unfold join. destruct d as [|x d']; [|destruct n; repeat case_match; done].
  unfold written_names in Hn. rewrite !elem_of_cons in Hn. destruct Hn as [->|[->|[->|[->|H%elem_of_nil]]]]; done.
Qed.

Lemma vendor_stage_good base b f :
  config_good -> base ∈ inputs c -> f !! base = Some b ->
  (forall p image, vendorBootPath c = Some p -> f !! p = Some image ->
    Z.of_nat (length image) < 2 ^ 63 /\ exists v, vendor_image image v) ->
  exists s f', use_vendor_boot c base f = (inr s, f').
Proof.
  intros [_ Gv (G1 & G2 & G3) _ _ _ _] Hb Fb Hi. unfold use_vendor_boot. rewrite !writeable_join.
  destruct (vendorBootPath c) as [p|] eqn:Ep; [|by eexists _, _]. destruct (f !! p) as [image|] eqn:Fi; [|by eexists _, _].
  pose proof (inputs_vendor _ _ Ep) as Hp. destruct (Hi p image eq_refl Fi) as (Hs & v & Hv).
  rewrite (proj1 (extract_good _ f p _ image Fi (input_neq _ _ Hp ltac:(name_in)) (writeable_nonempty _ ltac:(name_in)) Hs Gv)
    v Hv). cbn [Z.eqb negb].
  rewrite (overlay_good _ _ _ _ _ b v); [by eexists _, _|..]; try done.
  - apply input_neq; [done|name_in].
  - apply written_neq; [name_in..|done].
  - apply writeable_nonempty. name_in.
  - rewrite lookup_insert_ne; [done|]. apply not_eq_sym, input_neq; [done|name_in].
  - apply lookup_insert_eq.
Qed.

(** In the soundness direction: what a ramdisk that was prepared holds. *)
Lemma initrd_sound props f base b s f' :
  base_path c = Some base -> f !! base = Some b -> oe_close (be_out (c_bootconfig c)) = None ->
  prepare_initrd c props f = (inr s, f') ->
  exists v o, vendor_part c f v /\ overlay_part c f o /\ keeps_inputs d f f' /\
    f' !! s = Some ((b ++ v ++ o) ++ if androidbootProps c
      then buildBootconfigBlob (length (b ++ v ++ o)) (appendMacMuGuestBootProperties (getenv c) props) else []).
Proof.
  intros Hb Fb Hc. unfold prepare_initrd. destruct (select_ramdisk c f) as [[err|s1] f1] eqn:Es; [done|].
  assert (exists v o, vendor_part c f v /\ overlay_part c f o /\ keeps_inputs d f f1 /\ f1 !! s1 = Some (b ++ v ++ o) /\
    s1 <> join d (bstr "initrd")) as (v & o & Hv & Ho & Hk & F1 & N1).
  { revert Es. unfold select_ramdisk. destruct (disk_ramdisk_path c) as [ramdisk|] eqn:Ed; [|done]. revert Hb.
    unfold base_path. rewrite Ed. intros Hb.
    assert ((match getNonEmptyEnv (getenv c) "MACMU_GUEST_RAMDISK" with
      | Some path => match f !! path with Some _ => inr path | None => inl ENOENT end | None => inr ramdisk end : Z + bytes)
      = inr base) as ->.
    { destruct (getNonEmptyEnv _ _); simplify_eq; [by rewrite Fb|done]. }
    assert (base ∈ inputs c) as Hbi.
    { apply inputs_base. unfold base_path. by rewrite Ed. }
    destruct (use_vendor_boot c base f) as [[err|s0] f0] eqn:Ev; [done|]. intros Eo.
    apply (vendor_stage _ b) in Ev as (v & Hv & F0 & K0 & Hs0); [|done..].
    apply (overlay_stage _ (b ++ v)) in Eo as (o & Ho & F1 & K1 & N1); [|by destruct Hs0 as [-> | ->]; auto|done].
    exists v, o. split; [done|]. split.
    - unfold overlay_part in *. destruct (overlay_path c) as [p|] eqn:Ep; [|done]. rewrite <- K0; [done|].
      by apply Hin, inputs_overlay.
    - rewrite <- app_assoc in F1. split; [by eapply keeps_inputs_trans|]. done. }
  rewrite !writeable_join. destruct (androidbootProps c).
  - destruct (createRamdiskWithBootconfig _ _ _ _ _) as [r f2] eqn:Eb. destruct (r =? 0) eqn:Er; [|done].
    apply Z.eqb_eq in Er as ->. apply (bootconfig_stage _ _ _ _ _ _ _ Hc N1 F1) in Eb as ->. cbn [negb].
    intros H. simplify_eq. exists v, o. rewrite lookup_insert_eq. do 2 (split; [done|]). split; [|done].
    eapply keeps_inputs_trans; [done|]. apply keeps_inputs_insert, written_in. name_in.
  - intros H. simplify_eq. exists v, o. by rewrite app_nil_r.
Qed.

Lemma overlay_stage_good s x f :
  config_good -> (s ∈ inputs c \/ s = join d (bstr "vendor-initrd")) -> f !! s = Some x ->
  (forall p, overlay_path c = Some p -> f !! p <> None) -> exists s' f', use_overlay c s f = (inr s', f').
Proof.
  intros [_ _ _ (G1 & G2 & G3) _ _ _] Hs Fs Ho. unfold use_overlay.
  change (getNonEmptyEnv (getenv c) "MACMU_GUEST_RAMDISK_OVERLAY") with (overlay_path c). rewrite !writeable_join.
  destruct (overlay_path c) as [p|] eqn:Ep; [|by eexists _, _]. specialize (Ho p eq_refl).
  destruct (f !! p) as [o|] eqn:Fp; [|done]. pose proof (inputs_overlay _ _ Ep) as Hp.
  rewrite (overlay_good _ _ _ _ _ x o); [by eexists _, _|..]; try done.
  - destruct Hs as [Hs | ->]; [apply input_neq|apply written_neq]; (done || name_in).
  - apply input_neq; [done|name_in].
  - apply writeable_nonempty. name_in.
Qed.

(** When nothing fails, the ramdisk is prepared. *)
Lemma initrd_complete props f base b :
  config_good -> base_path c = Some base -> f !! base = Some b ->
  (forall p image, vendorBootPath c = Some p -> f !! p = Some image ->
    Z.of_nat (length image) < 2 ^ 63 /\ exists v, vendor_image image v) ->
  (forall p, overlay_path c = Some p -> f !! p <> None) -> exists s f', prepare_initrd c props f = (inr s, f').
Proof.
  intros G Hb Fb Hi Ho. assert (exists s f' x, select_ramdisk c f = (inr s, f') /\ f' !! s = Some x /\
    s <> join d (bstr "initrd")) as (s & f' & x & Es & Fs & Ns).
  { pose proof (inputs_base _ _ Hb) as Hbi. destruct (vendor_stage_good base b f G Hbi Fb Hi) as (s0 & f0 & Ev).
    destruct (vendor_stage _ b _ _ _ Hbi Fb Ev) as (v & Hv & F0 & K0 & Hs0).
    assert (s0 ∈ inputs c \/ s0 = join d (bstr "vendor-initrd")) as Hs1 by (destruct Hs0 as [-> | ->]; auto).
    destruct (overlay_stage_good s0 (b ++ v) f0 G Hs1 F0) as (s1 & f1 & Eo).
    { intros p Ep. rewrite K0; [by apply Ho|]. by apply Hin, inputs_overlay. }
    destruct (overlay_stage _ (b ++ v) _ _ _ Hs1 F0 Eo) as (o & _ & F1 & _ & N1). exists s1, f1, ((b ++ v) ++ o). split; [|done].
    unfold select_ramdisk. unfold base_path in Hb. destruct (disk_ramdisk_path c) as [r|] eqn:Ed; [|by destruct (cg_ramdisk G)].
    destruct (getNonEmptyEnv _ _); simplify_eq; [rewrite Fb|]; by rewrite Ev. }
  unfold prepare_initrd. rewrite Es, writeable_join. destruct (androidbootProps c); [|by eexists _, _].
  unfold createRamdiskWithBootconfig. rewrite (fopen_read_good _ _ _ x) by (done || apply G).
  destruct (cg_out G) as [Go Gc]. rewrite Go, Gc, lookup_insert_ne, Fs by done. cbn [default id].
  destruct (join d (bstr "initrd")) eqn:Ei; [by destruct (writeable_nonempty (bstr "initrd") ltac:(name_in))|].
  rewrite copy_loop_good by (apply G || lia). cbn. rewrite (cg_blob G). by eexists _, _.
Qed.
End selection.

(** ** Theorems *)

(** [extractVendorBootRamdisk] reports success exactly when the file is a
    vendor_boot image, and then writes exactly its ramdisk. Whatever reads, writes and
    closes fail, a result of 0 means that the header has the magic and a version of at
    least 3, is as long as the version asks, and that the ramdisk, which starts at the
    first page after the header, lies in the file and was written whole; only the file
    for the ramdisk changes. When no call fails, every vendor_boot image is extracted and
    every other file is refused with [EINVAL] before anything is written. *)
Theorem vendor_boot_extracted e f path out image :
  f !! path = Some image -> path <> out -> out <> [] -> Z.of_nat (length image) < 2 ^ 63 ->
  (forall f', extractVendorBootRamdisk e f path out = (0, f') -> exists ramdisk, vendor_image image ramdisk /\ f' = <[out := ramdisk]> f) /\
  (vendor_good e ->
    (forall ramdisk, vendor_image image ramdisk -> extractVendorBootRamdisk e f path out = (0, <[out := ramdisk]> f)) /\
    ((forall ramdisk, ~ vendor_image image ramdisk) -> extractVendorBootRamdisk e f path out = (EINVAL, f))).
Proof. intros Hf Hne Ho Hs. split; [intros f' H; by eapply extract_ok|by apply extract_good]. Qed.

(** C15: The guest is started with the ramdisk that was asked for. When [main] passes
    the selection, the file given to [-initrd] is the base ramdisk (of the AVD, or of
    [MACMU_GUEST_RAMDISK]), then the ramdisk of the vendor_boot image if there is one,
    then the overlay of [MACMU_GUEST_RAMDISK_OVERLAY] if it is set, each byte for byte
    whatever reads and writes failed; the files read stay as they are. With boot
    properties in the bootconfig, a reader of the documented layout finds, at an aligned
    place, the properties with those of MacMu at the end, and this ramdisk before them.
    When no call fails and the files are there, the selection passes. The last [fclose]
    of the bootconfig must not fail, since its result is not looked at. *)
Theorem initrd_contents c d props f base b :
  dataDir c = Some d -> (forall p, p ∈ inputs c -> p ∉ written d) -> base_path c = Some base -> f !! base = Some b ->
  (forall s f', oe_close (be_out (c_bootconfig c)) = None -> prepare_initrd c props f = (inr s, f') ->
    exists v o image, vendor_part c f v /\ overlay_part c f o /\ keeps_inputs d f f' /\ f' !! s = Some image /\
      let all := appendMacMuGuestBootProperties (getenv c) props in
      if androidbootProps c
      then Forall property_ok all -> Z.of_nat (length (padded (length (b ++ v ++ o)) all)) < 2 ^ 32 ->
        read_bootconfig image = Some (b ++ v ++ o, all) /\ ((length image - kTrailerSize) mod 4 = 0)%nat
      else image = b ++ v ++ o) /\
  (config_good c ->
    (forall p image, vendorBootPath c = Some p -> f !! p = Some image ->
      Z.of_nat (length image) < 2 ^ 63 /\ exists v, vendor_image image v) ->
    (forall p, overlay_path c = Some p -> f !! p <> None) -> exists s f', prepare_initrd c props f = (inr s, f')).
Proof.
  intros Hd Hin Hb Fb. split; [|intros; by eapply initrd_complete]. intros s f' Hc Hp.
  destruct (initrd_sound c d Hd Hin _ _ _ _ _ _ Hb Fb Hc Hp) as (v & o & Hv & Ho & Hk & Hs).
  eexists v, o, _. do 3 (split; [done|]). split; [exact Hs|]. cbn zeta. destruct (androidbootProps c).
  - apply bootconfig_roundtrip.
  - apply app_nil_r.
Qed.

(** ** Examples *)

Definition in_ok : in_env :=
  {| ie_open := None; ie_seek := None; ie_read := fun _ => None; ie_write := fun _ => None; ie_close := None |}.
Definition out_ok : out_env := {| oe_open := None; oe_close := None |}.
Definition vendor_ok : vendor_env := {| ve_header := in_ok; ve_size := None; ve_in := in_ok; ve_out := out_ok |}.
Definition overlay_env_ok : overlay_env := {| ov_base := in_ok; ov_overlay := in_ok; ov_out := out_ok |}.

(** An image of version 3 with pages of 4096 bytes and a ramdisk of four bytes. *)
Definition demo_image : bytes :=
  bstr "VNDRBOOT" ++ put32 3 ++ put32 4096 ++ put32 0 ++ put32 0 ++ put32 4 ++ replicate (Z.to_nat 2068) NUL ++
  put32 2112 ++ replicate (Z.to_nat 1996) NUL ++ bstr "cpio".

Lemma demo_image_ok : vendor_image demo_image (bstr "cpio").
Proof.
  split; [by vm_compute..|]. exists 1. cbn zeta.
  replace (field 12 4 demo_image) with 4096 by (vm_compute; reflexivity).
  replace (field 24 4 demo_image) with 4 by (vm_compute; reflexivity).
  replace (field (Z.to_nat 2096) 4 demo_image) with 2112 by (vm_compute; reflexivity).
  replace (Z.of_nat (length demo_image)) with 4100 by (vm_compute; reflexivity).
  split_and!; try lia. vm_compute. reflexivity.
Qed.

Lemma in_ok_good : in_good in_ok.
Proof. by split. Qed.

Lemma vendor_ok_good : vendor_good vendor_ok.
Proof. by repeat split. Qed.

Lemma not_vendor_image r : ~ vendor_image (bstr "ANDROID!") r.
Proof. intros [H _ _ _]. vm_compute in H. discriminate. Qed.

Definition demo_files : files :=
  <[bstr "/i/ramdisk.img" := bstr "base"]> (<[bstr "/i/vendor_boot.img" := demo_image]>
    (<[bstr "/m/overlay" := bstr "agent"]> ∅)).

Lemma vendor_boot_extracted_witness :
  extractVendorBootRamdisk vendor_ok demo_files (bstr "/i/vendor_boot.img") (bstr "/a/vendor-ramdisk") =
    (0, <[bstr "/a/vendor-ramdisk" := bstr "cpio"]> demo_files) /\
  extractVendorBootRamdisk vendor_ok {[bstr "b" := bstr "ANDROID!"]} (bstr "b") (bstr "o") =
    (EINVAL, {[bstr "b" := bstr "ANDROID!"]}).
Proof.
  split.
  - apply (vendor_boot_extracted vendor_ok demo_files (bstr "/i/vendor_boot.img") (bstr "/a/vendor-ramdisk") demo_image);
      [vm_compute; reflexivity|discriminate|discriminate|apply Z.ltb_lt; vm_compute; reflexivity|apply vendor_ok_good|
       apply demo_image_ok].
  - apply (vendor_boot_extracted vendor_ok {[bstr "b" := bstr "ANDROID!"]} (bstr "b") (bstr "o") (bstr "ANDROID!"));
      [vm_compute; reflexivity|discriminate|discriminate|apply Z.ltb_lt; vm_compute; reflexivity|apply vendor_ok_good|
       apply not_vendor_image].
Defined.

Definition demo_getenv (name : bytes) : option bytes :=
  if bool_decide (name = bstr "MACMU_GUEST_RAMDISK_OVERLAY") then Some (bstr "/m/overlay")
  else if bool_decide (name = bstr "MACMU_GUEST_RPC_SOCKET") then Some (bstr "/t/rpc") else None.

Definition demo_config (out : out_env) : config := {|
  disk_ramdisk_path := Some (bstr "/i/ramdisk.img"); vendorBootPath := Some (bstr "/i/vendor_boot.img");
  disk_dataPartition_path := bstr "/a/userdata-qemu.img"; getenv := demo_getenv; androidbootProps := true; c_vendor := vendor_ok;
  c_vendor_overlay := overlay_env_ok; c_macmu_overlay := overlay_env_ok;
  c_bootconfig := {| be_in := in_ok; be_blob := None; be_out := out |} |}.

Definition demo_props : list (bytes * bytes) := [(bstr "androidboot.hardware", bstr "ranchu")].

Lemma demo_vendor_boot : demo_files !! bstr "/i/vendor_boot.img" = Some demo_image.
Proof. vm_compute. reflexivity. Qed.

Lemma demo_inputs p : p ∈ inputs (demo_config out_ok) -> p ∉ written (bstr "/a/").
Proof.
  change (inputs (demo_config out_ok)) with [bstr "/i/ramdisk.img"; bstr "/i/vendor_boot.img"; bstr "/m/overlay"].
  rewrite !elem_of_cons, elem_of_nil. intros [->|[->|[->|[]]]]; apply (bool_decide_unpack _); vm_compute; done.
Qed.

Lemma initrd_contents_witness :
  exists s f' image,
    prepare_initrd (demo_config out_ok) demo_props demo_files = (inr s, f') /\ f' !! s = Some image /\
    read_bootconfig image = Some (bstr "basecpioagent",
      [(bstr "androidboot.hardware", bstr "ranchu"); (bstr "androidboot.macmu_rpc_socket", bstr "/t/rpc")]).
Proof.
  destruct (initrd_contents (demo_config out_ok) (bstr "/a/") demo_props demo_files (bstr "/i/ramdisk.img") (bstr "base")
    eq_refl demo_inputs eq_refl (lookup_insert_eq _ _ _)) as [Hs Hc].
  destruct Hc as (s & f' & E).
  - split; try done; repeat split.
  - intros p image [= <-] Hi. assert (image = demo_image) as ->.
    { rewrite demo_vendor_boot in Hi. congruence. }
    split; [apply Z.ltb_lt; vm_compute; reflexivity|]. exists (bstr "cpio"). apply demo_image_ok.
  - intros p [= <-] X. vm_compute in X. discriminate.
  - destruct (Hs s f' eq_refl E) as (v & o & image & Hv & Ho & _ & Hf & Hr). exists s, f', image.
    do 2 (split; [done|]). unfold vendor_part in Hv. cbn [vendorBootPath demo_config mbind option_bind] in Hv.
    rewrite demo_vendor_boot in Hv. rewrite (vendor_image_unique _ _ _ Hv demo_image_ok) in Hr.
    assert (o = bstr "agent") as -> by (assert (Some o = Some (bstr "agent")) by (rewrite <- Ho; vm_compute; reflexivity); congruence).
    apply Hr; [repeat constructor; apply (bool_decide_unpack _); vm_compute; done|].
    apply Z.ltb_lt. vm_compute. reflexivity.
Defined.

(** The initrd of the example, and what a reader finds in it. *)
Example demo_initrd :
  (let '(s, f) := prepare_initrd (demo_config out_ok) demo_props demo_files in
   (s, match s with inr s => (f !! s) ≫= read_bootconfig | inl _ => None end)) =
  (inr (bstr "/a/initrd"),
   Some (bstr "basecpioagent", [(bstr "androidboot.hardware", bstr "ranchu"); (bstr "androidboot.macmu_rpc_socket", bstr "/t/rpc")])).
Proof. vm_compute. reflexivity. Qed.

(** The disk is full when the bootconfig is flushed: the initrd is cut, the emulator is
    started with it all the same. *)
Example bootconfig_close_ignored :
  (let '(s, f) := prepare_initrd (demo_config {| oe_open := None; oe_close := Some (2%nat, 28) |}) demo_props demo_files in
   (s, match s with inr s => f !! s | inl _ => None end)) = (inr (bstr "/a/initrd"), Some (bstr "ba")).
Proof. vm_compute. reflexivity. Qed.

End GuestRamdisk.
