(* ===== verification/GuestBoot.v ===== *)
(** The shell's options in the guest: the environment that [launch_qemu]
    ([shell/core/qemu_launcher.cpp]) gives the emulator is the one that the selection of
    the ramdisk ([android-qemu2-glue/main.cpp]) reads, and what it selects is in the
    ramdisk from which the guest boots. *)
From S2P Require Import Prelude Text ShellOptions QemuLauncher GuestRamdisk.

Module GuestBoot.
Import ShellOptions GuestRamdisk.

(** An option that is not empty. *)
Definition non_empty (value : bytes) : option bytes := match value with [] => None | _ => Some value end.

(** The boot properties that the options of the shell stand for; [initRc] is the variable
    [MACMU_GUEST_INIT_RC] of the shell's own environment, which it passes on. *)
Definition boot_properties (options : ShellOptions.t) (initRc : option bytes) : list (bytes * bytes) :=
  option_list ((fun p => (bstr "androidboot.macmu_rpc_socket", p)) <$> non_empty (guestRpcSocketPath options)) ++
  option_list ((fun p => (bstr "androidboot.macmu_ctrl_socket", p)) <$> non_empty (guestCtrlSocketPath options)) ++
  match initRc ≫= non_empty with
  | Some rc => [(bstr "androidboot.init_rc", rc)]
  | None =>
      option_list ((fun _ => (bstr "androidboot.init_rc", bstr "/vendor/etc/sensors/init.rc")) <$>
        non_empty (guestAgentImagePath options))
  end.

(** The environment of the process that was started. *)
Lemma launch_environment env environ pid options f i c args envp acts :
  QemuLauncher.o_spawned (QemuLauncher.launch_qemu env environ pid options f i c) = Some (args, envp, acts) ->
  envp = QemuLauncher.make_environment environ (QemuLauncher.qemu_overrides options pid f i c).
Proof.
  unfold QemuLauncher.launch_qemu. set (envp' := QemuLauncher.make_environment _ _).
  repeat match goal with |- context [let '(_, _) := ?x in _] => destruct x as [[] ?] end; cbn [negb]; try done.
  all: repeat case_match; try done. all: cbn; intros; by simplify_eq.
Qed.

Section launched.
Context (env : QemuLauncher.launch_env) (environ : list bytes) (pid : Z) (options : ShellOptions.t) (f i c : Z).
Context (args envp : list bytes) (acts : QemuLauncher.spawn_attributes).
Context (Hlaunch : QemuLauncher.o_spawned (QemuLauncher.launch_qemu env environ pid options f i c) = Some (args, envp, acts)).

Definition child_getenv (name : bytes) : option bytes := QemuLauncher.env_lookup name envp.

Lemma child_override key value :
  (bstr key, value) ∈ QemuLauncher.qemu_overrides options pid f i c -> getNonEmptyEnv child_getenv key = non_empty value.
Proof.
  intros Hin. unfold getNonEmptyEnv, child_getenv. rewrite (launch_environment _ _ _ _ _ _ _ _ _ _ Hlaunch).
  destruct (QemuLauncher.make_environment_overrides environ options pid f i c) as [Ho _].
  destruct (Ho _ _ Hin) as [-> _]. by destruct value.
Qed.

Lemma child_inherited key :
  bstr key ∉ (QemuLauncher.qemu_overrides options pid f i c).*1 ->
  getNonEmptyEnv child_getenv key = QemuLauncher.env_lookup (bstr key) environ ≫= non_empty.
Proof.
  intros Hin. unfold getNonEmptyEnv, child_getenv. rewrite (launch_environment _ _ _ _ _ _ _ _ _ _ Hlaunch).
  destruct (QemuLauncher.make_environment_overrides environ options pid f i c) as [_ Ho]. rewrite (Ho _ Hin).
  destruct (QemuLauncher.env_lookup _ _) as [[]|]; done.
Qed.

Ltac in_overrides := unfold QemuLauncher.qemu_overrides; rewrite !elem_of_cons; tauto.

Lemma child_properties props :
  appendMacMuGuestBootProperties child_getenv props =
  props ++ boot_properties options (QemuLauncher.env_lookup (bstr "MACMU_GUEST_INIT_RC") environ).
Proof.
  unfold appendMacMuGuestBootProperties, boot_properties.
  rewrite (child_override "MACMU_GUEST_RPC_SOCKET" (guestRpcSocketPath options)) by in_overrides.
  rewrite (child_override "MACMU_GUEST_CTRL_SOCKET" (guestCtrlSocketPath options)) by in_overrides.
  rewrite (child_override "MACMU_GUEST_AGENT_IMAGE" (guestAgentImagePath options)) by in_overrides.
  rewrite (child_inherited "MACMU_GUEST_INIT_RC").
  - destruct (non_empty (guestRpcSocketPath options)), (non_empty (guestCtrlSocketPath options)),
      (_ ≫= non_empty), (non_empty (guestAgentImagePath options)); cbn; by rewrite ?app_nil_r, <- ?app_assoc.
  - change (QemuLauncher.qemu_overrides options pid f i c).*1 with (QemuLauncher.qemu_overrides options 0 0 0 0).*1.
    apply (bool_decide_unpack _). vm_compute. exact I.
Qed.

(** The paths that the selection reads. *)
Lemma child_paths cfg :
  getenv cfg = child_getenv ->
  base_path cfg = match non_empty (guestRamdiskPath options) with Some p => Some p | None => disk_ramdisk_path cfg end /\
  overlay_path cfg = non_empty (guestRamdiskOverlayPath options).
Proof.
  intros Hg. unfold base_path, overlay_path. rewrite Hg.
  rewrite (child_override "MACMU_GUEST_RAMDISK" (guestRamdiskPath options)) by in_overrides.
  by rewrite (child_override "MACMU_GUEST_RAMDISK_OVERLAY" (guestRamdiskOverlayPath options)) by in_overrides.
Qed.

(** C16: What the shell was asked to boot is what boots. When [launch_qemu] starts the
    emulator and [main] prepares the initrd in the environment of that process, the
    initrd is the ramdisk of the option (or that of the AVD when the option is empty),
    the ramdisk of the vendor_boot image and the overlay of the option, and the
    properties that the guest reads behind it are those of [main] followed by exactly the
    rpc socket, the control socket and the init script that the options stand for:
    variables of these names in the environment of the shell have no effect, except
    [MACMU_GUEST_INIT_RC], which is passed on. *)
Theorem options_reach_guest (cfg : config) (d : bytes) (props : list (bytes * bytes)) (fs : files) (base b s : bytes) (fs' : files) :
  getenv cfg = child_getenv -> dataDir cfg = Some d -> (forall p, p ∈ inputs cfg -> p ∉ written d) ->
  match non_empty (guestRamdiskPath options) with Some p => Some p | None => disk_ramdisk_path cfg end = Some base ->
  fs !! base = Some b -> androidbootProps cfg = true -> oe_close (be_out (c_bootconfig cfg)) = None ->
  prepare_initrd cfg props fs = (inr s, fs') ->
  let all := props ++ boot_properties options (QemuLauncher.env_lookup (bstr "MACMU_GUEST_INIT_RC") environ) in
  exists v o image,
    vendor_part cfg fs v /\
    match non_empty (guestRamdiskOverlayPath options) with Some p => fs !! p = Some o | None => o = [] end /\
    fs' !! s = Some image /\
    (Forall property_ok all -> Z.of_nat (length (padded (length (b ++ v ++ o)) all)) < 2 ^ 32 ->
     read_bootconfig image = Some (b ++ v ++ o, all)).
Proof.
  intros Hg Hd Hin Hb Fb Ha Hc Hp all. destruct (child_paths cfg Hg) as [Bp Op]. rewrite Hb in Bp.
  destruct (initrd_sound cfg d Hd Hin _ _ _ _ _ _ Bp Fb Hc Hp) as (v & o & Hv & Ho & _ & Hs).
  unfold overlay_part in Ho. rewrite Op in Ho. rewrite Ha, Hg, child_properties in Hs. fold all in Hs.
  eexists v, o, _. do 2 (split; [done|]). split; [exact Hs|]. intros H1 H2. by apply bootconfig_roundtrip.
Qed.
End launched.

(** ** Example *)

(** The shell is started with an overlay, in an environment that has variables of the same
    names. *)
Definition demo_options : ShellOptions.t :=
  ShellOptions.parse_options demo_world [bstr "--guest-ramdisk-overlay"; bstr "/m/overlay"].

Definition demo_environ : list bytes := [bstr "MACMU_GUEST_RPC_SOCKET=/stale"; bstr "MACMU_GUEST_RAMDISK_OVERLAY=/stale"].

Definition demo_outcome : QemuLauncher.outcome := QemuLauncher.launch_qemu demo_launch demo_environ 1 demo_options 5 197 198.

Definition demo_envp : list bytes :=
  match QemuLauncher.o_spawned demo_outcome with Some (_, envp, _) => envp | None => [] end.

Definition demo_boot : config := {|
  disk_ramdisk_path := Some (bstr "/i/ramdisk.img"); vendorBootPath := None; disk_dataPartition_path := bstr "/a/userdata-qemu.img";
  getenv := child_getenv demo_envp; androidbootProps := true; c_vendor := vendor_ok; c_vendor_overlay := overlay_env_ok;
  c_macmu_overlay := overlay_env_ok; c_bootconfig := {| be_in := in_ok; be_blob := None; be_out := out_ok |} |}.

Definition demo_boot_files : files := <[bstr "/i/ramdisk.img" := bstr "base"]> (<[bstr "/m/overlay" := bstr "agent"]> ∅).

Lemma demo_boot_inputs p : p ∈ inputs demo_boot -> p ∉ written (bstr "/a/").
Proof.
  assert (inputs demo_boot = [bstr "/i/ramdisk.img"; bstr "/m/overlay"]) as -> by (vm_compute; reflexivity).
  rewrite !elem_of_cons, elem_of_nil. intros [->|[->|[]]]; apply (bool_decide_unpack _); vm_compute; done.
Qed.

Lemma options_reach_guest_witness :
  exists s fs' image, prepare_initrd demo_boot [] demo_boot_files = (inr s, fs') /\ fs' !! s = Some image /\
    read_bootconfig image = Some (bstr "baseagent",
      [(bstr "androidboot.macmu_rpc_socket", bstr "/tmp/macmu.rpc.42.sock");
       (bstr "androidboot.macmu_ctrl_socket", bstr "/tmp/macmu.ctrl.42.sock")]).
Proof.
  destruct (QemuLauncher.o_spawned demo_outcome) as [[[args envp] acts]|] eqn:El; [|by vm_compute in El].
  assert (match (prepare_initrd demo_boot [] demo_boot_files).1 with inl _ => false | inr _ => true end = true) as Hok
    by (vm_compute; reflexivity).
  destruct (prepare_initrd demo_boot [] demo_boot_files) as [[err|s] fs'] eqn:Ep; [discriminate Hok|]. clear Hok.
  assert (demo_envp = envp) as He by (unfold demo_envp; by rewrite El).
  destruct (options_reach_guest demo_launch demo_environ 1 demo_options 5 197 198 args envp acts El demo_boot (bstr "/a/") []
    demo_boot_files (bstr "/i/ramdisk.img") (bstr "base") s fs') as (v & o & image & Hv & Ho & Hf & Hr).
  - unfold demo_boot. by rewrite He.
  - reflexivity.
  - apply demo_boot_inputs.
  - vm_compute. reflexivity.
  - vm_compute. reflexivity.
  - reflexivity.
  - reflexivity.
  - exact Ep.
  - exists s, fs', image. do 2 (split; [done|]). unfold vendor_part in Hv. cbn in Hv. subst v.
    assert (o = bstr "agent") as ->.
    { assert (Some o = Some (bstr "agent")); [|congruence]. etransitivity; [symmetry; exact Ho|]. vm_compute. reflexivity. }
    rewrite Hr; [vm_compute; reflexivity| |apply Z.ltb_lt; vm_compute; reflexivity].
    repeat constructor; apply (bool_decide_unpack _); vm_compute; done.
Defined.

End GuestBoot.
