(* ===== verification/GuestDevices.v ===== *)
(** The disks of the guest and the device tree that names them:
    [android-qemu2-glue/main.cpp] ([PartitionParameters], the disk of the MacMu agent, the
    DTB file, the boot device), [android-qemu2-glue/dtb.cpp], [qemu-setup.cpp]
    ([ranchu_device_tree_setup]), the device paths of [android/avd/info.c], and the part
    of QEMU that gives a disk its address ([hw/arm/virt.c], the board of aarch64 hosts,
    [qdev-monitor.c], [hw/core/qdev.c]). The target is [TARGET_ARM64]. *)
From S2P Require Import Prelude Text GuestRamdisk.

Module GuestDevices.
Import GuestRamdisk.

Definition COMMA : bytes := bstr ",".

(** ** The AVD *)

(** The files that the AVD has: what [_avdInfo_getContentFilePath] and
    [_avdInfo_getContentOrSdkFilePath] find; for the SD card also the paths of the
    configuration and of the command line, which may not exist. *)
Record AvdInfo := {
  targetAbi : bytes; apiLevel : Z; contentPath : bytes; path_exists : bytes -> bool;
  ini_sdcard : option bytes; imagePath_sdcard : option bytes; image_sdcard : option bytes; image_encryptionkey : option bytes;
  image_usersystem : option bytes; image_initsystem : option bytes; image_uservendor : option bytes; image_initvendor : option bytes }.

Definition starts_with (prefix text : bytes) : bool := bool_decide (take (length prefix) text = prefix).
Definition is_x86ish (i : AvdInfo) : bool := starts_with (bstr "x86") (targetAbi i).
Definition is_armish (i : AvdInfo) : bool := starts_with (bstr "arm") (targetAbi i).
Definition is_mipsish (i : AvdInfo) : bool := starts_with (bstr "mips") (targetAbi i).

Definition avdInfo_getSdCardPath (i : AvdInfo) : option bytes :=
  let existing path := match path with Some p => if path_exists i p then Some p else None | None => None end in
  if (30 <=? apiLevel i) && is_armish i then None
  else
    match existing (ini_sdcard i) with
    | Some path => Some path
    | None => match existing (imagePath_sdcard i) with Some path => Some path | None => image_sdcard i end
    end.

Definition is_some {A} (x : option A) : bool := match x with Some _ => true | None => false end.
Definition has_sdcard (i : AvdInfo) : bool := is_some (avdInfo_getSdCardPath i).
Definition has_vendor (i : AvdInfo) : bool := is_some (image_initvendor i) || is_some (image_uservendor i).
Definition has_encryption (i : AvdInfo) : bool := is_some (image_encryptionkey i).

Definition arm_device_id : list bytes :=
  bstr <$> ["a003e00"; "a003c00"; "a003a00"; "a003800"; "a003600"; "a003400"].
Definition mips_device_id : list bytes := bstr <$> ["1f03d000"; "1f03d200"; "1f03d400"; "1f03d600"; "1f03d800"].

Definition device_table (info : AvdInfo) : list bytes :=
  let table :=
    (if has_sdcard info then [bstr "sdcard"] else []) ++ (if has_vendor info then [bstr "vendor"] else []) ++
    (if has_encryption info then [bstr "encryption"] else []) ++ [bstr "userdata"; bstr "cache"; bstr "system"] in
  table ++ replicate (6 - length table) [].

(** The first entry of a table that is [name]. *)
Fixpoint index_of (name : bytes) (table : list bytes) : option nat :=
  match table with
  | [] => None
  | t :: table => if bool_decide (name = t) then Some O else S <$> index_of name table
  end.

Definition platform_path (device image : bytes) : bytes :=
  bstr "/dev/block/platform/" ++ device ++ bstr ".virtio_mmio/by-name/" ++ image.

(** [None] for [NULL], and outside the tables, where the code reads memory that is not
    set. *)
Definition get_device_path (info : AvdInfo) (image : bytes) : option bytes :=
  i ← index_of image (device_table info);
  device ← (if is_armish info then arm_device_id !! i else if is_mipsish info then mips_device_id !! i else None);
  Some (platform_path device image).

Definition avdInfo_getVendorImageDevicePathInGuest (i : AvdInfo) : option bytes :=
  if negb (has_vendor i) then None
  else if is_x86ish i then
    Some (if has_encryption i then bstr "/dev/block/pci/pci0000:00/0000:00:07.0/by-name/vendor"
          else bstr "/dev/block/pci/pci0000:00/0000:00:06.0/by-name/vendor")
  else get_device_path i (bstr "vendor").

Definition avdInfo_getSystemImageDevicePathInGuest (i : AvdInfo) : option bytes :=
  if is_x86ish i then Some (bstr "/dev/block/pci/pci0000:00/0000:00:03.0/by-name/system")
  else get_device_path i (bstr "system").

(** The device between the two constant parts of the path. *)
Definition avdInfo_getDynamicPartitionBootDevice (i : AvdInfo) : option bytes :=
  if is_x86ish i then Some (bstr "pci0000:00/0000:00:03.0 pci0000:00/0000:00:06.0")
  else
    system_path ← get_device_path i (bstr "system");
    let bootdev := drop (length (bstr "/dev/block/platform/")) system_path in
    Some (take (length bootdev - length (bstr "/by-name/system")) bootdev).

(** ** The partitions on the command line *)

Inductive ImageType :=
  | IMAGE_TYPE_SYSTEM | IMAGE_TYPE_CACHE | IMAGE_TYPE_USER_DATA | IMAGE_TYPE_SD_CARD
  | IMAGE_TYPE_ENCRYPTION_KEY | IMAGE_TYPE_VENDOR.

Definition imagePartitionTypes : list ImageType :=
  [IMAGE_TYPE_SD_CARD; IMAGE_TYPE_VENDOR; IMAGE_TYPE_ENCRYPTION_KEY; IMAGE_TYPE_USER_DATA; IMAGE_TYPE_CACHE; IMAGE_TYPE_SYSTEM].
Definition storageDeviceType : bytes := bstr "virtio-blk-device".

Record AndroidHwConfig := {
  disk_vendorPartition_path : option bytes; disk_vendorPartition_initPath : option bytes; disk_cachePartition : bool;
  disk_cachePartition_path : option bytes; disk_dataPartition_path : bytes; hw_sdCard_path : option bytes;
  disk_encryptionKeyPartition_path : option bytes }.

(** The options and features that are read, and [pathFileSize]. *)
Record setup := {
  m_hw : AndroidHwConfig; m_avd : AvdInfo; android_op_writable_system : bool; feature_EncryptUserData : bool;
  pathFileSize : bytes -> option Z }.

Definition non_empty_path (path : option bytes) : option bytes :=
  match path with Some [] | None => None | Some p => Some p end.

(** [None]: the image has no name, and the program crashes. *)
Definition get_qcow2_image_basename (image : bytes) : option bytes :=
  basename ← path_basename image; Some (basename ++ bstr ".qcow2").

(** The size of the qcow2 cache, an [int]. *)
Definition l2CacheSize (diskSize : Z) : Z :=
  let gb := 1024 * 1024 * 1024 in
  Z.max (s32 (u64 (u64 (diskSize + (gb - 1)) / gb * 131072))) (1024 * 1024).

(** A drive: its id, the file, the file that [pathFileSize] is asked for, whether it is
    qcow2. *)
Record drive := { d_id : bytes; d_file : bytes; d_filePath : bytes; d_qcow2 : bool }.

Definition qcow2_drive (id path : bytes) : drive :=
  {| d_id := id; d_file := path ++ bstr ".qcow2"; d_filePath := path; d_qcow2 := true |}.

(** A drive with a read-only image, or with an overlay in the content directory. *)
Definition image_drive (s : setup) (id image : bytes) (writable : bool) : option drive :=
  if writable then
    basename ← get_qcow2_image_basename image;
    let path := join (contentPath (m_avd s)) basename in
    Some {| d_id := id; d_file := path; d_filePath := path; d_qcow2 := true |}
  else Some {| d_id := id; d_file := image; d_filePath := image; d_qcow2 := false |}.

(** The switch of [createPartionParameters]: no drive, or a drive. The outer [None] is a
    crash. *)
Definition partition_drive (s : setup) (type : ImageType) (writable : bool) : option (option drive) :=
  let hw := m_hw s in
  match type with
  | IMAGE_TYPE_SYSTEM =>
      let writable := (apiLevel (m_avd s) <=? 15) || writable in
      image ← (match image_usersystem (m_avd s) with Some p => Some p | None => image_initsystem (m_avd s) end);
      Some <$> image_drive s (bstr "system") image writable
  | IMAGE_TYPE_VENDOR =>
      match disk_vendorPartition_path hw, disk_vendorPartition_initPath hw with
      | None, None => Some None
      | _, _ =>
          image ← (match image_uservendor (m_avd s) with Some p => Some p | None => image_initvendor (m_avd s) end);
          Some <$> image_drive s (bstr "vendor") image writable
      end
  | IMAGE_TYPE_CACHE =>
      Some (path ← (if disk_cachePartition hw then non_empty_path (disk_cachePartition_path hw) else None);
            Some (qcow2_drive (bstr "cache") path))
  | IMAGE_TYPE_USER_DATA => Some (Some (qcow2_drive (bstr "userdata") (disk_dataPartition_path hw)))
  | IMAGE_TYPE_SD_CARD => Some (path ← non_empty_path (hw_sdCard_path hw); Some (qcow2_drive (bstr "sdcard") path))
  | IMAGE_TYPE_ENCRYPTION_KEY =>
      Some (path ← (if feature_EncryptUserData s then non_empty_path (disk_encryptionKeyPartition_path hw) else None);
            Some (qcow2_drive (bstr "encrypt") path))
  end.

Definition drive_param (s : setup) (index : nat) (d : drive) : bytes :=
  bstr "index=" ++ dec (Z.of_nat index) ++ bstr ",id=" ++ d_id d ++ bstr ",if=none,file=" ++ d_file d ++
  if d_qcow2 d then
    bstr ",overlap-check=none,cache=unsafe" ++
    match pathFileSize s (d_filePath d) with Some size => bstr ",l2-cache-size=" ++ dec_signed (l2CacheSize size) | None => [] end
  else bstr ",read-only".

Definition device_param (id : bytes) : bytes := storageDeviceType ++ bstr ",drive=" ++ id.

(** The loop over the types, with [m_driveIndex]. *)
Fixpoint partition_args (s : setup) (types : list ImageType) (m_driveIndex : nat) : option (list bytes) :=
  match types with
  | [] => Some []
  | type :: types =>
      let writable := match type with IMAGE_TYPE_SYSTEM | IMAGE_TYPE_VENDOR => android_op_writable_system s | _ => true end in
      d ← partition_drive s type writable;
      match d with
      | None => partition_args s types m_driveIndex
      | Some d =>
          rest ← partition_args s types (S m_driveIndex);
          Some ([bstr "-drive"; drive_param s m_driveIndex d; bstr "-device"; device_param (d_id d)] ++ rest)
      end
  end.

Definition PartitionParameters_create (s : setup) : option (list bytes) := partition_args s imagePartitionTypes 0.

(** The disk of the agent, before the partitions. *)
Definition agent_args (getenv : bytes -> option bytes) : list bytes :=
  match getNonEmptyEnv getenv "MACMU_GUEST_AGENT_IMAGE" with
  | Some image =>
      [bstr "-blockdev"; bstr "driver=file,node-name=macmu_file,filename=" ++ image ++ bstr ",read-only=on";
       bstr "-blockdev"; bstr "driver=raw,node-name=macmu,file=macmu_file,read-only=on";
       bstr "-device"; storageDeviceType ++ bstr ",drive=macmu"]
  | None => []
  end.

Definition disk_args (getenv : bytes -> option bytes) (s : setup) : option (list bytes) :=
  partitions ← PartitionParameters_create s; Some (agent_args getenv ++ partitions).

(** ** The addresses *)

(** A transport of the board [virt], which [main] asks for on aarch64 hosts: its address,
    and [max_index] of its bus. *)
Record transport := { t_base : Z; t_max_index : nat }.

Definition NUM_VIRTIO_TRANSPORTS : nat := 32.
Definition mmio_base : Z := 0xa000000.
Definition mmio_size : Z := 0x200.

(** The children of the system bus: [bus_add_child] puts a new one in front. *)
Definition bus_add_child (children : list transport) (t : transport) : list transport := t :: children.

Definition create_virtio_devices : list transport :=
  fold_left (fun children i => bus_add_child children {| t_base := mmio_base + Z.of_nat i * mmio_size; t_max_index := 0 |})
    (seq 0 NUM_VIRTIO_TRANSPORTS) [].

Definition max_dev : nat := 1.
Definition qbus_is_full (t : transport) : bool := (max_dev <=? t_max_index t)%nat.

(** The search for a bus goes over the children in order and takes the first that is not
    full; the device is added to it. [None]: no bus for the device. *)
Fixpoint qbus_plug (children : list transport) : option (Z * list transport) :=
  match children with
  | [] => None
  | t :: children =>
      if qbus_is_full t then ('(base, children) ← qbus_plug children; Some (base, t :: children))
      else Some (t_base t, {| t_base := t_base t; t_max_index := S (t_max_index t) |} :: children)
  end.

(** The devices of the command line, in order. *)
Fixpoint block_devices (args : list bytes) : list bytes :=
  match args with
  | a :: ((p :: _) as args') =>
      if bool_decide (a = bstr "-device") && starts_with (storageDeviceType ++ bstr ",drive=") p
      then drop (length (storageDeviceType ++ bstr ",drive=")) p :: block_devices args'
      else block_devices args'
  | _ => []
  end.

Fixpoint plug_all (children : list transport) (ids : list bytes) : option (list (bytes * Z)) :=
  match ids with
  | [] => Some []
  | id :: ids => '(base, children) ← qbus_plug children; rest ← plug_all children ids; Some ((id, base) :: rest)
  end.

(** The drives with their addresses. *)
Definition placed (args : list bytes) : option (list (bytes * Z)) := plug_all create_virtio_devices (block_devices args).

(** ** The device tree of the board *)

(** Nodes by path, with their properties. The functions that exit on an error return
    [None]. *)
Abbreviation fdt := (gmap bytes (gmap bytes bytes)).

(** [strrchr(name, '/')]: what is before it. *)
Fixpoint before_last_slash (name : bytes) : option bytes :=
  match name with
  | [] => None
  | b :: name =>
      match before_last_slash name with
      | Some parent => Some (b :: parent)
      | None => if bool_decide (b = SLASH) then Some [] else None
      end
  end.

Definition qemu_fdt_add_subnode (name : bytes) (t : fdt) : option fdt :=
  match before_last_slash name with
  | None => Some t
  | Some parent =>
      if bool_decide (parent = []) || is_some (t !! parent) then
        match t !! name with Some _ => None | None => Some (<[name := ∅]> t) end
      else None
  end.

Definition qemu_fdt_setprop_string (path property value : bytes) (t : fdt) : option fdt :=
  match t !! path with Some props => Some (<[path := <[property := value ++ [NUL]]> props]> t) | None => None end.

Definition kMacMuGuestAgentDevicePath : bytes := bstr "/dev/block/platform/a003e00.virtio_mmio/by-name/macmu".
Definition kMacMuGuestShiftedVendorDevicePath : bytes := bstr "/dev/block/platform/a003c00.virtio_mmio/by-name/vendor".
Definition kMacMuGuestShiftedDynamicPartitionBootDevice : bytes := bstr "a003400.virtio_mmio".

Definition get_macmu_guest_agent_device_path (getenv : bytes -> option bytes) : bytes :=
  default kMacMuGuestAgentDevicePath (getNonEmptyEnv getenv "MACMU_GUEST_AGENT_DEVICE").

Definition fstab_node (name : string) : bytes := bstr "/firmware/android/fstab/" ++ bstr name.

(** The six calls for one entry. *)
Definition add_entry (name compatible : string) (dev : bytes) (t : fdt) : option fdt :=
  let path := fstab_node name in
  t ← qemu_fdt_add_subnode path t;
  t ← qemu_fdt_setprop_string path (bstr "compatible") (bstr compatible) t;
  t ← qemu_fdt_setprop_string path (bstr "dev") dev t;
  t ← qemu_fdt_setprop_string path (bstr "fsmgr_flags") (bstr "wait") t;
  t ← qemu_fdt_setprop_string path (bstr "mnt_flags") (bstr "ro") t;
  qemu_fdt_setprop_string path (bstr "type") (bstr "ext4") t.

Definition ranchu_device_tree_setup (getenv : bytes -> option bytes) (systemAsRoot : bool) (avd : AvdInfo) (t : fdt) : option fdt :=
  let image := getNonEmptyEnv getenv "MACMU_GUEST_AGENT_IMAGE" in
  t ← qemu_fdt_add_subnode (bstr "/firmware/android/fstab") t;
  t ← qemu_fdt_setprop_string (bstr "/firmware/android/fstab") (bstr "compatible") (bstr "android,fstab") t;
  t ← (match (if systemAsRoot then None else avdInfo_getSystemImageDevicePathInGuest avd) with
       | Some system_path => add_entry "system" "android,system" system_path t
       | None => Some t
       end);
  t ← (match avdInfo_getVendorImageDevicePathInGuest avd with
       | Some vendor_path =>
           let vendor_device_path := if is_some image then kMacMuGuestShiftedVendorDevicePath else vendor_path in
           add_entry "vendor" "android,vendor" vendor_device_path t
       | None => Some t
       end);
  match image with
  | Some _ => add_entry "macmu" "android,macmu" (get_macmu_guest_agent_device_path getenv) t
  | None => Some t
  end.

(** ** The DTB file *)

(** [struct node]: the name, the properties with their terminators, and the first child;
    [next_sibling] is [nullptr] in every node. *)
#[warnings="-register-all"]
Inductive node := Node (name : bytes) (proplist : list (bytes * bytes)) (children : option node).

Record Params := { vendor_device_location : bytes; macmu_device_location : bytes }.

Definition initProperty (name : string) (val : bytes) : bytes * bytes := (bstr name, val ++ [NUL]).

Definition entry_properties (compatible : string) (dev : bytes) : list (bytes * bytes) :=
  [initProperty "compatible" (bstr compatible); initProperty "dev" dev; initProperty "type" (bstr "ext4");
   initProperty "mnt_flags" (bstr "noatime,ro,errors=panic"); initProperty "fsmgr_flags" (bstr "wait")].

Definition dtb_tree (params : Params) : node :=
  let macmu :=
    match macmu_device_location params with
    | [] => None
    | dev => Some (Node (bstr "macmu") (entry_properties "android,macmu" dev) None)
    end in
  let vendor := Node (bstr "vendor") (entry_properties "android,vendor" (vendor_device_location params)) macmu in
  let fstab := Node (bstr "fstab") [initProperty "compatible" (bstr "android,fstab")] (Some vendor) in
  let android := Node (bstr "android") [initProperty "compatible" (bstr "android,firmware")] (Some fstab) in
  Node [] [] (Some (Node (bstr "firmware") [] (Some android))).

Section dtb.
(** [dt_to_blob] of libdtb. *)
Context (dt_to_blob : node -> bytes).

(** [can_open]: whether the file can be opened for writing. *)
Definition createDtbFile (can_open : bool) (params : Params) (dtbFilename : bytes) (f : files) : Z * files :=
  if can_open then (0, <[dtbFilename := dt_to_blob (dtb_tree params)]> f) else (1, f).

(** The part of [main] under [KernelDeviceTreeBlobSupport]: the exit status, or the name
    given to [-dtb]. *)
Definition prepare_dtb (can_open android_op_wipe_data : bool) (getenv : bytes -> option bytes) (s : setup) (f : files)
    : (Z + bytes) * files :=
  let dtbFileName := getWriteableFilename (disk_dataPartition_path (m_hw s)) (bstr "default.dtb") in
  let image := getNonEmptyEnv getenv "MACMU_GUEST_AGENT_IMAGE" in
  if android_op_wipe_data || negb (is_some (f !! dtbFileName)) || is_some image then
    match avdInfo_getVendorImageDevicePathInGuest (m_avd s) with
    | Some vendor_path =>
        let params := {| vendor_device_location := if is_some image then kMacMuGuestShiftedVendorDevicePath else vendor_path;
                         macmu_device_location := [] |} in
        let '(exitStatus, f) := createDtbFile can_open params dtbFileName f in
        if negb (exitStatus =? 0) then (inl exitStatus, f) else (inr dtbFileName, f)
    | None => (inl 1, f)
    end
  else (inr dtbFileName, f).
End dtb.

(** The parameter that names the device of the dynamic partitions; [None] when the AVD has
    no system image, where the code appends a null pointer. *)
Definition boot_devices (getenv : bytes -> option bytes) (avd : AvdInfo) : option bytes :=
  device ← (if is_some (getNonEmptyEnv getenv "MACMU_GUEST_AGENT_IMAGE") then Some kMacMuGuestShiftedDynamicPartitionBootDevice
            else avdInfo_getDynamicPartitionBootDevice avd);
  Some (bstr "androidboot.boot_devices=" ++ device).

(** ** Addresses in the order of the command line *)

Lemma transports_eq :
  create_virtio_devices = (fun k => {| t_base := 0xa003e00 - 0x200 * Z.of_nat k; t_max_index := 0 |}) <$> seq 0 32.
Proof. vm_compute. reflexivity. Qed.

(** [used] transports in front, each with its device. *)
Lemma plug_all_free used k n ids :
  Forall (fun t => qbus_is_full t = true) used -> (length ids <= n)%nat ->
  plug_all (used ++ ((fun k => {| t_base := 0xa003e00 - 0x200 * Z.of_nat k; t_max_index := 0 |}) <$> seq k n)) ids =
  Some (zip ids ((fun k => 0xa003e00 - 0x200 * Z.of_nat k) <$> seq k (length ids))).
Proof.
  revert used k n. induction ids as [|id ids IH]; intros used k n Hu Hn; [done|]. destruct n as [|n]; [cbn in Hn; lia|].
  cbn [plug_all seq fmap list_fmap]. set (t := {| t_base := _; t_max_index := 0 |}). set (rest := _ <$> seq (S k) n).
  assert (qbus_plug (used ++ t :: rest) = Some (t_base t, (used ++ [{| t_base := t_base t; t_max_index := 1 |}]) ++ rest)) as ->.
  { clear IH. induction Hu as [|u used Hf _ IHu]; [done|]. cbn [app qbus_plug]. by rewrite Hf, IHu. }
  cbn [mbind option_bind]. unfold rest. rewrite (IH _ (S k) n).
  - done.
  - apply Forall_app. split; [done|]. by apply Forall_singleton.
  - cbn in Hn. lia.
Qed.

Lemma placed_addresses args :
  (length (block_devices args) <= 32)%nat ->
  placed args = Some (zip (block_devices args) ((fun k => 0xa003e00 - 0x200 * Z.of_nat k) <$> seq 0 (length (block_devices args)))).
Proof. intros H. unfold placed. rewrite transports_eq. by apply (plug_all_free []). Qed.

(** ** The drives of a setup *)

Definition drive_id (type : ImageType) : bytes :=
  bstr match type with
  | IMAGE_TYPE_SYSTEM => "system" | IMAGE_TYPE_CACHE => "cache" | IMAGE_TYPE_USER_DATA => "userdata"
  | IMAGE_TYPE_SD_CARD => "sdcard" | IMAGE_TYPE_ENCRYPTION_KEY => "encrypt" | IMAGE_TYPE_VENDOR => "vendor" end.

(** Whether a type has a drive. *)
Definition has_drive (s : setup) (type : ImageType) : bool :=
  let hw := m_hw s in
  match type with
  | IMAGE_TYPE_SYSTEM | IMAGE_TYPE_USER_DATA => true
  | IMAGE_TYPE_VENDOR => is_some (disk_vendorPartition_path hw) || is_some (disk_vendorPartition_initPath hw)
  | IMAGE_TYPE_CACHE => disk_cachePartition hw && is_some (non_empty_path (disk_cachePartition_path hw))
  | IMAGE_TYPE_SD_CARD => is_some (non_empty_path (hw_sdCard_path hw))
  | IMAGE_TYPE_ENCRYPTION_KEY => feature_EncryptUserData s && is_some (non_empty_path (disk_encryptionKeyPartition_path hw))
  end.

Lemma image_drive_id s id image w d : image_drive s id image w = Some d -> d_id d = id.
Proof. unfold image_drive. destruct w; [destruct (get_qcow2_image_basename image)|]; cbn; intros; by simplify_eq. Qed.

Lemma partition_drive_spec s type w d :
  partition_drive s type w = Some d ->
  is_some d = has_drive s type /\ match d with Some d => d_id d = drive_id type | None => True end.
Proof.
  assert (forall id i w', (Some <$> image_drive s id i w') = Some d -> is_some d = true /\ match d with Some d => d_id d = id | None => True end)
    as Himg.
  { intros id i w'. destruct (image_drive s id i w') eqn:E; [|done]. intros H. cbn in H. simplify_eq. split; [done|].
    by eapply image_drive_id. }
  destruct type; cbn; intros H.
  - destruct (image_usersystem (m_avd s)), (image_initsystem (m_avd s)); cbn in H; try done; by eapply Himg.
  - simplify_eq. destruct (disk_cachePartition (m_hw s)); [|done]. by destruct (non_empty_path _).
  - by simplify_eq.
  - simplify_eq. by destruct (non_empty_path _).
  - simplify_eq. destruct (feature_EncryptUserData s); [|done]. by destruct (non_empty_path _).
  - destruct (disk_vendorPartition_path (m_hw s)), (disk_vendorPartition_initPath (m_hw s)); cbn;
      [..|by simplify_eq]; destruct (image_uservendor (m_avd s)), (image_initvendor (m_avd s)); cbn in H; try done; by eapply Himg.
Qed.

Lemma block_devices_skip a args : a <> bstr "-device" -> block_devices (a :: args) = block_devices args.
Proof. intros H. destruct args as [|p args]; [done|]. cbn. by rewrite bool_decide_eq_false_2. Qed.

Lemma block_devices_device id args :
  device_param id <> bstr "-device" -> block_devices (bstr "-device" :: device_param id :: args) = id :: block_devices args.
Proof.
  intros H. change (block_devices (bstr "-device" :: device_param id :: args)) with
    (if bool_decide (bstr "-device" = bstr "-device") && starts_with (storageDeviceType ++ bstr ",drive=") (device_param id)
     then drop (length (storageDeviceType ++ bstr ",drive=")) (device_param id) :: block_devices (device_param id :: args)
     else block_devices (device_param id :: args)).
  rewrite bool_decide_eq_true_2 by done. unfold device_param, starts_with. rewrite app_assoc, take_app_length, drop_app_length.
  rewrite bool_decide_eq_true_2 by done. cbn [andb]. f_equal. apply block_devices_skip. by rewrite <- app_assoc.
Qed.

Lemma device_param_other id : device_param id <> bstr "-device".
Proof. discriminate. Qed.

Lemma drive_param_other s n d : drive_param s n d <> bstr "-device".
Proof. discriminate. Qed.

Lemma partition_args_devices s types n args :
  partition_args s types n = Some args -> block_devices args = drive_id <$> List.filter (has_drive s) types.
Proof.
  revert n args. induction types as [|type types IH]; intros n args; [cbn; intros; by simplify_eq|].
  cbn [partition_args List.filter]. destruct (partition_drive s type _) as [d|] eqn:Ed; [|done].
  apply partition_drive_spec in Ed as [Hs Hid]. rewrite <- Hs. cbn [mbind option_bind].
  destruct d as [d|]; cbn [is_some]; [|apply IH]. destruct (partition_args s types (S n)) as [rest|] eqn:Er; [|done].
  cbn [mbind option_bind]. intros H. apply (inj Some) in H as <-. cbn [app]. rewrite (block_devices_skip (bstr "-drive")) by done.
  rewrite block_devices_skip by apply drive_param_other. rewrite block_devices_device by apply device_param_other.
  cbn [fmap list_fmap]. rewrite Hid. f_equal. by apply (IH (S n)).
Qed.

(** The drives, in the order of their addresses. *)
Lemma disk_args_devices getenv s args :
  disk_args getenv s = Some args ->
  block_devices args = (if is_some (getNonEmptyEnv getenv "MACMU_GUEST_AGENT_IMAGE") then [bstr "macmu"] else []) ++
    (drive_id <$> List.filter (has_drive s) imagePartitionTypes).
Proof.
  unfold disk_args, PartitionParameters_create. destruct (partition_args _ _ _) as [partitions|] eqn:Ep; [|done].
  cbn [mbind option_bind]. intros H. apply (inj Some) in H as <-. apply partition_args_devices in Ep. unfold agent_args.
  destruct (getNonEmptyEnv getenv "MACMU_GUEST_AGENT_IMAGE") as [image|]; [|done]. cbn [app is_some].
  do 4 (rewrite block_devices_skip by discriminate).
  change (storageDeviceType ++ bstr ",drive=macmu") with (device_param (bstr "macmu")).
  rewrite block_devices_device by apply device_param_other. by rewrite Ep.
Qed.

(** ** Where the guest finds a drive *)

Definition hex_digit (d : Z) : Init.Byte.byte := byte.of_Z (if d <? 10 then 48 + d else 87 + d).

Fixpoint hex_aux (fuel : nat) (n : Z) (acc : bytes) : bytes :=
  match fuel with
  | O => acc
  | S fuel => let acc := hex_digit (n mod 16) :: acc in if n <? 16 then acc else hex_aux fuel (n / 16) acc
  end.

(** The name of the platform device at an address, which the guest derives from the node
    [virtio_mmio@<address>] of the board. *)
Definition platform_device (base : Z) : bytes := hex_aux 16 base [] ++ bstr ".virtio_mmio".

Definition guest_path (base : Z) (partition : bytes) : bytes :=
  bstr "/dev/block/platform/" ++ platform_device base ++ bstr "/by-name/" ++ partition.

(** The name that [get_device_path] has for a drive. *)
Definition table_name (type : ImageType) : bytes :=
  match type with IMAGE_TYPE_ENCRYPTION_KEY => bstr "encryption" | _ => drive_id type end.

(** Whether [get_device_path] lists a disk; it always lists a cache. *)
Definition listed (i : AvdInfo) (type : ImageType) : bool :=
  match type with
  | IMAGE_TYPE_SD_CARD => has_sdcard i | IMAGE_TYPE_VENDOR => has_vendor i
  | IMAGE_TYPE_ENCRYPTION_KEY => has_encryption i | _ => true
  end.

(** The number of a type in the order of the command line. *)
Definition order (type : ImageType) : nat :=
  match type with
  | IMAGE_TYPE_SD_CARD => 0 | IMAGE_TYPE_VENDOR => 1 | IMAGE_TYPE_ENCRYPTION_KEY => 2
  | IMAGE_TYPE_USER_DATA => 3 | IMAGE_TYPE_CACHE => 4 | IMAGE_TYPE_SYSTEM => 5 end.

(** How many of the types before [type] satisfy [f]. *)
Definition position (f : ImageType -> bool) (type : ImageType) : nat :=
  length (List.filter f (take (order type) imagePartitionTypes)).

(** The transports from the highest address down. *)
Definition address (k : nat) : Z := 0xa003e00 - 0x200 * Z.of_nat k.

Fixpoint address_of (id : bytes) (l : list (bytes * Z)) : option Z :=
  match l with [] => None | (id', a) :: l => if bool_decide (id = id') then Some a else address_of id l end.

Lemma address_of_zip id ids k :
  address_of id (zip ids (address <$> seq k (length ids))) = (fun i => address (k + i)) <$> index_of id ids.
Proof.
  revert k. induction ids as [|x ids IH]; intros k; [done|]. cbn [length seq fmap list_fmap zip zip_with address_of index_of].
  case_bool_decide; [cbn; by rewrite Nat.add_0_r|]. fold (address <$> seq (S k) (length ids)). rewrite IH.
  destruct (index_of id ids); [|done]. cbn. do 2 f_equal. lia.
Qed.

Abbreviation agent getenv := (is_some (getNonEmptyEnv getenv "MACMU_GUEST_AGENT_IMAGE")).

(** Every disk that is plugged, with its address: the one of the agent comes first, the
    others follow in the order of the command line. *)
Lemma placed_at getenv s args :
  disk_args getenv s = Some args ->
  exists l, placed args = Some l /\
    address_of (bstr "macmu") l = (if agent getenv then Some (address 0) else None) /\
    forall type, address_of (drive_id type) l =
      if has_drive s type then Some (address (Nat.b2n (agent getenv) + position (has_drive s) type)) else None.
Proof.
  intros Ha. apply disk_args_devices in Ha. assert (length (block_devices args) <= 32)%nat as Hl.
  { rewrite Ha, length_app, length_fmap. pose proof (List.filter_length_le (has_drive s) imagePartitionTypes) as Hf.
    cbn [imagePartitionTypes length] in Hf. destruct (agent getenv); cbn [length]; lia. }
  rewrite (placed_addresses args Hl). change (fun k => 0xa003e00 - 0x200 * Z.of_nat k) with address.
  eexists. split; [reflexivity|]. setoid_rewrite address_of_zip. rewrite Ha. clear Ha Hl args.
  unfold position, imagePartitionTypes. set (f := has_drive s).
  assert (f IMAGE_TYPE_USER_DATA = true /\ f IMAGE_TYPE_SYSTEM = true) as [Hu Hs] by done. clearbody f.
  destruct (agent getenv), (f IMAGE_TYPE_SD_CARD) eqn:E1, (f IMAGE_TYPE_VENDOR) eqn:E2,
    (f IMAGE_TYPE_ENCRYPTION_KEY) eqn:E3, (f IMAGE_TYPE_CACHE) eqn:E4; cbn [List.filter];
    rewrite E1, E2, E3, E4, Hu, Hs; (split; [vm_compute; done|]);
    intros []; cbn [order take List.filter]; rewrite ?E1, ?E2, ?E3, ?E4, ?Hu, ?Hs; vm_compute; done.
Qed.

(** What the emulator names: the transport of a disk in its own table. *)
Lemma device_path_listed info type :
  is_armish info = true -> listed info type = true ->
  get_device_path info (table_name type) = Some (guest_path (address (position (listed info) type)) (table_name type)).
Proof.
  intros Ha. unfold get_device_path, device_table, position. rewrite Ha. unfold listed at 1 2.
  destruct (has_sdcard info), (has_vendor info), (has_encryption info), type; vm_compute; done.
Qed.

Lemma arm_not_x86 info : is_armish info = true -> is_x86ish info = false.
Proof.
  unfold is_armish, is_x86ish, starts_with. destruct (targetAbi info) as [|b abi]; [done|].
  rewrite bool_decide_eq_true, bool_decide_eq_false. intros H1 H2. cbn in H1, H2. congruence.
Qed.

Lemma boot_device_listed info :
  is_armish info = true ->
  avdInfo_getDynamicPartitionBootDevice info = Some (platform_device (address (position (listed info) IMAGE_TYPE_SYSTEM))).
Proof.
  intros Ha. unfold avdInfo_getDynamicPartitionBootDevice. rewrite (arm_not_x86 _ Ha).
  unfold get_device_path, device_table, position. rewrite Ha. unfold listed.
  destruct (has_sdcard info), (has_vendor info), (has_encryption info); vm_compute; done.
Qed.

Lemma position_bound f type : (position f type <= 5)%nat.
Proof.
  unfold position. etrans; [apply List.filter_length_le|]. rewrite length_take. destruct type; vm_compute; lia.
Qed.

(** Different transports have different names. *)
Lemma platform_device_inj i j : (i < 8)%nat -> (j < 8)%nat ->
  platform_device (address i) = platform_device (address j) -> i = j.
Proof.
  intros Hi Hj.
  assert (forallb (fun i => forallb (fun j =>
    negb (bool_decide (platform_device (address i) = platform_device (address j))) || (i =? j)%nat) (seq 0 8)) (seq 0 8) = true)
    as H by (vm_compute; reflexivity).
  rewrite forallb_forall in H. specialize (H i ltac:(apply in_seq; lia)). rewrite forallb_forall in H.
  specialize (H j ltac:(apply in_seq; lia)). intros E. rewrite (bool_decide_eq_true_2 _ E) in H. by apply Nat.eqb_eq.
Qed.

Lemma guest_path_inj i j x : (i < 8)%nat -> (j < 8)%nat -> guest_path (address i) x = guest_path (address j) x <-> i = j.
Proof.
  intros Hi Hj. split; [|by intros ->]. unfold guest_path. intros H. apply (inj (app _)) in H.
  apply app_inv_tail in H. by eapply platform_device_inj.
Qed.

(** ** The entries of the board's device tree *)

Definition fstab_root : bytes := bstr "/firmware/android/fstab".

Definition entry (compatible : string) (dev : bytes) : gmap bytes bytes :=
  <[bstr "type" := bstr "ext4" ++ [NUL]]> (<[bstr "mnt_flags" := bstr "ro" ++ [NUL]]> (<[bstr "fsmgr_flags" := bstr "wait" ++ [NUL]]>
    (<[bstr "dev" := dev ++ [NUL]]> (<[bstr "compatible" := bstr compatible ++ [NUL]]> ∅)))).

Lemma setprop_ok (path property value : bytes) (props : gmap bytes bytes) (t : fdt) :
  qemu_fdt_setprop_string path property value (<[path := props]> t) = Some (<[path := <[property := value ++ [NUL]]> props]> t).
Proof. unfold qemu_fdt_setprop_string. by rewrite lookup_insert_eq, insert_insert_eq. Qed.

Lemma add_subnode_ok (name parent : bytes) (t : fdt) :
  before_last_slash name = Some parent -> is_Some (t !! parent) -> t !! name = None ->
  qemu_fdt_add_subnode name t = Some (<[name := ∅]> t).
Proof. intros Hp [props Hr] Hn. unfold qemu_fdt_add_subnode. rewrite Hp, Hr, Hn. cbn [is_some]. by rewrite orb_true_r. Qed.

Lemma add_entry_ok (name compatible : string) (dev : bytes) (t : fdt) :
  before_last_slash (fstab_node name) = Some fstab_root -> is_Some (t !! fstab_root) -> t !! fstab_node name = None ->
  add_entry name compatible dev t = Some (<[fstab_node name := entry compatible dev]> t).
Proof.
  intros Hp Hr Hn. unfold add_entry. rewrite (add_subnode_ok _ fstab_root) by done.
  cbn [mbind option_bind]. repeat (rewrite setprop_ok; cbn [mbind option_bind]). done.
Qed.

(** The entries: name, [compatible] and device. *)
Definition fstab_entries (getenv : bytes -> option bytes) (systemAsRoot : bool) (avd : AvdInfo) : list (string * string * bytes) :=
  let agent := is_some (getNonEmptyEnv getenv "MACMU_GUEST_AGENT_IMAGE") in
  match (if systemAsRoot then None else avdInfo_getSystemImageDevicePathInGuest avd) with
  | Some p => [("system", "android,system", p)] | None => [] end ++
  match avdInfo_getVendorImageDevicePathInGuest avd with
  | Some p => [("vendor", "android,vendor", if agent then kMacMuGuestShiftedVendorDevicePath else p)] | None => [] end ++
  (if agent then [("macmu", "android,macmu", get_macmu_guest_agent_device_path getenv)] else []).

Definition insert_entry (t : fdt) (e : string * string * bytes) : fdt :=
  let '(name, compatible, dev) := e in <[fstab_node name := entry compatible dev]> t.

Lemma setup_ok (getenv : bytes -> option bytes) (systemAsRoot : bool) (avd : AvdInfo) (t : fdt) :
  is_Some (t !! bstr "/firmware/android") -> t !! fstab_root = None ->
  (forall name, name ∈ ["system"; "vendor"; "macmu"] -> t !! fstab_node name = None) ->
  ranchu_device_tree_setup getenv systemAsRoot avd t =
  Some (fold_left insert_entry (fstab_entries getenv systemAsRoot avd)
    (<[fstab_root := {[bstr "compatible" := bstr "android,fstab" ++ [NUL]]}]> t)).
Proof.
  intros Ha Hr Hn. unfold ranchu_device_tree_setup, fstab_entries. fold fstab_root.
  rewrite (add_subnode_ok fstab_root (bstr "/firmware/android")) by done.
  cbn [mbind option_bind]. rewrite setprop_ok. cbn [mbind option_bind]. rewrite insert_empty.
  set (t0 := <[fstab_root := _]> t).
  assert (forall name, name ∈ ["system"; "vendor"; "macmu"] -> t0 !! fstab_node name = None) as Hn0.
  { intros name Hin. unfold t0. rewrite lookup_insert_ne; [by apply Hn|]. discriminate. }
  assert (is_Some (t0 !! fstab_root)) as Hr0 by (unfold t0; rewrite lookup_insert_eq; by eexists).
  assert (t0 !! fstab_node "system" = None /\ t0 !! fstab_node "vendor" = None /\ t0 !! fstab_node "macmu" = None)
    as (N1 & N2 & N3) by (split_and!; apply Hn0; rewrite !elem_of_cons; tauto).
  clearbody t0. clear Hn0 Ha Hr Hn.
  assert (fstab_node "system" <> fstab_root /\ fstab_node "vendor" <> fstab_root /\ fstab_node "system" <> fstab_node "vendor" /\
    fstab_node "system" <> fstab_node "macmu" /\ fstab_node "vendor" <> fstab_node "macmu") as (D1 & D2 & D3 & D4 & D5) by done.
  destruct (if systemAsRoot then None else _) as [p1|]; [rewrite (add_entry_ok "system") by done|];
    destruct (avdInfo_getVendorImageDevicePathInGuest avd) as [p2|]; cbn [mbind option_bind];
    [rewrite (add_entry_ok "vendor") by (rewrite ?lookup_insert_ne; done)| |rewrite (add_entry_ok "vendor") by done|];
    cbn [mbind option_bind];
    destruct (getNonEmptyEnv getenv "MACMU_GUEST_AGENT_IMAGE") as [image|]; cbn [is_some app fold_left insert_entry]; try done;
    rewrite add_entry_ok by (rewrite ?lookup_insert_ne; done); done.
Qed.

(** ** The DTB *)

Definition node_name (n : node) : bytes := let '(Node name _ _) := n in name.
Definition node_props (n : node) : list (bytes * bytes) := let '(Node _ props _) := n in props.

(** The node at a path below a node. *)
Fixpoint node_at (path : list bytes) (n : node) : option node :=
  match path, n with
  | [], _ => Some n
  | name :: path, Node _ _ (Some child) => if bool_decide (node_name child = name) then node_at path child else None
  | _ :: _, Node _ _ None => None
  end.

(** The device of an entry, as the guest looks it up under [firmware/android/fstab]. *)
Definition dtb_dev (params : Params) (name : string) : option bytes :=
  n ← node_at [bstr "firmware"; bstr "android"; bstr "fstab"; bstr name] (dtb_tree params);
  snd <$> (list_find (fun p => p.1 = bstr "dev") (node_props n) ≫= fun p => Some p.2).

Definition fdt_dev (t : fdt) (name : string) : option bytes := props ← t !! fstab_node name; props !! bstr "dev".

(** ** Theorems *)

(** C17: The addresses of the disks of an arm guest, and the paths by which the emulator
    names them, for every configuration. The disks take the transports of the board
    from the highest address down, in the order of the command line, the disk of the
    agent first. Without that disk a path of [get_device_path], and the boot device,
    name the address of their disk exactly when as many disks are plugged before it as
    the table of [get_device_path] lists before it: the table has a cache even when the
    configuration has none. With it, the disk of the agent is at the address of its
    default path, the fixed path for the vendor partition is right exactly when no SD
    card is plugged, and the fixed boot device is right exactly when four disks are
    plugged before the system. Arm images of API level 30 and higher have no SD card in
    the table. *)
Theorem guest_disk_paths getenv s args :
  is_armish (m_avd s) = true -> disk_args getenv s = Some args ->
  let avd := m_avd s in
  exists l, placed args = Some l /\
    (forall type, address_of (drive_id type) l =
      if has_drive s type then Some (address (Nat.b2n (agent getenv) + position (has_drive s) type)) else None) /\
    (agent getenv = false ->
      (forall type a, listed avd type = true -> address_of (drive_id type) l = Some a ->
        (get_device_path avd (table_name type) = Some (guest_path a (table_name type)) <->
         position (listed avd) type = position (has_drive s) type)) /\
      (forall a, address_of (bstr "system") l = Some a ->
        (boot_devices getenv avd = Some (bstr "androidboot.boot_devices=" ++ platform_device a) <->
         position (listed avd) IMAGE_TYPE_SYSTEM = position (has_drive s) IMAGE_TYPE_SYSTEM))) /\
    (agent getenv = true ->
      (exists a, address_of (bstr "macmu") l = Some a /\ kMacMuGuestAgentDevicePath = guest_path a (bstr "macmu")) /\
      (forall a, address_of (bstr "vendor") l = Some a ->
        (kMacMuGuestShiftedVendorDevicePath = guest_path a (bstr "vendor") <-> has_drive s IMAGE_TYPE_SD_CARD = false)) /\
      (forall a, address_of (bstr "system") l = Some a ->
        (boot_devices getenv avd = Some (bstr "androidboot.boot_devices=" ++ platform_device a) <->
         position (has_drive s) IMAGE_TYPE_SYSTEM = 4%nat))) /\
    (30 <= apiLevel avd -> has_sdcard avd = false).
Proof.
  intros Harm Ha avd. change (is_armish avd = true) in Harm. destruct (placed_at _ _ _ Ha) as (l & Hl & Hmac & Hat). exists l.
  split; [done|]. split; [done|].
  assert (forall a, address_of (bstr "system") l = Some a -> a = address (Nat.b2n (agent getenv) + position (has_drive s) IMAGE_TYPE_SYSTEM))
    as Hsys.
  { intros a H. pose proof (Hat IMAGE_TYPE_SYSTEM) as E. change (drive_id IMAGE_TYPE_SYSTEM) with (bstr "system") in E.
    rewrite H in E. cbn [has_drive] in E. by injection E. }
  assert (forall i j, (i < 8)%nat -> (j < 8)%nat ->
    Some (bstr "androidboot.boot_devices=" ++ platform_device (address i)) =
    Some (bstr "androidboot.boot_devices=" ++ platform_device (address j)) <-> i = j) as Hboot.
  { intros i j Hi Hj. split; [|by intros ->]. intros H%(inj Some)%(inj (app _)). by eapply platform_device_inj. }
  pose proof (position_bound (has_drive s)) as Hp. pose proof (position_bound (listed avd)) as Hq.
  split; [|split].
  - intros Hno. rewrite Hno in *. cbn [Nat.b2n Nat.add] in *. split.
    + intros type a Hlist H. rewrite (device_path_listed _ _ Harm Hlist). rewrite Hat in H.
      destruct (has_drive s type); [|done]. injection H as <-.
      rewrite <- (guest_path_inj _ _ (table_name type)) by (specialize (Hp type); specialize (Hq type); lia).
      split; [by intros H%(inj Some)|by intros ->].
    + intros a H%Hsys. rewrite H. unfold boot_devices. rewrite Hno, (boot_device_listed _ Harm).
      cbn [mbind option_bind]. apply Hboot; [specialize (Hq IMAGE_TYPE_SYSTEM)|specialize (Hp IMAGE_TYPE_SYSTEM)]; lia.
  - intros Hyes. rewrite Hyes in *. cbn [Nat.b2n Nat.add] in *. split; [|split].
    + exists (address 0). split; [done|]. vm_compute. done.
    + intros a H. specialize (Hat IMAGE_TYPE_VENDOR). change (drive_id IMAGE_TYPE_VENDOR) with (bstr "vendor") in Hat.
      rewrite H in Hat. destruct (has_drive s IMAGE_TYPE_VENDOR); [|done]. injection Hat as ->.
      change kMacMuGuestShiftedVendorDevicePath with (guest_path (address 1) (bstr "vendor")).
      rewrite guest_path_inj by (specialize (Hp IMAGE_TYPE_VENDOR); lia).
      unfold position. cbn [order imagePartitionTypes take List.filter]. by destruct (has_drive s IMAGE_TYPE_SD_CARD).
    + intros a H%Hsys. rewrite H. unfold boot_devices. rewrite Hyes. cbn [mbind option_bind].
      change kMacMuGuestShiftedDynamicPartitionBootDevice with (platform_device (address 5)).
      rewrite Hboot by (specialize (Hp IMAGE_TYPE_SYSTEM); lia). lia.
  - intros H. unfold has_sdcard, avdInfo_getSdCardPath. by rewrite Harm, (proj2 (Z.leb_le _ _) H).
Qed.

(** The tree with the entries, read back. *)
Lemma fold_entries_lookup (getenv : bytes -> option bytes) (systemAsRoot : bool) (avd : AvdInfo) (t : fdt) :
  (forall name, name ∈ ["system"; "vendor"; "macmu"] -> t !! fstab_node name = None) ->
  let t' := fold_left insert_entry (fstab_entries getenv systemAsRoot avd) t in
  let agent := is_some (getNonEmptyEnv getenv "MACMU_GUEST_AGENT_IMAGE") in
  fdt_dev t' "vendor" = (fun p => (if agent then kMacMuGuestShiftedVendorDevicePath else p) ++ [NUL]) <$>
    avdInfo_getVendorImageDevicePathInGuest avd /\
  fdt_dev t' "macmu" = (if agent then Some (get_macmu_guest_agent_device_path getenv ++ [NUL]) else None).
Proof.
  intros Hn. assert (t !! fstab_node "vendor" = None /\ t !! fstab_node "macmu" = None) as (N2 & N3)
    by (split_and!; apply Hn; rewrite !elem_of_cons; tauto).
  assert (fstab_node "system" <> fstab_node "vendor" /\ fstab_node "system" <> fstab_node "macmu" /\
    fstab_node "vendor" <> fstab_node "macmu" /\ fstab_node "macmu" <> fstab_node "vendor") as (D1 & D2 & D3 & D4) by done.
  assert (forall c p, entry c p !! bstr "dev" = Some (p ++ [NUL])) as He.
  { intros c p. unfold entry. rewrite !lookup_insert_ne by done. apply lookup_insert_eq. }
  unfold fstab_entries, fdt_dev. cbn zeta.
  destruct (if systemAsRoot then None else _) as [p1|], (avdInfo_getVendorImageDevicePathInGuest avd) as [p2|],
    (is_some _); cbn [app fold_left insert_entry fmap option_fmap option_map];
    repeat first [rewrite lookup_insert_eq | rewrite lookup_insert_ne by done]; rewrite ?N2, ?N3; cbn [mbind option_bind];
    rewrite ?He; done.
Qed.

Lemma dtb_vendor_dev params : dtb_dev params "vendor" = Some (vendor_device_location params ++ [NUL]).
Proof. unfold dtb_tree, dtb_dev. by destruct (macmu_device_location params). Qed.

(** The device trees name the same disks. From the tree of the board, which has
    [/firmware/android], the setup never exits with an error and adds [fstab] with
    exactly the entries for the system, the vendor partition and the agent's disk; no
    other node changes. The agent's entry is there exactly when an agent image was given,
    with the device of [MACMU_GUEST_AGENT_DEVICE] if that is set. A DTB file that [main]
    writes has the device of the vendor partition that this tree has. *)
Theorem fstab_in_guest (dt_to_blob : node -> bytes) (getenv : bytes -> option bytes) (systemAsRoot : bool) (s : setup) (t : fdt)
    (wipe : bool) (f : files) :
  is_Some (t !! bstr "/firmware/android") -> t !! fstab_root = None ->
  (forall name, name ∈ ["system"; "vendor"; "macmu"] -> t !! fstab_node name = None) ->
  let entries := fstab_entries getenv systemAsRoot (m_avd s) in
  exists t', ranchu_device_tree_setup getenv systemAsRoot (m_avd s) t = Some t' /\
    t' = fold_left insert_entry entries (<[fstab_root := {[bstr "compatible" := bstr "android,fstab" ++ [NUL]]}]> t) /\
    (fdt_dev t' "macmu" = dev ← getNonEmptyEnv getenv "MACMU_GUEST_AGENT_IMAGE";
       Some (default kMacMuGuestAgentDevicePath (getNonEmptyEnv getenv "MACMU_GUEST_AGENT_DEVICE") ++ [NUL])) /\
    (forall name f', prepare_dtb dt_to_blob true wipe getenv s f = (inr name, f') ->
      wipe || negb (is_some (f !! name)) || is_some (getNonEmptyEnv getenv "MACMU_GUEST_AGENT_IMAGE") = true ->
      exists params, f' !! name = Some (dt_to_blob (dtb_tree params)) /\ dtb_dev params "vendor" = fdt_dev t' "vendor").
Proof.
  intros Ha Hr Hn entries. eexists. split; [by apply setup_ok|]. split; [reflexivity|].
  destruct (fold_entries_lookup getenv systemAsRoot (m_avd s)
    (<[fstab_root := {[bstr "compatible" := bstr "android,fstab" ++ [NUL]]}]> t)) as [Hv Hm].
  { intros name Hin. rewrite lookup_insert_ne; [by apply Hn|discriminate]. }
  unfold entries in *. split.
  { rewrite Hm. destruct (getNonEmptyEnv getenv "MACMU_GUEST_AGENT_IMAGE"); done. }
  intros name f'. unfold prepare_dtb. generalize (getWriteableFilename (disk_dataPartition_path (m_hw s)) (bstr "default.dtb")) as dtb.
  intros dtb Hp Hc. assert (name = dtb) as ->.
  { clear Hc. revert Hp. destruct (_ || is_some _); [destruct (avdInfo_getVendorImageDevicePathInGuest _)|]; cbn; intros Hp; by inversion Hp. }
  rewrite Hc in Hp. destruct (avdInfo_getVendorImageDevicePathInGuest (m_avd s)) as [p|]; [|by simplify_eq].
  cbn in Hp. simplify_eq. rewrite lookup_insert_eq. eexists. split; [reflexivity|].
  rewrite dtb_vendor_dev, Hv. reflexivity.
Qed.

(** ** Examples *)

(** A machine of MacMu: an arm64 image of API level 34 with vendor and encryption disks. *)
Definition demo_avd (api : Z) (sdcard : option bytes) : AvdInfo := {|
  targetAbi := bstr "arm64-v8a"; apiLevel := api; contentPath := bstr "/m"; path_exists := fun _ => true; ini_sdcard := None; imagePath_sdcard := None; image_sdcard := sdcard;
  image_encryptionkey := Some (bstr "/m/encryptionkey.img"); image_usersystem := None; image_initsystem := Some (bstr "/s/system.img");
  image_uservendor := None; image_initvendor := Some (bstr "/s/vendor.img") |}.

Definition demo_setup (api : Z) (sdcard : option bytes) : setup := {|
  m_hw := {| disk_vendorPartition_path := None; disk_vendorPartition_initPath := Some (bstr "/s/vendor.img");
             disk_cachePartition := true; disk_cachePartition_path := Some (bstr "/m/cache.img");
             disk_dataPartition_path := bstr "/m/userdata-qemu.img"; hw_sdCard_path := sdcard;
             disk_encryptionKeyPartition_path := Some (bstr "/m/encryptionkey.img") |};
  m_avd := demo_avd api sdcard; android_op_writable_system := false; feature_EncryptUserData := true;
  pathFileSize := fun _ => Some 4096 |}.

Definition agent_env (name : bytes) : option bytes :=
  if bool_decide (name = bstr "MACMU_GUEST_AGENT_IMAGE") then Some (bstr "/m/agent.img") else None.
Definition no_env (name : bytes) : option bytes := None.

Lemma guest_disk_paths_witness :
  exists args l, disk_args agent_env (demo_setup 34 None) = Some args /\ placed args = Some l /\
    address_of (bstr "vendor") l = Some 0xa003c00 /\ address_of (bstr "system") l = Some 0xa003400 /\
    kMacMuGuestShiftedVendorDevicePath = guest_path 0xa003c00 (bstr "vendor") /\
    boot_devices agent_env (demo_avd 34 None) = Some (bstr "androidboot.boot_devices=" ++ platform_device 0xa003400).
Proof.
  destruct (disk_args agent_env (demo_setup 34 None)) as [args|] eqn:Ea; [|discriminate Ea].
  destruct (guest_disk_paths agent_env (demo_setup 34 None) args eq_refl Ea) as (l & Hl & Hat & _ & Hy & _).
  destruct (Hy eq_refl) as (_ & Hv & Hb).
  assert (address_of (bstr "vendor") l = Some 0xa003c00) as Av by exact (Hat IMAGE_TYPE_VENDOR).
  assert (address_of (bstr "system") l = Some 0xa003400) as As by exact (Hat IMAGE_TYPE_SYSTEM).
  exists args, l. do 4 (split; [done|]). split; [by apply (Hv _ Av)|]. by apply (Hb _ As).
Defined.

(** A configuration without a cache disk: the table lists one before the system, so the
    boot device is one transport below the disk of the system. *)
Example no_cache_shifts_system :
  let s := demo_setup 34 None in
  let hw := m_hw s in
  let s := {| m_hw := {| disk_vendorPartition_path := disk_vendorPartition_path hw;
      disk_vendorPartition_initPath := disk_vendorPartition_initPath hw; disk_cachePartition := false;
      disk_cachePartition_path := disk_cachePartition_path hw; disk_dataPartition_path := disk_dataPartition_path hw;
      hw_sdCard_path := hw_sdCard_path hw; disk_encryptionKeyPartition_path := disk_encryptionKeyPartition_path hw |};
    m_avd := m_avd s; android_op_writable_system := false; feature_EncryptUserData := true; pathFileSize := pathFileSize s |} in
  (args ← disk_args no_env s; l ← placed args; address_of (bstr "system") l) = Some 0xa003800 /\
  boot_devices no_env (m_avd s) = Some (bstr "androidboot.boot_devices=" ++ platform_device 0xa003600).
Proof. vm_compute. done. Qed.

Definition board : fdt :=
  <[bstr "/firmware/android" := {[bstr "compatible" := bstr "android,firmware" ++ [NUL]]}]> (<[bstr "/firmware" := ∅]> ∅).

Lemma fstab_in_guest_witness :
  exists t', ranchu_device_tree_setup agent_env true (demo_avd 34 None) board = Some t' /\
    fdt_dev t' "macmu" = Some (kMacMuGuestAgentDevicePath ++ [NUL]).
Proof.
  destruct (fstab_in_guest (fun _ => []) agent_env true (demo_setup 34 None) board false ∅) as (t' & Ht & _ & Hm & _).
  - unfold board. rewrite lookup_insert_eq. by eexists.
  - vm_compute. reflexivity.
  - intros name. rewrite !elem_of_cons, elem_of_nil. intros [->|[->|[->|[]]]]; vm_compute; reflexivity.
  - exists t'. split; [exact Ht|]. rewrite Hm. vm_compute. reflexivity.
Defined.

(** With an SD card, which images below API level 30 can have, the vendor partition is one
    transport lower than the fixed path says. *)
Example sdcard_shifts_vendor :
  (args ← disk_args agent_env (demo_setup 29 (Some (bstr "/m/sdcard.img"))); l ← placed args; address_of (bstr "vendor") l)
    = Some 0xa003a00 /\
  kMacMuGuestShiftedVendorDevicePath = guest_path 0xa003c00 (bstr "vendor").
Proof. vm_compute. done. Qed.

(** A run with the agent image writes a DTB with the shifted path; a run without it finds
    the file and keeps it, while the vendor partition is back at the first transport. *)
Example stale_dtb blob :
  let '(_, f) := prepare_dtb blob true false agent_env (demo_setup 34 None) ∅ in
  let '(r, f') := prepare_dtb blob true false no_env (demo_setup 34 None) f in
  r = inr (bstr "/m/default.dtb") /\
  f' !! bstr "/m/default.dtb" = Some (blob (dtb_tree {| vendor_device_location := kMacMuGuestShiftedVendorDevicePath;
                                                        macmu_device_location := [] |})) /\
  (args ← disk_args no_env (demo_setup 34 None); l ← placed args; address_of (bstr "vendor") l) = Some 0xa003e00.
Proof. vm_compute. done. Qed.

(** [createDtbFile] puts the node of the agent below that of the vendor partition, where a
    reader of [fstab] does not find it. *)
Example macmu_node_nested :
  let params := {| vendor_device_location := bstr "/v"; macmu_device_location := bstr "/a" |} in
  dtb_dev params "macmu" = None /\
  is_some (node_at [bstr "firmware"; bstr "android"; bstr "fstab"; bstr "vendor"; bstr "macmu"] (dtb_tree params)) = true.
Proof. vm_compute. done. Qed.

End GuestDevices.
