(* ===== verification/DisplayExport.v ===== *)
(** The display export subscriptions of the emulator:
    [android/android-emu/android/opengles.cpp] ([sMacMuRenderer],
    [sMacMuDisplayExportSubscriptions] and the functions on them). The renderer belongs to
    gfxstream; what it was told is recorded. Two threads run: the one that attaches and
    stops renderers, and the control receiver, which changes subscriptions. Every access
    of an atomic and every call of the renderer is a step. *)
From S2P Require Import Prelude.

Module DisplayExport.

(** ** State *)

Definition kDisplays : Z := 16.

(** A call of the renderer. *)
Inductive call := SetDisplayExportEnabled (displayId : Z) (enabled : bool) | ClearDisplayExportFrame (displayId : Z) | ResetDisplayExportSubscriptions.

(** What a call says about a display. *)
Definition says (c : call) (d : Z) : option bool :=
  match c with
  | SetDisplayExportEnabled d' enabled => if d' =? d then Some enabled else None
  | ClearDisplayExportFrame d' => if d' =? d then Some false else None
  | ResetDisplayExportSubscriptions => Some false
  end.

(** The thread of the renderer: in [android_setOpenglesRenderer] after the store, and in
    [applyMacMuDisplayExportSubscriptions] after the load of the renderer and in the loop. *)
Inductive attach_pc := AIdle | AStored | ALoaded (renderer : nat) | ALoop (renderer : nat) (subscriptions displayId : Z).

(** The control receiver: before the load of the renderer, and before the call. *)
Inductive caller_pc := CIdle | CLoad (c : call) | CCall (renderer : nat) (c : call).

(** [told r d]: what renderer [r] was last told about display [d]. [stale] holds the
    displays whose bit was changed while the other thread was between its load of the
    subscriptions and its call for the display. *)
Record t := {
  subscriptions : Z; macMuRenderer : option nat; told : nat -> Z -> option bool;
  attach : attach_pc; caller : caller_pc; stale : gset Z }.

Definition init : t := {|
  subscriptions := 0; macMuRenderer := None; told := fun _ _ => None; attach := AIdle; caller := CIdle; stale := ∅ |}.

Definition set_subscriptions v s := {|
  subscriptions := v; macMuRenderer := macMuRenderer s; told := told s; attach := attach s; caller := caller s; stale := stale s |}.
Definition set_renderer v s := {|
  subscriptions := subscriptions s; macMuRenderer := v; told := told s; attach := attach s; caller := caller s; stale := stale s |}.
Definition set_attach v s := {|
  subscriptions := subscriptions s; macMuRenderer := macMuRenderer s; told := told s; attach := v; caller := caller s; stale := stale s |}.
Definition set_caller v s := {|
  subscriptions := subscriptions s; macMuRenderer := macMuRenderer s; told := told s; attach := attach s; caller := v; stale := stale s |}.
Definition set_stale v s := {|
  subscriptions := subscriptions s; macMuRenderer := macMuRenderer s; told := told s; attach := attach s; caller := caller s; stale := v |}.

Definition renderer_call (r : nat) (c : call) (s : t) : t := {|
  subscriptions := subscriptions s; macMuRenderer := macMuRenderer s;
  told := fun r' d => if (r' =? r)%nat then match says c d with Some b => Some b | None => told s r' d end else told s r' d;
  attach := attach s; caller := caller s; stale := stale s |}.

(** ** The thread of the renderer *)

(** [android_setOpenglesRenderer], and the same lines after [initRenderer]. *)
Definition setOpenglesRenderer (r : nat) (s : t) : t := set_attach AStored (set_renderer (Some r) s).

Definition applyMacMuDisplayExportSubscriptions (s : t) : option t :=
  match attach s with
  | AIdle => None
  | AStored => Some (set_attach (match macMuRenderer s with Some r => ALoaded r | None => AIdle end) s)
  | ALoaded r => Some (set_stale ∅ (set_attach (ALoop r (subscriptions s) 0) s))
  | ALoop r m d =>
      if d <? kDisplays then
        Some (set_attach (ALoop r m (d + 1))
          (renderer_call r (SetDisplayExportEnabled d (negb (Z.land m (Z.shiftl 1 d) =? 0))) s))
      else Some (set_attach AIdle s)
  end.

(** The store of [stopOpenglesRendererImpl]. *)
Definition stopOpenglesRenderer (s : t) : t := set_renderer None s.

(** ** The control receiver *)

(** A change of the bit of a display is noted when the other thread has loaded the
    subscriptions and has yet to make its call for the display. *)
Definition note (ds : gset Z) (s : t) : t :=
  match attach s with
  | ALoop _ _ k => set_stale (stale s ∪ filter (fun d => k <= d) ds) s
  | _ => s
  end.

Definition all_displays : gset Z := list_to_set (Z.of_nat <$> seq 0 16).

Definition setDisplayExportEnabled (displayId : Z) (enabled : bool) (s : t) : t :=
  if kDisplays <=? displayId then s
  else
    let mask := Z.shiftl 1 displayId in
    let subs := if enabled then Z.lor (subscriptions s) mask else Z.land (subscriptions s) (u32 (Z.lnot mask)) in
    set_caller (CLoad (SetDisplayExportEnabled displayId enabled)) (note {[displayId]} (set_subscriptions subs s)).

Definition clearDisplayExportFrame (displayId : Z) (s : t) : t :=
  if kDisplays <=? displayId then s
  else
    let mask := Z.shiftl 1 displayId in
    set_caller (CLoad (ClearDisplayExportFrame displayId))
      (note {[displayId]} (set_subscriptions (Z.land (subscriptions s) (u32 (Z.lnot mask))) s)).

Definition resetDisplayExportSubscriptions (s : t) : t :=
  set_caller (CLoad ResetDisplayExportSubscriptions) (note all_displays (set_subscriptions 0 s)).

(** A call for the current renderer settles its displays when the other thread is idle. *)
Definition settle (r : nat) (c : call) (s : t) : t :=
  match attach s with
  | AIdle => if bool_decide (macMuRenderer s = Some r) then set_stale (filter (fun d => says c d = None) (stale s)) s else s
  | _ => s
  end.

(** The load of the renderer and the call. *)
Definition caller_step (s : t) : option t :=
  match caller s with
  | CIdle => None
  | CLoad c => Some (set_caller (match macMuRenderer s with Some r => CCall r c | None => CIdle end) s)
  | CCall r c => Some (set_caller CIdle (settle r c (renderer_call r c s)))
  end.

(** ** Interleavings *)

Inductive step : t -> t -> Prop :=
  | step_attach s r : attach s = AIdle -> step s (setOpenglesRenderer r s)
  | step_stop s : attach s = AIdle -> step s (stopOpenglesRenderer s)
  | step_apply s s' : applyMacMuDisplayExportSubscriptions s = Some s' -> step s s'
  | step_set s d b : caller s = CIdle -> 0 <= d -> step s (setDisplayExportEnabled d b s)
  | step_clear s d : caller s = CIdle -> 0 <= d -> step s (clearDisplayExportFrame d s)
  | step_reset s : caller s = CIdle -> step s (resetDisplayExportSubscriptions s)
  | step_caller s s' : caller_step s = Some s' -> step s s'.

Inductive reachable : t -> Prop :=
  | reachable_init : reachable init
  | reachable_step s s' : reachable s -> step s s' -> reachable s'.

(** ** Bits *)

Lemma shiftl_bit d n : 0 <= d -> 0 <= n -> Z.testbit (Z.shiftl 1 d) n = (d =? n).
Proof.
  intros Hd Hn. rewrite Z.shiftl_spec by lia. destruct (Z.eqb_spec d n) as [->|Hne]; [by rewrite Z.sub_diag|].
  destruct (decide (n - d < 0)); [apply Z.testbit_neg_r; lia|]. apply (Z.bits_above_log2 1 (n - d)); cbn; lia.
Qed.

Lemma mask_bit m d : 0 <= d -> negb (Z.land m (Z.shiftl 1 d) =? 0) = Z.testbit m d.
Proof.
  intros Hd. destruct (Z.testbit m d) eqn:E.
  - apply negb_true_iff, Z.eqb_neq. intros H. apply (f_equal (fun x => Z.testbit x d)) in H. revert H.
    by rewrite Z.land_spec, E, shiftl_bit, Z.eqb_refl, Z.bits_0 by lia.
  - apply negb_false_iff, Z.eqb_eq, Z.bits_inj'. intros n Hn. rewrite Z.land_spec, Z.bits_0, shiftl_bit by lia.
    destruct (Z.eqb_spec d n) as [<-|]; [by rewrite E|apply andb_false_r].
Qed.

Lemma clear_bit x d n : 0 <= d -> 0 <= n < 32 -> Z.testbit (Z.land x (u32 (Z.lnot (Z.shiftl 1 d)))) n = Z.testbit x n && negb (d =? n).
Proof.
  intros Hd Hn. rewrite Z.land_spec. f_equal. unfold u32. rewrite Z.mod_pow2_bits_low by lia. rewrite Z.lnot_spec by lia.
  by rewrite shiftl_bit by lia.
Qed.

(** ** The invariant *)

(** What the control receiver is about to tell renderer [r]. *)
Definition pending (s : t) (r : nat) (d : Z) : option bool :=
  match caller s with
  | CIdle => None
  | CLoad c => says c d
  | CCall r' c => if (r' =? r)%nat then says c d else None
  end.

(** Renderer [r] was told the bit of display [d], or is about to be. *)
Definition synced (s : t) (r : nat) (d : Z) : Prop :=
  told s r d = Some (Z.testbit (subscriptions s) d) \/ pending s r d <> None.

Definition call_of (p : caller_pc) : option call := match p with CIdle => None | CLoad c | CCall _ c => Some c end.

Record inv (s : t) : Prop := {
  inv_says : forall c d b, call_of (caller s) = Some c -> 0 <= d < kDisplays -> says c d = Some b -> b = Z.testbit (subscriptions s) d;
  inv_current : match attach s with ALoaded r | ALoop r _ _ => macMuRenderer s = Some r | _ => True end;
  inv_synced : forall d, 0 <= d < kDisplays -> d ∉ stale s ->
    match attach s with
    | AIdle => forall r, macMuRenderer s = Some r -> synced s r d
    | AStored | ALoaded _ => True
    | ALoop r m k => 0 <= k /\ if k <=? d then Z.testbit m d = Z.testbit (subscriptions s) d else synced s r d
    end }.

Lemma inv_init : inv init.
Proof. split; [done|done|]. intros d _ _ r H. discriminate H. Qed.

(** A change of subscriptions by [c], for the displays [ds]. *)
Lemma inv_change s subs c ds :
  inv s -> caller s = CIdle ->
  (forall d, 0 <= d < kDisplays -> d ∉ ds -> Z.testbit subs d = Z.testbit (subscriptions s) d) ->
  (forall d, 0 <= d < kDisplays -> d ∈ ds <-> says c d <> None) ->
  (forall d b, 0 <= d < kDisplays -> says c d = Some b -> b = Z.testbit subs d) ->
  inv (set_caller (CLoad c) (note ds (set_subscriptions subs s))).
Proof.
  intros [I1 I2 I3] Hc Hsame Hds Hsays. set (s1 := note ds (set_subscriptions subs s)).
  assert (subscriptions s1 = subs /\ told s1 = told s /\ macMuRenderer s1 = macMuRenderer s /\ attach s1 = attach s /\
    stale s1 = match attach s with ALoop _ _ k => stale s ∪ filter (fun d => k <= d) ds | _ => stale s end) as (E1 & E2 & E3 & E4 & E5).
  { unfold s1, note. cbn. destruct (attach s) eqn:Ea; cbn; rewrite ?Ea; by split_and!. }
  assert (forall r d, 0 <= d < kDisplays -> synced s r d -> synced (set_caller (CLoad c) s1) r d) as Hsync.
  { intros r d Hd Hs. unfold synced, pending. cbn. rewrite E1, E2. destruct (decide (d ∈ ds)) as [Hin|Hin]; [right; by apply Hds|].
    left. rewrite Hsame by done. destruct Hs as [Hs|Hs]; [done|]. unfold pending in Hs. by rewrite Hc in Hs. }
  split; cbn; rewrite ?E1, ?E3, ?E4, ?E5.
  - intros c' d b [= <-] Hd Hb. by apply Hsays.
  - exact I2.
  - intros d Hd Hst. destruct (attach s) as [| |r|r m k] eqn:Ea; [intros r Hr; by apply Hsync, I3|done|done|].
    apply not_elem_of_union in Hst as [Hst Hf]. destruct (I3 d Hd Hst) as [Hk Hs]. split; [done|].
    destruct (k <=? d) eqn:Ek; [|by apply Hsync]. rewrite Hs. symmetry. apply Hsame; [done|]. intros Hin. apply Hf.
    apply elem_of_filter. bool_to_prop. done.
Qed.

Lemma inv_setEnabled s d b : inv s -> caller s = CIdle -> 0 <= d -> inv (setDisplayExportEnabled d b s).
Proof.
  intros Hi Hc Hd. unfold setDisplayExportEnabled. destruct (kDisplays <=? d) eqn:Ed; [done|]. unfold kDisplays in *. bool_to_prop.
  assert (forall n, 0 <= n < 16 -> Z.testbit (if b then Z.lor (subscriptions s) (Z.shiftl 1 d)
    else Z.land (subscriptions s) (u32 (Z.lnot (Z.shiftl 1 d)))) n = if d =? n then b else Z.testbit (subscriptions s) n) as Hb.
  { intros n Hn. destruct b; [rewrite Z.lor_spec, shiftl_bit by lia|rewrite clear_bit by lia]; destruct (d =? n);
      by rewrite ?orb_true_r, ?orb_false_r, ?andb_true_r, ?andb_false_r. }
  apply inv_change; [done|done|..]; unfold kDisplays; cbn.
  - intros n Hn Hin. rewrite Hb by done. apply not_elem_of_singleton in Hin. by rewrite (proj2 (Z.eqb_neq d n)) by auto.
  - intros n Hn. rewrite elem_of_singleton. destruct (Z.eqb_spec d n); naive_solver.
  - intros n b' Hn H. rewrite Hb by done. destruct (d =? n); by simplify_eq.
Qed.

Lemma inv_clear s d : inv s -> caller s = CIdle -> 0 <= d -> inv (clearDisplayExportFrame d s).
Proof.
  intros Hi Hc Hd. unfold clearDisplayExportFrame. destruct (kDisplays <=? d) eqn:Ed; [done|]. unfold kDisplays in *. bool_to_prop.
  apply inv_change; [done|done|..]; unfold kDisplays; cbn.
  - intros n Hn Hin. rewrite clear_bit by lia. apply not_elem_of_singleton in Hin. rewrite (proj2 (Z.eqb_neq d n)) by auto.
    apply andb_true_r.
  - intros n Hn. rewrite elem_of_singleton. destruct (Z.eqb_spec d n); naive_solver.
  - intros n b' Hn H. rewrite clear_bit by lia. destruct (d =? n); simplify_eq. by rewrite andb_false_r.
Qed.

Lemma elem_of_all_displays n : n ∈ all_displays <-> 0 <= n < 16.
Proof.
  unfold all_displays. rewrite elem_of_list_to_set, list_elem_of_fmap. setoid_rewrite elem_of_seq. split; [intros (k & -> & Hk); lia|].
  intros Hn. exists (Z.to_nat n). lia.
Qed.

Lemma inv_reset s : inv s -> caller s = CIdle -> inv (resetDisplayExportSubscriptions s).
Proof.
  intros Hi Hc. apply inv_change; [done|done|..]; cbn.
  - intros n Hn Hin. destruct Hin. by apply elem_of_all_displays.
  - intros n Hn. split; [done|]. intros _. by apply elem_of_all_displays.
  - intros n b' Hn [= <-]. by rewrite Z.bits_0.
Qed.

Lemma inv_caller_step s s' : inv s -> caller_step s = Some s' -> inv s'.
Proof.
  intros [I1 I2 I3]. unfold caller_step. destruct (caller s) as [|c|r c] eqn:Ec; [done| |]; intros H; simplify_eq.
  - split; cbn.
    + intros c' d b Hc. apply I1. rewrite <- Hc. by destruct (macMuRenderer s).
    + exact I2.
    + intros d Hd Hst. specialize (I3 d Hd Hst). unfold synced, pending in *. cbn. rewrite Ec in I3.
      destruct (attach s) as [| |r|r m k]; try done.
      * intros r Hr. rewrite Hr. specialize (I3 r Hr). by rewrite Nat.eqb_refl.
      * destruct I3 as [Hk I3]. split; [done|]. rewrite I2. by rewrite Nat.eqb_refl.
  - assert (forall d, 0 <= d < kDisplays -> says c d <> None -> says c d = Some (Z.testbit (subscriptions s) d)) as Hsay.
    { intros d Hd Hne. destruct (says c d) as [b|] eqn:Es; [|done]. by rewrite (I1 c d b eq_refl Hd Es). }
    assert (forall r' d, 0 <= d < kDisplays -> synced s r' d ->
      (if (r' =? r)%nat then match says c d with Some b => Some b | None => told s r' d end else told s r' d) =
      Some (Z.testbit (subscriptions s) d)) as Hsync.
    { intros r' d Hd [Ht|Hp].
      - destruct (r' =? r)%nat; [|done]. destruct (says c d) eqn:Es; [|done]. rewrite <- Es. apply Hsay; [done|by rewrite Es].
      - unfold pending in Hp. rewrite Ec in Hp. rewrite Nat.eqb_sym. destruct (r =? r')%nat; [|done].
        rewrite (Hsay d Hd Hp). done. }
    set (s1 := settle r c (renderer_call r c s)).
    assert (subscriptions s1 = subscriptions s /\ told s1 = told (renderer_call r c s) /\ macMuRenderer s1 = macMuRenderer s /\
      attach s1 = attach s) as (E1 & E2 & E3 & E4).
    { unfold s1, settle. cbn. destruct (attach s) eqn:Ea; [destruct (bool_decide _)|..]; cbn; rewrite ?Ea; by split_and!. }
    split; cbn; rewrite ?E1, ?E3, ?E4; [done|exact I2|]. intros d Hd Hst. unfold synced. cbn. rewrite E1, E2. cbn.
    destruct (attach s) as [| |r'|r' m k] eqn:Ea; try done.
    + intros r' Hr'. left. destruct (decide (d ∈ stale s)) as [Hin|Hin]; [|by apply Hsync, I3].
      assert (r = r' /\ says c d <> None) as [-> Hne].
      { revert Hst. unfold s1, settle. cbn. rewrite Ea. case_bool_decide as Hm; cbn; [|done]. intros Hst.
        split; [congruence|]. intros Hn. apply Hst. by apply elem_of_filter. }
      rewrite Nat.eqb_refl, (Hsay d Hd Hne). done.
    + assert (d ∉ stale s) as Hin by (revert Hst; unfold s1, settle; cbn; by rewrite Ea).
      destruct (I3 d Hd Hin) as [Hk Hs]. split; [done|]. destruct (k <=? d); [done|]. left. by apply Hsync.
Qed.

Lemma inv_apply s s' : inv s -> applyMacMuDisplayExportSubscriptions s = Some s' -> inv s'.
Proof.
  intros [I1 I2 I3]. unfold applyMacMuDisplayExportSubscriptions.
  destruct (attach s) as [| |r|r m k] eqn:Ea; [done|..].
  - intros H. simplify_eq. split; cbn; [done| |]; destruct (macMuRenderer s) eqn:Em; [done|done|done|by intros].
  - intros H. simplify_eq. split; cbn; [done|done|]. intros d [Hd _] _. split; [done|]. by rewrite (proj2 (Z.leb_le 0 d) Hd).
  - destruct (k <? kDisplays) eqn:Ek; intros H; simplify_eq; unfold kDisplays in *; bool_to_prop; (split; cbn; [done|try done|]); unfold kDisplays.
    + intros d Hd Hst. destruct (I3 d Hd Hst) as [Hk Hs]. split; [lia|]. destruct (Z.eqb_spec k d) as [->|Hne].
      * rewrite (proj2 (Z.leb_gt _ _)) by lia. left. cbn. rewrite Nat.eqb_refl, Z.eqb_refl, mask_bit by done.
        rewrite Z.leb_refl in Hs. by rewrite Hs.
      * replace (k + 1 <=? d) with (k <=? d); [|apply eq_bool_prop_intro; rewrite !Is_true_true, !Z.leb_le; lia].
        destruct (k <=? d); [done|]. unfold synced, pending in *. cbn. rewrite (proj2 (Z.eqb_neq k d)) by done.
        by destruct (r =? r)%nat.
    + intros d Hd Hst r' Hr'. destruct (I3 d Hd Hst) as [Hk Hs]. rewrite (proj2 (Z.leb_gt _ _)) in Hs by lia.
      rewrite I2 in Hr'. simplify_eq. exact Hs.
Qed.

Lemma export_inv_reachable s : reachable s -> inv s.
Proof.
  induction 1 as [|s s' Hr IH Hs]; [apply inv_init|]. destruct Hs as [s r Ha|s Ha|s s' H|s d b Hc Hd|s d Hc Hd|s Hc|s s' H].
  - destruct IH as [I1 I2 I3]. by split.
  - destruct IH as [I1 I2 I3]. split; cbn; [done|by rewrite Ha|]. intros d _ _. by rewrite Ha.
  - by eapply inv_apply.
  - by apply inv_setEnabled.
  - by apply inv_clear.
  - by apply inv_reset.
  - by eapply inv_caller_step.
Qed.

(** C18: The renderer knows the subscriptions: under every interleaving of attaching and
    stopping renderers with the control receiver, when both threads are idle the current
    renderer was last told, for every display, what the subscriptions say, except for a
    display whose bit was changed between the load of the subscriptions and the call for
    that display in [applyMacMuDisplayExportSubscriptions], until the next call for it or
    the next renderer. *)
Theorem renderer_follows_subscriptions s r d :
  reachable s -> attach s = AIdle -> caller s = CIdle -> macMuRenderer s = Some r -> 0 <= d < kDisplays -> d ∉ stale s ->
  told s r d = Some (Z.testbit (subscriptions s) d).
Proof.
  intros Hr Ha Hc Hm Hd Hst. destruct (export_inv_reachable s Hr) as [_ _ I3]. specialize (I3 d Hd Hst). rewrite Ha in I3.
  destruct (I3 r Hm) as [|Hp]; [done|]. unfold pending in Hp. by rewrite Hc in Hp.
Qed.

(** ** Examples *)

(** Runs of the two threads: [true] for a step of the thread of the renderer. *)
Fixpoint run (schedule : list bool) (s : t) : option t :=
  match schedule with
  | [] => Some s
  | true :: schedule => applyMacMuDisplayExportSubscriptions s ≫= run schedule
  | false :: schedule => caller_step s ≫= run schedule
  end.

Lemma run_reachable schedule s s' : reachable s -> run schedule s = Some s' -> reachable s'.
Proof.
  revert s. induction schedule as [|b schedule IH]; intros s Hr H; [cbn in H; by simplify_eq|]. cbn in H. destruct b.
  - destruct (applyMacMuDisplayExportSubscriptions s) as [s1|] eqn:E; [|done]. apply (IH s1); [|done]. eapply reachable_step; [done|].
    by apply step_apply.
  - destruct (caller_step s) as [s1|] eqn:E; [|done]. apply (IH s1); [|done]. eapply reachable_step; [done|]. by apply step_caller.
Qed.

(** Attach, then subscribe to display 3. *)
Definition attached : t := default init (run (replicate 19 true) (setOpenglesRenderer 0 init)).
Definition subscribed : t := default init (run [false; false] (setDisplayExportEnabled 3 true attached)).

(** A run that does not get stuck. *)
Lemma default_reachable schedule s :
  reachable s -> match run schedule s with Some _ => true | None => false end = true -> reachable (default init (run schedule s)).
Proof. intros Hr H. destruct (run schedule s) as [s'|] eqn:E; [|done]. by eapply run_reachable. Qed.

Lemma subscribed_reachable : reachable subscribed.
Proof.
  apply default_reachable; [|vm_compute; reflexivity]. eapply reachable_step; [|apply step_set; [vm_compute; reflexivity|lia]].
  apply default_reachable; [|vm_compute; reflexivity]. eapply reachable_step; [apply reachable_init|]. by apply step_attach.
Qed.

Lemma renderer_follows_subscriptions_witness : told subscribed 0 3 = Some true /\ told subscribed 0 4 = Some false.
Proof.
  assert (subscriptions subscribed = 8) as Hs by (vm_compute; reflexivity).
  assert (forall d, 0 <= d < kDisplays -> told subscribed 0 d = Some (Z.testbit 8 d)) as Hd.
  { intros d Hd. rewrite <- Hs. apply renderer_follows_subscriptions;
      [apply subscribed_reachable|vm_compute; reflexivity|vm_compute; reflexivity|vm_compute; reflexivity|exact Hd|].
    replace (stale subscribed) with (∅ : gset Z) by (vm_compute; reflexivity). apply not_elem_of_empty. }
  unfold kDisplays in Hd. rewrite !Hd by lia. done.
Defined.

(** The subscription that comes after the load is undone by the loop: the mask has the
    display, the renderer was last told that it is off. *)
Definition lost : option t :=
  (run [true; true] (setOpenglesRenderer 0 init) ≫= fun s => run [false; false] (setDisplayExportEnabled 3 true s)) ≫=
    run (replicate 17 true).

Example lost_subscription :
  (fun s => (attach s, caller s, subscriptions s, told s 0%nat 3)) <$> lost = Some (AIdle, CIdle, 8, Some false).
Proof. vm_compute. reflexivity. Qed.

(** The control receiver has loaded the renderer when it is stopped: its call comes after
    [stopOpenglesRendererImpl] has stored [nullptr] and goes on to destroy the renderer. *)
Example stopped_renderer_called :
  (fun s => (macMuRenderer (stopOpenglesRenderer s), caller (stopOpenglesRenderer s))) <$>
    run [false] (setDisplayExportEnabled 3 true attached) = Some (None, CCall 0 (SetDisplayExportEnabled 3 true)).
Proof. vm_compute. reflexivity. Qed.

End DisplayExport.
