(* ===== verification/Viewport.v ===== *)
(** [shell/protocol/viewport.{h,cpp}]: the aspect-fit viewport, in IEEE double precision.
    Doubles are the [spec_float] of the standard library, with a precision of 53 bits and
    exponents up to 1024, and its operations round to nearest even. *)
From S2P Require Import Prelude.
From Stdlib Require Import SpecFloat.

Module Viewport.

(** ** Doubles *)

Abbreviation double := spec_float.
Definition prec : Z := 53.
Definition emax : Z := 1024.

Definition fmul : double -> double -> double := SFmul prec emax.
Definition fdiv : double -> double -> double := SFdiv prec emax.
Definition fsub : double -> double -> double := SFsub prec emax.

(** [static_cast<double>] of a [uint32_t]. *)
Definition of_uint32 (n : Z) : double := binary_normalize prec emax n 0 false.

Definition zero : double := S754_zero false.
Definition one : double := of_uint32 1.
Definition half : double := S754_finite false 4503599627370496 (-53).

(** ** [viewport.cpp] *)

Record Viewport := { originX : double; originY : double; width : double; height : double; znear : double; zfar : double }.

Definition aspect_fit_viewport (source_width source_height : Z) (drawable_width drawable_height : double) : Viewport :=
  if (source_width =? 0) || (source_height =? 0) || SFleb drawable_width zero || SFleb drawable_height zero then
    {| originX := zero; originY := zero; width := drawable_width; height := drawable_height; znear := zero; zfar := one |}
  else
    let source_aspect := fdiv (of_uint32 source_width) (of_uint32 source_height) in
    let drawable_aspect := fdiv drawable_width drawable_height in
    let '(width, height) :=
      if SFltb source_aspect drawable_aspect then (fmul drawable_height source_aspect, drawable_height)
      else (drawable_width, fdiv drawable_width source_aspect) in
    {| originX := fmul (fsub drawable_width width) half; originY := fmul (fsub drawable_height height) half;
       width := width; height := height; znear := zero; zfar := one |}.

(** ** Digits *)

Lemma digits_log2 p : Z.pos (digits2_pos p) = Z.log2 (Z.pos p) + 1.
Proof.
  induction p as [p IH|p IH|]; [| |done]; cbn [digits2_pos]; rewrite Pos2Z.inj_succ, IH.
  - rewrite Pos2Z.inj_xI, Z.log2_succ_double by lia. lia.
  - rewrite Pos2Z.inj_xO, Z.log2_double by lia. lia.
Qed.

(** A mantissa of [k + 1] digits. *)
Lemma digits_eq m k : 0 <= k -> 2 ^ k <= m < 2 ^ (k + 1) -> Zdigits2 m = k + 1.
Proof.
  intros Hk [H1 H2]. assert (0 < 2 ^ k) by (apply Z.pow_pos_nonneg; lia). destruct m as [|p|p]; [lia| |lia]. cbn. rewrite digits_log2. f_equal.
  apply Z.log2_unique; [lia|]. replace (Z.succ k) with (k + 1) by lia. lia.
Qed.

(** ** Rounding *)

(** [A / B] in units of the last place of a record: its integer part and where the rest
    lies. *)
Definition located (A B : Z) (mrs : shr_record) : Prop :=
  let rest := A - shr_m mrs * B in
  0 <= shr_m mrs /\
  match shr_r mrs, shr_s mrs with
  | false, false => rest = 0
  | false, true => 0 < 2 * rest < B
  | true, false => 2 * rest = B
  | true, true => B < 2 * rest < 2 * B
  end.

Lemma located_shr_1 A B mrs : 0 < B -> located A B mrs -> located A (2 * B) (shr_1 mrs).
Proof.
  intros HB [Hm H]. destruct mrs as [m r s]. cbn in Hm, H. destruct m as [|[p|p|]|p]; [..|lia];
    destruct r, s; unfold located; cbn in *; lia.
Qed.

Lemma iter_pos_nat {A} (f : A -> A) p x : @iter_pos A f p x = Nat.iter (Pos.to_nat p) f x.
Proof.
  revert x. induction p as [p IH|p IH|]; intros x; cbn [iter_pos]; [| |done]; rewrite !IH, <- Nat.iter_add.
  - rewrite <- (Nat.iter_succ_r (Pos.to_nat p + Pos.to_nat p)). f_equal. lia.
  - f_equal. lia.
Qed.

Lemma located_iter A B n mrs : 0 < B -> located A B mrs -> located A (2 ^ Z.of_nat n * B) (Nat.iter n shr_1 mrs).
Proof.
  intros HB H. induction n as [|n IH]; [by rewrite Z.mul_1_l|]. rewrite Nat2Z.inj_succ, Z.pow_succ_r by lia. cbn [Nat.iter].
  rewrite <- Z.mul_assoc. apply located_shr_1; [|done]. apply Z.mul_pos_pos; [apply Z.pow_pos_nonneg; lia|done].
Qed.

Lemma located_shr A B mrs e n : 0 < B -> 0 <= n -> located A B mrs ->
  exists mrs', shr mrs e n = (mrs', e + n) /\ located A (2 ^ n * B) mrs'.
Proof.
  intros HB Hn H. destruct n as [|p|p]; [|..|lia].
  - exists mrs. rewrite Z.mul_1_l, Z.add_0_r. done.
  - eexists. split; [reflexivity|]. rewrite iter_pos_nat. rewrite <- (positive_nat_Z p) at 1. by apply located_iter.
Qed.

(** Rounding to the nearest integer is monotone. *)
Lemma round_bounds A B mrs w :
  0 < B -> located A B mrs ->
  let R := round_nearest_even (shr_m mrs) (loc_of_shr_record mrs) in
  (A <= w * B -> R <= w) /\ (w * B <= A -> w <= R) /\ shr_m mrs <= R <= shr_m mrs + 1.
Proof.
  intros HB [Hm H]. destruct mrs as [m r s]. cbn in *. destruct r, s; cbn; try destruct (Z.even m); split_and!; intros; nia.
Qed.

Lemma located_of_loc m l A B :
  match l with
  | loc_Exact => A = m * B
  | loc_Inexact Lt => 0 < 2 * (A - m * B) < B
  | loc_Inexact Eq => 2 * (A - m * B) = B
  | loc_Inexact Gt => B < 2 * (A - m * B) < 2 * B
  end -> 0 <= m -> located A B (shr_record_of_loc m l).
Proof. intros H Hm. destruct l as [|[]]; unfold located; cbn; (split; [done|]); lia. Qed.

(** The remainder of a division, located. *)
Lemma located_new q r A B :
  0 < B -> A = q * B + r -> 0 <= r < B -> 0 <= q -> located A B (shr_record_of_loc q (new_location B r)).
Proof.
  intros HB HA Hr Hq. apply located_of_loc; [|done]. unfold new_location, new_location_even, new_location_odd.
  destruct (Z.even B) eqn:Eb; destruct (r =? 0) eqn:Er; bool_to_prop; try lia.
  - destruct (Z.compare_spec (2 * r) B); lia.
  - assert (Z.odd B = true) as Ho by (by rewrite <- Z.negb_even, Eb). apply Z.odd_spec in Ho as [k ->].
    destruct (Z.compare_spec (2 * r + 1) (2 * k + 1)); lia.
Qed.

(** ** Normal numbers *)

(** The value of a number, in units of [2 ^ -2000]. *)
Definition V (m e : Z) : Z := m * 2 ^ (e + 2000).

(** A positive number with a mantissa of 53 bits, far from the ends of the range. *)
Definition normal (x : double) (m e : Z) : Prop :=
  exists p, x = S754_finite false p e /\ m = Z.pos p /\ 2 ^ 52 <= m < 2 ^ 53 /\ -900 <= e <= 900.

Lemma pow_pos n : 0 <= n -> 0 < 2 ^ n.
Proof. intros. apply Z.pow_pos_nonneg; lia. Qed.

Lemma pow_split a b c d : 0 <= a -> 0 <= b -> 0 <= c -> 0 <= d -> a + b = c + d -> 2 ^ a * 2 ^ b = 2 ^ c * 2 ^ d.
Proof. intros. rewrite <- !Z.pow_add_r by done. by f_equal. Qed.

(** A number of fewer digits in units of a lower place is smaller. *)
Lemma V_lt_place m e e' : 0 <= m < 2 ^ 53 -> e < e' -> -2000 <= e -> V m e < 2 ^ 52 * 2 ^ (e' + 2000).
Proof.
  intros Hm He He2. unfold V. replace (e' + 2000) with ((e + 2000) + 1 + (e' - e - 1)) by lia.
  rewrite (Z.pow_add_r 2 (e + 2000 + 1)), (Z.pow_add_r 2 (e + 2000) 1) by lia. pose proof (pow_pos (e + 2000) ltac:(lia)). pose proof (pow_pos (e' - e - 1) ltac:(lia)).
  apply Z.lt_le_trans with (2 ^ 53 * 2 ^ (e + 2000)); [apply Z.mul_lt_mono_pos_r; lia|].
  replace (2 ^ 52 * (2 ^ (e + 2000) * 2 ^ 1 * 2 ^ (e' - e - 1))) with (2 ^ 53 * 2 ^ (e + 2000) * 2 ^ (e' - e - 1)) by ring.
  rewrite <- (Z.mul_1_r (2 ^ 53 * 2 ^ (e + 2000))) at 1. apply Z.mul_le_mono_nonneg_l; lia.
Qed.

Lemma fexp_normal d e : -1074 <= d + e - 53 -> fexp prec emax (d + e) = d + e - 53.
Proof. intros H. unfold fexp, emin, prec, emax. lia. Qed.

(** The second normalisation only carries a mantissa of [2 ^ 53] over. *)
Lemma carry R e :
  2 ^ 52 <= R <= 2 ^ 53 -> -900 <= e <= 899 ->
  exists p e', (let '(mrs, e'') := shr_fexp prec emax R e loc_Exact in
    match shr_m mrs with
    | Z0 => S754_zero false
    | Zpos m => if e'' <=? emax - prec then S754_finite false m e'' else S754_infinity false
    | Zneg _ => S754_nan
    end) = S754_finite false p e' /\ V (Z.pos p) e' = V R e /\ 2 ^ 52 <= Z.pos p < 2 ^ 53 /\ e <= e' <= e + 1.
Proof.
  intros HR He. unfold shr_fexp. destruct (decide (R = 2 ^ 53)) as [->|Hne].
  - rewrite (digits_eq (2 ^ 53) 53) by lia. rewrite fexp_normal by lia. replace (53 + 1 + e - 53 - e) with 1 by lia.
    exists 4503599627370496%positive, (e + 1). split.
    + cbn. unfold emax, prec. by rewrite (proj2 (Z.leb_le _ _)) by lia.
    + split; [|lia]. unfold V. replace (e + 1 + 2000) with (Z.succ (e + 2000)) by lia. rewrite Z.pow_succ_r by lia. lia.
  - rewrite (digits_eq R 52) by lia. rewrite fexp_normal by lia. replace (52 + 1 + e - 53 - e) with 0 by lia. cbn [shr].
    destruct R as [|p|p]; [lia| |lia]. exists p, e. cbn. unfold emax, prec. rewrite (proj2 (Z.leb_le _ _)) by lia.
    split; [done|]. split; [done|]. lia.
Qed.

(** What is rounded keeps its order to every number. *)
Lemma round_normal A B mx ex l k :
  0 < B -> located A B (shr_record_of_loc mx l) -> 52 <= k <= 1000 -> 2 ^ k <= mx < 2 ^ (k + 1) -> -900 <= ex + (k - 52) <= 899 ->
  exists m e, normal (binary_round_aux prec emax false mx ex l) m e /\ ex + (k - 52) <= e <= ex + (k - 52) + 1 /\
    forall w mw ew, normal w mw ew ->
      (A * 2 ^ (ex + 2000) <= V mw ew * B -> V m e <= V mw ew) /\ (V mw ew * B <= A * 2 ^ (ex + 2000) -> V mw ew <= V m e).
Proof.
  intros HB Hl Hk Hmx He. set (n := k - 52). set (P := 2 ^ n * B). assert (0 < 2 ^ n) as Hn by (apply pow_pos; lia).
  assert (0 < P) as HP by (unfold P; lia).
  assert (mx * B <= A < (mx + 1) * B) as HA.
  { destruct Hl as [_ Hl]. destruct l as [|[]]; cbn in Hl; lia. }
  assert (2 ^ k = 2 ^ 52 * 2 ^ n /\ 2 ^ (k + 1) = 2 ^ 53 * 2 ^ n) as [Ek Ek1].
  { rewrite <- !Z.pow_add_r by lia. split; f_equal; lia. }
  assert (2 ^ 52 * P <= A < 2 ^ 53 * P) as HAP by (unfold P; nia).
  destruct (located_shr A B (shr_record_of_loc mx l) ex n HB ltac:(lia) Hl) as (mrs & Es & Hm).
  assert (shr_m mrs * P <= A < (shr_m mrs + 1) * P) as HM.
  { destruct Hm as [_ Hm]. fold P in Hm. destruct (shr_r mrs), (shr_s mrs); lia. }
  assert (2 ^ 52 <= shr_m mrs < 2 ^ 53) as HM2 by nia.
  pose proof (fun w => round_bounds A P mrs w HP Hm) as HR. cbn zeta in HR.
  set (R := round_nearest_even (shr_m mrs) (loc_of_shr_record mrs)) in *.
  assert (2 ^ 52 <= R <= 2 ^ 53) as HR2 by (destruct (HR 0) as (_ & _ & ?); lia).
  destruct (carry R (ex + n) HR2 ltac:(lia)) as (p & e & Ec & EV & Hp & He2).
  exists (Z.pos p), e. assert (binary_round_aux prec emax false mx ex l = S754_finite false p e) as ->.
  { unfold binary_round_aux. unfold shr_fexp at 1. rewrite (digits_eq mx k) by lia. rewrite fexp_normal by lia.
    replace (k + 1 + ex - 53 - ex) with n by lia. rewrite Es. exact Ec. }
  split; [exists p; split_and!; (done || lia)|]. split; [lia|]. intros w mw ew (pw & _ & -> & Hw & Hew). rewrite EV.
  assert (forall x, x * 2 ^ (ex + 2000) * 2 ^ n = x * 2 ^ (ex + n + 2000)) as Hscale.
  { intros x. rewrite <- Z.mul_assoc, <- Z.pow_add_r by lia. do 2 f_equal. lia. }
  pose proof (pow_pos (ex + 2000) ltac:(lia)) as P1. pose proof (pow_pos (ex + n + 2000) ltac:(lia)) as P2.
  destruct (decide (ew < ex + n)) as [Hlt|Hge].
  - pose proof (V_lt_place (Z.pos pw) ew (ex + n) ltac:(lia) Hlt ltac:(lia)) as Hv. unfold V in *. split; intros H; [|nia].
    exfalso. rewrite <- Hscale in Hv. assert (2 ^ 52 * 2 ^ n * B * 2 ^ (ex + 2000) <= A * 2 ^ (ex + 2000)) by (unfold P in HAP; nia). nia.
  - assert (V (Z.pos pw) ew = Z.pos pw * 2 ^ (ew - (ex + n)) * 2 ^ (ex + n + 2000)) as Hw2.
    { unfold V. rewrite <- Z.mul_assoc, <- Z.pow_add_r by lia. do 2 f_equal. lia. }
    set (W := Z.pos pw * 2 ^ (ew - (ex + n))) in *. rewrite Hw2, <- !Hscale. unfold V. rewrite <- Hscale.
    destruct (HR W) as (H1 & H2 & _). split; intros H.
    + assert (A <= W * P) as HW by (unfold P; nia). apply H1 in HW. nia.
    + assert (W * P <= A) as HW by (unfold P; nia). apply H2 in HW. nia.
Qed.

Lemma compare_normal x mx ex y my ey :
  normal x mx ex -> normal y my ey -> SFcompare x y = Some (V mx ex ?= V my ey).
Proof.
  intros (p & -> & -> & Hp & Hex) (q & -> & -> & Hq & Hey). cbn. f_equal.
  assert (forall m e e', 2 ^ 52 <= m -> e = e' -> -900 <= e -> 2 ^ 52 * 2 ^ (e' + 2000) <= V m e) as Hlow.
  { intros m e e' Hm -> He. unfold V. apply Z.mul_le_mono_nonneg_r; [|done]. pose proof (pow_pos (e' + 2000) ltac:(lia)). lia. }
  destruct (Z.compare_spec ex ey) as [->|Hlt|Hlt].
  - unfold V. pose proof (pow_pos (ey + 2000) ltac:(lia)). change (Pos.compare_cont Eq p q) with (Z.pos p ?= Z.pos q).
    destruct (Z.compare_spec (Z.pos p) (Z.pos q)) as [->|H1|H1]; symmetry;
      [apply Z.compare_eq_iff; done|apply Z.compare_lt_iff; nia|apply Z.compare_gt_iff; nia].
  - symmetry. apply Z.compare_lt_iff. pose proof (V_lt_place (Z.pos p) ex ey ltac:(lia) Hlt ltac:(lia)).
    pose proof (Hlow (Z.pos q) ey ey ltac:(lia) eq_refl ltac:(lia)). lia.
  - symmetry. apply Z.compare_gt_iff. pose proof (V_lt_place (Z.pos q) ey ex ltac:(lia) Hlt ltac:(lia)).
    pose proof (Hlow (Z.pos p) ex ex ltac:(lia) eq_refl ltac:(lia)). lia.
Qed.

(** A product, rounded: its order to a number is that of the exact product. *)
Lemma mul_normal x mx ex y my ey :
  normal x mx ex -> normal y my ey -> -900 <= ex + ey + 52 -> ex + ey + 53 <= 899 ->
  exists m e, normal (fmul x y) m e /\ ex + ey + 52 <= e <= ex + ey + 54 /\ forall w mw ew, normal w mw ew ->
    (V mx ex * V my ey <= V mw ew * 2 ^ 2000 -> V m e <= V mw ew) /\ (V mw ew * 2 ^ 2000 <= V mx ex * V my ey -> V mw ew <= V m e).
Proof.
  intros (p & -> & -> & Hp & Hex) (q & -> & -> & Hq & Hey) H1 H2. unfold fmul, SFmul. cbn [xorb].
  assert (exists k, 104 <= k <= 105 /\ 2 ^ k <= Z.pos (p * q) < 2 ^ (k + 1)) as (k & Hk & Hpq).
  { rewrite Pos2Z.inj_mul. destruct (decide (Z.pos p * Z.pos q < 2 ^ 105)); [exists 104|exists 105]; (split; [lia|]); nia. }
  destruct (round_normal (Z.pos (p * q)) 1 (Z.pos (p * q)) (ex + ey) loc_Exact k ltac:(lia)) as (m & e & Hn & He & Hw);
    [apply located_of_loc; lia|lia|done|lia|].
  exists m, e. split; [done|]. split; [lia|]. intros w mw ew Hwn. destruct (Hw w mw ew Hwn) as [W1 W2].
  assert (V (Z.pos p) ex * V (Z.pos q) ey = Z.pos (p * q) * 2 ^ (ex + ey + 2000) * 2 ^ 2000) as Hv.
  { rewrite <- Z.mul_assoc, (pow_split (ex + ey + 2000) 2000 (ex + 2000) (ey + 2000)) by lia. unfold V. rewrite Pos2Z.inj_mul.
    generalize (2 ^ (ex + 2000)) (2 ^ (ey + 2000)). intros. ring. }
  rewrite Hv. pose proof (pow_pos 2000 ltac:(lia)) as P. split; intros H.
  - apply W1. rewrite Z.mul_1_r. by apply Z.mul_le_mono_pos_r in H.
  - apply W2. rewrite Z.mul_1_r. by apply Z.mul_le_mono_pos_r in H.
Qed.

(** A quotient, rounded. *)
Lemma div_normal x mx ex y my ey :
  normal x mx ex -> normal y my ey -> -900 <= ex - ey - 53 -> ex - ey - 52 <= 899 ->
  exists m e, normal (fdiv x y) m e /\ ex - ey - 53 <= e <= ex - ey - 51 /\ forall w mw ew, normal w mw ew ->
    (V mx ex * 2 ^ 2000 <= V mw ew * V my ey -> V m e <= V mw ew) /\ (V mw ew * V my ey <= V mx ex * 2 ^ 2000 -> V mw ew <= V m e).
Proof.
  intros (p & -> & -> & Hp & Hex) (q & -> & -> & Hq & Hey) H1 H2. unfold fdiv, SFdiv. cbn [xorb].
  assert (SFdiv_core_binary prec emax (Z.pos p) ex (Z.pos q) ey =
    (Z.pos p * 2 ^ 53 / Z.pos q, ex - ey - 53, new_location (Z.pos q) ((Z.pos p * 2 ^ 53) mod Z.pos q))) as ->.
  { unfold SFdiv_core_binary. rewrite (digits_eq (Z.pos p) 52), (digits_eq (Z.pos q) 52) by lia.
    replace (52 + 1 + ex - (52 + 1 + ey)) with (ex + - ey) by lia. rewrite fexp_normal by lia.
    rewrite Z.min_l by lia. replace (ex - ey - (ex + - ey - 53)) with 53 by lia. rewrite Z.shiftl_mul_pow2 by lia.
    unfold Z.div, Z.modulo. destruct (Z.div_eucl (Z.pos p * 2 ^ 53) (Z.pos q)). repeat f_equal. }
  set (A := Z.pos p * 2 ^ 53). pose proof (Z.div_mod A (Z.pos q) ltac:(lia)) as Hd.
  pose proof (Z.mod_pos_bound A (Z.pos q) ltac:(lia)) as Hr. set (Q := A / Z.pos q) in *. set (r := A mod Z.pos q) in *.
  assert (2 ^ 52 <= Q < 2 ^ 54) as HQ by (unfold A in Hd; nia).
  assert (exists k, 52 <= k <= 53 /\ 2 ^ k <= Q < 2 ^ (k + 1)) as (k & Hk & HQk).
  { destruct (decide (Q < 2 ^ 53)); [exists 52|exists 53]; (split; [lia|]); lia. }
  destruct (round_normal A (Z.pos q) Q (ex - ey - 53) (new_location (Z.pos q) r) k ltac:(lia)) as (m & e & Hn & He & Hw);
    [apply located_new; lia|lia|done|lia|].
  exists m, e. split; [done|]. split; [lia|]. intros w mw ew Hwn. destruct (Hw w mw ew Hwn) as [W1 W2].
  assert (A * 2 ^ (ex - ey - 53 + 2000) * 2 ^ (ey + 2000) = V (Z.pos p) ex * 2 ^ 2000) as Hv.
  { unfold A, V. rewrite <- !Z.mul_assoc. f_equal. rewrite <- !Z.pow_add_r by lia. f_equal. lia. }
  pose proof (pow_pos (ey + 2000) ltac:(lia)) as P. rewrite <- Hv.
  assert (V mw ew * V (Z.pos q) ey = V mw ew * Z.pos q * 2 ^ (ey + 2000)) as -> by (unfold V at 2; by rewrite Z.mul_assoc).
  split; intros H.
  - apply W1. by apply Z.mul_le_mono_pos_r in H.
  - apply W2. by apply Z.mul_le_mono_pos_r in H.
Qed.

Lemma iter_xO p d : Z.pos (Pos.iter xO p d) = Z.pos p * 2 ^ Z.pos d.
Proof.
  induction d as [|d IH] using Pos.peano_ind; [cbn; lia|]. rewrite Pos.iter_succ, Pos2Z.inj_xO, IH, Pos2Z.inj_succ, Z.pow_succ_r by lia. lia.
Qed.

(** A positive integer times a power of two, rounded. *)
Lemma normalize_normal p ex :
  Z.log2 (Z.pos p) <= 1000 -> -900 <= ex + (Z.log2 (Z.pos p) - 52) <= 899 ->
  exists m e, normal (binary_normalize prec emax (Z.pos p) ex false) m e /\
    ex + (Z.log2 (Z.pos p) - 52) <= e <= ex + (Z.log2 (Z.pos p) - 52) + 1 /\
    forall w mw ew, normal w mw ew ->
      (Z.pos p * 2 ^ (ex + 2000) <= V mw ew -> V m e <= V mw ew) /\ (V mw ew <= Z.pos p * 2 ^ (ex + 2000) -> V mw ew <= V m e).
Proof.
  intros Hk He. unfold binary_normalize, binary_round. set (k := Z.log2 (Z.pos p)) in *.
  assert (0 <= k) as Hk0 by apply Z.log2_nonneg.
  assert (2 ^ k <= Z.pos p < 2 ^ (k + 1)) as Hp by (apply Z.log2_spec; lia).
  rewrite digits_log2. fold k. rewrite fexp_normal by lia.
  assert (exists mz s, shl_align p ex (k + 1 + ex - 53) = (mz, ex - s) /\ Z.pos mz = Z.pos p * 2 ^ s /\ s = Z.max 0 (52 - k))
    as (mz & s & -> & Hmz & Hs).
  { unfold shl_align. destruct (k + 1 + ex - 53 - ex) as [|d|d] eqn:Ed; [exists p, 0|exists p, 0|exists (Pos.iter xO p d), (Z.pos d)].
    - split; [f_equal; lia|lia].
    - split; [f_equal; lia|lia].
    - split; [f_equal; lia|]. split; [apply iter_xO|lia]. }
  pose proof (pow_pos s ltac:(lia)) as Ps.
  assert (2 ^ k * 2 ^ s = 2 ^ (k + s) /\ 2 ^ (k + 1) * 2 ^ s = 2 ^ (k + s + 1)) as [E1 E2]
    by (rewrite <- !Z.pow_add_r by lia; split; f_equal; lia).
  destruct (round_normal (Z.pos mz) 1 (Z.pos mz) (ex - s) loc_Exact (k + s) ltac:(lia)) as (m & e & Hn1 & He1 & Hw);
    [apply located_of_loc; lia|lia|nia|lia|].
  exists m, e. split; [done|]. split; [lia|]. intros w mw ew Hw1. destruct (Hw w mw ew Hw1) as [W1 W2].
  rewrite Z.mul_1_r in W1, W2.
  assert (Z.pos mz * 2 ^ (ex - s + 2000) = Z.pos p * 2 ^ (ex + 2000)) as Heq.
  { rewrite Hmz, <- Z.mul_assoc, <- Z.pow_add_r by lia. do 2 f_equal. lia. }
  rewrite Heq in W1, W2. by split.
Qed.

(** Integers are exact. *)
Lemma of_uint32_normal n : 1 <= n < 2 ^ 32 -> exists m e, normal (of_uint32 n) m e /\ V m e = n * 2 ^ 2000 /\ -52 <= e <= -20.
Proof.
  intros Hn. destruct n as [|p|p]; [lia| |lia]. assert (0 <= Z.log2 (Z.pos p) <= 31) as Hk.
  { split; [apply Z.log2_nonneg|]. assert (Z.log2 (Z.pos p) < 32); [|lia]. apply Z.log2_lt_pow2; lia. }
  destruct (normalize_normal p 0 ltac:(lia) ltac:(lia)) as (m & e & N & He & Hw). exists m, e. split; [exact N|]. split; [|lia].
  set (k := Z.log2 (Z.pos p)) in *. assert (2 ^ k <= Z.pos p < 2 ^ (k + 1)) as Hp by (apply Z.log2_spec; lia).
  assert (2 ^ k * 2 ^ (52 - k) = 2 ^ 52 /\ 2 ^ (k + 1) * 2 ^ (52 - k) = 2 ^ 53) as [E1 E2]
    by (rewrite <- !Z.pow_add_r by lia; split; f_equal; lia).
  pose proof (pow_pos (52 - k) ltac:(lia)) as Pk.
  set (mz := Z.to_pos (Z.pos p * 2 ^ (52 - k))). assert (Z.pos mz = Z.pos p * 2 ^ (52 - k)) as Hmz by (unfold mz; lia).
  destruct (Hw (S754_finite false mz (k - 52)) (Z.pos mz) (k - 52)) as [W1 W2]; [exists mz; split_and!; (done || nia || lia)|].
  assert (V (Z.pos mz) (k - 52) = Z.pos p * 2 ^ (0 + 2000)) as HV.
  { unfold V. rewrite Hmz, <- Z.mul_assoc, <- Z.pow_add_r by lia. do 2 f_equal. lia. }
  rewrite HV in W1, W2. change (0 + 2000) with 2000 in *. apply Z.le_antisymm; [by apply W1|by apply W2].
Qed.

(** ** Differences and halves *)

(** Sums and differences of normal numbers, exact before they are rounded. *)
Lemma align_eq m e e0 : e0 <= e -> Z.pos (fst (shl_align m e e0)) = Z.pos m * 2 ^ (e - e0).
Proof.
  intros He. unfold shl_align. destruct (e0 - e) as [|d|d] eqn:Ed; cbn [fst].
  - replace (e - e0) with 0 by lia. lia.
  - lia.
  - rewrite iter_xO. do 2 f_equal. lia.
Qed.

Lemma V_align m e e0 : e0 <= e -> -2000 <= e0 -> V m e = m * 2 ^ (e - e0) * 2 ^ (e0 + 2000).
Proof. intros H1 H2. unfold V. rewrite <- Z.mul_assoc, <- Z.pow_add_r by lia. do 2 f_equal. lia. Qed.

Lemma sub_eq x mx ex y my ey : normal x mx ex -> normal y my ey ->
  exists d, fsub x y = binary_normalize prec emax d (Z.min ex ey) false /\ d * 2 ^ (Z.min ex ey + 2000) = V mx ex - V my ey.
Proof.
  intros (p & -> & -> & Hp & Hex) (q & -> & -> & Hq & Hey). unfold fsub, SFsub. cbn [cond_Zopp]. rewrite !align_eq by lia.
  eexists. split; [reflexivity|]. rewrite Z.mul_sub_distr_r, <- !V_align by lia. done.
Qed.

(** The value of a double in units of [2 ^ -2000]; infinities and NaN have none. *)
Definition value (x : double) : option Z :=
  match x with
  | S754_zero _ => Some 0
  | S754_finite s m e => Some (cond_Zopp s (Z.pos m) * 2 ^ (e + 2000))
  | S754_infinity _ | S754_nan => None
  end.

Lemma value_normal x m e : normal x m e -> value x = Some (V m e).
Proof. by intros (p & -> & -> & _). Qed.

Lemma value_opp x : value (SFopp x) = Z.opp <$> value x.
Proof. destruct x as [s|s| |s m e]; cbn; try done. f_equal. destruct s; cbn [negb cond_Zopp]; ring. Qed.

(** Rounding is symmetric. *)
Lemma round_opp mx ex l : binary_round_aux prec emax true mx ex l = SFopp (binary_round_aux prec emax false mx ex l).
Proof.
  unfold binary_round_aux. destruct (shr_fexp _ _ mx ex l) as [mrs e]. destruct (shr_fexp _ _ _ e loc_Exact) as [mrs2 e2].
  destruct (shr_m mrs2); [done| |done]. by destruct (e2 <=? emax - prec).
Qed.

Lemma normalize_opp p ex :
  binary_normalize prec emax (Z.neg p) ex false = SFopp (binary_normalize prec emax (Z.pos p) ex false).
Proof. unfold binary_normalize, binary_round. destruct (shl_align _ _ _). apply round_opp. Qed.

Lemma half_opp x : fmul (SFopp x) half = SFopp (fmul x half).
Proof. destruct x as [[]|[]| |[] m e]; try done; unfold fmul, SFmul, half; cbn [SFopp negb xorb]; rewrite round_opp; [|done].
  by destruct (binary_round_aux _ _ _ _ _ _) as [[]|[]| |[]]. Qed.

Lemma half_is_normal : normal half (2 ^ 52) (-53).
Proof. exists 4503599627370496%positive. split_and!; (done || lia). Qed.

(** The neighbours of a normal number. *)
Lemma next_normal m e : 2 ^ 52 <= m < 2 ^ 53 -> -900 <= e <= 899 -> exists w mw ew, normal w mw ew /\ V mw ew = V (m + 1) e.
Proof.
  intros Hm He. destruct (decide (m + 1 < 2 ^ 53)) as [Hlt|Hge].
  - exists (S754_finite false (Z.to_pos (m + 1)) e), (m + 1), e. split; [|done]. eexists. split_and!; (done || lia).
  - assert (m + 1 = 2 ^ 53) as -> by lia. exists (S754_finite false 4503599627370496 (e + 1)), (2 ^ 52), (e + 1).
    split; [eexists; split_and!; (done || lia)|]. unfold V. replace (e + 1 + 2000) with (Z.succ (e + 2000)) by lia.
    rewrite Z.pow_succ_r by lia. lia.
Qed.

Lemma prev_normal m e : 2 ^ 52 <= m < 2 ^ 53 -> -899 <= e <= 900 ->
  exists w mw ew, normal w mw ew /\ V (m - 1) e <= V mw ew < V m e.
Proof.
  intros Hm He. destruct (decide (2 ^ 52 < m)) as [Hlt|Hge].
  - exists (S754_finite false (Z.to_pos (m - 1)) e), (m - 1), e. split; [eexists; split_and!; (done || lia)|].
    unfold V. pose proof (pow_pos (e + 2000) ltac:(lia)). lia.
  - assert (m = 2 ^ 52) as -> by lia. exists (S754_finite false 9007199254740991 (e - 1)), (2 ^ 53 - 1), (e - 1).
    split; [eexists; split_and!; (done || lia)|]. unfold V. replace (e + 2000) with (Z.succ (e - 1 + 2000)) by lia.
    rewrite Z.pow_succ_r by lia. pose proof (pow_pos (e - 1 + 2000) ltac:(lia)). lia.
Qed.

(** Half of a rounded number: twice the result is the number but for a relative error of
    [2 ^ -52]. *)
Lemma half_round p ex :
  Z.log2 (Z.pos p) <= 1000 -> -800 <= ex + (Z.log2 (Z.pos p) - 52) <= 800 ->
  exists o, value (fmul (binary_normalize prec emax (Z.pos p) ex false) half) = Some o /\ 0 <= o /\
    Z.abs (2 * o - Z.pos p * 2 ^ (ex + 2000)) * 2 ^ 52 <= 2 * o.
Proof.
  intros Hk He. destruct (normalize_normal p ex Hk ltac:(lia)) as (m & e & N & He2 & Hw). set (D := Z.pos p * 2 ^ (ex + 2000)) in *.
  destruct (mul_normal _ _ _ _ _ _ N half_is_normal ltac:(lia) ltac:(lia)) as (m2 & e2 & N2 & _ & Hw2).
  exists (V m2 e2). split; [by apply value_normal|].
  destruct N as (q & _ & -> & Hq & Hqe).
  assert (normal (S754_finite false q (e - 1)) (Z.pos q) (e - 1)) as Nh by (exists q; split_and!; (done || lia)).
  destruct (Hw2 _ _ _ Nh) as [W1 W2].
  assert (V (Z.pos q) e = 2 * V (Z.pos q) (e - 1)) as Hdouble.
  { unfold V. replace (e + 2000) with (Z.succ (e - 1 + 2000)) by lia. rewrite Z.pow_succ_r by lia. ring. }
  assert (V (Z.pos q) e * V (2 ^ 52) (-53) = V (Z.pos q) (e - 1) * 2 ^ 2000) as Hhalf.
  { rewrite Hdouble. unfold V at 2. replace (-53 + 2000) with 1947 by lia.
    replace (2 ^ 2000) with (2 * (2 ^ 52 * 2 ^ 1947)) by (vm_compute; reflexivity). ring. }
  assert (V m2 e2 = V (Z.pos q) (e - 1)) as -> by (apply Z.le_antisymm; [apply W1|apply W2]; lia).
  rewrite <- Hdouble. pose proof (pow_pos (e + 2000) ltac:(lia)) as P.
  destruct (next_normal (Z.pos q) e Hq ltac:(lia)) as (w & mw & ew & Nw & Ew). destruct (Hw _ _ _ Nw) as [_ H1].
  destruct (prev_normal (Z.pos q) e Hq ltac:(lia)) as (w' & mw' & ew' & Nw' & Ew'). destruct (Hw _ _ _ Nw') as [H2 _].
  assert (V (Z.pos q + 1) e = V (Z.pos q) e + 2 ^ (e + 2000) /\ V (Z.pos q - 1) e = V (Z.pos q) e - 2 ^ (e + 2000)) as [E1 E2]
    by (unfold V; split; ring).
  assert (D < V (Z.pos q + 1) e) as HD1 by (apply Z.nle_gt; intros H; rewrite Ew in H1; apply H1 in H; lia).
  assert (V (Z.pos q - 1) e < D) as HD2 by (apply Z.nle_gt; intros H; assert (D <= V mw' ew') as H' by lia; apply H2 in H'; lia).
  split; [unfold V; pose proof (pow_pos (e - 1 + 2000) ltac:(lia)); nia|].
  apply Z.le_trans with (2 ^ (e + 2000) * 2 ^ 52); [apply Z.mul_le_mono_nonneg_r; lia|]. unfold V. nia.
Qed.

(** The margin that is left of [y] in [x]: half of the difference, with both roundings. *)
Lemma margin x mx ex y my ey :
  normal x mx ex -> normal y my ey -> -400 <= ex <= 400 -> -400 <= ey <= 400 ->
  exists o, value (fmul (fsub x y) half) = Some o /\ (V my ey <= V mx ex -> 0 <= o) /\
    Z.abs (2 * o - (V mx ex - V my ey)) * 2 ^ 52 <= Z.abs (2 * o).
Proof.
  intros Hx Hy Hex Hey. destruct (sub_eq _ _ _ _ _ _ Hx Hy) as (d & -> & Hd2).
  set (e := Z.min ex ey) in *. pose proof (pow_pos (e + 2000) ltac:(lia)) as P.
  assert (d <> 0 -> Z.log2 (Z.abs d) < 53 + Z.max ex ey - e) as Hlog.
  { intros Hd. apply Z.log2_lt_pow2; [lia|]. apply (Z.mul_lt_mono_pos_r (2 ^ (e + 2000))); [done|].
    rewrite <- Z.pow_add_r by lia. rewrite <- (Z.abs_eq (2 ^ (e + 2000))), <- Z.abs_mul, Hd2 by lia.
    destruct Hx as (p & _ & -> & Hp & _), Hy as (q & _ & -> & Hq & _).
    assert (forall m k, 0 < m < 2 ^ 53 -> -400 <= k <= Z.max ex ey -> 0 < V m k < 2 ^ (53 + Z.max ex ey - e + (e + 2000))) as HV.
    { intros m k Hm Hk. unfold V. pose proof (pow_pos (k + 2000) ltac:(lia)). split; [lia|].
      apply Z.lt_le_trans with (2 ^ 53 * 2 ^ (k + 2000)); [nia|]. rewrite <- Z.pow_add_r by lia. apply Z.pow_le_mono_r; lia. }
    pose proof (HV (Z.pos p) ex ltac:(lia) ltac:(lia)). pose proof (HV (Z.pos q) ey ltac:(lia) ltac:(lia)). lia. }
  assert (V my ey <= V mx ex -> 0 <= d) as Hsign by (intros H; nia).
  rewrite <- Hd2. assert (e <= Z.max ex ey <= 400 /\ -400 <= e) as He by (unfold e; lia).
  destruct d as [|p|p].
  - exists 0. split; [done|]. split; [done|]. cbn. lia.
  - destruct (half_round p e) as (o & Ho & Ho0 & Hr); [specialize (Hlog ltac:(lia)); change (Z.abs _) with (Z.pos p) in Hlog; lia| |].
    { pose proof (Z.log2_nonneg (Z.pos p)). specialize (Hlog ltac:(lia)). change (Z.abs _) with (Z.pos p) in Hlog. lia. }
    exists o. split; [done|]. split; [done|]. lia.
  - destruct (half_round p e) as (o & Ho & Ho0 & Hr); [specialize (Hlog ltac:(lia)); change (Z.abs _) with (Z.pos p) in Hlog; lia| |].
    { pose proof (Z.log2_nonneg (Z.pos p)). specialize (Hlog ltac:(lia)). change (Z.abs _) with (Z.pos p) in Hlog. lia. }
    exists (- o). rewrite normalize_opp, half_opp, value_opp, Ho. split; [done|]. split; [intros H; specialize (Hsign H); lia|].
    replace (2 * - o - Z.neg p * 2 ^ (e + 2000)) with (- (2 * o - Z.pos p * 2 ^ (e + 2000))) by lia. lia.
Qed.

(** ** The viewport *)

Lemma leb_normal x mx ex y my ey : normal x mx ex -> normal y my ey -> SFleb x y = (V mx ex <=? V my ey).
Proof. intros Hx Hy. unfold SFleb, Z.leb. by rewrite (compare_normal _ _ _ _ _ _ Hx Hy). Qed.

Lemma ltb_normal x mx ex y my ey : normal x mx ex -> normal y my ey -> SFltb x y = (V mx ex <? V my ey).
Proof. intros Hx Hy. unfold SFltb, Z.ltb. by rewrite (compare_normal _ _ _ _ _ _ Hx Hy). Qed.

Lemma eqb_normal x mx ex y my ey : normal x mx ex -> normal y my ey -> SFeqb x y = (V mx ex =? V my ey).
Proof. intros Hx Hy. unfold SFeqb. rewrite (compare_normal _ _ _ _ _ _ Hx Hy). symmetry. apply Z.eqb_compare. Qed.

Lemma normal_not_zero x m e : normal x m e -> SFleb x zero = false.
Proof. by intros (p & -> & _). Qed.

Lemma V_pos x m e : normal x m e -> 0 < V m e.
Proof. intros (p & _ & -> & _ & He). unfold V. pose proof (pow_pos (e + 2000) ltac:(lia)). lia. Qed.

(** Where a part of a given size starts in a whole, all three being finite: it is in the
    middle, but for a relative error of [2 ^ -52]. *)
Definition centred (origin size total : double) : Prop := exists o s t,
  value origin = Some o /\ value size = Some s /\ value total = Some t /\
  Z.abs (2 * o - (t - s)) * 2 ^ 52 <= Z.abs (2 * o).

(** It starts and ends in the whole. *)
Definition inside (origin size total : double) : Prop := exists o s t,
  value origin = Some o /\ value size = Some s /\ value total = Some t /\ 0 <= o /\ 0 < s /\ o + s <= t.

Lemma margin_centred x mx ex y my ey :
  normal x mx ex -> normal y my ey -> -400 <= ex <= 400 -> -400 <= ey <= 400 ->
  centred (fmul (fsub x y) half) y x /\ (V my ey <= V mx ex -> inside (fmul (fsub x y) half) y x).
Proof.
  intros Hx Hy Hex Hey. destruct (margin _ _ _ _ _ _ Hx Hy Hex Hey) as (o & Ho & Hs & Hr).
  pose proof (value_normal _ _ _ Hx) as Vx. pose proof (value_normal _ _ _ Hy) as Vy. split.
  - by exists o, (V my ey), (V mx ex).
  - intros H. specialize (Hs H). exists o, (V my ey), (V mx ex). pose proof (V_pos _ _ _ Hy). split_and!; auto. lia.
Qed.

(** C20: The viewport lies in the drawable, computed in double precision with every
    rounding. For every source size and every drawable size from [2 ^ -148] to
    [2 ^ 252], all four numbers of the viewport are finite; it fills the drawable in one
    direction and is centred in both, but for a relative error of [2 ^ -52] of the margin.
    From left to right it starts at a number that is not negative and ends within the
    drawable; and so it does from top to bottom, unless the two rounded aspect ratios
    are equal. *)
Theorem viewport_inside source_width source_height dw mw ew dh mh eh :
  1 <= source_width < 2 ^ 32 -> 1 <= source_height < 2 ^ 32 ->
  normal dw mw ew -> normal dh mh eh -> -200 <= ew <= 200 -> -200 <= eh <= 200 ->
  let v := aspect_fit_viewport source_width source_height dw dh in
  (width v = dw \/ height v = dh) /\
  centred (originX v) (width v) dw /\ centred (originY v) (height v) dh /\
  inside (originX v) (width v) dw /\
  (SFeqb (fdiv dw dh) (fdiv (of_uint32 source_width) (of_uint32 source_height)) = false ->
   inside (originY v) (height v) dh) /\
  znear v = zero /\ zfar v = one.
Proof.
  intros Hsw Hsh Hdw Hdh Hew Heh. destruct (of_uint32_normal _ Hsw) as (m1 & e1 & N1 & _ & E1).
  destruct (of_uint32_normal _ Hsh) as (m2 & e2 & N2 & _ & E2).
  destruct (div_normal _ _ _ _ _ _ N1 N2 ltac:(lia) ltac:(lia)) as (ms & es & Ns & Es & _).
  destruct (div_normal _ _ _ _ _ _ Hdw Hdh ltac:(lia) ltac:(lia)) as (md & ed & Nd & Ed & Od).
  destruct (Od _ _ _ Ns) as [O1 O2].
  unfold aspect_fit_viewport. rewrite (proj2 (Z.eqb_neq source_width 0)), (proj2 (Z.eqb_neq source_height 0)) by lia.
  rewrite (normal_not_zero _ _ _ Hdw), (normal_not_zero _ _ _ Hdh). cbn [orb].
  rewrite (ltb_normal _ _ _ _ _ _ Ns Nd), (eqb_normal _ _ _ _ _ _ Nd Ns).
  destruct (margin_centred _ _ _ _ _ _ Hdw Hdw ltac:(lia) ltac:(lia)) as [Cw Iw].
  destruct (margin_centred _ _ _ _ _ _ Hdh Hdh ltac:(lia) ltac:(lia)) as [Ch Ih].
  destruct (V ms es <? V md ed) eqn:El; bool_to_prop; cbn [width height originX originY znear zfar].
  - destruct (mul_normal _ _ _ _ _ _ Hdh Ns ltac:(lia) ltac:(lia)) as (m & e & N & He & O). destruct (O _ _ _ Hdw) as [O3 _].
    destruct (margin_centred _ _ _ _ _ _ Hdw N ltac:(lia) ltac:(lia)) as [C I].
    assert (V m e <= V mw ew) as Hle.
    { apply O3. rewrite (Z.mul_comm (V mh eh)). apply Z.lt_le_incl, Z.nle_gt. intros H. apply O1 in H. lia. }
    split; [by right|]. split_and!; auto. intros _. by apply Ih.
  - destruct (div_normal _ _ _ _ _ _ Hdw Ns ltac:(lia) ltac:(lia)) as (m & e & N & He & O). destruct (O _ _ _ Hdh) as [O3 _].
    destruct (margin_centred _ _ _ _ _ _ Hdh N ltac:(lia) ltac:(lia)) as [C I].
    split; [by left|]. split_and!; auto; [by apply Iw|]. intros Hne. bool_to_prop. apply I, O3.
    rewrite (Z.mul_comm (V mh eh)). apply Z.lt_le_incl, Z.nle_gt. intros H. apply O2 in H. lia.
Qed.

(** A phone in a window of 1200 by 800 pixels. *)
Definition d1200 : double := of_uint32 1200.
Definition d800 : double := of_uint32 800.

Lemma viewport_inside_witness :
  let v := aspect_fit_viewport 1080 2340 d1200 d800 in
  height v = d800 /\ inside (originX v) (width v) d1200 /\ inside (originY v) (height v) d800.
Proof.
  destruct (of_uint32_normal 1200 ltac:(lia)) as (m1 & e1 & N1 & _ & E1).
  destruct (of_uint32_normal 800 ltac:(lia)) as (m2 & e2 & N2 & _ & E2).
  destruct (viewport_inside 1080 2340 d1200 m1 e1 d800 m2 e2 ltac:(lia) ltac:(lia) N1 N2 ltac:(lia) ltac:(lia))
    as ([H|H] & _ & _ & Hx & Hy & _).
  - vm_compute in H. discriminate.
  - split; [exact H|]. split; [exact Hx|]. apply Hy. vm_compute. reflexivity.
Defined.

(** Equal aspect ratios after rounding: a drawable of 106 by 188.44444444444443 is a double
    lower than the viewport of a source of 1080 by 1920. *)
Example equal_aspects :
  let dw := of_uint32 106 in
  let dh := S754_finite false 6630299451406563 (-45) in
  SFeqb (fdiv dw dh) (fdiv (of_uint32 1080) (of_uint32 1920)) = true /\
  SFltb dh (height (aspect_fit_viewport 1080 1920 dw dh)) = true.
Proof. vm_compute. done. Qed.

(** The whole drawable when the source is not known. *)
Example no_source : aspect_fit_viewport 0 720 d1200 d800 =
  {| originX := zero; originY := zero; width := d1200; height := d800; znear := zero; zfar := one |}.
Proof. reflexivity. Qed.

End Viewport.
