(* ===== verification/PointMapping.v ===== *)
(** [mapViewPoint] of [shell/ui/macmu_surface_renderer.mm]: from a point of a view to a
    pixel of the display that the view shows, in double precision. *)
From S2P Require Import Prelude Viewport.
From Stdlib Require Import SpecFloat.

Module PointMapping.
Import Viewport.

(** ** The library functions *)

Definition fadd : double -> double -> double := SFadd prec emax.

(** The double below a positive normal one. *)
Definition next_down (x : double) : double :=
  match x with
  | S754_finite false m e =>
      if Z.pos m =? 2 ^ 52 then S754_finite false (Z.to_pos (2 ^ 53 - 1)) (e - 1) else S754_finite false (Z.to_pos (Z.pos m - 1)) e
  | _ => SFpred prec emax x
  end.

(** [std::nextafter]. *)
Definition nextafter (x y : double) : double :=
  if SFltb y x then next_down x else if SFltb x y then SFsucc prec emax x else y.

(** [std::clamp]. *)
Definition fclamp (v lo hi : double) : double := if SFltb v lo then lo else if SFltb hi v then hi else v.

(** [static_cast<int>]: towards zero; [None] for a value that [int] does not have, where
    the behaviour is undefined. *)
Definition to_int (x : double) : option Z :=
  match x with
  | S754_zero _ => Some 0
  | S754_finite s m e =>
      let n := if 0 <=? e then Z.pos m * 2 ^ e else Z.pos m / 2 ^ (- e) in
      let n := if s then - n else n in
      if (- 2 ^ 31 <=? n) && (n <? 2 ^ 31) then Some n else None
  | _ => None
  end.

Definition clamp_int (v lo hi : Z) : Z := if v <? lo then lo else if hi <? v then hi else v.

(** ** [mapViewPoint] *)

(** One coordinate: the edge and the size of the viewport, the point, and the size of the
    source. *)
Definition map_axis (min size point : double) (source : Z) : option Z :=
  let max := fadd min size in
  let clamped := fclamp point min (nextafter max min) in
  let n := fdiv (fmul (fsub clamped min) (of_uint32 source)) size in
  n ← to_int n; Some (clamp_int n 0 (s32 source - 1)).

(** What the view knows: its bounds and drawable size, and the size of the source. *)
Record view := { bounds_width : double; bounds_height : double; drawable_width : double; drawable_height : double;
  metadata_width : Z; metadata_height : Z; viewport : Viewport }.

Definition drawableX (v : view) (x : double) : double := fdiv (fmul x (drawable_width v)) (bounds_width v).
Definition drawableY (v : view) (y : double) : double :=
  fsub (drawable_height v) (fdiv (fmul y (drawable_height v)) (bounds_height v)).

Definition outside (min size point : double) : bool := SFltb point min || SFltb (fadd min size) point.

(** [None]: NO. The inner [None]: a conversion that is not defined. *)
Definition mapViewPoint (v : view) (px py : double) (clamp : bool) : option (option (Z * Z)) :=
  if (metadata_width v =? 0) || (metadata_height v =? 0) then None
  else if SFleb (bounds_width v) zero || SFleb (bounds_height v) zero || SFleb (drawable_width v) zero ||
          SFleb (drawable_height v) zero || SFleb (width (viewport v)) zero || SFleb (height (viewport v)) zero then None
  else
    let x := drawableX v px in
    let y := drawableY v py in
    if negb clamp && (outside (originX (viewport v)) (width (viewport v)) x || outside (originY (viewport v)) (height (viewport v)) y)
    then None
    else Some (x ← map_axis (originX (viewport v)) (width (viewport v)) x (metadata_width v);
               y ← map_axis (originY (viewport v)) (height (viewport v)) y (metadata_height v); Some (x, y)).

(** ** Lemmas *)

Lemma V_ge_place m e e' : 2 ^ 52 <= m -> e' <= e -> -2000 <= e' -> 2 ^ 52 * 2 ^ (e' + 2000) <= V m e.
Proof.
  intros Hm He He2. rewrite (V_align m e e') by lia. apply Z.mul_le_mono_nonneg_r; [pose proof (pow_pos (e' + 2000) ltac:(lia)); lia|].
  pose proof (pow_pos (e - e') ltac:(lia)). nia.
Qed.

(** [next_down] is the greatest of the numbers below. *)
Lemma next_down_normal x m e : normal x m e -> -899 <= e ->
  exists m' e', normal (next_down x) m' e' /\ V m' e' < V m e /\ e - 1 <= e' <= e /\
    forall w mw ew, normal w mw ew -> V mw ew < V m e -> V mw ew <= V m' e'.
Proof.
  intros (p & -> & -> & Hp & He) He2. cbn [next_down]. pose proof (pow_pos (e + 2000) ltac:(lia)) as P.
  pose proof (pow_pos (e - 1 + 2000) ltac:(lia)) as P1.
  assert (2 ^ (e + 2000) = 2 * 2 ^ (e - 1 + 2000)) as E2.
  { replace (e + 2000) with (Z.succ (e - 1 + 2000)) by lia. apply Z.pow_succ_r. lia. }
  destruct (Z.pos p =? 2 ^ 52) eqn:E; bool_to_prop.
  - exists (2 ^ 53 - 1), (e - 1). split; [eexists; split_and!; (reflexivity || lia)|]. split; [unfold V; lia|]. split; [lia|].
    intros w mw ew (q & _ & -> & Hq & Hew) Hlt. destruct (decide (ew < e - 1)) as [H1|H1].
    + pose proof (V_lt_place (Z.pos q) ew (e - 1) ltac:(lia) H1 ltac:(lia)). unfold V in *. lia.
    + destruct (decide (ew = e - 1)) as [->|H2]; [unfold V; nia|].
      pose proof (V_ge_place (Z.pos q) ew e ltac:(lia) ltac:(lia) ltac:(lia)). unfold V in *. lia.
  - exists (Z.pos p - 1), e. split; [eexists; split_and!; (reflexivity || lia)|]. split; [unfold V; lia|]. split; [lia|].
    intros w mw ew (q & _ & -> & Hq & Hew) Hlt. destruct (decide (ew < e)) as [H1|H1].
    + pose proof (V_lt_place (Z.pos q) ew e ltac:(lia) H1 ltac:(lia)). unfold V in *. nia.
    + destruct (decide (ew = e)) as [->|H2].
      { unfold V in *. apply Z.mul_lt_mono_pos_r in Hlt; [|done]. apply Z.mul_le_mono_nonneg_r; lia. }
      pose proof (V_ge_place (Z.pos q) ew (e + 1) ltac:(lia) ltac:(lia) ltac:(lia)) as Hge.
      replace (e + 1 + 2000) with (Z.succ (e + 2000)) in Hge by lia. rewrite Z.pow_succ_r in Hge by lia. unfold V in *. nia.
Qed.

(** Zero or a normal number with an exponent in the range; [v] is its value. *)
Definition ordinary (lo hi : Z) (x : double) (v : Z) : Prop :=
  (x = zero /\ v = 0) \/ exists m e, normal x m e /\ v = V m e /\ lo <= e <= hi.

Lemma ordinary_nonneg lo hi x v : ordinary lo hi x v -> 0 <= v.
Proof. intros [[_ ->]|(m & e & N & -> & _)]; [done|]. pose proof (V_pos _ _ _ N). lia. Qed.

Lemma ordinary_ltb lo hi lo' hi' x v y w : ordinary lo hi x v -> ordinary lo' hi' y w -> SFltb x y = (v <? w).
Proof.
  intros [[-> ->]|(m & e & N & -> & _)] [[-> ->]|(m' & e' & N' & -> & _)].
  - done.
  - pose proof (V_pos _ _ _ N'). destruct N' as (p & -> & _). symmetry. by apply Z.ltb_lt.
  - pose proof (V_pos _ _ _ N). destruct N as (p & -> & _). symmetry. apply Z.ltb_ge. lia.
  - by apply ltb_normal.
Qed.

Lemma ordinary_weaken lo hi lo' hi' x v : ordinary lo hi x v -> lo' <= lo -> hi <= hi' -> ordinary lo' hi' x v.
Proof. intros [H|(m & e & N & Hv & He)] H1 H2; [by left|right]. exists m, e. split_and!; (done || lia). Qed.

(** How large an integer is that stands for a value below a place. *)
Lemma log2_bound d e0 e : 0 < d -> -2000 <= e0 -> d * 2 ^ (e0 + 2000) < 2 ^ 53 * 2 ^ (e + 2000) -> e0 <= e -> Z.log2 d < 53 + (e - e0).
Proof.
  intros Hd H0 H He. apply Z.log2_lt_pow2; [done|]. pose proof (pow_pos (e0 + 2000) ltac:(lia)) as P.
  apply (Z.mul_lt_mono_pos_r (2 ^ (e0 + 2000))); [done|].
  replace (2 ^ (53 + (e - e0)) * 2 ^ (e0 + 2000)) with (2 ^ 53 * 2 ^ (e + 2000)); [done|].
  rewrite <- !Z.pow_add_r by lia. f_equal. lia.
Qed.

Lemma add_eq x mx ex y my ey : normal x mx ex -> normal y my ey ->
  exists d, fadd x y = binary_normalize prec emax d (Z.min ex ey) false /\ d * 2 ^ (Z.min ex ey + 2000) = V mx ex + V my ey.
Proof.
  intros (p & -> & -> & Hp & Hex) (q & -> & -> & Hq & Hey). unfold fadd, SFadd. cbn [cond_Zopp]. rewrite !align_eq by lia.
  eexists. split; [reflexivity|]. rewrite Z.mul_add_distr_r, <- !V_align by lia. done.
Qed.

Lemma V_below m e e' : 0 < m < 2 ^ 53 -> e <= e' -> -2000 <= e -> V m e < 2 ^ 53 * 2 ^ (e' + 2000).
Proof.
  intros Hm He H0. pose proof (V_lt_place m e (e' + 1) ltac:(lia) ltac:(lia) H0) as H.
  replace (e' + 1 + 2000) with (Z.succ (e' + 2000)) in H by lia. rewrite Z.pow_succ_r in H by lia. lia.
Qed.

(** The right edge: not below the left edge, and any number below it is below the exact
    sum. *)
Lemma max_spec min vmin size ms es :
  ordinary (-300) 250 min vmin -> normal size ms es -> -300 <= es <= 250 ->
  exists m e, normal (fadd min size) m e /\ -300 <= e <= 252 /\ vmin <= V m e /\
    forall w mw ew, normal w mw ew -> V mw ew < V m e -> V mw ew <= vmin + V ms es.
Proof.
  intros Hmin Ns Es. destruct Hmin as [[-> ->]|(m & e & N & -> & E)].
  - exists ms, es. assert (fadd zero size = size) as -> by (by destruct Ns as (p & -> & _)).
    pose proof (V_pos _ _ _ Ns). split_and!; try done; [lia..|]. intros; lia.
  - destruct (add_eq _ _ _ _ _ _ N Ns) as (d & -> & Hd). pose proof (V_pos _ _ _ N) as P1. pose proof (V_pos _ _ _ Ns) as P2.
    set (e0 := Z.min e es) in *. pose proof (pow_pos (e0 + 2000) ltac:(lia)) as P. assert (0 < d) as Hd0 by nia.
    assert (52 <= Z.log2 d) as L1.
    { apply Z.log2_le_pow2; [done|]. apply (Z.mul_le_mono_pos_r _ _ (2 ^ (e0 + 2000))); [done|]. rewrite Hd.
      destruct N as (p & _ & -> & Hp & _), Ns as (q & _ & -> & Hq & _). unfold e0. destruct (Z.min_spec e es) as [[_ ->]|[_ ->]].
      - pose proof (V_ge_place (Z.pos p) e e ltac:(lia) ltac:(lia) ltac:(lia)). lia.
      - pose proof (V_ge_place (Z.pos q) es es ltac:(lia) ltac:(lia) ltac:(lia)). lia. }
    assert (Z.log2 d < 53 + (251 - e0)) as L2.
    { apply log2_bound; [done|lia| |lia]. rewrite Hd. destruct N as (p & _ & -> & Hp & _), Ns as (q & _ & -> & Hq & _).
      pose proof (V_below (Z.pos p) e 250 ltac:(lia) ltac:(lia) ltac:(lia)). pose proof (V_below (Z.pos q) es 250 ltac:(lia) ltac:(lia) ltac:(lia)).
      replace (251 + 2000) with (Z.succ (250 + 2000)) by lia. rewrite Z.pow_succ_r by lia. lia. }
    destruct d as [|p|p]; [lia| |lia].
    destruct (normalize_normal p e0 ltac:(lia) ltac:(lia)) as (m' & e' & N' & E' & O). exists m', e'. rewrite Hd in O.
    split; [done|]. split; [lia|]. split; [apply (O _ _ _ N); lia|]. intros w mw ew Nw Hlt. apply Z.nlt_ge. intros H.
    assert (V m' e' <= V mw ew); [|lia]. apply (O _ _ _ Nw). lia.
Qed.

(** The point that is mapped lies between the edges. *)
Lemma clamped_spec min vmin size ms es point :
  ordinary (-300) 250 min vmin -> normal size ms es -> -300 <= es <= 250 ->
  (SFltb point min = true \/ exists vp, ordinary (-300) 252 point vp) ->
  exists vc, ordinary (-301) 252 (fclamp point min (nextafter (fadd min size) min)) vc /\ vmin <= vc <= vmin + V ms es.
Proof.
  intros Hmin Ns Es Hp. pose proof (V_pos _ _ _ Ns) as Ps.
  destruct (max_spec _ _ _ _ _ Hmin Ns Es) as (m & e & N & E & Hge & Hb).
  assert (ordinary (-300) 252 (fadd min size) (V m e)) as Hmax by (right; by exists m, e).
  assert (exists vh, ordinary (-301) 252 (nextafter (fadd min size) min) vh /\ vmin <= vh <= vmin + V ms es) as (vh & Hh & Bh).
  { unfold nextafter. rewrite (ordinary_ltb _ _ _ _ _ _ _ _ Hmin Hmax), (ordinary_ltb _ _ _ _ _ _ _ _ Hmax Hmin).
    destruct (vmin <? V m e) eqn:El; bool_to_prop.
    - destruct (next_down_normal _ _ _ N ltac:(lia)) as (m' & e' & N' & Hlt & E' & Hg). exists (V m' e').
      split; [right; exists m', e'; split_and!; (done || lia)|]. split; [|by apply (Hb _ _ _ N')].
      destruct Hmin as [[_ ->]|(mm & em & Nm & -> & _)]; [pose proof (V_pos _ _ _ N'); lia|]. by apply (Hg _ _ _ Nm).
    - rewrite (proj2 (Z.ltb_ge _ _)) by lia. exists vmin. split; [by eapply ordinary_weaken; [done|lia..]|lia]. }
  unfold fclamp. destruct (SFltb point min) eqn:Elo; [exists vmin; split; [by eapply ordinary_weaken; [done|lia..]|lia]|].
  destruct Hp as [|[vp Hvp]]; [done|]. rewrite (ordinary_ltb _ _ _ _ _ _ _ _ Hvp Hmin) in Elo.
  rewrite (ordinary_ltb _ _ _ _ _ _ _ _ Hh Hvp). destruct (vh <? vp) eqn:Ehi; bool_to_prop; [by exists vh|].
  exists vp. split; [by eapply ordinary_weaken; [done|lia..]|lia].
Qed.

(** The distance from the left edge, rounded, is not more than the size. *)
Lemma diff_spec min vmin size ms es c vc :
  ordinary (-300) 250 min vmin -> normal size ms es -> ordinary (-301) 252 c vc -> vmin <= vc <= vmin + V ms es ->
  exists vd, ordinary (-360) 260 (fsub c min) vd /\ vd <= V ms es.
Proof.
  intros Hmin Ns Hc B. pose proof (V_pos _ _ _ Ns) as Ps. destruct Hmin as [[-> ->]|(mm & em & Nm & -> & Em)].
  - exists vc. split; [|lia]. assert (fsub c zero = c) as ->; [by destruct Hc as [[-> _]|(m & e & (p & -> & _) & _)]|].
    by eapply ordinary_weaken; [done|lia..].
  - pose proof (V_pos _ _ _ Nm) as Pm. destruct Hc as [[_ ->]|(mc & ec & Nc & -> & Ec)]; [lia|].
    destruct (sub_eq _ _ _ _ _ _ Nc Nm) as (d & -> & Hd). set (e0 := Z.min ec em) in *.
    pose proof (pow_pos (e0 + 2000) ltac:(lia)) as P. destruct (decide (d <= 0)) as [Hz|Hz].
    + exists 0. split; [left|lia]. assert (d = 0) as -> by nia. done.
    + assert (Z.log2 d < 53 + (252 - e0)) as L2.
      { apply log2_bound; [lia|lia| |lia]. rewrite Hd. destruct Nc as (p & _ & -> & Hp & _).
        pose proof (V_below (Z.pos p) ec 252 ltac:(lia) ltac:(lia) ltac:(lia)). lia. }
      pose proof (Z.log2_nonneg d) as L0. destruct d as [|p|p]; [lia| |lia].
      destruct (normalize_normal p e0 ltac:(lia) ltac:(lia)) as (m & e & N & E & O). rewrite Hd in O. exists (V m e).
      split; [right; exists m, e; split_and!; (done || lia)|]. apply (O _ _ _ Ns). lia.
Qed.

(** Twice and half a normal number. *)
Lemma double_normal x m e : normal x m e -> e <= 899 -> exists y, normal y m (e + 1) /\ V m (e + 1) = 2 * V m e.
Proof.
  intros (p & -> & -> & Hp & He) H. exists (S754_finite false p (e + 1)). split; [exists p; split_and!; (done || lia)|].
  unfold V. replace (e + 1 + 2000) with (Z.succ (e + 2000)) by lia. rewrite Z.pow_succ_r by lia. lia.
Qed.

Lemma half_normal x m e : normal x m e -> -899 <= e -> exists y, normal y m (e - 1) /\ V m e = 2 * V m (e - 1).
Proof.
  intros (p & -> & -> & Hp & He) H. exists (S754_finite false p (e - 1)). split; [exists p; split_and!; (done || lia)|].
  unfold V. replace (e + 2000) with (Z.succ (e - 1 + 2000)) by lia. rewrite Z.pow_succ_r by lia. lia.
Qed.

(** A rounded product is within a factor of two. *)
Lemma product_bounds x mx ex y my ey : normal x mx ex -> normal y my ey -> -800 <= ex + ey <= 800 ->
  exists m e, normal (fmul x y) m e /\ ex + ey + 52 <= e <= ex + ey + 54 /\
    V m e * 2 ^ 2000 < 2 * (V mx ex * V my ey) /\ V mx ex * V my ey < 2 * V m e * 2 ^ 2000.
Proof.
  intros Nx Ny H. destruct (mul_normal _ _ _ _ _ _ Nx Ny ltac:(lia) ltac:(lia)) as (m & e & N & E & O). exists m, e.
  split; [done|]. split; [done|]. pose proof (V_pos _ _ _ N) as P. pose proof (pow_pos 2000 ltac:(lia)) as P0.
  destruct (double_normal _ _ _ N ltac:(lia)) as (y2 & N2 & E2). destruct (half_normal _ _ _ N ltac:(lia)) as (yh & Nh & Eh). split.
  - apply Z.nle_gt. intros Hle. destruct (O _ _ _ Nh) as [O1 _]. assert (V m e <= V m (e - 1)); [apply O1|lia].
    rewrite Eh in Hle. nia.
  - apply Z.nle_gt. intros Hle. destruct (O _ _ _ N2) as [_ O2]. assert (V m (e + 1) <= V m e); [apply O2|lia].
    rewrite E2. nia.
Qed.

Lemma to_int_normal x m e bound : normal x m e -> V m e < bound * 2 ^ 2000 -> bound <= 2 ^ 31 -> exists n, to_int x = Some n /\ 0 <= n.
Proof.
  intros (p & -> & -> & Hp & He) Hv Hb. cbn [to_int]. set (n := if 0 <=? e then _ else _).
  assert (0 <= n < 2 ^ 31) as Hn.
  { unfold n, V in *. pose proof (pow_pos 2000 ltac:(lia)) as P. destruct (0 <=? e) eqn:E; bool_to_prop.
    - pose proof (pow_pos e ltac:(lia)). rewrite Z.pow_add_r, Z.mul_assoc in Hv by lia. nia.
    - pose proof (pow_pos (- e) ltac:(lia)) as Pe. split; [apply Z.div_pos; lia|]. apply Z.div_lt_upper_bound; [done|].
      assert (2 ^ 2000 = 2 ^ (e + 2000) * 2 ^ (- e)) as E2 by (rewrite <- Z.pow_add_r by lia; f_equal; lia).
      pose proof (pow_pos (e + 2000) ltac:(lia)). nia. }
  exists n. rewrite (proj2 (Z.leb_le _ _)), (proj2 (Z.ltb_lt _ _)) by lia. split; [done|lia].
Qed.

Lemma clamp_int_range n source : 0 <= n -> 1 <= source < 2 ^ 31 -> 0 <= clamp_int n 0 (s32 source - 1) < source.
Proof.
  intros Hn Hs. unfold clamp_int. rewrite s32_id by (unfold is_s32; lia). repeat case_match; bool_to_prop; lia.
Qed.

(** One coordinate of a point is a coordinate of the source. *)
Lemma axis_in_source min vmin size ms es point source :
  ordinary (-300) 250 min vmin -> normal size ms es -> -300 <= es <= 250 ->
  (SFltb point min = true \/ exists vp, ordinary (-300) 252 point vp) -> 1 <= source < 2 ^ 29 ->
  exists n, map_axis min size point source = Some n /\ 0 <= n < source.
Proof.
  intros Hmin Ns Es Hp Hs. destruct (clamped_spec _ _ _ _ _ _ Hmin Ns Es Hp) as (vc & Hc & Bc).
  destruct (diff_spec _ _ _ _ _ _ _ Hmin Ns Hc Bc) as (vd & Hd & Bd). unfold map_axis.
  destruct (of_uint32_normal source ltac:(lia)) as (mw & ew & Nw & Vw & Ew).
  assert (exists n, to_int (fdiv (fmul (fsub (fclamp point min (nextafter (fadd min size) min)) min) (of_uint32 source)) size) = Some n /\
    0 <= n) as (n & -> & Hn).
  { destruct Hd as [[-> _]|(md & ed & Nd & -> & Ed)].
    { destruct Nw as (pw & -> & _), Ns as (ps & -> & _). by exists 0. }
    destruct (product_bounds _ _ _ _ _ _ Nd Nw ltac:(lia)) as (mp & ep & Np & Ep & Hlt & _).
    destruct (div_normal _ _ _ _ _ _ Np Ns ltac:(lia) ltac:(lia)) as (mq & eq & Nq & _ & O).
    destruct (double_normal _ _ _ Nw ltac:(lia)) as (w2 & N2 & E2). destruct (O _ _ _ N2) as [O1 _].
    pose proof (V_pos _ _ _ Nw) as Pw. pose proof (pow_pos 2000 ltac:(lia)) as P0.
    apply (to_int_normal _ mq eq (2 * source + 1) Nq); [|lia].
    assert (V mq eq <= 2 * V mw ew); [rewrite <- E2; apply O1; rewrite E2; nia|]. rewrite Vw in *. lia. }
  exists (clamp_int n 0 (s32 source - 1)). split; [done|]. apply clamp_int_range; lia.
Qed.

(** A point of the drawable that is not a NaN: left of an edge, or zero or a normal number. *)
Definition usable (min point : double) : Prop := SFltb point min = true \/ exists vp, ordinary (-300) 252 point vp.

(** ** With the fitted viewport *)

(** Half of the room that is left. *)
Lemma margin_ordinary x mx ex y my ey : normal x mx ex -> normal y my ey -> V my ey <= V mx ex ->
  -150 <= ex <= 200 -> -150 <= ey <= 200 -> exists v, ordinary (-300) 250 (fmul (fsub x y) half) v.
Proof.
  intros Nx Ny HV Hex Hey. destruct (sub_eq _ _ _ _ _ _ Nx Ny) as (d & -> & Hd). set (e0 := Z.min ex ey) in *.
  pose proof (pow_pos (e0 + 2000) ltac:(lia)) as P. destruct (decide (d <= 0)) as [Hz|Hz].
  { assert (d = 0) as -> by nia. exists 0. by left. }
  assert (Z.log2 d < 53 + (ex - e0)) as L2.
  { apply log2_bound; [lia|lia| |lia]. rewrite Hd. pose proof (V_pos _ _ _ Ny). destruct Nx as (p & _ & -> & Hp & _).
    pose proof (V_below (Z.pos p) ex ex ltac:(lia) ltac:(lia) ltac:(lia)). lia. }
  pose proof (Z.log2_nonneg d) as L0. destruct d as [|p|p]; [lia| |lia].
  destruct (normalize_normal p e0 ltac:(lia) ltac:(lia)) as (m & e & N & E & _).
  assert (normal half (2 ^ 52) (-53)) as Nh by (eexists; split_and!; (reflexivity || lia)).
  destruct (mul_normal _ _ _ _ _ _ N Nh ltac:(lia) ltac:(lia)) as (m' & e' & N' & E' & _). exists (V m' e'). right.
  exists m', e'. split_and!; (done || lia).
Qed.

(** A viewport that the mapping can use. *)
Record usable_viewport (v : Viewport) : Prop := {
  uv_x : exists vx, ordinary (-300) 250 (originX v) vx;
  uv_y : exists vy, ordinary (-300) 250 (originY v) vy;
  uv_w : exists m e, normal (width v) m e /\ -300 <= e <= 250;
  uv_h : exists m e, normal (height v) m e /\ -300 <= e <= 250 }.

Lemma fitted_usable sw sh dw mw ew dh mh eh :
  1 <= sw < 2 ^ 32 -> 1 <= sh < 2 ^ 32 -> normal dw mw ew -> normal dh mh eh -> -60 <= ew <= 110 -> -60 <= eh <= 110 ->
  SFleb (height (aspect_fit_viewport sw sh dw dh)) dh = true -> SFleb (width (aspect_fit_viewport sw sh dw dh)) dw = true ->
  usable_viewport (aspect_fit_viewport sw sh dw dh).
Proof.
  intros Hsw Hsh Nw Nh Ew Eh. destruct (of_uint32_normal _ Hsw) as (m1 & e1 & N1 & _ & E1).
  destruct (of_uint32_normal _ Hsh) as (m2 & e2 & N2 & _ & E2).
  destruct (div_normal _ _ _ _ _ _ N1 N2 ltac:(lia) ltac:(lia)) as (ms & es & Ns & Es & _).
  unfold aspect_fit_viewport. rewrite (proj2 (Z.eqb_neq sw 0)), (proj2 (Z.eqb_neq sh 0)) by lia.
  rewrite (normal_not_zero _ _ _ Nw), (normal_not_zero _ _ _ Nh). cbn [orb]. destruct (SFltb _ _); cbn [width height].
  - destruct (mul_normal _ _ _ _ _ _ Nh Ns ltac:(lia) ltac:(lia)) as (m & e & N & E & _).
    rewrite (leb_normal _ _ _ _ _ _ N Nw), (leb_normal _ _ _ _ _ _ Nh Nh). intros Hh Hw. bool_to_prop. split; cbn.
    + apply (margin_ordinary _ _ _ _ _ _ Nw N Hw); lia.
    + apply (margin_ordinary _ _ _ _ _ _ Nh Nh Hh); lia.
    + exists m, e. split; [done|lia].
    + exists mh, eh. split; [done|lia].
  - destruct (div_normal _ _ _ _ _ _ Nw Ns ltac:(lia) ltac:(lia)) as (m & e & N & E & _).
    rewrite (leb_normal _ _ _ _ _ _ N Nh), (leb_normal _ _ _ _ _ _ Nw Nw). intros Hh Hw. bool_to_prop. split; cbn.
    + apply (margin_ordinary _ _ _ _ _ _ Nw Nw Hw); lia.
    + apply (margin_ordinary _ _ _ _ _ _ Nh N Hh); lia.
    + exists mw, ew. split; [done|lia].
    + exists m, e. split; [done|lia].
Qed.

(** C19: Every point that is accepted is a pixel of the source. With the viewport that
    [aspect_fit_viewport] gives for the source and the drawable, inside the drawable, and
    a source of less than [2 ^ 29] pixels a side, a drawable size from [2 ^ -8] to
    [2 ^ 162], a point of the view whose drawable coordinates are not a NaN and are,
    unless they lie before the edge of the viewport, zero or a normal number of an
    exponent from -300 to 252 ([usable]), maps to a pixel of the source and no conversion to [int] is undefined, however the sums, differences,
    products and quotients on the way are rounded: always when the caller asks for
    clamping, and otherwise exactly when the point is not outside the viewport. *)
Theorem point_in_source v px py clamp mw ew mh eh :
  1 <= metadata_width v < 2 ^ 29 -> 1 <= metadata_height v < 2 ^ 29 ->
  SFleb (bounds_width v) zero = false -> SFleb (bounds_height v) zero = false ->
  normal (drawable_width v) mw ew -> -60 <= ew <= 110 -> normal (drawable_height v) mh eh -> -60 <= eh <= 110 ->
  viewport v = aspect_fit_viewport (metadata_width v) (metadata_height v) (drawable_width v) (drawable_height v) ->
  SFleb (width (viewport v)) (drawable_width v) = true -> SFleb (height (viewport v)) (drawable_height v) = true ->
  usable (originX (viewport v)) (drawableX v px) -> usable (originY (viewport v)) (drawableY v py) ->
  if negb clamp && (outside (originX (viewport v)) (width (viewport v)) (drawableX v px) ||
                    outside (originY (viewport v)) (height (viewport v)) (drawableY v py))
  then mapViewPoint v px py clamp = None
  else exists x y, mapViewPoint v px py clamp = Some (Some (x, y)) /\ 0 <= x < metadata_width v /\ 0 <= y < metadata_height v.
Proof.
  intros Hw Hh B1 B2 Nw Ew Nh Eh Hv Lw Lh Ux Uy.
  assert (usable_viewport (viewport v)) as [[vx Ox] [vy Oy] (m1 & e1 & N1 & E1) (m2 & e2 & N2 & E2)].
  { rewrite Hv in Lw, Lh |- *. apply (fitted_usable _ _ _ mw ew _ mh eh); (done || lia). }
  unfold mapViewPoint. rewrite (proj2 (Z.eqb_neq (metadata_width v) 0)), (proj2 (Z.eqb_neq (metadata_height v) 0)) by lia.
  rewrite B1, B2, (normal_not_zero _ _ _ Nw), (normal_not_zero _ _ _ Nh), (normal_not_zero _ _ _ N1), (normal_not_zero _ _ _ N2).
  cbn [orb]. destruct (negb clamp && _); [done|].
  destruct (axis_in_source _ _ _ _ _ _ (metadata_width v) Ox N1 E1 Ux Hw) as (x & -> & Rx).
  destruct (axis_in_source _ _ _ _ _ _ (metadata_height v) Oy N2 E2 Uy Hh) as (y & -> & Ry).
  by exists x, y.
Qed.

(** ** Example *)

(** A phone in a view of 600 by 400 points with two pixels a point. *)
Definition demo_view : view := {|
  bounds_width := of_uint32 600; bounds_height := of_uint32 400; drawable_width := d1200; drawable_height := d800;
  metadata_width := 1080; metadata_height := 2340; viewport := aspect_fit_viewport 1080 2340 d1200 d800 |}.

Example demo_center : mapViewPoint demo_view (of_uint32 300) (of_uint32 200) false = Some (Some (540, 1170)).
Proof. vm_compute. reflexivity. Qed.

Example demo_outside : mapViewPoint demo_view (of_uint32 10) (of_uint32 200) false = None /\
  mapViewPoint demo_view (of_uint32 10) (of_uint32 200) true = Some (Some (0, 1170)).
Proof. vm_compute. done. Qed.

Lemma point_in_source_witness :
  exists x y, mapViewPoint demo_view (of_uint32 300) (of_uint32 200) false = Some (Some (x, y)) /\ 0 <= x < 1080 /\ 0 <= y < 2340.
Proof.
  destruct (of_uint32_normal 1200 ltac:(lia)) as (m1 & e1 & N1 & _ & E1).
  destruct (of_uint32_normal 800 ltac:(lia)) as (m2 & e2 & N2 & _ & E2).
  apply (point_in_source demo_view (of_uint32 300) (of_uint32 200) false m1 e1 m2 e2).
  - cbn. lia.
  - cbn. lia.
  - vm_compute. reflexivity.
  - vm_compute. reflexivity.
  - exact N1.
  - lia.
  - exact N2.
  - lia.
  - reflexivity.
  - vm_compute. reflexivity.
  - vm_compute. reflexivity.
  - right. exists (600 * 2 ^ 2000). destruct (of_uint32_normal 600 ltac:(lia)) as (m & e & N & <- & E). right. exists m, e.
    split; [|split; [done|lia]]. replace (drawableX demo_view (of_uint32 300)) with (of_uint32 600) by (vm_compute; reflexivity). exact N.
  - right. exists (400 * 2 ^ 2000). destruct (of_uint32_normal 400 ltac:(lia)) as (m & e & N & <- & E). right. exists m, e.
    split; [|split; [done|lia]]. replace (drawableY demo_view (of_uint32 200)) with (of_uint32 400) by (vm_compute; reflexivity). exact N.
Defined.

End PointMapping.
